(* ===== verification/_CoqProject ===== *)
-Q . S2P
Prelude.v
State.v
Spinlock.v
Mem.v
Kalloc.v
Consout.v
Sched.v
Fair.v
Sleep.v
Vm.v
Paging.v
Uvm.v
Sleeplock.v
Pipe.v
Bio.v
Bytes.v
Bcache.v
Log.v
Crash.v
Txn.v
Inode.v
Alloc.v
Bmap.v
Console.v
Kbd.v
Fs.v
Rw.v
Icache.v
Dir.v
Path.v
Mkfs.v
Mkimage.v
File.v
Proc.v
Syscall.v
Exec.v
Sysfile.v
Trap.v
Calm.v
Ptable.v
Dev.v
Desc.v
Mp.v
Boot.v
Ulib.v
Grep.v
Sh.v
Runcmd.v
Umalloc.v
Uprogs.v
