(* ===== verification/Prelude.v ===== *)
(** * A verification of the xv6 kernel with a multilevel priority scheduler

    The program is xv6 for 32-bit x86 (src/xv6-public), a small Unix kernel with
    its user programs, in which a course project has replaced the round-robin
    scheduler by one with three priority queues, promotion of waiting
    processes, a time slice of [INTERV] ticks, and the system calls
    [change_prio], [set_prio], [wait2], [wait3] and [yield2].

    ** How code is modelled

    A C function of the kernel is a program of the monad [M K] of this file, on
    the kernel's state [kernel] of State.v (the record of everything that the
    kernel's globals, the locks, the CPUs, memory and the disk hold).  A program
    returns a value, or stops in one of the ways kernel code does: [panic], off
    the CPU or spinning for good, a bad pointer or index, or a loop bound.
    Code is followed from one thread's view.  Where it gives the CPU away
    ([swtch] in [sched], and so [sleep], [yield], a wait for a lock), the
    environment makes a move: any change of the state that the rest of the
    system may do.  Theorems of safety quantify over every list of moves;
    theorems that follow one process exactly say that nothing else runs.
    Integers are [Z]; an operation that can leave the range of a C type is
    followed by the wrap of its width ([wrap32], [sint32]).  Two counters of
    type int are left as C has them, undefined where they overflow: taking a
    pid when [nextpid] is at its maximum is a fault, and a time slice, which the
    scheduler sets to [INTERV] and the timer counts down to 0, is not wrapped.

    Loops that the source bounds (a table, a string, a list of pages) are
    structural recursion on what bounds them.  A loop that waits takes a move of
    the environment each turn, so that as many turns as there are moves are
    enough ([mwait], [mrepeat]; the lemmas [fuelsafe_*] prove it).  The
    remaining fuel is computed from the arguments and shown to be enough where
    it is used: the table's length times one more than the moves for [scan]
    ([scan_fuel]: with that, the scan stops only because it is done or
    because the code itself blocks or panics), [NBUF + 1] for the walks of the buffer ring
    ([bfind_next]), the number of blocks touched plus three for [readi] and
    [writei] ([nblocks_spans]), the number of entries plus one for
    [dirlookup] ([dirlookup_loop_ok]), the length of the path for [namex]
    ([namex_loop_ok]), the number of pages for [copyuvm] and [allocuvm], the
    length of the line for the shell's parser
    ([parsecmd_total]), the number of free blocks for [malloc], the number of
    bytes for [iappend] of mkfs ([ends_iappend_loop]), the sectors of a segment
    for [readseg] ([readseg_ok]).

    ** The files

    - Prelude.v: machine integers, the monad and its rules ([wpo], [steady],
      [hoare], [fuelsafe], [quiet]), record update, list lemmas, tactics.
    - State.v: the structures and constants of the kernel's headers (proc.h,
      spinlock.h, sleeplock.h, buf.h, file.h, fs.h, param.h, memlayout.h).
    - Spinlock.v: spinlock.c and the CPU lookups of proc.c; [Xchg], a step
      relation of CPUs that race in [acquire] and [release].
    - Mem.v: string.c on byte memory.  Kalloc.v: kalloc.c, with the free list
      in the free pages.  Consout.v: the output half of console.c.
    - Sched.v: the scheduler, [sched], [yield], [sleep], [wakeup], [kill],
      [change_prio] of proc.c.  Fair.v: whom the scheduler runs.  Sleep.v: the
      sleep and wakeup protocol, [Handshake] as a step relation.
    - Vm.v: vm.c, page tables in memory.  Paging.v: address spaces, with the
      pages that each one owns, under [walkpgdir], [mappages], [deallocuvm] and
      [freevm]; Uvm.v: [setupkvm], [copyuvm], [allocuvm] and [copyout] on top.
    - Sleeplock.v: sleeplock.c.  Pipe.v: pipe.c.
    - Bio.v: bio.c, ide.c and memide.c behind the class [Disk].  Bytes.v:
      little-endian numbers in blocks.  Bcache.v: the buffer cache shown to be
      one copy of each block.  Log.v: log.c.  Crash.v, Txn.v: the log under
      crashes.
    - Inode.v, Fs.v: fs.c.  Alloc.v: the block allocator, Bmap.v: the blocks of
      a file, Rw.v: [readi] and [writei], Icache.v: the inode cache, Dir.v:
      directories, Path.v: path names, each on top of the one before and of
      Txn.v.  Mkfs.v: mkfs.c, which makes the disk that the kernel starts with;
      Mkimage.v: what is on that disk.
    - Console.v: the input half of console.c and [procdump].  Kbd.v: kbd.c and
      kbd.h.  Dev.v: lapic.c, ioapic.c, picirq.c, uart.c and the ports of ide.c,
      as sequences of register accesses.  Mp.v: mp.c and mp.h.
    - Desc.v: the segment and gate descriptors of mmu.h, [seginit], [tvinit] and
      [idtinit].  Boot.v: bootmain.c and the boot page table of main.c.
    - File.v: file.c.  Proc.v: processes from [allocproc] to [wait3].
      Syscall.v: syscall.c and sysproc.c.  Exec.v: exec.c.  Sysfile.v:
      sysfile.c.  Trap.v: trap.c and the table of system calls.
    - Calm.v, Ptable.v: the invariant of the process table through every system
      call, interrupt and turn of the scheduler.
    - Ulib.v: ulib.c and printf.c.  Grep.v: grep.c.  Sh.v: the parser of sh.c;
      Runcmd.v: its execution.  Umalloc.v: umalloc.c.  Uprogs.v: the other user
      programs, as programs of system calls and replies.

    The components meet at interfaces: the classes [Disk] (what the buffer
    cache asks of a driver; memide.c and ide.c are instances), [Devsw] (the
    device switch, which the console fills), [Entries] and [Devices] (what
    exec, fork and trap take from assembly and hardware).

    ** What is shown

    - The scheduler: which process it picks ([highest_priority_p_spec]); when
      one is promoted, by exactly which of its dispatches ([promotion_exact]); that waiting does not promote and a
      process can starve ([scheduler_starves]); who gets the CPU in a turn
      ([fair_round]) and who is passed over though of the highest priority
      ([scheduler_overlooks]); the time slice ([quantum]).
    - The process table: live slots have distinct positive pids and priorities
      1 to 3, after every trap and every turn of the scheduler, whatever else
      keeps to that at the points where the CPU is given away ([trap_keeps_ptable], [scheduler_keeps_ptable]).
    - Synchronization: mutual exclusion of spin locks, no lost wakeup, what
      [sleep] holds when, critical sections.
    - The file system: transactions are atomic under crashes at any disk write
      ([transaction_atomic], [recover_correct]); the allocator
      ([balloc_correct]); files hold what is written to them
      ([writei_readi]); a directory is a finite map from names to inodes, which
      [dirlink] inserts into ([dirlink_correct]) and path lookup walks, without
      leaking a reference ([namex_correct]), and linking [.] hangs
      ([dirlink_self]); on the disk that mkfs makes the blocks marked are those
      that the inodes hold, each once ([mkfs_free_map]), and the files and the
      root directory are those it was given ([mkfs_files]).
    - Memory: [kalloc] is a stack of pages; an address space is copied
      ([copyuvm_correct]), grown ([allocuvm_correct]), written to
      ([copyout_correct]) and freed ([freevm_correct]) without losing or sharing
      a page, also when memory runs out; the string routines, the checks of
      system call arguments, pipes as byte streams, [malloc] keeps blocks
      apart, for requests below [2 ^ 31 - 16] bytes ([umalloc_safe]).
    - Devices: the clock, interrupt routing, the keyboard's state, the display,
      the tables of mp.c, on which a record of unknown type hangs the kernel
      ([mpinit_spins]).
    - Start and protection: the boot loader puts every segment of the kernel in
      place ([bootmain_loads]); user code enters the kernel through the gate of
      system calls only ([tvinit_protects]).
    - User programs: the shell's parser and pipelines, grep's matcher against
      regular languages, grep and the averages of sanity as they are.

    The proofs that follow one process exactly (Bcache.v, Crash.v, Txn.v,
    Alloc.v, Bmap.v, Rw.v, Icache.v, Dir.v, Path.v, Fair.v) use the disk in
    memory of memide.c, and the log's bounds as the code checks them; [writei_readi] asks for six blocks of
    log space for each block written, which is more than the code needs.

    ** Not modelled

    - Assembly (bootasm.S, entry.S, entryother.S, swtch.S, trapasm.S,
      initcode.S, usys.S): [swtch] is a move of the environment, a system call of
      a user program is an event with a reply.  [main] of main.c calls the
      initialisations, which are modelled each with its component, and starts
      the other processors through entryother.S.
    - usertests.c, a list of calls that test the kernel and print whether they
      passed; the host scripts; the declarations in defs.h and user.h.
    - Caches, store buffers and torn disk writes: memory is sequentially
      consistent, a disk block is written whole.
    - The time that [microdelay] and the empty loops of the CPU-bound programs
      take. *)

From stdpp Require Export base gmap list strings.
From Stdlib Require Export ZArith Lia.

#[export] Set Default Goal Selector "!".
#[global] Open Scope Z_scope.

(** ** Machine integers

    The kernel is compiled for 32-bit x86.  An [uint] is a [Z] in
    [0, 2^32); an [int] is a [Z] in [-2^31, 2^31).  Every arithmetic
    operation that can leave the range is followed by the wrap the
    hardware performs. *)

Definition wrap32 (z : Z) : Z := z mod 2 ^ 32.

(** The value of a 32-bit pattern read as a signed [int]. *)
Definition sint32 (z : Z) : Z :=
  let u := z mod 2 ^ 32 in if u <? 2 ^ 31 then u else u - 2 ^ 32.

Definition is_u32 (z : Z) : Prop := 0 ≤ z < 2 ^ 32.
Definition is_i32 (z : Z) : Prop := - 2 ^ 31 ≤ z < 2 ^ 31.

(** C truth value of an integer or pointer. *)
Definition truthy (z : Z) : bool := negb (z =? 0).

Lemma wrap32_range z : is_u32 (wrap32 z).
Proof. apply Z.mod_pos_bound. lia. Qed.

Lemma wrap32_small z : is_u32 z → wrap32 z = z.
Proof. apply Z.mod_small. Qed.

Lemma wrap32_wrap32 z : wrap32 (wrap32 z) = wrap32 z.
Proof. apply Z.mod_mod. lia. Qed.

Lemma wrap32_add_l a b : wrap32 (wrap32 a + b) = wrap32 (a + b).
Proof. unfold wrap32. apply Zplus_mod_idemp_l. Qed.

Lemma wrap32_add_r a b : wrap32 (a + wrap32 b) = wrap32 (a + b).
Proof. unfold wrap32. apply Zplus_mod_idemp_r. Qed.

Lemma wrap32_sub_l a b : wrap32 (wrap32 a - b) = wrap32 (a - b).
Proof. unfold wrap32. apply Zminus_mod_idemp_l. Qed.

Lemma wrap32_sub_r a b : wrap32 (a - wrap32 b) = wrap32 (a - b).
Proof. unfold wrap32. apply Zminus_mod_idemp_r. Qed.

Lemma sint32_range z : is_i32 (sint32 z).
Proof.
  unfold sint32, is_i32. pose proof (Z.mod_pos_bound z (2 ^ 32) ltac:(lia)).
  destruct (Z.ltb_spec (z mod 2 ^ 32) (2 ^ 31)); lia.
Qed.

Lemma sint32_small z : is_i32 z → sint32 z = z.
Proof.
  unfold sint32, is_i32. intros H.
  destruct (decide (0 ≤ z)) as [Hz|Hz].
  - rewrite Z.mod_small by lia. destruct (Z.ltb_spec z (2 ^ 31)); lia.
  - replace (z mod 2 ^ 32) with (z + 2 ^ 32).
    + destruct (Z.ltb_spec (z + 2 ^ 32) (2 ^ 31)); lia.
    + symmetry. rewrite <- (Z.mod_add z 1 (2 ^ 32)) by lia.
      rewrite Z.mod_small; lia.
Qed.

Lemma sint32_wrap32 z : sint32 (wrap32 z) = sint32 z.
Proof. unfold sint32, wrap32. by rewrite Z.mod_mod by lia. Qed.

Create HintDb xv6.
Create Rewrite HintDb wrap32.
#[export] Hint Resolve wrap32_range sint32_range : xv6.
#[export] Hint Rewrite wrap32_wrap32 wrap32_add_l wrap32_add_r wrap32_sub_l
  wrap32_sub_r sint32_wrap32 : wrap32.

(** ** Kernel threads

    A C function of the kernel is a program of the monad [M K], where [K]
    is the kernel's state.  Code runs from one thread's point of view: a
    call that switches to another thread ([swtch] in swtch.S) takes the
    next move of the environment, a state change that stands for
    everything the rest of the system does until this thread runs again.
    When the environment has no move left, the thread stays off the CPU:
    the outcome is [Blocked]. *)

Definition env (K : Type) : Type := list (K → K).

Inductive outcome (K A : Type) : Type :=
  | Ret (a : A) (e : env K) (k : K)   (** returned [a] *)
  | Panic (msg : string) (k : K)      (** called [panic(msg)] *)
  | Blocked (k : K)                   (** off the CPU or spinning, for good *)
  | Fault (k : K)                     (** used an invalid pointer or index *)
  | NoFuel (k : K).                   (** ran past the loop bound given *)
Arguments Ret {K A} a e k.
Arguments Panic {K A} msg k.
Arguments Blocked {K A} k.
Arguments Fault {K A} k.
Arguments NoFuel {K A} k.

Definition M (K A : Type) : Type := env K → K → outcome K A.

#[export] Instance M_ret K : MRet (M K) := λ A a e k, Ret a e k.
#[export] Instance M_bind K : MBind (M K) := λ A B f m e k,
  match m e k with
  | Ret a e' k' => f a e' k'
  | Panic msg k' => Panic msg k'
  | Blocked k' => Blocked k'
  | Fault k' => Fault k'
  | NoFuel k' => NoFuel k'
  end.

Section monad.
Context {K : Type}.
Implicit Types (e : env K) (k : K).

Definition mget : M K K := λ e k, Ret k e k.
Definition gets {A} (f : K → A) : M K A := λ e k, Ret (f k) e k.
Definition modify (f : K → K) : M K unit := λ e k, Ret tt e (f k).
Definition mpanic {A} (msg : string) : M K A := λ _ k, Panic msg k.
Definition mfault {A} : M K A := λ _ k, Fault k.
Definition mspin {A} : M K A := λ _ k, Blocked k.

(** Dereference of a pointer that may be null or out of range. *)
Definition deref {A} (o : option A) : M K A :=
  match o with Some a => mret a | None => mfault end.

(** [if(b) m] of C. *)
Definition when (b : bool) (m : M K unit) : M K unit :=
  if b then m else mret tt.

(** Give the CPU away and come back after the environment's next move. *)
Definition switch : M K unit := λ e k,
  match e with
  | [] => Blocked k
  | f :: e' => Ret tt e' (f k)
  end.

(** [while(test()) body;] for at most [fuel] evaluations of the test. *)
Fixpoint mwhile (fuel : nat) (test : M K bool) (body : M K unit) : M K unit :=
  match fuel with
  | O => λ _ k, NoFuel k
  | S fuel => b ← test; if b : bool then body ≫= λ _, mwhile fuel test body else mret tt
  end.

(** A loop that each turn either goes on ([inl]) or returns a value ([inr]). *)
Fixpoint mloop {A} (fuel : nat) (body : M K (unit + A)) : M K A :=
  match fuel with
  | O => λ _ k, NoFuel k
  | S fuel => r ← body;
    match r with inl _ => mloop fuel body | inr a => mret a end
  end.

(** Loops whose body gives the CPU away, at most one turn per move. *)
Definition mwait (test : M K bool) (body : M K unit) : M K unit :=
  λ e k, mwhile (S (length e)) test body e k.
Definition mrepeat {A} (body : M K (unit + A)) : M K A :=
  λ e k, mloop (S (length e)) body e k.

Lemma bind_eq {A B} (m : M K A) (f : A → M K B) e k :
  (m ≫= f) e k =
  match m e k with
  | Ret a e' k' => f a e' k'
  | Panic msg k' => Panic msg k'
  | Blocked k' => Blocked k'
  | Fault k' => Fault k'
  | NoFuel k' => NoFuel k'
  end.
Proof. done. Qed.

Lemma bind_ret_l {A B} (a : A) (f : A → M K B) e k :
  (mret a ≫= f) e k = f a e k.
Proof. done. Qed.

Lemma bind_gets {A B} (g : K → A) (f : A → M K B) e k :
  (gets g ≫= f) e k = f (g k) e k.
Proof. done. Qed.

Lemma bind_mget {B} (f : K → M K B) e k : (mget ≫= f) e k = f k e k.
Proof. done. Qed.

Lemma bind_modify {B} (g : K → K) (f : unit → M K B) e k :
  (modify g ≫= f) e k = f tt e (g k).
Proof. done. Qed.

Lemma bind_deref {A B} (a : A) (f : A → M K B) e k : (deref (Some a) ≫= f) e k = f a e k.
Proof. done. Qed.

Lemma bind_Ret {A B} (m : M K A) (f : A → M K B) e k a e' k' :
  m e k = Ret a e' k' → (m ≫= f) e k = f a e' k'.
Proof. intros H. by rewrite bind_eq, H. Qed.

Lemma bind_assoc {A B C} (m : M K A) (f : A → M K B) (g : B → M K C) e k :
  ((m ≫= f) ≫= g) e k = (m ≫= λ a, f a ≫= g) e k.
Proof. rewrite !bind_eq. by destruct (m e k). Qed.

Lemma bind_Ret_inv {A B} (m : M K A) (f : A → M K B) e k b e' k' :
  (m ≫= f) e k = Ret b e' k' →
  ∃ a e1 k1, m e k = Ret a e1 k1 ∧ f a e1 k1 = Ret b e' k'.
Proof. rewrite bind_eq. destruct (m e k); naive_solver. Qed.
End monad.

Create Rewrite HintDb mstep.
#[export] Hint Rewrite @bind_ret_l @bind_gets @bind_mget @bind_modify @bind_deref : mstep.

(** [msteps] runs the steps that need no reasoning; [mgo t] runs a call
    whose outcome the tactic [t] proves. *)
Ltac msteps := autorewrite with mstep; cbv beta.
Ltac asteps := repeat (progress (rewrite ?bind_assoc; msteps)).
Tactic Notation "mgo" tactic1(t) := erewrite bind_Ret by (solve [t]).

(** ** Reasoning about outcomes

    [wpo Φ Ψ o]: the outcome [o] returns with [Φ], or stops for a reason and in
    a state that satisfy [Ψ]. *)

Inductive stop := SPanic (msg : string) | SBlocked | SFault | SNoFuel.

Definition wpo {K A} (Φ : A → env K → K → Prop) (Ψ : stop → K → Prop)
    (o : outcome K A) : Prop :=
  match o with
  | Ret a e k => Φ a e k
  | Panic msg k => Ψ (SPanic msg) k
  | Blocked k => Ψ SBlocked k
  | Fault k => Ψ SFault k
  | NoFuel k => Ψ SNoFuel k
  end.

Section outcomes.
Context {K : Type}.
Implicit Types (e : env K) (k : K) (Ψ : stop → K → Prop).

Lemma wpo_bind {A B} (m : M K A) (f : A → M K B) Φ Ψ e k :
  wpo (λ a e' k', wpo Φ Ψ (f a e' k')) Ψ (m e k) → wpo Φ Ψ ((m ≫= f) e k).
Proof. rewrite bind_eq. by destruct (m e k). Qed.

Lemma wpo_mono {A} (Φ Φ' : A → env K → K → Prop) Ψ Ψ' o :
  wpo Φ Ψ o → (∀ a e k, Φ a e k → Φ' a e k) → (∀ s k, Ψ s k → Ψ' s k) → wpo Φ' Ψ' o.
Proof. destruct o; cbn; auto. Qed.

(** [m] does not give the CPU away, has no loop that can run out of fuel, and
    leaves [g] of the state alone; it may spin on a lock if [b] is set. *)
Definition may_stop (b : bool) (s : stop) : Prop :=
  match s with SNoFuel => False | SBlocked => b = true | _ => True end.

Definition steady {A B} (b : bool) (g : K → B) (m : M K A) : Prop :=
  ∀ e k, wpo (λ _ e' k', e' = e ∧ g k' = g k)
             (λ s k', may_stop b s ∧ g k' = g k) (m e k).

Context {B : Type} (b : bool) (g : K → B).

Lemma steady_ret {A} (a : A) : steady b g (mret a).
Proof. by intros e k. Qed.
Lemma steady_mget : steady b g mget.
Proof. by intros e k. Qed.
Lemma steady_gets {A} (f : K → A) : steady b g (gets f).
Proof. by intros e k. Qed.
Lemma steady_modify f : (∀ k, g (f k) = g k) → steady b g (modify f).
Proof. intros H e k. split; [done|apply H]. Qed.
Lemma steady_mpanic {A} msg : steady b g (mpanic (A := A) msg).
Proof. by intros e k. Qed.
Lemma steady_mfault {A} : steady b g (mfault (A := A)).
Proof. by intros e k. Qed.
Lemma steady_mspin {A} : steady true g (mspin (A := A)).
Proof. by intros e k. Qed.
Lemma steady_deref {A} (o : option A) : steady b g (deref o).
Proof. by destruct o; intros e k. Qed.

Lemma steady_bind {A C} (m : M K A) (f : A → M K C) :
  steady b g m → (∀ a, steady b g (f a)) → steady b g (m ≫= f).
Proof.
  intros Hm Hf e k. apply wpo_bind. eapply wpo_mono; [apply Hm|..|done].
  intros a e' k' [-> E]. eapply wpo_mono; [apply Hf|..]; cbn.
  - intros c e'' k'' [-> ?]. split; congruence.
  - intros s k'' [? ?]. split; congruence.
Qed.

Lemma steady_when t m : steady b g m → steady b g (when t m).
Proof. destruct t; [done|]. intros _. apply steady_ret. Qed.
End outcomes.

Create HintDb steady discriminated.
#[export] Hint Constants Opaque : steady.
#[export] Hint Resolve steady_ret steady_mget steady_gets steady_mpanic steady_mfault
  steady_mspin steady_deref steady_when : steady.

(** [solve_steady] walks through a program. *)
Ltac solve_steady :=
  repeat first
    [ progress intros
    | solve [auto with steady]
    | match goal with
      | |- steady _ _ (mbind _ _) => apply steady_bind
      | |- steady _ _ (modify _) => apply steady_modify; reflexivity
      | |- steady _ _ (when _ _) => apply steady_when
      | |- steady _ _ (match ?x with _ => _ end) => destruct x
      end ].

(** ** Programs that cannot run out of fuel

    [fuelsafe s m]: [m] never runs past a loop bound, and it takes moves off
    the environment only from the front; if [s] is set it takes at least
    one whenever it returns. *)

Section fuelsafe.
Context {K : Type}.
Implicit Types (e : env K) (k : K).

Definition fuelsafe {A} (s : bool) (m : M K A) : Prop :=
  ∀ e k, wpo (λ _ e' _, (Nat.b2n s + length e' ≤ length e)%nat)
             (λ r _, r ≠ SNoFuel) (m e k).

Lemma fuelsafe_steady {A} (m : M K A) : steady true (λ _, tt) m → fuelsafe false m.
Proof.
  intros H e k. eapply wpo_mono; [apply H|..].
  - by intros a e' k' [-> _].
  - by intros [] k' [? _].
Qed.

Lemma fuelsafe_weaken {A} s (m : M K A) : fuelsafe s m → fuelsafe false m.
Proof. intros H e k. eapply wpo_mono; [apply H|..|done]. cbn. intros. lia. Qed.

Lemma fuelsafe_bind {A B} s t (m : M K A) (f : A → M K B) :
  fuelsafe s m → (∀ a, fuelsafe t (f a)) → fuelsafe (s || t) (m ≫= f).
Proof.
  intros Hm Hf e k. apply wpo_bind. eapply wpo_mono; [apply Hm|..|done].
  intros a e' k' Hl. eapply wpo_mono; [apply Hf|..|done].
  intros b e'' k'' Hl'. destruct s, t; cbn in *; lia.
Qed.

Lemma fuelsafe_ret {A} (a : A) : fuelsafe false (mret a).
Proof. intros e k. cbn. lia. Qed.

Lemma fuelsafe_stop {A} s (m : M K A) :
  (∀ e k, match m e k with Ret _ _ _ | NoFuel _ => False | _ => True end) → fuelsafe s m.
Proof. intros H e k. specialize (H e k). by destruct (m e k). Qed.

Lemma fuelsafe_switch : fuelsafe true (switch (K := K)).
Proof. intros [|f e] k; cbn; [done|lia]. Qed.

Lemma fuelsafe_when b s m : fuelsafe s m → fuelsafe false (when b m).
Proof. destruct b; [by apply fuelsafe_weaken|intros _; apply fuelsafe_ret]. Qed.

Lemma fuelsafe_mwhile fuel test body e k :
  fuelsafe false test → fuelsafe true body → (length e < fuel)%nat →
  wpo (λ _ e' _, (length e' ≤ length e)%nat) (λ r _, r ≠ SNoFuel) (mwhile fuel test body e k).
Proof.
  intros Ht Hb. revert e k. induction fuel as [|fuel IH]; intros e k Hf; [lia|].
  cbn [mwhile]. apply wpo_bind. eapply wpo_mono; [apply Ht|..|done]. cbn.
  intros [] e1 k1 H1; [|cbn; lia]. apply wpo_bind. eapply wpo_mono; [apply Hb|..|done]. cbn.
  intros _ e2 k2 H2. eapply wpo_mono; [apply IH; lia|..|done]. cbn. intros. lia.
Qed.

Lemma fuelsafe_mwait test body :
  fuelsafe false test → fuelsafe true body → fuelsafe false (mwait test body).
Proof. intros Ht Hb e k. eapply fuelsafe_mwhile; eauto. Qed.

(** A turn of the loop that goes on has taken a move. *)
Definition fuelsafe_turn {A} (body : M K (unit + A)) : Prop :=
  ∀ e k, wpo (λ r e' _, (match r with inl _ => 1 | inr _ => 0 end + length e' ≤ length e)%nat)
             (λ r _, r ≠ SNoFuel) (body e k).

Lemma fuelsafe_mrepeat {A} (body : M K (unit + A)) :
  fuelsafe_turn body → fuelsafe false (mrepeat body).
Proof.
  intros Hb e k. unfold mrepeat.
  cut (∀ fuel e k, (length e < fuel)%nat →
    wpo (λ _ e' _, (length e' ≤ length e)%nat) (λ r _, r ≠ SNoFuel) (mloop fuel body e k)).
  { intros H. eapply wpo_mono; [apply H; lia|..]; auto. }
  clear e k. induction fuel as [|fuel IH]; intros e k Hf; [lia|].
  cbn [mloop]. apply wpo_bind. eapply wpo_mono; [apply Hb|..|done]. cbn.
  intros [u|a] e1 k1 H1; [|cbn; lia].
  eapply wpo_mono; [apply IH; lia|..|done]. cbn. intros. lia.
Qed.
End fuelsafe.

(** ** Invariants under interference

    [hoare G R P m Q]: started in a state with [P], [m] gives the CPU away only
    in states with [G], and returns, if it does, in a state with [Q], in
    every environment that turns a state with [G] into one with [R]. *)

Section hoare.
Context {K : Type}.
Implicit Types (e : env K) (k : K) (G R P : K → Prop).

Definition respects G R (f : K → K) : Prop := ∀ k, G k → R (f k).

Definition hoare {A} G R P (m : M K A) (Q : A → K → Prop) : Prop :=
  ∀ e k, Forall (respects G R) e → P k →
    wpo (λ a e' k', Forall (respects G R) e' ∧ Q a k') (λ s k', s = SBlocked → G k') (m e k).

Lemma hoare_conseq {A} G R P P' (m : M K A) Q Q' :
  hoare G R P m Q → (∀ k, P' k → P k) → (∀ a k, Q a k → Q' a k) → hoare G R P' m Q'.
Proof.
  intros H HP HQ e k He Hk. eapply wpo_mono; [apply H; auto|..|done]. naive_solver.
Qed.

Lemma hoare_pre {A} G R P P' (m : M K A) Q :
  hoare G R P m Q → (∀ k, P' k → P k) → hoare G R P' m Q.
Proof. intros H HP. by eapply hoare_conseq. Qed.

Lemma hoare_bind {A B} G R P (m : M K A) (f : A → M K B) S Q :
  hoare G R P m S → (∀ a, hoare G R (S a) (f a) Q) → hoare G R P (m ≫= f) Q.
Proof.
  intros Hm Hf e k He Hk. apply wpo_bind. eapply wpo_mono; [by apply Hm|..|done].
  intros a e' k' [He' Hk']. by apply Hf.
Qed.

Lemma hoare_ret {A} G R P (a : A) (Q : A → K → Prop) :
  (∀ k, P k → Q a k) → hoare G R P (mret a) Q.
Proof. intros H e k He Hk. split; auto. Qed.

Lemma hoare_modify G R P f (Q : unit → K → Prop) :
  (∀ k, P k → Q tt (f k)) → hoare G R P (modify f) Q.
Proof. intros H e k He Hk. split; auto. Qed.

Lemma hoare_gets {A} G R P (f : K → A) : hoare G R P (gets f) (λ a k, P k ∧ a = f k).
Proof. by intros e k He Hk. Qed.

Lemma hoare_deref {A} G R P (o : option A) : hoare G R P (deref o) (λ a k, P k ∧ o = Some a).
Proof. destruct o; by intros e k He Hk. Qed.

Lemma hoare_panic {A} G R P msg (Q : A → K → Prop) : hoare G R P (mpanic msg) Q.
Proof. by intros e k He Hk. Qed.

Lemma hoare_fault {A} G R P (Q : A → K → Prop) : hoare G R P mfault Q.
Proof. by intros e k He Hk. Qed.

Lemma hoare_switch G R P : (∀ k, P k → G k) → hoare G R P switch (λ _, R).
Proof.
  intros HG [|f e] k He Hk; cbn; [auto|]. apply Forall_cons in He as [Hf He]. auto.
Qed.

(** A program that does not switch keeps what its frame determines. *)
Lemma hoare_steady {A B} b (g : K → B) (m : M K A) G R P :
  steady b g m → (∀ k k', g k' = g k → P k → P k') → (∀ k, P k → G k) →
  hoare G R P m (λ _, P).
Proof.
  intros Hm HP HG e k He Hk. eapply wpo_mono; [apply Hm|..]; cbn.
  - intros a e' k' [-> E]. split; [done|]. by apply (HP k k').
  - intros s k' [_ E] _. apply HG. by apply (HP k k').
Qed.

Lemma hoare_mwhile G R P fuel test body (Q : K → Prop) :
  hoare G R P test (λ b k, if b : bool then P k else Q k) → hoare G R P body (λ _, P) →
  hoare G R P (mwhile fuel test body) (λ _, Q).
Proof.
  intros Ht Hb. induction fuel as [|fuel IH]; [by intros e k|]. cbn [mwhile].
  eapply hoare_bind; [exact Ht|]. intros []; cbn; [by eapply hoare_bind|by apply hoare_ret].
Qed.

Lemma hoare_mwait G R P test body (Q : K → Prop) :
  hoare G R P test (λ b k, if b : bool then P k else Q k) → hoare G R P body (λ _, P) →
  hoare G R P (mwait test body) (λ _, Q).
Proof. intros Ht Hb e k He Hk. by eapply hoare_mwhile. Qed.

Lemma hoare_mrepeat {A} G R P (body : M K (unit + A)) Q :
  hoare G R P body (λ r k, match r with inl _ => P k | inr a => Q a k end) →
  hoare G R P (mrepeat body) Q.
Proof.
  intros Hb e k. unfold mrepeat. generalize (S (length e)) as fuel.
  intros fuel. revert e k. change (hoare G R P (mloop fuel body) Q).
  induction fuel as [|fuel IH]; [by intros e k|]. cbn [mloop].
  eapply hoare_bind; [exact Hb|]. intros [[]|a]; [done|by apply hoare_ret].
Qed.

(** [quiet g m]: whatever [g] of the state determines is kept by [m], if the
    environment keeps it. *)
Definition quiet {A B} (g : K → B) (m : M K A) : Prop :=
  ∀ J : B → Prop, let I := λ k, J (g k) in hoare I I I m (λ _, I).

Context {B : Type} (g : K → B).

Lemma quiet_steady {A} b (m : M K A) : steady b g m → quiet g m.
Proof. intros H J. eapply hoare_steady; [done| |done]. by intros k k' ->. Qed.

Lemma quiet_bind {A C} (m : M K A) (f : A → M K C) :
  quiet g m → (∀ a, quiet g (f a)) → quiet g (m ≫= f).
Proof. intros Hm Hf J. eapply hoare_bind; [apply Hm|]. intros a. apply Hf. Qed.

Lemma quiet_switch : quiet g switch.
Proof. intros J. by apply hoare_switch. Qed.

Lemma quiet_when t m : quiet g m → quiet g (when t m).
Proof. destruct t; [done|]. intros _. apply (quiet_steady true). apply steady_ret. Qed.
End hoare.

(** [solve_quiet] walks through a program, [solve_steady] through its parts
    without a switch. *)
Create HintDb quiet discriminated.
#[export] Hint Constants Opaque : quiet.
#[export] Hint Resolve quiet_switch : quiet.
Ltac solve_quiet :=
  repeat first
    [ progress intros
    | solve [auto with quiet]
    | solve [apply (quiet_steady _ true); solve_steady]
    | match goal with
      | |- quiet _ (mbind _ _) => apply quiet_bind
      | |- quiet _ (when _ _) => apply quiet_when
      | |- quiet _ (match ?x with _ => _ end) => destruct x
      end ].

(** ** Record update

    [r <| f := v |>] is the record [r] with the field [f] set to [v].  A
    record type declares its fields once ([Settable]) and one [Setter] per
    field. *)

Class Settable (R : Type) := eta : R → R.
Class Setter {R T : Type} (proj : R → T) := upd : (T → T) → R → R.
Arguments upd {R T} proj {_} f r : simpl never.

Ltac solve_setter :=
  lazymatch goal with
  | |- @Setter ?R ?T ?proj =>
    let E := constr:(_ : Settable R) in
    let f := fresh "f" in let x := fresh "x" in
    unfold Setter; intros f x;
    let b := eval hnf in (E x) in
    let px := constr:(proj x) in
    lazymatch eval pattern px in b with
    | ?g _ => let r := eval cbv beta in (g (f px)) in exact r
    end
  end.

Notation "x <| proj := v |>" := (upd proj (λ _, v) x)
  (at level 1, left associativity, proj at level 0, v at level 200,
   format "x  <| proj  :=  v |>").
Notation "x <| proj ::= f |>" := (upd proj f x)
  (at level 1, left associativity, proj at level 0, f at level 200,
   format "x  <| proj  ::=  f |>").

Lemma upd_same {R T} (p : R → T) (i : Setter p) :
  (∀ f x, p (@upd R T p i f x) = f (p x)) → ∀ f x, p (@upd R T p i f x) = f (p x).
Proof. done. Qed.

Lemma upd_other {R T A} (p : R → A) (q : R → T) (i : Setter q) :
  (∀ f x, p (@upd R T q i f x) = p x) → ∀ f x, p (@upd R T q i f x) = p x.
Proof. done. Qed.

(** [rsimpl] reduces every projection of an updated record. *)
Ltac upd_eq p q i f x :=
  match goal with
  | _ => constr:(upd_same p i (λ _ _, eq_refl) f x)
  | _ => constr:(upd_other p q i (λ _ _, eq_refl) f x)
  end.
Ltac rsimpl_step :=
  match goal with
  | |- context [?p (@upd ?R ?T ?q ?i ?f ?x)] =>
    let E := upd_eq p q i f x in rewrite E; cbv beta
  | H : context [?p (@upd ?R ?T ?q ?i ?f ?x)] |- _ =>
    let E := upd_eq p q i f x in rewrite E in H; cbv beta in H
  end.
Ltac rsimpl := repeat rsimpl_step.

(** Two updates of one field are one. *)
Lemma upd_upd {R T} (p : R → T) (i : Setter p) :
  (∀ f g x, @upd R T p i g (@upd R T p i f x) = @upd R T p i (λ v, g (f v)) x) →
  ∀ f g x, @upd R T p i g (@upd R T p i f x) = @upd R T p i (λ v, g (f v)) x.
Proof. done. Qed.
Ltac merge_upd :=
  repeat match goal with
  | |- context [@upd ?R ?T ?p ?i ?g (@upd ?R ?T ?p ?i ?f ?x)] =>
    rewrite (@upd_upd R T p i (λ _ _ _, eq_refl) f g x); cbv beta
  end.

(** An update depends on the value of the field only. *)
Lemma upd_ext {R T} (p : R → T) (i : Setter p) :
  (∀ f x, @upd R T p i f x = @upd R T p i (λ _, f (p x)) x) →
  ∀ f g x, f (p x) = g (p x) → @upd R T p i f x = @upd R T p i g x.
Proof. intros H f g x E. by rewrite (H f), (H g), E. Qed.
Ltac upd_ext :=
  match goal with
  | |- @upd ?R ?T ?p ?i ?f ?x = @upd ?R ?T ?p ?i ?g ?x =>
    apply (@upd_ext R T p i (λ _ _, eq_refl) f g x); cbv beta
  end.

(** ** Lists used as arrays *)

Lemma list_alter_insert {A} (f : A → A) (l : list A) i x :
  l !! i = Some x → alter f i l = <[i := f x]> l.
Proof.
  intros Hx. apply list_eq. intros j. destruct (decide (i = j)) as [->|].
  - rewrite list_lookup_alter_eq, Hx. symmetry.
    apply list_lookup_insert_eq. by eapply lookup_lt_Some.
  - by rewrite list_lookup_alter_ne, list_lookup_insert_ne.
Qed.

Lemma list_alter_alter {A} (f g : A → A) (l : list A) i :
  alter g i (alter f i l) = alter (λ x, g (f x)) i l.
Proof.
  apply list_eq. intros j. destruct (decide (i = j)) as [->|].
  - rewrite !list_lookup_alter_eq. by destruct (l !! j).
  - by rewrite !list_lookup_alter_ne.
Qed.

(** A boolean property of a small range holds when it evaluates to [true] on
    every number of the range. *)
Lemma range_forallb (n : Z) (P : Z → bool) :
  forallb P (seqZ 0 n) = true → ∀ z, 0 ≤ z < n → P z = true.
Proof.
  rewrite forallb_forall. intros H z Hz. apply H.
  rewrite <- list_elem_of_In. apply elem_of_seqZ. lia.
Qed.

(** [lia] on goals with division and remainder. *)
Ltac dlia := Z.div_mod_to_equations; lia.
