(* ===== verification/State.v ===== *)
(** * The kernel's state

    The structures of the kernel's header files and the global variables of
    its C files, gathered in one record [kernel].  Pointers into the fixed
    tables ([ptable.proc], [ftable.file], [icache.inode], [bcache.buf],
    [cpus]) are indices, with [None] for a null pointer; pointers into
    memory that [kalloc] hands out are addresses.  Also the constants of
    param.h, memlayout.h, mmu.h and fcntl.h and the [Setter] of every field. *)

From S2P Require Import Prelude.

(** ** Constants *)

(** [src/xv6-public/param.h:1] maximum number of processes *)
Definition NPROC : nat := 64%nat.
(** [src/xv6-public/param.h:2] size of per-process kernel stack *)
Definition KSTACKSIZE : Z := 4096.
(** [src/xv6-public/param.h:3] maximum number of CPUs *)
Definition NCPU : nat := 8%nat.
(** [src/xv6-public/param.h:4] open files per process *)
Definition NOFILE : nat := 16%nat.
(** [src/xv6-public/param.h:5] open files per system *)
Definition NFILE : nat := 100%nat.
(** [src/xv6-public/param.h:6] maximum number of active i-nodes *)
Definition NINODE : nat := 50%nat.
(** [src/xv6-public/param.h:7] maximum major device number *)
Definition NDEV : Z := 10.
(** [src/xv6-public/param.h:8] device number of file system root disk *)
Definition ROOTDEV : Z := 1.
(** [src/xv6-public/param.h:9] max exec arguments *)
Definition MAXARG : nat := 32%nat.
(** [src/xv6-public/param.h:10] max # of blocks any FS op writes *)
Definition MAXOPBLOCKS : Z := 10.
(** [src/xv6-public/param.h:11] max data blocks in on-disk log *)
Definition LOGSIZE : Z := MAXOPBLOCKS * 3.
(** [src/xv6-public/param.h:12] size of disk block cache, [MAXOPBLOCKS*3] *)
Definition NBUF : nat := 30%nat.
(** [src/xv6-public/param.h:13] size of file system in blocks *)
Definition FSSIZE : Z := 1000.
(** [src/xv6-public/fcntl.h:1] *)
Definition O_RDONLY : Z := 0x000.
(** [src/xv6-public/fcntl.h:2] *)
Definition O_WRONLY : Z := 0x001.
(** [src/xv6-public/fcntl.h:3] *)
Definition O_RDWR : Z := 0x002.
(** [src/xv6-public/fcntl.h:4] *)
Definition O_CREATE : Z := 0x200.
(** [src/xv6-public/param.h:15] interval between preemptions *)
Definition INTERV : Z := 5.
(** [src/xv6-public/param.h:16] threshold of the promotion from queue 1 to queue 2 *)
Definition P1TO2 : Z := 200.
(** [src/xv6-public/param.h:17] threshold of the promotion from queue 2 to queue 3 *)
Definition P2TO3 : Z := 100.
(** [src/xv6-public/memlayout.h:3] start of extended memory *)
Definition EXTMEM : Z := 0x100000.
(** [src/xv6-public/memlayout.h:4] top physical memory *)
Definition PHYSTOP : Z := 0xE000000.
(** [src/xv6-public/memlayout.h:5] other devices are at high addresses *)
Definition DEVSPACE : Z := 0xFE000000.
(** [src/xv6-public/memlayout.h:8] first kernel virtual address *)
Definition KERNBASE : Z := 0x80000000.
(** [src/xv6-public/memlayout.h:9] address where kernel is linked *)
Definition KERNLINK : Z := KERNBASE + EXTMEM.
(** [src/xv6-public/mmu.h:85] bytes mapped by a page *)
Definition PGSIZE : Z := 4096.
(** [src/xv6-public/fs.h:6] block size *)
Definition BSIZE : Z := 512.
(** [src/xv6-public/fs.h:5] root i-number *)
Definition ROOTINO : Z := 1.
(** [src/xv6-public/fs.h:24] direct blocks of an inode *)
Definition NDIRECT : nat := 12%nat.
(** [src/xv6-public/fs.h:25] entries of an indirect block *)
Definition NINDIRECT : Z := BSIZE / 4.
(** [src/xv6-public/pipe.c:11] capacity of a pipe *)
Definition PIPESIZE : Z := 512.

(** [src/xv6-public/memlayout.h:11] kernel virtual to physical address *)
Definition V2P (a : Z) : Z := wrap32 (a - KERNBASE).

(** [src/xv6-public/memlayout.h:12] physical to kernel virtual address *)
Definition P2V (a : Z) : Z := wrap32 (a + KERNBASE).

(** ** Synchronization *)

(** The long-term locks of the kernel: one per buffer and one per inode. *)
Inductive sleepid := SlBuf (i : nat) | SlInode (i : nat).

(** The spin locks of the kernel, named by the variable that holds them. *)
Inductive lockid :=
  | LkPtable | LkTicks | LkKmem | LkFtable | LkIcache | LkBcache | LkLog
  | LkIde | LkCons
  | LkPipe (p : Z)
  | LkSleep (l : sleepid).

#[export] Instance sleepid_eq_dec : EqDecision sleepid.
Proof. solve_decision. Defined.
#[export] Instance lockid_eq_dec : EqDecision lockid.
Proof. solve_decision. Defined.
#[export] Instance lockid_countable : Countable lockid.
Proof.
  refine (inj_countable'
    (λ l, match l with
     | LkPtable => (0%nat, 0) | LkTicks => (1%nat, 0) | LkKmem => (2%nat, 0)
     | LkFtable => (3%nat, 0) | LkIcache => (4%nat, 0) | LkBcache => (5%nat, 0)
     | LkLog => (6%nat, 0) | LkIde => (7%nat, 0) | LkCons => (8%nat, 0)
     | LkPipe p => (9%nat, p)
     | LkSleep (SlBuf i) => (10%nat, Z.of_nat i)
     | LkSleep (SlInode i) => (11%nat, Z.of_nat i)
     end)
    (λ p, match p with
     | (0%nat, _) => LkPtable | (1%nat, _) => LkTicks | (2%nat, _) => LkKmem
     | (3%nat, _) => LkFtable | (4%nat, _) => LkIcache | (5%nat, _) => LkBcache
     | (6%nat, _) => LkLog | (7%nat, _) => LkIde | (8%nat, _) => LkCons
     | (9%nat, p) => LkPipe p
     | (10%nat, i) => LkSleep (SlBuf (Z.to_nat i))
     | (_, i) => LkSleep (SlInode (Z.to_nat i))
     end) _).
  intros []; try done. destruct l; by rewrite Nat2Z.id.
Defined.

(** The addresses processes sleep on. *)
Inductive chan_t :=
  | ChTicks                  (** [&ticks] *)
  | ChProc (i : nat)         (** a process, in [wait] *)
  | ChNread (p : Z)          (** [&p->nread] of the pipe at [p] *)
  | ChNwrite (p : Z)         (** [&p->nwrite] of the pipe at [p] *)
  | ChLog                    (** [&log] *)
  | ChSleep (l : sleepid)    (** a sleep lock *)
  | ChBuf (i : nat)          (** a buffer waiting for the disk *)
  | ChInput.                 (** [&input.r] of the console *)

#[export] Instance chan_eq_dec : EqDecision chan_t.
Proof. solve_decision. Defined.

(** [src/xv6-public/spinlock.h:2-10] a spin lock; the name and the call stack it records are for debugging and are left out *)
Record spinlock := Spinlock {
  sp_locked : Z;       (** is the lock held? *)
  sp_cpu : option nat  (** the cpu holding the lock *)
}.

(** [src/xv6-public/sleeplock.h:2-9] a long-term lock; the spin lock [lk] that protects it is [LkSleep] of its owner *)
Record sleeplock := Sleeplock {
  sl_locked : Z; (** is the lock held? *)
  sl_pid : Z     (** process holding lock *)
}.

(** ** Processes and CPUs *)

(** [src/xv6-public/proc.h:35] *)
Inductive procstate := UNUSED | EMBRYO | SLEEPING | RUNNABLE | RUNNING | ZOMBIE.

#[export] Instance procstate_eq_dec : EqDecision procstate.
Proof. solve_decision. Defined.

(** [src/xv6-public/proc.h:2-11] per-CPU state *)
Record cpu := Cpu {
  c_apicid : Z;        (** local APIC ID *)
  c_esp0 : Z;          (** [ts.esp0], the kernel stack of the running process *)
  c_started : bool;    (** has the CPU started? *)
  c_ncli : Z;          (** depth of pushcli nesting *)
  c_intena : bool;     (** were interrupts enabled before pushcli? *)
  c_proc : option nat  (** the process running on this cpu or null *)
}.

(** [src/xv6-public/proc.h:38-63] per-process state *)
Record proc := Proc {
  p_sz : Z;                    (** size of process memory (bytes) *)
  p_pgdir : Z;                 (** page table *)
  p_kstack : Z;                (** bottom of kernel stack for this process *)
  p_state : procstate;         (** process state *)
  p_pid : Z;                   (** process ID *)
  p_parent : option nat;       (** parent process *)
  p_tf : Z;                    (** trap frame for current syscall *)
  p_context : Z;               (** swtch() here to run process *)
  p_chan : option chan_t;      (** if non-zero, sleeping on chan *)
  p_killed : Z;                (** if non-zero, have been killed *)
  p_ofile : list (option nat); (** open files *)
  p_cwd : option nat;          (** current directory *)
  p_name : list Z;             (** process name (debugging) *)
  p_priority : Z;              (** priority 1, 2 or 3 *)
  p_ctime : Z;                 (** [uint] *)
  p_stime : Z;                 (** time SLEEPING *)
  p_retime : Z;                (** time READY (RUNNABLE) *)
  p_rutime : Z;                (** time RUNNING *)
  p_time_slice : Z;            (** ticks left before preemption *)
  p_queue_time : Z             (** time in the current queue *)
}.

(** ** Files, pipes and the file system *)

(** [src/xv6-public/file.h:2] the kinds of open file *)
Inductive filetype := FD_NONE | FD_PIPE | FD_INODE.

#[export] Instance filetype_eq_dec : EqDecision filetype.
Proof. solve_decision. Defined.

(** [src/xv6-public/file.h:1-9] an open file *)
Record file := File {
  f_type : filetype;
  f_ref : Z;         (** reference count *)
  f_readable : bool;
  f_writable : bool;
  f_pipe : Z;        (** the pipe's address *)
  f_ip : option nat; (** the inode's cache slot *)
  f_off : Z          (** [uint] *)
}.

(** [src/xv6-public/pipe.c:13-20] a pipe; its lock is [LkPipe] of its address *)
Record pipe := Pipe {
  pi_data : list Z;    (** [PIPESIZE] bytes *)
  pi_nread : Z;        (** number of bytes read *)
  pi_nwrite : Z;       (** number of bytes written *)
  pi_readopen : bool;  (** read fd is still open *)
  pi_writeopen : bool  (** write fd is still open *)
}.

(** [src/xv6-public/file.h:13-26] in-memory copy of an inode *)
Record inode := Inode {
  i_dev : Z;          (** device number *)
  i_inum : Z;         (** inode number *)
  i_ref : Z;          (** reference count *)
  i_lock : sleeplock; (** protects everything below here *)
  i_valid : bool;     (** inode has been read from disk? *)
  i_type : Z;         (** copy of disk inode *)
  i_major : Z;
  i_minor : Z;
  i_nlink : Z;
  i_size : Z;
  i_addrs : list Z    (** [NDIRECT+1] block addresses *)
}.

(** [src/xv6-public/fs.h:14-22] the super block *)
Record superblock := Superblock {
  sb_size : Z;       (** size of file system image (blocks) *)
  sb_nblocks : Z;    (** number of data blocks *)
  sb_ninodes : Z;    (** number of inodes *)
  sb_nlog : Z;       (** number of log blocks *)
  sb_logstart : Z;   (** block number of first log block *)
  sb_inodestart : Z; (** block number of first inode block *)
  sb_bmapstart : Z   (** block number of first free map block *)
}.

(** [src/xv6-public/buf.h:1-11] a buffer of the disk block cache; [prev] and [next] are indices of [bcache.buf], with [NBUF] for [bcache.head] *)
Record buf := Buf {
  b_flags : Z;
  b_dev : Z;
  b_blockno : Z;
  b_lock : sleeplock;
  b_refcnt : Z;
  b_prev : nat;         (** LRU cache list *)
  b_next : nat;
  b_qnext : option nat; (** disk queue *)
  b_data : list Z       (** [BSIZE] bytes *)
}.

(** [src/xv6-public/log.c:34-47] the log and its header *)
Record log_t := Log {
  l_start : Z;
  l_size : Z;
  l_outstanding : Z;   (** how many FS sys calls are executing *)
  l_committing : bool; (** in commit(), please wait *)
  l_dev : Z;
  lh_n : Z;            (** blocks in the current transaction *)
  lh_block : list Z    (** [LOGSIZE] block numbers *)
}.

(** [src/xv6-public/console.c:182-187] the console's line buffer *)
Record input_t := Input {
  in_buf : list Z; (** [INPUT_BUF] bytes *)
  in_r : Z;        (** read index *)
  in_w : Z;        (** write index *)
  in_e : Z         (** edit index *)
}.

(** ** The whole kernel *)

(** every global variable of the kernel that the model uses, with the hardware of the CPU that executes *)
Record kernel := Kernel {
  k_lapicid : Z;                  (** local APIC ID of the executing CPU *)
  k_if : bool;                    (** its [FL_IF] flag *)
  k_cr3 : Z;                      (** its page table register *)
  k_cpus : list cpu;              (** [cpus[0..ncpu)] of mp.c *)
  k_locks : gmap lockid spinlock; (** every spin lock *)
  k_proc : list proc;             (** [ptable.proc] of proc.c *)
  k_nextpid : Z;                  (** [nextpid] of proc.c *)
  k_initproc : option nat;        (** [initproc] of proc.c *)
  k_ticks : Z;                    (** [ticks] of trap.c *)
  k_mem : gmap Z Z;               (** physical memory, byte by byte *)
  k_freelist : Z;                 (** [kmem.freelist] of kalloc.c *)
  k_use_lock : bool;              (** [kmem.use_lock] of kalloc.c *)
  k_end : Z;                      (** linker symbol [end] *)
  k_data : Z;                     (** linker symbol [data] *)
  k_kpgdir : Z;                   (** [kpgdir] of vm.c *)
  k_file : list file;             (** [ftable.file] of file.c *)
  k_pipe : gmap Z pipe;           (** the pipes, by address *)
  k_inode : list inode;           (** [icache.inode] of fs.c *)
  k_sb : superblock;              (** [sb] of fs.c *)
  k_buf : list buf;               (** [bcache.buf] of bio.c, then [bcache.head] *)
  k_log : log_t;                  (** [log] of log.c *)
  k_disk : gmap Z (list Z);       (** the disk, block by block *)
  k_dtrace : list (Z * list Z);   (** the block writes the disk has done, newest first *)
  k_idequeue : option nat;        (** [idequeue] of ide.c *)
  k_input : input_t;              (** [input] of console.c *)
  k_console : list Z;             (** what the serial port has put out, newest first *)
  k_uart : bool;                  (** [uart] of uart.c: is there a serial port? *)
  k_crtpos : Z;                   (** cursor register of the CGA display *)
  k_cons_locking : bool;          (** [cons.locking] of console.c *)
  k_panicked : bool;              (** [panicked] of console.c *)
  k_first : bool;                 (** [first] of forkret in proc.c *)
  k_havedisk1 : bool              (** [havedisk1] of ide.c *)
}.

(** A program of the kernel. *)
Abbreviation KM := (M kernel).

(** ** Field setters *)

#[export] Instance spinlock_eta : Settable spinlock := λ x, Spinlock
  (sp_locked x) (sp_cpu x).
#[export] Instance set_sp_locked : Setter sp_locked := ltac:(solve_setter).
#[export] Instance set_sp_cpu : Setter sp_cpu := ltac:(solve_setter).

#[export] Instance sleeplock_eta : Settable sleeplock := λ x, Sleeplock
  (sl_locked x) (sl_pid x).
#[export] Instance set_sl_locked : Setter sl_locked := ltac:(solve_setter).
#[export] Instance set_sl_pid : Setter sl_pid := ltac:(solve_setter).

#[export] Instance cpu_eta : Settable cpu := λ x, Cpu (c_apicid x) (c_esp0 x)
  (c_started x) (c_ncli x) (c_intena x) (c_proc x).
#[export] Instance set_c_apicid : Setter c_apicid := ltac:(solve_setter).
#[export] Instance set_c_esp0 : Setter c_esp0 := ltac:(solve_setter).
#[export] Instance set_c_started : Setter c_started := ltac:(solve_setter).
#[export] Instance set_c_ncli : Setter c_ncli := ltac:(solve_setter).
#[export] Instance set_c_intena : Setter c_intena := ltac:(solve_setter).
#[export] Instance set_c_proc : Setter c_proc := ltac:(solve_setter).

#[export] Instance proc_eta : Settable proc := λ x, Proc (p_sz x) (p_pgdir x)
  (p_kstack x) (p_state x) (p_pid x) (p_parent x) (p_tf x) (p_context x)
  (p_chan x) (p_killed x) (p_ofile x) (p_cwd x) (p_name x) (p_priority x)
  (p_ctime x) (p_stime x) (p_retime x) (p_rutime x) (p_time_slice x)
  (p_queue_time x).
#[export] Instance set_p_sz : Setter p_sz := ltac:(solve_setter).
#[export] Instance set_p_pgdir : Setter p_pgdir := ltac:(solve_setter).
#[export] Instance set_p_kstack : Setter p_kstack := ltac:(solve_setter).
#[export] Instance set_p_state : Setter p_state := ltac:(solve_setter).
#[export] Instance set_p_pid : Setter p_pid := ltac:(solve_setter).
#[export] Instance set_p_parent : Setter p_parent := ltac:(solve_setter).
#[export] Instance set_p_tf : Setter p_tf := ltac:(solve_setter).
#[export] Instance set_p_context : Setter p_context := ltac:(solve_setter).
#[export] Instance set_p_chan : Setter p_chan := ltac:(solve_setter).
#[export] Instance set_p_killed : Setter p_killed := ltac:(solve_setter).
#[export] Instance set_p_ofile : Setter p_ofile := ltac:(solve_setter).
#[export] Instance set_p_cwd : Setter p_cwd := ltac:(solve_setter).
#[export] Instance set_p_name : Setter p_name := ltac:(solve_setter).
#[export] Instance set_p_priority : Setter p_priority := ltac:(solve_setter).
#[export] Instance set_p_ctime : Setter p_ctime := ltac:(solve_setter).
#[export] Instance set_p_stime : Setter p_stime := ltac:(solve_setter).
#[export] Instance set_p_retime : Setter p_retime := ltac:(solve_setter).
#[export] Instance set_p_rutime : Setter p_rutime := ltac:(solve_setter).
#[export] Instance set_p_time_slice : Setter p_time_slice := ltac:(solve_setter).
#[export] Instance set_p_queue_time : Setter p_queue_time := ltac:(solve_setter).

#[export] Instance file_eta : Settable file := λ x, File (f_type x) (f_ref x)
  (f_readable x) (f_writable x) (f_pipe x) (f_ip x) (f_off x).
#[export] Instance set_f_type : Setter f_type := ltac:(solve_setter).
#[export] Instance set_f_ref : Setter f_ref := ltac:(solve_setter).
#[export] Instance set_f_readable : Setter f_readable := ltac:(solve_setter).
#[export] Instance set_f_writable : Setter f_writable := ltac:(solve_setter).
#[export] Instance set_f_pipe : Setter f_pipe := ltac:(solve_setter).
#[export] Instance set_f_ip : Setter f_ip := ltac:(solve_setter).
#[export] Instance set_f_off : Setter f_off := ltac:(solve_setter).

#[export] Instance pipe_eta : Settable pipe := λ x, Pipe (pi_data x) (pi_nread
  x) (pi_nwrite x) (pi_readopen x) (pi_writeopen x).
#[export] Instance set_pi_data : Setter pi_data := ltac:(solve_setter).
#[export] Instance set_pi_nread : Setter pi_nread := ltac:(solve_setter).
#[export] Instance set_pi_nwrite : Setter pi_nwrite := ltac:(solve_setter).
#[export] Instance set_pi_readopen : Setter pi_readopen := ltac:(solve_setter).
#[export] Instance set_pi_writeopen : Setter pi_writeopen := ltac:(solve_setter).

#[export] Instance inode_eta : Settable inode := λ x, Inode (i_dev x) (i_inum
  x) (i_ref x) (i_lock x) (i_valid x) (i_type x) (i_major x) (i_minor x)
  (i_nlink x) (i_size x) (i_addrs x).
#[export] Instance set_i_dev : Setter i_dev := ltac:(solve_setter).
#[export] Instance set_i_inum : Setter i_inum := ltac:(solve_setter).
#[export] Instance set_i_ref : Setter i_ref := ltac:(solve_setter).
#[export] Instance set_i_lock : Setter i_lock := ltac:(solve_setter).
#[export] Instance set_i_valid : Setter i_valid := ltac:(solve_setter).
#[export] Instance set_i_type : Setter i_type := ltac:(solve_setter).
#[export] Instance set_i_major : Setter i_major := ltac:(solve_setter).
#[export] Instance set_i_minor : Setter i_minor := ltac:(solve_setter).
#[export] Instance set_i_nlink : Setter i_nlink := ltac:(solve_setter).
#[export] Instance set_i_size : Setter i_size := ltac:(solve_setter).
#[export] Instance set_i_addrs : Setter i_addrs := ltac:(solve_setter).

#[export] Instance superblock_eta : Settable superblock := λ x, Superblock
  (sb_size x) (sb_nblocks x) (sb_ninodes x) (sb_nlog x) (sb_logstart x)
  (sb_inodestart x) (sb_bmapstart x).
#[export] Instance set_sb_size : Setter sb_size := ltac:(solve_setter).
#[export] Instance set_sb_nblocks : Setter sb_nblocks := ltac:(solve_setter).
#[export] Instance set_sb_ninodes : Setter sb_ninodes := ltac:(solve_setter).
#[export] Instance set_sb_nlog : Setter sb_nlog := ltac:(solve_setter).
#[export] Instance set_sb_logstart : Setter sb_logstart := ltac:(solve_setter).
#[export] Instance set_sb_inodestart : Setter sb_inodestart := ltac:(solve_setter).
#[export] Instance set_sb_bmapstart : Setter sb_bmapstart := ltac:(solve_setter).

#[export] Instance buf_eta : Settable buf := λ x, Buf (b_flags x) (b_dev x)
  (b_blockno x) (b_lock x) (b_refcnt x) (b_prev x) (b_next x) (b_qnext x)
  (b_data x).
#[export] Instance set_b_flags : Setter b_flags := ltac:(solve_setter).
#[export] Instance set_b_dev : Setter b_dev := ltac:(solve_setter).
#[export] Instance set_b_blockno : Setter b_blockno := ltac:(solve_setter).
#[export] Instance set_b_lock : Setter b_lock := ltac:(solve_setter).
#[export] Instance set_b_refcnt : Setter b_refcnt := ltac:(solve_setter).
#[export] Instance set_b_prev : Setter b_prev := ltac:(solve_setter).
#[export] Instance set_b_next : Setter b_next := ltac:(solve_setter).
#[export] Instance set_b_qnext : Setter b_qnext := ltac:(solve_setter).
#[export] Instance set_b_data : Setter b_data := ltac:(solve_setter).

#[export] Instance log_t_eta : Settable log_t := λ x, Log (l_start x) (l_size
  x) (l_outstanding x) (l_committing x) (l_dev x) (lh_n x) (lh_block x).
#[export] Instance set_l_start : Setter l_start := ltac:(solve_setter).
#[export] Instance set_l_size : Setter l_size := ltac:(solve_setter).
#[export] Instance set_l_outstanding : Setter l_outstanding := ltac:(solve_setter).
#[export] Instance set_l_committing : Setter l_committing := ltac:(solve_setter).
#[export] Instance set_l_dev : Setter l_dev := ltac:(solve_setter).
#[export] Instance set_lh_n : Setter lh_n := ltac:(solve_setter).
#[export] Instance set_lh_block : Setter lh_block := ltac:(solve_setter).

#[export] Instance input_t_eta : Settable input_t := λ x, Input (in_buf x)
  (in_r x) (in_w x) (in_e x).
#[export] Instance set_in_buf : Setter in_buf := ltac:(solve_setter).
#[export] Instance set_in_r : Setter in_r := ltac:(solve_setter).
#[export] Instance set_in_w : Setter in_w := ltac:(solve_setter).
#[export] Instance set_in_e : Setter in_e := ltac:(solve_setter).

#[export] Instance kernel_eta : Settable kernel := λ x, Kernel (k_lapicid x)
  (k_if x) (k_cr3 x) (k_cpus x) (k_locks x) (k_proc x) (k_nextpid x)
  (k_initproc x) (k_ticks x) (k_mem x) (k_freelist x) (k_use_lock x) (k_end x)
  (k_data x) (k_kpgdir x) (k_file x) (k_pipe x) (k_inode x) (k_sb x) (k_buf x)
  (k_log x) (k_disk x) (k_dtrace x) (k_idequeue x) (k_input x) (k_console x)
  (k_uart x) (k_crtpos x) (k_cons_locking x) (k_panicked x) (k_first x)
  (k_havedisk1 x).
#[export] Instance set_k_lapicid : Setter k_lapicid := ltac:(solve_setter).
#[export] Instance set_k_if : Setter k_if := ltac:(solve_setter).
#[export] Instance set_k_cr3 : Setter k_cr3 := ltac:(solve_setter).
#[export] Instance set_k_cpus : Setter k_cpus := ltac:(solve_setter).
#[export] Instance set_k_locks : Setter k_locks := ltac:(solve_setter).
#[export] Instance set_k_proc : Setter k_proc := ltac:(solve_setter).
#[export] Instance set_k_nextpid : Setter k_nextpid := ltac:(solve_setter).
#[export] Instance set_k_initproc : Setter k_initproc := ltac:(solve_setter).
#[export] Instance set_k_ticks : Setter k_ticks := ltac:(solve_setter).
#[export] Instance set_k_mem : Setter k_mem := ltac:(solve_setter).
#[export] Instance set_k_freelist : Setter k_freelist := ltac:(solve_setter).
#[export] Instance set_k_use_lock : Setter k_use_lock := ltac:(solve_setter).
#[export] Instance set_k_end : Setter k_end := ltac:(solve_setter).
#[export] Instance set_k_data : Setter k_data := ltac:(solve_setter).
#[export] Instance set_k_kpgdir : Setter k_kpgdir := ltac:(solve_setter).
#[export] Instance set_k_file : Setter k_file := ltac:(solve_setter).
#[export] Instance set_k_pipe : Setter k_pipe := ltac:(solve_setter).
#[export] Instance set_k_inode : Setter k_inode := ltac:(solve_setter).
#[export] Instance set_k_sb : Setter k_sb := ltac:(solve_setter).
#[export] Instance set_k_buf : Setter k_buf := ltac:(solve_setter).
#[export] Instance set_k_log : Setter k_log := ltac:(solve_setter).
#[export] Instance set_k_disk : Setter k_disk := ltac:(solve_setter).
#[export] Instance set_k_dtrace : Setter k_dtrace := ltac:(solve_setter).
#[export] Instance set_k_idequeue : Setter k_idequeue := ltac:(solve_setter).
#[export] Instance set_k_input : Setter k_input := ltac:(solve_setter).
#[export] Instance set_k_console : Setter k_console := ltac:(solve_setter).
#[export] Instance set_k_uart : Setter k_uart := ltac:(solve_setter).
#[export] Instance set_k_crtpos : Setter k_crtpos := ltac:(solve_setter).
#[export] Instance set_k_cons_locking : Setter k_cons_locking := ltac:(solve_setter).
#[export] Instance set_k_panicked : Setter k_panicked := ltac:(solve_setter).
#[export] Instance set_k_first : Setter k_first := ltac:(solve_setter).
#[export] Instance set_k_havedisk1 : Setter k_havedisk1 := ltac:(solve_setter).

(** ** Static storage

    The state the kernel starts from: every global variable zero, as C
    initialises static storage, with the locks that the boot code
    initialises and one CPU. *)

(** [src/xv6-public/proc.c:10-13] an entry of the zeroed process table *)
Definition zero_proc : proc :=
  Proc 0 0 0 UNUSED 0 None 0 0 None 0 (replicate NOFILE None) None
    (replicate 16 0) 0 0 0 0 0 0 0.
Definition zero_file : file := File FD_NONE 0 false false 0 None 0.
Definition zero_sleeplock : sleeplock := Sleeplock 0 0.
Definition zero_inode : inode :=
  Inode 0 0 0 zero_sleeplock false 0 0 0 0 0 (replicate (S NDIRECT) 0).
Definition zero_block : list Z := replicate (Z.to_nat BSIZE) 0.
Definition zero_buf : buf :=
  Buf 0 0 0 zero_sleeplock 0 0 0 None zero_block.
Definition zero_log : log_t :=
  Log 0 0 0 false 0 0 (replicate (Z.to_nat LOGSIZE) 0).
Definition zero_input : input_t := Input (replicate 128 0) 0 0 0.

Definition zero_kernel : kernel :=
  Kernel 0 false 0 [Cpu 0 0 true 0 false None]
    (list_to_map ((λ l, (l, Spinlock 0 None)) <$>
       ([LkPtable; LkTicks; LkKmem; LkFtable; LkIcache; LkBcache; LkLog;
         LkIde; LkCons] ++ ((λ i, LkSleep (SlBuf i)) <$> seq 0 NBUF)
         ++ ((λ i, LkSleep (SlInode i)) <$> seq 0 NINODE))))
    (replicate NPROC zero_proc) 1 None 0
    ∅ 0 false (KERNLINK + 0x10000) (KERNLINK + 0x8000) 0
    (replicate NFILE zero_file) ∅
    (replicate NINODE zero_inode) (Superblock 0 0 0 0 0 0 0)
    (replicate (S NBUF) zero_buf) zero_log ∅ [] None zero_input []
    false 0 false false true false.
