(* ===== verification/Spinlock.v ===== *)
(** * Spin locks and interrupt nesting (spinlock.c, and mycpu/cpuid/myproc of proc.c)

    The operations of spinlock.c as programs over the kernel state, their
    behaviour on every branch, and the balance of [pushcli]/[popcli] and of
    [acquire]/[release]: a matched pair leaves the interrupt flag, the
    nesting depth and the lock as it found them.  [Module Xchg] is the
    instruction-level model of [acquire] and [release] racing on several
    CPUs, with mutual exclusion as an invariant of its step relation. *)

From S2P Require Import Prelude State.

(** ** The executing CPU *)

(** [src/xv6-public/proc.c:30-44] the index of the CPU whose APIC ID the
    hardware reports. *)
Definition mycpu : KM nat :=
  k ← mget;
  if k_if k then mpanic "mycpu called with interrupts enabled" else
  match list_find (λ c, c_apicid c = k_lapicid k) (k_cpus k) with
  | Some (i, _) => mret i
  | None => mpanic "unknown apicid"
  end.

(** [src/xv6-public/proc.c:26] *)
Definition cpuid : KM nat := mycpu.

(** Read and write a field of [*mycpu()]. *)
Definition mycpu_get {A} (f : cpu → A) : KM A :=
  i ← mycpu; k ← mget; c ← deref (k_cpus k !! i); mret (f c).
Definition mycpu_upd (f : cpu → cpu) : KM unit :=
  i ← mycpu; modify (λ k, k <| k_cpus ::= alter f i |>).

Definition cli : KM unit := modify (λ k, k <| k_if := false |>).
Definition sti : KM unit := modify (λ k, k <| k_if := true |>).

(** [src/xv6-public/spinlock.c:104-114] *)
Definition pushcli : KM unit :=
  eflags ← gets k_if;
  cli;;
  ncli ← mycpu_get c_ncli;
  when (ncli =? 0) (mycpu_upd (λ c, c <| c_intena := eflags |>));;
  mycpu_upd (λ c, c <| c_ncli ::= λ n, n + 1 |>).

(** [src/xv6-public/spinlock.c:116-125] *)
Definition popcli : KM unit :=
  eflags ← gets k_if;
  if eflags : bool then mpanic "popcli - interruptible" else
  mycpu_upd (λ c, c <| c_ncli ::= λ n, n - 1 |>);;
  ncli ← mycpu_get c_ncli;
  if ncli <? 0 then mpanic "popcli" else
  intena ← mycpu_get c_intena;
  when ((ncli =? 0) && intena) sti.

(** [src/xv6-public/proc.c:48-56] the process running on this CPU. *)
Definition myproc : KM (option nat) :=
  pushcli;;
  p ← mycpu_get c_proc;
  popcli;;
  mret p.

(** ** Locks *)

Definition unlocked : spinlock := Spinlock 0 None.

(** The lock [lk]; an untouched lock is zero, as static storage is. *)
Definition lock_of (k : kernel) (lk : lockid) : spinlock :=
  default unlocked (k_locks k !! lk).

Definition set_lock (lk : lockid) (l : spinlock) : KM unit :=
  modify (λ k, k <| k_locks ::= <[lk := l]> |>).

(** [src/xv6-public/spinlock.c:12-18] *)
Definition initlock (lk : lockid) : KM unit := set_lock lk unlocked.

(** [src/xv6-public/spinlock.c:89-97] is this CPU holding the lock? *)
Definition holding (lk : lockid) : KM bool :=
  pushcli;;
  k ← mget;
  r ← (if truthy (sp_locked (lock_of k lk))
       then i ← mycpu; mret (bool_decide (sp_cpu (lock_of k lk) = Some i))
       else mret false);
  popcli;;
  mret r.

(** [src/xv6-public/x86.h:120-132] atomic exchange of the lock word; returns
    the old value. *)
Definition xchg_locked (lk : lockid) (v : Z) : KM Z :=
  k ← mget;
  set_lock lk ((lock_of k lk) <| sp_locked := v |>);;
  mret (sp_locked (lock_of k lk)).

(** [src/xv6-public/spinlock.c:24-43] the [xchg] loop leaves at once when the
    lock word is zero; otherwise another CPU must release the lock, which
    this thread never does while it spins. *)
Definition acquire (lk : lockid) : KM unit :=
  pushcli;;
  h ← holding lk;
  if h : bool then mpanic "acquire" else
  old ← xchg_locked lk 1;
  if truthy old then mspin else
  i ← mycpu;
  k ← mget;
  set_lock lk ((lock_of k lk) <| sp_cpu := Some i |>).

(** [src/xv6-public/spinlock.c:46-68] *)
Definition release (lk : lockid) : KM unit :=
  h ← holding lk;
  if negb h then mpanic "release" else
  k ← mget;
  set_lock lk ((lock_of k lk) <| sp_cpu := None |>);;
  k ← mget;
  set_lock lk ((lock_of k lk) <| sp_locked := 0 |>);;
  popcli.

(** [src/xv6-public/spinlock.c:71-86] the return addresses of the call stack
    whose saved-%ebp chain is read through [rd]. *)
Fixpoint getcallerpcs_from (rd : Z → Z) (n : nat) (ebp : Z) : list Z :=
  match n with
  | O => []
  | S n' =>
    if (ebp =? 0) || (ebp <? KERNBASE) || (ebp =? 0xffffffff)
    then replicate n 0
    else rd (wrap32 (ebp + 4)) :: getcallerpcs_from rd n' (rd ebp)
  end.
Definition getcallerpcs (rd : Z → Z) (v : Z) : list Z :=
  getcallerpcs_from rd 10 (wrap32 (v - 8)).

(** ** Behaviour *)

(** CPU number [i], in state [c], is the one that executes. *)
Definition oncpu (k : kernel) (i : nat) (c : cpu) : Prop :=
  list_find (λ c, c_apicid c = k_lapicid k) (k_cpus k) = Some (i, c).

Lemma oncpu_lookup k i c : oncpu k i c → k_cpus k !! i = Some c.
Proof. by intros (? & _)%list_find_Some. Qed.

Lemma oncpu_fun k i c i' c' : oncpu k i c → oncpu k i' c' → i = i' ∧ c = c'.
Proof. unfold oncpu. naive_solver. Qed.

(** An update of the executing CPU that keeps its APIC ID leaves it the
    executing one. *)
Lemma oncpu_alter k i c (f : cpu → cpu) :
  c_apicid (f c) = c_apicid c →
  oncpu k i c → oncpu (k <| k_cpus ::= alter f i |>) i (f c).
Proof.
  unfold oncpu. rsimpl. intros Hf (Hl & Hid & Hmin)%list_find_Some.
  apply list_find_Some. split_and!.
  - by rewrite list_lookup_alter_eq, Hl.
  - congruence.
  - intros j y Hj Hlt. rewrite list_lookup_alter_ne in Hj by lia. eauto.
Qed.

Lemma mycpu_ok e k i c :
  oncpu k i c → k_if k = false → mycpu e k = Ret i e k.
Proof.
  intros Hc Hif. unfold mycpu, mget. rewrite bind_eq, Hif.
  unfold oncpu in Hc. by rewrite Hc.
Qed.

Lemma mycpu_get_ok {A} (f : cpu → A) e k i c :
  oncpu k i c → k_if k = false → mycpu_get f e k = Ret (f c) e k.
Proof.
  intros Hc Hif. unfold mycpu_get, mget, deref.
  mgo (by eapply mycpu_ok).
  rewrite bind_eq. by rewrite (oncpu_lookup _ _ _ Hc).
Qed.

Lemma mycpu_upd_ok (f : cpu → cpu) e k i c :
  oncpu k i c → k_if k = false →
  mycpu_upd f e k = Ret tt e (k <| k_cpus ::= alter f i |>).
Proof.
  intros Hc Hif. unfold mycpu_upd. by mgo (by eapply mycpu_ok).
Qed.

(** The state in which the executing CPU [i] has record [c] and interrupt
    flag [b]. *)
Definition kcpu (i : nat) (c : cpu) (b : bool) (k : kernel) : kernel :=
  k <| k_cpus ::= <[i := c]> |> <| k_if := b |>.

Lemma kcpu_kcpu i c b c' b' k : kcpu i c b (kcpu i c' b' k) = kcpu i c b k.
Proof.
  unfold kcpu, upd, set_k_cpus, set_k_if; cbn. by rewrite list_insert_insert_eq.
Qed.

Lemma kcpu_eta k cs : cs = k_cpus k → k <| k_cpus := cs |> <| k_if := k_if k |> = k.
Proof. intros ->. by destruct k. Qed.

Lemma kcpu_id i c k : oncpu k i c → kcpu i c (k_if k) k = k.
Proof.
  intros Hc%oncpu_lookup. apply (kcpu_eta k (<[i := c]> (k_cpus k))).
  by apply list_insert_id.
Qed.

Lemma kcpu_oncpu i c c' b k :
  oncpu k i c → c_apicid c' = c_apicid c → oncpu (kcpu i c' b k) i c'.
Proof.
  intros Hc Hid. pose proof (oncpu_lookup _ _ _ Hc) as Hl.
  pose proof (oncpu_alter k i c (λ _, c') Hid Hc) as H.
  unfold oncpu, kcpu in *. rsimpl. rewrite <- H. f_equal.
  symmetry. by apply (list_alter_insert (λ _, c') _ _ c).
Qed.

Lemma kcpu_if i c b k : k_if (kcpu i c b k) = b.
Proof. done. Qed.

Lemma kcpu_lock i c b k lk : lock_of (kcpu i c b k) lk = lock_of k lk.
Proof. done. Qed.

Lemma alter_kcpu f i c k :
  oncpu k i c → k <| k_cpus ::= alter f i |> = kcpu i (f c) (k_if k) k.
Proof.
  intros Hc%oncpu_lookup. destruct k. unfold kcpu, upd, set_k_cpus, set_k_if.
  cbn in *. f_equal. by apply list_alter_insert.
Qed.

(** Interrupt nesting is consistent: interrupts are off inside a
    [pushcli]/[popcli] pair. *)
Definition cli_wf (k : kernel) (c : cpu) : Prop :=
  0 ≤ c_ncli c ∧ (c_ncli c ≠ 0 → k_if k = false).

(** What [pushcli] does to the CPU, with interrupt flag [b] before. *)
Definition push_cpu (b : bool) (c : cpu) : cpu :=
  (if c_ncli c =? 0 then c <| c_intena := b |> else c)
    <| c_ncli := c_ncli c + 1 |>.

(** What a matched pair leaves on the CPU. *)
Definition touch_cpu (b : bool) (c : cpu) : cpu :=
  if c_ncli c =? 0 then c <| c_intena := b |> else c.

Definition touch (i : nat) (c : cpu) (k : kernel) : kernel :=
  kcpu i (touch_cpu (k_if k) c) (k_if k) k.

Lemma push_cpu_apicid b c : c_apicid (push_cpu b c) = c_apicid c.
Proof. unfold push_cpu. by destruct (_ =? _). Qed.
Lemma push_cpu_ncli b c : c_ncli (push_cpu b c) = c_ncli c + 1.
Proof. unfold push_cpu. by destruct (_ =? _). Qed.
Lemma push_cpu_proc b c : c_proc (push_cpu b c) = c_proc c.
Proof. unfold push_cpu. by destruct (_ =? _). Qed.
Lemma touch_cpu_apicid b c : c_apicid (touch_cpu b c) = c_apicid c.
Proof. unfold touch_cpu. by destruct (_ =? _). Qed.
Lemma touch_cpu_ncli b c : c_ncli (touch_cpu b c) = c_ncli c.
Proof. unfold touch_cpu. by destruct (_ =? _). Qed.
Lemma touch_cpu_proc b c : c_proc (touch_cpu b c) = c_proc c.
Proof. unfold touch_cpu. by destruct (_ =? _). Qed.
Lemma touch_touch b c : touch_cpu b (touch_cpu b c) = touch_cpu b c.
Proof.
  unfold touch_cpu. destruct (c_ncli c =? 0) eqn:E; rsimpl; by rewrite E.
Qed.
Lemma touch_nested b c : c_ncli c ≠ 0 → touch_cpu b c = c.
Proof. intros. unfold touch_cpu. by rewrite (proj2 (Z.eqb_neq _ _)). Qed.

#[export] Hint Resolve mycpu_ok mycpu_get_ok mycpu_upd_ok kcpu_oncpu
  push_cpu_apicid touch_cpu_apicid : xv6.

Lemma pushcli_ok e k i c :
  oncpu k i c → pushcli e k = Ret tt e (kcpu i (push_cpu (k_if k) c) false k).
Proof.
  intros Hc. unfold pushcli, cli. msteps.
  set (k1 := k <| k_if := false |>).
  assert (Hc1 : oncpu k1 i c) by exact Hc.
  assert (k1 = kcpu i c false k) as E1 by exact (eq_sym (kcpu_id i c k1 Hc1)).
  mgo (by eapply mycpu_get_ok).
  unfold when, push_cpu. destruct (Z.eqb_spec (c_ncli c) 0) as [E|E].
  - mgo (by eapply mycpu_upd_ok). rewrite (alter_kcpu _ i c), E1 by done.
    set (c1 := c <| c_intena := k_if k |>).
    assert (oncpu (kcpu i c1 false k) i c1) as Hc2 by by eapply kcpu_oncpu.
    rewrite kcpu_kcpu. erewrite mycpu_upd_ok by done. f_equal.
    by rewrite (alter_kcpu _ i c1), kcpu_kcpu by done.
  - rewrite bind_ret_l. erewrite mycpu_upd_ok by done. f_equal.
    by rewrite (alter_kcpu _ i c), E1, kcpu_kcpu by done.
Qed.

Lemma popcli_ok e k i c :
  oncpu k i c → k_if k = false → 1 ≤ c_ncli c →
  popcli e k = Ret tt e
    (kcpu i (c <| c_ncli := c_ncli c - 1 |>) ((c_ncli c =? 1) && c_intena c) k).
Proof.
  intros Hc Hif Hn. unfold popcli. msteps. rewrite Hif.
  mgo (by eapply mycpu_upd_ok).
  rewrite (alter_kcpu _ i c), Hif by done.
  set (c' := c <| c_ncli ::= _ |>).
  assert (oncpu (kcpu i c' false k) i c') as Hc' by by eapply kcpu_oncpu.
  mgo (by eapply mycpu_get_ok).
  change (c_ncli c') with (c_ncli c - 1).
  destruct (Z.ltb_spec (c_ncli c - 1) 0); [lia|].
  mgo (by eapply mycpu_get_ok).
  change (c_intena c') with (c_intena c).
  replace (c_ncli c - 1 =? 0) with (c_ncli c =? 1) by lia.
  unfold when. destruct ((c_ncli c =? 1) && c_intena c); [|done].
  done.
Qed.

Lemma pop_push_cpu b c :
  0 ≤ c_ncli c → (c_ncli c ≠ 0 → b = false) → let c1 := push_cpu b c in
  c1 <| c_ncli := c_ncli c1 - 1 |> = touch_cpu b c ∧
  (c_ncli c1 =? 1) && c_intena c1 = b.
Proof.
  intros Hn Hif. unfold push_cpu, touch_cpu. destruct (Z.eqb_spec (c_ncli c) 0) as [E|E].
  - cbv zeta. rsimpl. rewrite E. split; [|done].
    destruct c; unfold upd, set_c_ncli, set_c_intena; cbn in *. by subst.
  - cbv zeta. rsimpl. rewrite Hif by done. split.
    + destruct c; unfold upd, set_c_ncli; cbn. f_equal. lia.
    + by replace (c_ncli c + 1 =? 1) with false by lia.
Qed.

(** After [pushcli], the matching [popcli] restores the interrupt flag. *)
Lemma pop_push e k i c :
  oncpu k i c → cli_wf k c →
  popcli e (kcpu i (push_cpu (k_if k) c) false k) = Ret tt e (touch i c k).
Proof.
  intros Hc [Hn Hif]. destruct (pop_push_cpu (k_if k) c Hn Hif) as [E1 E2].
  erewrite popcli_ok; [|eapply kcpu_oncpu; [done|apply push_cpu_apicid]|done|rewrite push_cpu_ncli; lia].
  by rewrite kcpu_kcpu, E1, E2.
Qed.

Lemma myproc_ok e k i c :
  oncpu k i c → cli_wf k c → myproc e k = Ret (c_proc c) e (touch i c k).
Proof.
  intros Hc Hw. unfold myproc. mgo (by eapply pushcli_ok).
  mgo (eapply mycpu_get_ok; [eapply kcpu_oncpu; [done|apply push_cpu_apicid]|done]).
  mgo (by eapply pop_push). by rewrite push_cpu_proc.
Qed.

(** A state that no matched pair changes: [c_intena], which only counts inside
    a pair, is what the next [pushcli] would make it. *)
Definition settled (k : kernel) (i : nat) (c : cpu) : Prop :=
  oncpu k i c ∧ cli_wf k c ∧ touch_cpu (k_if k) c = c.

Lemma touch_settled k i c : settled k i c → touch i c k = k.
Proof. intros (Hc & _ & E). unfold touch. rewrite E. by apply kcpu_id. Qed.

Lemma settled_touch k i c :
  oncpu k i c → cli_wf k c → settled (touch i c k) i (touch_cpu (k_if k) c).
Proof.
  intros Hc [Hn Hi]. split_and!.
  - apply (kcpu_oncpu i c); [done|apply touch_cpu_apicid].
  - split; rewrite touch_cpu_ncli; [done|exact Hi].
  - apply touch_touch.
Qed.

Lemma settled_inside k i c :
  oncpu k i c → k_if k = false → 1 ≤ c_ncli c → settled k i c.
Proof.
  intros Hc Hi Hn. split_and!; [done|split; [lia|done]|apply touch_nested; lia].
Qed.

Lemma myproc_settled e k i c : settled k i c → myproc e k = Ret (c_proc c) e k.
Proof.
  intros Hs. erewrite myproc_ok by apply Hs. by rewrite touch_settled.
Qed.

(** The lock is held by CPU [i]. *)
Definition held_by (k : kernel) (lk : lockid) (i : nat) : Prop :=
  truthy (sp_locked (lock_of k lk)) = true ∧ sp_cpu (lock_of k lk) = Some i.

(** The lock is initialised and free. *)
Definition lock_free (k : kernel) (lk : lockid) : Prop :=
  k_locks k !! lk = Some unlocked.

Lemma lock_free_of k lk : lock_free k lk → lock_of k lk = unlocked.
Proof. unfold lock_of. by intros ->. Qed.

Lemma holding_ok e k i c lk :
  oncpu k i c → cli_wf k c →
  holding lk e k =
  Ret (truthy (sp_locked (lock_of k lk)) &&
       bool_decide (sp_cpu (lock_of k lk) = Some i)) e (touch i c k).
Proof.
  intros Hc Hw. unfold holding. mgo (by eapply pushcli_ok). msteps.
  rewrite !kcpu_lock. destruct (truthy _); cbn.
  - rewrite bind_assoc. mgo (eapply mycpu_ok; [eapply kcpu_oncpu; [done|apply push_cpu_apicid]|done]).
    msteps. mgo (by eapply pop_push). done.
  - msteps. mgo (by eapply pop_push). done.
Qed.

Lemma holding_free e k i c lk :
  oncpu k i c → cli_wf k c → lock_free k lk →
  holding lk e k = Ret false e (touch i c k).
Proof. intros ?? Hl%lock_free_of. erewrite holding_ok by done. by rewrite Hl. Qed.

Lemma holding_held e k i c lk :
  oncpu k i c → cli_wf k c → held_by k lk i →
  holding lk e k = Ret true e (touch i c k).
Proof.
  intros ?? [Hl Hi]. erewrite holding_ok by done. rewrite Hl, Hi.
  by rewrite bool_decide_eq_true_2.
Qed.

Lemma cli_wf_push k i c :
  cli_wf k c → cli_wf (kcpu i (push_cpu (k_if k) c) false k) (push_cpu (k_if k) c).
Proof. intros []. split; [rewrite push_cpu_ncli; lia|done]. Qed.

Lemma touch_pushed i c k :
  oncpu k i c → cli_wf k c → let c1 := push_cpu (k_if k) c in
  touch i c1 (kcpu i c1 false k) = kcpu i c1 false k.
Proof.
  intros Hc [Hn _] c1. unfold touch. rewrite kcpu_kcpu.
  rewrite touch_nested; [done|]. unfold c1. rewrite push_cpu_ncli. lia.
Qed.

(** The state right after this CPU took the lock. *)
Definition acquired (i : nat) (c : cpu) (lk : lockid) (k : kernel) : kernel :=
  (kcpu i (push_cpu (k_if k) c) false k)
    <| k_locks ::= <[lk := Spinlock 1 (Some i)]> |>.

(** [acquire] of a free lock takes it, with interrupts off. *)
Lemma acquire_free e k i c lk :
  oncpu k i c → cli_wf k c → lock_free k lk →
  acquire lk e k = Ret tt e (acquired i c lk k).
Proof.
  intros Hc Hw Hl. unfold acquire. mgo (by eapply pushcli_ok).
  set (c1 := push_cpu (k_if k) c). set (k1 := kcpu i c1 false k).
  assert (oncpu k1 i c1) as Hc1 by (eapply kcpu_oncpu; [done|apply push_cpu_apicid]).
  mgo (eapply holding_free; [done|by apply cli_wf_push|exact Hl]).
  unfold k1, c1. rewrite touch_pushed by done. fold c1. fold k1.
  unfold xchg_locked, set_lock. rewrite bind_assoc. msteps. rewrite bind_assoc. msteps.
  change (lock_of k1 lk) with (lock_of k lk). rewrite lock_free_of by done. cbn.
  mgo (eapply mycpu_ok; [exact Hc1|done]). msteps. unfold modify.
  f_equal. unfold acquired. fold c1. fold k1.
  unfold upd, set_k_locks, lock_of; cbn. f_equal.
  by rewrite lookup_insert_eq, insert_insert_eq.
Qed.

(** [acquire] of a lock this CPU already holds panics. *)
Lemma acquire_held e k i c lk :
  oncpu k i c → cli_wf k c → held_by k lk i →
  ∃ k', acquire lk e k = Panic "acquire" k'.
Proof.
  intros Hc Hw Hl. unfold acquire. mgo (by eapply pushcli_ok).
  mgo (eapply holding_held; [eapply kcpu_oncpu; [done|apply push_cpu_apicid]|by apply cli_wf_push|exact Hl]).
  by eexists.
Qed.

(** [acquire] of a lock another CPU holds spins. *)
Lemma acquire_busy e k i c lk :
  oncpu k i c → cli_wf k c →
  sp_locked (lock_of k lk) = 1 → sp_cpu (lock_of k lk) ≠ Some i →
  ∃ k', acquire lk e k = Blocked k'.
Proof.
  intros Hc Hw Hl Hi. unfold acquire. mgo (by eapply pushcli_ok).
  mgo (eapply holding_ok; [eapply kcpu_oncpu; [done|apply push_cpu_apicid]|by apply cli_wf_push]).
  rewrite touch_pushed, !kcpu_lock, bool_decide_eq_false_2, andb_false_r by done.
  unfold xchg_locked, set_lock. rewrite bind_assoc. msteps. rewrite bind_assoc. msteps.
  rewrite kcpu_lock, Hl. cbn. by eexists.
Qed.

Lemma release_held e k i c lk :
  oncpu k i c → k_if k = false → 1 ≤ c_ncli c → held_by k lk i →
  release lk e k = Ret tt e
    ((kcpu i (c <| c_ncli := c_ncli c - 1 |>) ((c_ncli c =? 1) && c_intena c) k)
       <| k_locks ::= <[lk := unlocked]> |>).
Proof.
  intros Hc Hif Hn Hl. unfold release.
  mgo (eapply holding_held; [done|split; [lia|done]|done]). cbn.
  unfold touch. rewrite touch_nested, kcpu_id by (done || lia).
  unfold set_lock. msteps. erewrite popcli_ok; [|exact Hc|exact Hif|done].
  f_equal. unfold kcpu, upd, set_k_locks, set_k_cpus, set_k_if, lock_of; cbn.
  f_equal. by rewrite lookup_insert_eq, insert_insert_eq.
Qed.

(** [release] of a lock this CPU does not hold panics. *)
Lemma release_not_held e k i c lk :
  oncpu k i c → cli_wf k c → ¬ held_by k lk i →
  ∃ k', release lk e k = Panic "release" k'.
Proof.
  intros Hc Hw Hl. unfold release. mgo (by eapply holding_ok).
  unfold held_by in Hl. destruct (truthy _); [|by eexists].
  rewrite bool_decide_eq_false_2 by naive_solver. by eexists.
Qed.

(** ** Framing

    The operations of this file touch the synchronization state only. *)

(** What of the CPUs this file never changes: which is which, and what each
    runs. *)
Definition cpu_ids (cs : list cpu) : list (Z * option nat) :=
  (λ c, (c_apicid c, c_proc c)) <$> cs.

(** [g] does not look at the synchronization state, except [cpu_ids]. *)
Class SyncFrame {B} (g : kernel → B) : Prop := {
  sync_cpus k f : (∀ cs, cpu_ids (f cs) = cpu_ids cs) → g (k <| k_cpus ::= f |>) = g k;
  sync_if k f : g (k <| k_if ::= f |>) = g k;
  sync_locks k f : g (k <| k_locks ::= f |>) = g k }.
#[export] Hint Extern 2 (SyncFrame _) => split; reflexivity : typeclass_instances.
#[export] Hint Extern 0 (SyncFrame _) => apply _ : steady quiet.

Lemma cpu_ids_alter (f : cpu → cpu) i cs :
  (∀ c, c_apicid (f c) = c_apicid c ∧ c_proc (f c) = c_proc c) →
  cpu_ids (alter f i cs) = cpu_ids cs.
Proof.
  intros H. apply list_eq. intros j. unfold cpu_ids. rewrite !list_lookup_fmap.
  destruct (decide (i = j)) as [->|]; [|by rewrite list_lookup_alter_ne].
  rewrite list_lookup_alter_eq. destruct (cs !! j) as [c|]; [|done]. cbn.
  by destruct (H c) as [-> ->].
Qed.

Section frame.
Context {B : Type} (b : bool) (g : kernel → B) `{!SyncFrame g}.

Lemma steady_mycpu : steady b g mycpu.
Proof. unfold mycpu. solve_steady. Qed.
#[local] Hint Resolve steady_mycpu : steady.
Lemma steady_mycpu_get {A} (f : cpu → A) : steady b g (mycpu_get f).
Proof. unfold mycpu_get. solve_steady. Qed.
Lemma steady_mycpu_upd f :
  (∀ c, c_apicid (f c) = c_apicid c ∧ c_proc (f c) = c_proc c) → steady b g (mycpu_upd f).
Proof.
  intros H. unfold mycpu_upd. solve_steady. apply steady_modify. intros k.
  apply sync_cpus. intros cs. by apply cpu_ids_alter.
Qed.
#[local] Hint Resolve @steady_mycpu_get : steady.
#[local] Hint Extern 1 (steady _ _ (mycpu_upd _)) =>
  by (apply steady_mycpu_upd; try apply _) : steady.
Lemma steady_cli : steady b g cli.
Proof. apply steady_modify. intros. apply sync_if. Qed.
Lemma steady_sti : steady b g sti.
Proof. apply steady_modify. intros. apply sync_if. Qed.
Lemma steady_set_lock lk l : steady b g (set_lock lk l).
Proof. apply steady_modify. intros. apply sync_locks. Qed.
#[local] Hint Resolve steady_cli steady_sti steady_set_lock : steady.
Lemma steady_pushcli : steady b g pushcli.
Proof. unfold pushcli. solve_steady. Qed.
Lemma steady_popcli : steady b g popcli.
Proof. unfold popcli. solve_steady. Qed.
#[local] Hint Resolve steady_pushcli steady_popcli : steady.
Lemma steady_myproc : steady b g myproc.
Proof. unfold myproc. solve_steady. Qed.
Lemma steady_holding lk : steady b g (holding lk).
Proof. unfold holding. solve_steady. Qed.
#[local] Hint Resolve steady_holding : steady.
Lemma steady_release lk : steady b g (release lk).
Proof. unfold release. solve_steady. Qed.
Lemma steady_initlock lk : steady b g (initlock lk).
Proof. unfold initlock. solve_steady. Qed.
End frame.
#[export] Hint Resolve steady_mycpu @steady_mycpu_get steady_cli steady_sti steady_set_lock
  steady_pushcli steady_popcli steady_myproc steady_holding steady_release
  steady_initlock : steady.
#[export] Hint Extern 1 (steady _ _ (mycpu_upd _)) =>
  by (apply steady_mycpu_upd; try apply _) : steady.

Lemma steady_acquire {B} (g : kernel → B) `{!SyncFrame g} lk : steady true g (acquire lk).
Proof. unfold acquire, xchg_locked. solve_steady. Qed.
#[export] Hint Resolve steady_acquire : steady.

(** ** Critical sections

    A section of code between [acquire] and [release] works on the data of
    the kernel; the state of the CPUs, the interrupt flag and the locks are
    back when the lock is released. *)

(** [k] with the synchronization state replaced. *)
Definition ksync (cs : list cpu) (b : bool) (ls : gmap lockid spinlock)
  (k : kernel) : kernel := k <| k_cpus := cs |> <| k_if := b |> <| k_locks := ls |>.

Definition same_sync (k k' : kernel) : Prop :=
  k_lapicid k = k_lapicid k' ∧ k_cpus k = k_cpus k' ∧ k_if k = k_if k' ∧
  k_locks k = k_locks k'.

Lemma same_sync_oncpu k k' i c : same_sync k k' → oncpu k' i c → oncpu k i c.
Proof. intros (El & Ec & _ & _). unfold oncpu. by rewrite El, Ec. Qed.

Lemma same_sync_held k k' lk i : same_sync k k' → held_by k' lk i → held_by k lk i.
Proof. intros (_ & _ & _ & El). unfold held_by, lock_of. by rewrite El. Qed.

Lemma acquired_oncpu i c lk k :
  oncpu k i c → oncpu (acquired i c lk k) i (push_cpu (k_if k) c).
Proof. intros. exact (kcpu_oncpu i c (push_cpu (k_if k) c) false k H (push_cpu_apicid _ _)). Qed.

Lemma acquired_held i c lk k : held_by (acquired i c lk k) lk i.
Proof.
  unfold held_by, acquired, lock_of. rsimpl. by rewrite lookup_insert_eq.
Qed.

Lemma release_acquired e k2 k i c lk :
  oncpu k i c → cli_wf k c → lock_free k lk → same_sync k2 (acquired i c lk k) →
  release lk e k2 =
  Ret tt e (ksync (k_cpus (touch i c k)) (k_if k) (k_locks k) k2).
Proof.
  intros Hc Hw Hl Hs.
  pose proof (same_sync_oncpu _ _ _ _ Hs (acquired_oncpu i c lk k Hc)) as Hc2.
  pose proof (same_sync_held _ _ _ _ Hs (acquired_held i c lk k)) as Hh2.
  destruct Hs as (_ & Ec & Ei & Els).
  erewrite release_held; [|exact Hc2|by rewrite Ei|rewrite push_cpu_ncli; destruct Hw; lia|exact Hh2].
  destruct Hw as [Hn Hif]. destruct (pop_push_cpu (k_if k) c Hn Hif) as [-> ->].
  f_equal. unfold ksync, touch, kcpu, upd, set_k_cpus, set_k_if, set_k_locks; cbn.
  assert (k_cpus k2 = <[i := push_cpu (k_if k) c]> (k_cpus k)) as -> by (by rewrite Ec).
  assert (k_locks k2 = <[lk := Spinlock 1 (Some i)]> (k_locks k)) as -> by (by rewrite Els).
  by rewrite list_insert_insert_eq, insert_insert_eq, insert_id.
Qed.

Lemma ksync_acquired i c lk k :
  ksync (k_cpus (touch i c k)) (k_if k) (k_locks k) (acquired i c lk k) = touch i c k.
Proof. reflexivity. Qed.

Lemma ksync_upd {T} (p : kernel → T) (s : Setter p) :
  (∀ cs b ls f k, ksync cs b ls (@upd _ _ p s f k) = @upd _ _ p s f (ksync cs b ls k)) →
  ∀ cs b ls f k, ksync cs b ls (@upd _ _ p s f k) = @upd _ _ p s f (ksync cs b ls k).
Proof. done. Qed.

(** [ksync_push] moves the updates of data out of [ksync]. *)
Ltac ksync_push :=
  repeat match goal with
  | |- context [ksync ?cs ?b ?ls (@upd _ _ ?p ?s ?f ?k)] =>
    rewrite (ksync_upd p s (λ _ _ _ _ _, eq_refl) cs b ls f k)
  end; rewrite ?ksync_acquired.

(** [ksimpl] reduces every projection that the synchronization state does not
    touch. *)
Ltac ksimpl_step :=
  match goal with
  | |- context [?p (touch ?i ?c ?k)] => progress change (p (touch i c k)) with (p k)
  | |- context [?p (kcpu ?i ?c ?b ?k)] => progress change (p (kcpu i c b k)) with (p k)
  | |- context [?p (acquired ?i ?c ?l ?k)] =>
    progress change (p (acquired i c l k)) with (p k)
  | |- context [?p (ksync ?c ?b ?l ?k)] => progress change (p (ksync c b l k)) with (p k)
  end.
Ltac ksimpl := repeat (rsimpl_step || ksimpl_step).

Lemma same_sync_settled k k' i c : same_sync k k' → settled k' i c → settled k i c.
Proof.
  intros Hk (Hc & Hw & E). pose proof (same_sync_oncpu _ _ _ _ Hk Hc) as Hc'.
  destruct Hk as (_ & Ec & Ei & El).
  split_and!; [done|unfold cli_wf in *; by rewrite Ei|by rewrite Ei].
Qed.

Lemma same_sync_free k k' lk : same_sync k k' → lock_free k' lk → lock_free k lk.
Proof. intros (_ & _ & _ & El) H. unfold lock_free in *. by rewrite El. Qed.

Lemma acquired_settled i c lk k :
  oncpu k i c → cli_wf k c → settled (acquired i c lk k) i (push_cpu (k_if k) c).
Proof.
  intros Hc Hw. apply settled_inside; [by apply acquired_oncpu|done|].
  rewrite push_cpu_ncli. destruct Hw. lia.
Qed.

Lemma acquired_free i c lk k lk' :
  lk ≠ lk' → lock_free k lk' → lock_free (acquired i c lk k) lk'.
Proof.
  intros Hne Hl. unfold lock_free in *.
  change (<[lk := Spinlock 1 (Some i)]> (k_locks k) !! lk' = Some unlocked).
  by rewrite lookup_insert_ne.
Qed.

(** Release in a settled state: the data that changed inside the section. *)
Lemma release_settled e k2 k i c lk :
  settled k i c → lock_free k lk → same_sync k2 (acquired i c lk k) →
  release lk e k2 = Ret tt e (ksync (k_cpus k) (k_if k) (k_locks k) k2).
Proof.
  intros Hs Hl Hk. erewrite release_acquired; [|apply Hs|apply Hs|done|done].
  by rewrite touch_settled.
Qed.

Lemma ksync_acquired_settled i c lk k :
  settled k i c → ksync (k_cpus k) (k_if k) (k_locks k) (acquired i c lk k) = k.
Proof.
  intros Hs. pose proof (ksync_acquired i c lk k) as E.
  by rewrite (touch_settled k i c Hs) in E.
Qed.

(** C27 A critical section: between [acquire] and [release] of a free lock the
    lock is held by this CPU with interrupts off, and whatever the section
    computes on the rest of the state is returned with the CPU's nesting
    depth, the interrupt flag and every lock exactly as before. *)
Theorem critical_section {A} (body : KM A) e k i c lk a e' k' :
  oncpu k i c → cli_wf k c → lock_free k lk →
  body e (acquired i c lk k) = Ret a e' k' →
  same_sync k' (acquired i c lk k) →
  held_by (acquired i c lk k) lk i ∧ k_if (acquired i c lk k) = false ∧
  (acquire lk;; x ← body; release lk;; mret x) e k =
    Ret a e' (ksync (k_cpus (touch i c k)) (k_if k) (k_locks k) k').
Proof.
  intros Hc Hw Hl Hb Hs. split; [apply acquired_held|]. split; [done|].
  mgo (by eapply acquire_free). mgo (exact Hb). by mgo (by eapply release_acquired).
Qed.

(** ** Racing CPUs *)

Module Xchg.

(** Where a CPU is in [acquire]/[release] of one lock. *)
Inductive pc :=
  | Outside        (** not using the lock *)
  | Spinning       (** in [while(xchg(&lk->locked, 1) != 0)] *)
  | GotWord        (** [xchg] returned 0; [lk->cpu = mycpu()] is next *)
  | Critical       (** [acquire] has returned *)
  | Clearing.      (** [lk->cpu = 0] done; [movl $0, lk->locked] is next *)

Record state := State { locked : Z; owner : option nat; pcs : list pc }.

(** [src/xv6-public/spinlock.c:24-68] one atomic memory access of one CPU. *)
Inductive step : state → state → Prop :=
  | step_enter l o ps i :
      ps !! i = Some Outside → ¬ (truthy l = true ∧ o = Some i) →
      step (State l o ps) (State l o (<[i := Spinning]> ps))
  | step_xchg l o ps i :
      ps !! i = Some Spinning →
      step (State l o ps)
           (State 1 o (<[i := if truthy l then Spinning else GotWord]> ps))
  | step_setcpu l o ps i :
      ps !! i = Some GotWord →
      step (State l o ps) (State l (Some i) (<[i := Critical]> ps))
  | step_clear l o ps i :
      ps !! i = Some Critical → truthy l = true ∧ o = Some i →
      step (State l o ps) (State l None (<[i := Clearing]> ps))
  | step_unlock l o ps i :
      ps !! i = Some Clearing →
      step (State l o ps) (State 0 o (<[i := Outside]> ps)).

Definition init (ncpu : nat) : state := State 0 None (replicate ncpu Outside).

Inductive reachable (ncpu : nat) : state → Prop :=
  | reach_init : reachable ncpu (init ncpu)
  | reach_step s s' : reachable ncpu s → step s s' → reachable ncpu s'.

(** The CPU owns the lock word. *)
Definition owns (p : pc) : Prop :=
  match p with GotWord | Critical | Clearing => True | _ => False end.

(** The invariant: the lock word is 0 or 1, it is 0 exactly when no CPU owns
    it, at most one CPU owns it, and [lk->cpu] names the CPU that is between
    the two writes of [lk->cpu]. *)
Record inv (s : state) : Prop := {
  inv_word : locked s = 0 ∨ locked s = 1;
  inv_free : locked s = 0 → ∀ i p, pcs s !! i = Some p → ¬ owns p;
  inv_one : ∀ i j p q, pcs s !! i = Some p → pcs s !! j = Some q →
    owns p → owns q → i = j;
  inv_owner : ∀ i, owner s = Some i ↔ pcs s !! i = Some Critical
}.

Lemma inv_init n : inv (init n).
Proof.
  split; cbn; [by left|..].
  - intros _ i p [-> _]%lookup_replicate. by intros [].
  - by intros i j p q [-> _]%lookup_replicate.
  - intros i. split; [done|]. by intros [? _]%lookup_replicate.
Qed.

Ltac insert_cases :=
  repeat match goal with
  | H : <[_ := _]> _ !! _ = Some _ |- _ =>
    apply list_lookup_insert_Some in H as [(?&?&?)|[??]]; subst
  end.

Lemma critical_insert (ps : list pc) (i j : nat) p q :
  ps !! i = Some p → p ≠ Critical → q ≠ Critical →
  <[i := q]> ps !! j = Some Critical ↔ ps !! j = Some Critical.
Proof.
  intros Hi Hp Hq. rewrite list_lookup_insert_Some.
  destruct (decide (i = j)) as [->|]; naive_solver.
Qed.

Lemma inv_step s s' : inv s → step s s' → inv s'.
Proof.
  intros [Hw Hf H1 Ho] Hs.
  destruct Hs as [l o ps i Hi Hn|l o ps i Hi|l o ps i Hi|l o ps i Hi [Ht ->]|l o ps i Hi];
    cbn in *; pose proof (lookup_lt_Some _ _ _ Hi) as Hlt.
  - split; cbn; [done|..].
    + intros Hl j p Hj. insert_cases; [by intros []|eauto].
    + intros j j' p q Hj Hj' Hp Hq. insert_cases; try done. eauto.
    + intros j. by rewrite Ho, critical_insert.
  - unfold truthy. destruct Hw as [->| ->]; cbn.
    + split; cbn; [by right|done|..].
      * intros j j' p q Hj Hj' Hp Hq.
        insert_cases; [done|exfalso; eapply (Hf eq_refl); eauto..].
      * intros j. by rewrite Ho, critical_insert.
    + split; cbn; [by right|done|..].
      * intros j j' p q Hj Hj' Hp Hq. insert_cases; try done. eauto.
      * intros j. by rewrite Ho, critical_insert.
  - split; cbn; [done|..].
    + intros ->. exfalso. by eapply (Hf eq_refl i).
    + intros j j' p q Hj Hj' Hp Hq.
      insert_cases; [done|..|by eauto].
      * eapply (H1 _ _ _ GotWord); [eassumption|exact Hi|done|done].
      * eapply (H1 _ _ GotWord); [exact Hi|eassumption|done|done].
    + intros j. rewrite list_lookup_insert_Some. split; [naive_solver|].
      intros [(->&_&_)|[Hij Hj]]; [done|]. destruct Hij. by eapply (H1 i j GotWord Critical).
  - split; cbn; [done|..].
    + intros ->. done.
    + intros j j' p q Hj Hj' Hp Hq.
      insert_cases; [done|..|by eauto].
      * eapply (H1 _ _ _ Critical); [eassumption|exact Hi|done|done].
      * eapply (H1 _ _ Critical); [exact Hi|eassumption|done|done].
    + intros j. rewrite list_lookup_insert_Some. split; [done|].
      intros [(_&?&_)|[Hij Hj]]; [done|]. destruct Hij. by eapply (H1 i j Critical Critical).
  - split; cbn; [by left|..].
    + intros _ j p Hj Hp. insert_cases; [done|].
      by eapply (H1 i j Clearing p) in Hp.
    + intros j j' p q Hj Hj' Hp Hq. insert_cases; try done. eauto.
    + intros j. by rewrite Ho, critical_insert.
Qed.

Lemma inv_reachable n s : reachable n s → inv s.
Proof. induction 1; eauto using inv_init, inv_step. Qed.

(** C26 Mutual exclusion: however the CPUs interleave, at most one is between
    [acquire] and [release]; and the test of [holding] is exact at every
    instant, also between the two writes of [acquire] and of [release], so
    the sanity checks of both never panic on a CPU that uses them in turn. *)
Theorem mutual_exclusion ncpu s :
  reachable ncpu s →
  (∀ i j, pcs s !! i = Some Critical → pcs s !! j = Some Critical → i = j) ∧
  (∀ i, truthy (locked s) = true ∧ owner s = Some i ↔ pcs s !! i = Some Critical).
Proof.
  intros [Hw Hf H1 Ho]%inv_reachable. split.
  - intros i j Hi Hj. by eapply (H1 i j Critical Critical).
  - intros i. rewrite Ho. split; [naive_solver|]. intros Hi. split; [|done].
    destruct Hw as [E| ->]; [|done]. exfalso. by eapply (Hf E i).
Qed.

(** Two CPUs race; CPU 1 wins while CPU 0 spins. *)
Definition race : state := State 1 (Some 1%nat) [Spinning; Critical].

Lemma race_reachable : reachable 2 race.
Proof.
  eapply reach_step; [|by apply (step_setcpu 1 None [Spinning; GotWord] 1)].
  eapply reach_step; [|by apply (step_xchg 1 None [Spinning; GotWord] 0)].
  eapply reach_step; [|by apply (step_xchg 0 None [Spinning; Spinning] 1)].
  eapply reach_step; [|by apply (step_enter 0 None [Outside; Spinning] 0); [|intros []]].
  eapply reach_step; [|by apply (step_enter 0 None [Outside; Outside] 1); [|intros []]].
  apply reach_init.
Qed.

Lemma mutual_exclusion_witness :
  truthy (locked race) = true ∧ owner race = Some 1%nat.
Proof. apply (mutual_exclusion 2 race race_reachable). reflexivity. Defined.

End Xchg.

(** The state of [wakeup] on an idle kernel, for the witnesses. *)
Lemma critical_section_witness :
  (acquire LkTicks;; x ← gets k_ticks; release LkTicks;; mret x) [] zero_kernel =
  Ret 0 [] zero_kernel.
Proof.
  refine (proj2 (proj2 (critical_section (gets k_ticks) [] zero_kernel 0
    (Cpu 0 0 true 0 false None) LkTicks 0 [] _ _ _ _ eq_refl _))).
  - reflexivity.
  - split; [cbn; lia|done].
  - reflexivity.
  - done.
Defined.
