(* ===== verification/Mem.v ===== *)
(** * Byte memory and the string routines (string.c)

    Memory is a finite map from addresses to bytes; an address with no entry
    reads as zero.  The routines of string.c are translated loop by loop and
    proved against reference definitions: [memset] and [memmove] against the
    range update they perform (with every overlap), the string routines
    against the NUL-terminated list of bytes a pointer denotes. *)

From S2P Require Import Prelude.

Abbreviation mem := (gmap Z Z).

Definition rd (m : mem) (a : Z) : Z := default 0 (m !! a).
Definition wr (m : mem) (a v : Z) : mem := <[a := v mod 256]> m.

(** Every byte of memory is a byte. *)
Definition bytes_ok (m : mem) : Prop := ∀ a, 0 ≤ rd m a < 256.

Lemma rd_wr m a v b : rd (wr m a v) b = if decide (a = b) then v mod 256 else rd m b.
Proof. unfold rd, wr. rewrite lookup_insert. by case_decide. Qed.
Lemma rd_wr_eq m a v : rd (wr m a v) a = v mod 256.
Proof. rewrite rd_wr. by rewrite decide_True. Qed.
Lemma rd_wr_ne m a v b : a ≠ b → rd (wr m a v) b = rd m b.
Proof. intros. rewrite rd_wr. by rewrite decide_False. Qed.
Lemma wr_bytes_ok m a v : bytes_ok m → bytes_ok (wr m a v).
Proof. intros H b. rewrite rd_wr. case_decide; [apply Z.mod_pos_bound; lia|apply H]. Qed.

(** ** 32-bit words, little endian *)

Definition ld32 (m : mem) (a : Z) : Z :=
  rd m a + 256 * (rd m (a + 1) + 256 * (rd m (a + 2) + 256 * rd m (a + 3))).
Definition st32 (m : mem) (a v : Z) : mem :=
  wr (wr (wr (wr m a v) (a + 1) (v / 256)) (a + 2) (v / 65536)) (a + 3) (v / 16777216).

Lemma st32_bytes_ok m a v : bytes_ok m → bytes_ok (st32 m a v).
Proof. intros. by repeat apply wr_bytes_ok. Qed.

Lemma rd_st32_ne m a v b : b < a ∨ a + 4 ≤ b → rd (st32 m a v) b = rd m b.
Proof. intros. unfold st32. by rewrite !rd_wr_ne by lia. Qed.

Lemma rd_st32 m a v i :
  0 ≤ i < 4 → rd (st32 m a v) (a + i) = v / 256 ^ i mod 256.
Proof.
  intros. unfold st32.
  assert (i = 0 ∨ i = 1 ∨ i = 2 ∨ i = 3) as [->|[->|[->| ->]]] by lia.
  - rewrite !rd_wr_ne by lia. replace (a + 0) with a by lia.
    by rewrite rd_wr_eq, Z.div_1_r.
  - by rewrite !rd_wr_ne, rd_wr_eq by lia.
  - by rewrite !rd_wr_ne, rd_wr_eq by lia.
  - by rewrite rd_wr_eq.
Qed.

Lemma ld32_st32_eq m a v : ld32 (st32 m a v) a = wrap32 v.
Proof.
  unfold ld32. replace (rd (st32 m a v) a) with (v / 256 ^ 0 mod 256)
    by (rewrite <- (rd_st32 m a v 0) by lia; f_equal; lia).
  rewrite !rd_st32 by lia. unfold wrap32. change (256 ^ 0) with 1.
  change (256 ^ 1) with 256. change (256 ^ 2) with (256 * 256).
  change (256 ^ 3) with (256 * 256 * 256). change (2 ^ 32) with (256 * (256 * (256 * 256))).
  rewrite Z.div_1_r, <- !Z.div_div by lia.
  rewrite (Z.rem_mul_r v 256 (256 * (256 * 256))) by lia.
  rewrite (Z.rem_mul_r (v / 256) 256 (256 * 256)) by lia.
  rewrite (Z.rem_mul_r (v / 256 / 256) 256 256) by lia. lia.
Qed.

Lemma ld32_st32_ne m a v b :
  b + 4 ≤ a ∨ a + 4 ≤ b → ld32 (st32 m a v) b = ld32 m b.
Proof. intros. unfold ld32. by rewrite !rd_st32_ne by lia. Qed.

Lemma ld32_range m a : bytes_ok m → is_u32 (ld32 m a).
Proof.
  intros H. pose proof (H a). pose proof (H (a + 1)). pose proof (H (a + 2)).
  pose proof (H (a + 3)). unfold is_u32, ld32. lia.
Qed.

Lemma ld32_ext m m' a :
  (∀ i, 0 ≤ i < 4 → rd m (a + i) = rd m' (a + i)) → ld32 m a = ld32 m' a.
Proof.
  intros H. unfold ld32. rewrite (H 1), (H 2), (H 3) by lia.
  specialize (H 0). rewrite !Z.add_0_r in H. by rewrite H by lia.
Qed.

(** ** memset *)

(** [src/xv6-public/x86.h:42-49] [rep stosb] *)
Fixpoint stosb (m : mem) (a data : Z) (cnt : nat) : mem :=
  match cnt with
  | O => m
  | S cnt => stosb (wr m a data) (a + 1) data cnt
  end.

(** [src/xv6-public/x86.h:51-58] [rep stosl] *)
Fixpoint stosl (m : mem) (a data : Z) (cnt : nat) : mem :=
  match cnt with
  | O => m
  | S cnt => stosl (st32 m a data) (a + 4) data cnt
  end.

(** [src/xv6-public/string.c:4-13] *)
Definition memset (m : mem) (dst c n : Z) : mem :=
  if (dst mod 4 =? 0) && (n mod 4 =? 0) then
    let c := Z.land c 0xFF in
    let w := Z.lor (Z.lor (Z.lor (Z.shiftl c 24) (Z.shiftl c 16)) (Z.shiftl c 8)) c in
    stosl m dst w (Z.to_nat (n / 4))
  else stosb m dst c (Z.to_nat n).

Lemma stosb_spec cnt m a data b :
  rd (stosb m a data cnt) b =
  if decide (a ≤ b < a + Z.of_nat cnt) then data mod 256 else rd m b.
Proof.
  revert m a. induction cnt as [|cnt IH]; intros m a; cbn [stosb].
  - rewrite decide_False by lia. done.
  - rewrite IH, rd_wr. repeat case_decide; try done; lia.
Qed.

Lemma fill_word c i :
  0 ≤ c < 256 → 0 ≤ i < 4 →
  Z.lor (Z.lor (Z.lor (Z.shiftl c 24) (Z.shiftl c 16)) (Z.shiftl c 8)) c
    / 256 ^ i mod 256 = c.
Proof.
  intros Hc Hi. apply Z.eqb_eq. revert i Hi. apply range_forallb. revert c Hc.
  apply range_forallb. vm_compute. reflexivity.
Qed.

Lemma stosl_fill cnt m a c b :
  0 ≤ c < 256 →
  rd (stosl m a (Z.lor (Z.lor (Z.lor (Z.shiftl c 24) (Z.shiftl c 16))
        (Z.shiftl c 8)) c) cnt) b =
  if decide (a ≤ b < a + 4 * Z.of_nat cnt) then c else rd m b.
Proof.
  intros Hc. revert m a. induction cnt as [|cnt IH]; intros m a; cbn [stosl].
  - by rewrite decide_False by lia.
  - rewrite IH. destruct (decide (a ≤ b < a + 4)) as [Hb|Hb].
    + rewrite (decide_True _ _ (P := a ≤ b < a + 4 * _)) by lia. case_decide; [done|].
      replace b with (a + (b - a)) by lia. by rewrite rd_st32, fill_word by lia.
    + rewrite rd_st32_ne by lia. repeat case_decide; done || lia.
Qed.

(** [memset] fills the range it is given, whichever of its two loops it
    takes: all of [dst, dst + n) reads as the byte [c], nothing else changes. *)
Lemma memset_spec m dst c n b :
  0 ≤ n →
  rd (memset m dst c n) b =
  if decide (dst ≤ b < dst + n) then c mod 256 else rd m b.
Proof.
  intros Hn. unfold memset. destruct ((dst mod 4 =? 0) && (n mod 4 =? 0)) eqn:E.
  - change 0xFF with (Z.ones 8). rewrite Z.land_ones by lia. change (2 ^ 8) with 256.
    rewrite stosl_fill by (apply Z.mod_pos_bound; lia).
    assert (4 * (n / 4) = n) by (apply andb_true_iff in E as [_ E]; apply Z.eqb_eq in E; dlia).
    rewrite Z2Nat.id by dlia. by replace (4 * (n / 4)) with n.
  - by rewrite stosb_spec, Z2Nat.id by lia.
Qed.

Lemma memset_ld32_zero m dst n a :
  0 ≤ n → dst ≤ a → a + 4 ≤ dst + n → ld32 (memset m dst 0 n) a = 0.
Proof.
  intros. unfold ld32. rewrite !memset_spec, !decide_True by lia. done.
Qed.

Lemma memset_ld32_ne m dst c n a :
  0 ≤ n → a + 4 ≤ dst ∨ dst + n ≤ a → ld32 (memset m dst c n) a = ld32 m a.
Proof.
  intros. apply ld32_ext. intros i Hi. by rewrite memset_spec, decide_False by lia.
Qed.

Lemma memset_bytes_ok m dst c n : 0 ≤ n → bytes_ok m → bytes_ok (memset m dst c n).
Proof.
  intros Hn H b. rewrite memset_spec by done.
  case_decide; [apply Z.mod_pos_bound; lia|apply H].
Qed.

(** ** memcmp, memmove *)

(** [src/xv6-public/string.c:15-29] *)
Fixpoint memcmp_n (m : mem) (s1 s2 : Z) (n : nat) : Z :=
  match n with
  | O => 0
  | S n =>
    if negb (rd m s1 =? rd m s2) then rd m s1 - rd m s2
    else memcmp_n m (s1 + 1) (s2 + 1) n
  end.
Definition memcmp (m : mem) (v1 v2 n : Z) : Z := memcmp_n m v1 v2 (Z.to_nat n).

(** The two loops of [memmove]: [*d++ = *s++] and [*--d = *--s]. *)
Fixpoint copy_up (m : mem) (d s : Z) (n : nat) : mem :=
  match n with
  | O => m
  | S n => copy_up (wr m d (rd m s)) (d + 1) (s + 1) n
  end.
Fixpoint copy_down (m : mem) (d s : Z) (n : nat) : mem :=
  match n with
  | O => m
  | S n => copy_down (wr m (d - 1) (rd m (s - 1))) (d - 1) (s - 1) n
  end.

(** [src/xv6-public/string.c:31-49] *)
Definition memmove (m : mem) (dst src n : Z) : mem :=
  if (src <? dst) && (dst <? src + n)
  then copy_down m (dst + n) (src + n) (Z.to_nat n)
  else copy_up m dst src (Z.to_nat n).

(** [src/xv6-public/string.c:51-56] *)
Definition memcpy (m : mem) (dst src n : Z) : mem := memmove m dst src n.

(** The [n] bytes at [a]. *)
Fixpoint rdn (m : mem) (a : Z) (n : nat) : list Z :=
  match n with O => [] | S n => rd m a :: rdn m (a + 1) n end.

Lemma length_rdn m a n : length (rdn m a n) = n.
Proof. revert a. induction n; intros; cbn; auto. Qed.

Lemma lookup_rdn m a n i :
  (i < n)%nat → rdn m a n !! i = Some (rd m (a + Z.of_nat i)).
Proof.
  revert a i. induction n as [|n IH]; intros a i Hi; [lia|]. destruct i as [|i]; cbn.
  - do 2 f_equal. lia.
  - rewrite IH by lia. do 2 f_equal. lia.
Qed.

Lemma memcmp_spec m v1 v2 n :
  memcmp m v1 v2 n = 0 ↔ rdn m v1 (Z.to_nat n) = rdn m v2 (Z.to_nat n).
Proof.
  unfold memcmp. generalize (Z.to_nat n). clear n. intros n. revert v1 v2.
  induction n as [|n IH]; intros v1 v2; cbn [memcmp_n rdn]; [done|].
  destruct (Z.eqb_spec (rd m v1) (rd m v2)) as [E|E]; cbn [negb].
  - rewrite IH, E. split; congruence.
  - split; [lia|]. by intros [= ? _].
Qed.

Lemma copy_up_out n m d s b :
  b < d ∨ d + Z.of_nat n ≤ b → rd (copy_up m d s n) b = rd m b.
Proof.
  revert m d s. induction n as [|n IH]; intros m d s Hb; cbn [copy_up]; [done|].
  rewrite IH, rd_wr_ne by lia. done.
Qed.

Lemma copy_up_spec n m d s b :
  bytes_ok m → d ≤ s ∨ s + Z.of_nat n ≤ d →
  rd (copy_up m d s n) b =
  if decide (d ≤ b < d + Z.of_nat n) then rd m (s + (b - d)) else rd m b.
Proof.
  revert m d s. induction n as [|n IH]; intros m d s Hm Hd; cbn [copy_up].
  - by rewrite decide_False by lia.
  - rewrite IH by (lia || by apply wr_bytes_ok). pose proof (Hm s) as Hs.
    rewrite !rd_wr, (Z.mod_small (rd m s)) by done.
    destruct (decide (b = d)) as [->|].
    + rewrite (decide_False (P := d + 1 ≤ d < _)), decide_True by lia.
      rewrite decide_True by lia. f_equal. lia.
    + repeat case_decide; try lia; f_equal; lia.
Qed.

Lemma copy_down_spec n m d s b :
  bytes_ok m → s ≤ d →
  rd (copy_down m d s n) b =
  if decide (d - Z.of_nat n ≤ b < d) then rd m (s + (b - d)) else rd m b.
Proof.
  revert m d s. induction n as [|n IH]; intros m d s Hm Hd; cbn [copy_down].
  - by rewrite decide_False by lia.
  - rewrite IH by (lia || by apply wr_bytes_ok). pose proof (Hm (s - 1)) as Hs.
    rewrite !rd_wr, (Z.mod_small (rd m (s - 1))) by done.
    destruct (decide (b = d - 1)) as [->|].
    + rewrite (decide_False (P := _ ≤ d - 1 < d - 1)), decide_True by lia.
      rewrite decide_True by lia. f_equal. lia.
    + repeat case_decide; try lia; f_equal; lia.
Qed.

(** [memmove] copies the [n] bytes that were at [src] to [dst] whatever the
    overlap of the two ranges, and changes no other byte. *)
Theorem memmove_spec m dst src n b :
  bytes_ok m → 0 ≤ n →
  rd (memmove m dst src n) b =
  if decide (dst ≤ b < dst + n) then rd m (src + (b - dst)) else rd m b.
Proof.
  intros Hm Hn. unfold memmove.
  destruct ((src <? dst) && (dst <? src + n)) eqn:E.
  - rewrite copy_down_spec, Z2Nat.id by (lia || done).
    replace (dst + n - n) with dst by lia.
    case_decide; [|done]. f_equal. lia.
  - by rewrite copy_up_spec, Z2Nat.id by (lia || done).
Qed.

Lemma memmove_witness :
  let m := list_to_map [(10, 1); (11, 2); (12, 3)] : mem in
  rdn (memmove m 11 10 3) 10 4 = [1; 1; 2; 3].
Proof.
  intros m. cbn [rdn].
  assert (bytes_ok m) as Hm.
  { repeat (apply (wr_bytes_ok _ 10 1) || apply (wr_bytes_ok _ 11 2) ||
            apply (wr_bytes_ok _ 12 3)). intros a. done. }
  by rewrite !memmove_spec by done.
Defined.

(** ** Strings *)

(** The C string at [a], cut after [n] bytes: the bytes before the first NUL. *)
Fixpoint cstrn (m : mem) (a : Z) (n : nat) : list Z :=
  match n with
  | O => []
  | S n => if rd m a =? 0 then [] else rd m a :: cstrn m (a + 1) n
  end.

(** [src/xv6-public/string.c:58-66] *)
Fixpoint strncmp_n (m : mem) (p q : Z) (n : nat) : Z :=
  match n with
  | O => 0
  | S n =>
    if truthy (rd m p) && (rd m p =? rd m q) then strncmp_n m (p + 1) (q + 1) n
    else rd m p - rd m q
  end.
(** [src/xv6-public/string.c:58-66] *)
Definition strncmp (m : mem) (p q n : Z) : Z := strncmp_n m p q (Z.to_nat n).

(** [src/xv6-public/string.c:68-79] *)
Fixpoint strncpy_n (m : mem) (s t : Z) (n : nat) : mem :=
  match n with
  | O => m
  | S n =>
    let c := rd m t in
    let m := wr m s c in
    if c =? 0 then stosb m (s + 1) 0 n else strncpy_n m (s + 1) (t + 1) n
  end.
(** [src/xv6-public/string.c:68-79] *)
Definition strncpy (m : mem) (s t n : Z) : mem := strncpy_n m s t (Z.to_nat n).

(** [src/xv6-public/string.c:82-94] the loop makes at most [n - 1] copies. *)
Fixpoint safestrcpy_n (m : mem) (s t : Z) (n : nat) : mem :=
  match n with
  | O => wr m s 0
  | S n =>
    let c := rd m t in
    let m := wr m s c in
    if c =? 0 then wr m (s + 1) 0 else safestrcpy_n m (s + 1) (t + 1) n
  end.
(** [src/xv6-public/string.c:82-94] *)
Definition safestrcpy (m : mem) (s t n : Z) : mem :=
  if n <=? 0 then m else safestrcpy_n m s t (Z.to_nat (n - 1)).

(** [src/xv6-public/string.c:96-104] looks at no more than [fuel] bytes. *)
Fixpoint strlen (fuel : nat) (m : mem) (s : Z) : option Z :=
  match fuel with
  | O => None
  | S fuel => if rd m s =? 0 then Some 0 else (λ n, n + 1) <$> strlen fuel m (s + 1)
  end.

Lemma length_cstrn m a n : (length (cstrn m a n) ≤ n)%nat.
Proof.
  revert a. induction n as [|n IH]; intros a; cbn; [lia|].
  destruct (_ =? _); cbn; [lia|]. specialize (IH (a + 1)). lia.
Qed.

Lemma cstrn_ext m m' a n :
  (∀ i, 0 ≤ i < Z.of_nat n → rd m (a + i) = rd m' (a + i)) →
  cstrn m a n = cstrn m' a n.
Proof.
  revert a. induction n as [|n IH]; intros a H; cbn; [done|].
  pose proof (H 0 ltac:(lia)) as H0. rewrite Z.add_0_r in H0. rewrite H0.
  destruct (_ =? _); [done|]. f_equal. apply IH. intros i Hi.
  rewrite <- Z.add_assoc. apply H. lia.
Qed.

(** [strncmp] returns zero exactly on equal strings (of at most [n] bytes). *)
Lemma strncmp_spec m p q n :
  strncmp m p q n = 0 ↔ cstrn m p (Z.to_nat n) = cstrn m q (Z.to_nat n).
Proof.
  unfold strncmp. generalize (Z.to_nat n). clear n. intros n. revert p q.
  induction n as [|n IH]; intros p q; cbn [strncmp_n cstrn]; [done|].
  unfold truthy. destruct (Z.eqb_spec (rd m p) 0) as [Ep|Ep]; cbn [negb andb].
  - rewrite Ep. destruct (Z.eqb_spec (rd m q) 0) as [Eq|Eq]; [by rewrite Eq|].
    split; [lia|done].
  - destruct (Z.eqb_spec (rd m p) (rd m q)) as [E|E].
    + rewrite IH, <- E, (proj2 (Z.eqb_neq _ _)) by done. split; congruence.
    + destruct (Z.eqb_spec (rd m q) 0); split; try lia; try done. by intros [= ? _].
Qed.

(** The string padded with NULs to [n] bytes. *)
Definition pad0 (n : nat) (l : list Z) : list Z := l ++ replicate (n - length l) 0.

Lemma strncpy_n_out n m s t b :
  b < s ∨ s + Z.of_nat n ≤ b → rd (strncpy_n m s t n) b = rd m b.
Proof.
  revert m s t. induction n as [|n IH]; intros m s t Hb; cbn [strncpy_n]; [done|].
  destruct (_ =? _).
  - rewrite stosb_spec, decide_False, rd_wr_ne by lia. done.
  - rewrite IH, rd_wr_ne by lia. done.
Qed.

Lemma rdn_stosb0 m s n : rdn (stosb m s 0 n) s n = replicate n 0.
Proof.
  apply list_eq. intros i. destruct (decide (i < n)%nat).
  - rewrite lookup_rdn, lookup_replicate_2, stosb_spec, decide_True by lia. done.
  - by rewrite !lookup_ge_None_2 by (rewrite ?length_rdn, ?length_replicate; lia).
Qed.

Lemma strncpy_n_spec n m s t :
  bytes_ok m → s + Z.of_nat n ≤ t ∨ t + Z.of_nat n ≤ s →
  rdn (strncpy_n m s t n) s n = pad0 n (cstrn m t n).
Proof.
  revert m s t. induction n as [|n IH]; intros m s t Hm Hd; cbn [strncpy_n rdn cstrn];
    [done|].
  destruct (Z.eqb_spec (rd m t) 0) as [E|E]; unfold pad0; cbn.
  - rewrite rdn_stosb0, stosb_spec, decide_False, rd_wr_eq, E by lia. done.
  - rewrite strncpy_n_out, rd_wr_eq, Z.mod_small by (apply Hm || lia). f_equal.
    rewrite IH by (lia || by apply wr_bytes_ok). unfold pad0.
    rewrite (cstrn_ext (wr m s (rd m t)) m); [done|].
    intros i Hi. apply rd_wr_ne. lia.
Qed.

(** [strncpy] writes the string and pads the rest of the [n] bytes with NULs. *)
Lemma strncpy_spec m s t n :
  bytes_ok m → 0 ≤ n → s + n ≤ t ∨ t + n ≤ s →
  rdn (strncpy m s t n) s (Z.to_nat n) = pad0 (Z.to_nat n) (cstrn m t (Z.to_nat n)) ∧
  ∀ b, b < s ∨ s + n ≤ b → rd (strncpy m s t n) b = rd m b.
Proof.
  intros Hm Hn Hd. split.
  - apply strncpy_n_spec; [done|lia].
  - intros b Hb. apply strncpy_n_out. lia.
Qed.

Lemma safestrcpy_n_out n m s t b :
  b < s ∨ s + Z.of_nat n < b → rd (safestrcpy_n m s t n) b = rd m b.
Proof.
  revert m s t. induction n as [|n IH]; intros m s t Hb; cbn [safestrcpy_n].
  - by rewrite rd_wr_ne by lia.
  - destruct (_ =? _); [by rewrite !rd_wr_ne by lia|].
    rewrite IH, rd_wr_ne by lia. done.
Qed.

Lemma safestrcpy_n_spec n m s t :
  bytes_ok m → s + Z.of_nat n < t ∨ t + Z.of_nat n ≤ s →
  cstrn (safestrcpy_n m s t n) s (S n) = cstrn m t n.
Proof.
  revert m s t. induction n as [|n IH]; intros m s t Hm Hd.
  - cbn. by rewrite rd_wr_eq.
  - cbn [safestrcpy_n]. destruct (Z.eqb_spec (rd m t) 0) as [E|E].
    + cbn [cstrn]. rewrite rd_wr_ne, rd_wr_eq, E by lia. done.
    + cbn [cstrn]. rewrite safestrcpy_n_out, rd_wr_eq, Z.mod_small by (apply Hm || lia).
      rewrite (proj2 (Z.eqb_neq _ _)) by done. f_equal.
      rewrite <- (cstrn_ext (wr m s (rd m t)) m)
        by (intros i Hi; apply rd_wr_ne; lia).
      apply (IH (wr m s (rd m t)) (s + 1) (t + 1)); [by apply wr_bytes_ok|lia].
Qed.

(** [safestrcpy(s, t, n)] leaves at [s] a string that is NUL-terminated
    within [n] bytes and is the first [n-1] bytes of the string at [t]; it
    writes nothing outside [s, s + n). *)
Theorem safestrcpy_spec m s t n :
  bytes_ok m → 0 < n → s + n ≤ t ∨ t + n ≤ s →
  cstrn (safestrcpy m s t n) s (Z.to_nat n) = cstrn m t (Z.to_nat (n - 1)) ∧
  (length (cstrn (safestrcpy m s t n) s (Z.to_nat n)) < Z.to_nat n)%nat ∧
  ∀ b, b < s ∨ s + n ≤ b → rd (safestrcpy m s t n) b = rd m b.
Proof.
  intros Hm Hn Hd. unfold safestrcpy. rewrite (proj2 (Z.leb_gt n 0)) by lia.
  replace (Z.to_nat n) with (S (Z.to_nat (n - 1))) by lia.
  rewrite safestrcpy_n_spec by (done || lia). split_and!.
  - done.
  - pose proof (length_cstrn m t (Z.to_nat (n - 1))). lia.
  - intros b Hb. apply safestrcpy_n_out. lia.
Qed.

Lemma safestrcpy_witness :
  let m := list_to_map [(100, 97); (101, 98); (102, 99)] : mem in
  cstrn (safestrcpy m 10 100 3) 10 3 = [97; 98].
Proof.
  intros m. assert (bytes_ok m) as Hm.
  { repeat (apply (wr_bytes_ok _ 100 97) || apply (wr_bytes_ok _ 101 98) ||
            apply (wr_bytes_ok _ 102 99)). intros a. done. }
  exact (proj1 (safestrcpy_spec m 10 100 3 Hm ltac:(lia) ltac:(lia))).
Defined.

(** [strlen] counts the bytes before the NUL, given enough fuel to reach it. *)
Lemma strlen_spec fuel m s :
  (length (cstrn m s fuel) < fuel)%nat →
  strlen fuel m s = Some (Z.of_nat (length (cstrn m s fuel))).
Proof.
  revert s. induction fuel as [|fuel IH]; intros s; cbn [strlen cstrn]; [lia|].
  destruct (_ =? _); cbn [length]; [done|]. intros H.
  rewrite IH by lia. cbn. f_equal. lia.
Qed.
