(* ===== verification/Kalloc.v ===== *)
(** * The physical page allocator (kalloc.c)

    [kfree] pushes a page on a list threaded through the free pages
    themselves, [kalloc] pops it.  The abstract state is the list of the free
    pages ([freelist_rep]); each operation is shown to act on it as a stack,
    to leave every other byte of memory alone, and [freerange] to put exactly
    the whole pages of a range on the list. *)

From S2P Require Import Prelude State Spinlock Mem.

(** [src/xv6-public/mmu.h:90] *)
Definition PGROUNDUP (sz : Z) : Z := Z.land (wrap32 (sz + PGSIZE - 1)) (Z.lnot (PGSIZE - 1)).

(** [src/xv6-public/mmu.h:91] *)
Definition PGROUNDDOWN (a : Z) : Z := Z.land a (Z.lnot (PGSIZE - 1)).

(** Read and write kernel memory through a kernel virtual address. *)
Definition kld32 (k : kernel) (va : Z) : Z := ld32 (k_mem k) (V2P va).
Definition kst32 (va v : Z) : KM unit :=
  modify (λ k, k <| k_mem ::= λ m, st32 m (V2P va) v |>).

(** [src/xv6-public/kalloc.c:59-77] *)
Definition kfree (v : Z) : KM unit :=
  k ← mget;
  if truthy (v mod PGSIZE) || (v <? k_end k) || (V2P v >=? PHYSTOP)
  then mpanic "kfree" else
  modify (λ k, k <| k_mem ::= λ m, memset m (V2P v) 1 PGSIZE |>);;
  use_lock ← gets k_use_lock;
  when use_lock (acquire LkKmem);;
  freelist ← gets k_freelist;
  kst32 v freelist;;
  modify (λ k, k <| k_freelist := v |>);;
  use_lock ← gets k_use_lock;
  when use_lock (release LkKmem).

(** [src/xv6-public/kalloc.c:82-95] *)
Definition kalloc : KM Z :=
  use_lock ← gets k_use_lock;
  when use_lock (acquire LkKmem);;
  r ← gets k_freelist;
  when (truthy r) (modify (λ k, k <| k_freelist := kld32 k r |>));;
  use_lock ← gets k_use_lock;
  when use_lock (release LkKmem);;
  mret r.

(** The loop of [freerange], for at most [fuel] pages. *)
Fixpoint freerange_loop (fuel : nat) (p vend : Z) : KM unit :=
  match fuel with
  | O => λ _ k, NoFuel k
  | S fuel =>
    if wrap32 (p + PGSIZE) <=? vend
    then kfree p;; freerange_loop fuel (wrap32 (p + PGSIZE)) vend
    else mret tt
  end.

(** [src/xv6-public/kalloc.c:46-53] *)
Definition freerange (fuel : nat) (vstart vend : Z) : KM unit :=
  freerange_loop fuel (PGROUNDUP vstart) vend.

(** [src/xv6-public/kalloc.c:31-37] *)
Definition kinit1 (fuel : nat) (vstart vend : Z) : KM unit :=
  initlock LkKmem;;
  modify (λ k, k <| k_use_lock := false |>);;
  freerange fuel vstart vend.

(** [src/xv6-public/kalloc.c:39-44] *)
Definition kinit2 (fuel : nat) (vstart vend : Z) : KM unit :=
  freerange fuel vstart vend;;
  modify (λ k, k <| k_use_lock := true |>).

(** ** The abstract free list *)

(** A page [kfree] accepts: aligned, above the kernel image and below the
    top of physical memory. *)
Definition page_ok (k : kernel) (v : Z) : Prop :=
  v mod PGSIZE = 0 ∧ KERNBASE < k_end k ∧ k_end k ≤ v < KERNBASE + PHYSTOP.

#[export] Instance page_ok_dec k v : Decision (page_ok k v).
Proof. unfold page_ok. apply _. Defined.

Fixpoint chain (m : mem) (h : Z) (l : list Z) : Prop :=
  match l with
  | [] => h = 0
  | v :: l => h = v ∧ chain m (ld32 m (V2P v)) l
  end.

(** The free list of [k] holds exactly the pages [l], head first. *)
Record freelist_rep (k : kernel) (l : list Z) : Prop := {
  fl_chain : chain (k_mem k) (k_freelist k) l;
  fl_pages : Forall (page_ok k) l;
  fl_nodup : NoDup l
}.

(** What an operation needs of the synchronization state. *)
Definition lockable (k : kernel) (i : nat) (c : cpu) (lk : lockid) : Prop :=
  oncpu k i c ∧ cli_wf k c ∧ lock_free k lk.

(** The synchronization state an allocator operation leaves. *)
Definition kmem_touch (i : nat) (c : cpu) (k : kernel) : kernel :=
  if k_use_lock k then touch i c k else k.

Lemma V2P_page k v : page_ok k v → V2P v = v - KERNBASE.
Proof. intros (_ & ? & ?). apply wrap32_small. unfold is_u32, KERNBASE, PHYSTOP in *. lia. Qed.

Lemma page_ok_pos k v : page_ok k v → 0 < v.
Proof. intros (_ & ? & ?). unfold KERNBASE in *. lia. Qed.

(** Two pages are the same or a page apart. *)
Lemma pages_apart k k' v w :
  page_ok k v → page_ok k' w → v ≠ w →
  V2P v + PGSIZE ≤ V2P w ∨ V2P w + PGSIZE ≤ V2P v.
Proof.
  intros Hv Hw Hne. rewrite (V2P_page k v Hv), (V2P_page k' w Hw).
  destruct Hv as [Hv _], Hw as [Hw _]. unfold PGSIZE in *. dlia.
Qed.

Lemma chain_ext m m' h l :
  (∀ v, v ∈ l → ld32 m (V2P v) = ld32 m' (V2P v)) → chain m h l → chain m' h l.
Proof.
  revert h. induction l as [|v l IH]; intros h He; cbn; [done|].
  intros [-> Hc]. split; [done|]. rewrite <- He by set_solver. apply IH; [set_solver|done].
Qed.

(** The memory after [kfree v] with free list head [h]. *)
Definition freed_mem (m : mem) (v h : Z) : mem :=
  st32 (memset m (V2P v) 1 PGSIZE) (V2P v) h.

Lemma freed_mem_out m v h b :
  b < V2P v ∨ V2P v + PGSIZE ≤ b → rd (freed_mem m v h) b = rd m b.
Proof.
  intros Hb. unfold freed_mem, PGSIZE in *.
  by rewrite rd_st32_ne, memset_spec, decide_False by lia.
Qed.

(** Pushing a page on the list. *)
Definition freed (v : Z) (k : kernel) : kernel :=
  k <| k_mem := freed_mem (k_mem k) v (k_freelist k) |> <| k_freelist := v |>.

Lemma freed_rep k l v :
  freelist_rep k l → page_ok k v → v ∉ l → is_u32 (k_freelist k) →
  freelist_rep (freed v k) (v :: l).
Proof.
  intros [Hc Hp Hn] Hv Hnl Hh. split; [|by constructor|by constructor].
  cbn. split; [done|]. unfold freed, freed_mem. rsimpl.
  rewrite ld32_st32_eq, wrap32_small by done.
  eapply chain_ext; [|exact Hc]. intros w Hw. apply ld32_ext. intros j Hj.
  rewrite Forall_forall in Hp.
  assert (v ≠ w) as Hne by set_solver.
  pose proof (pages_apart _ _ _ _ Hv (Hp w Hw) Hne).
  symmetry. apply freed_mem_out. unfold PGSIZE in *. lia.
Qed.

Lemma freelist_head_u32 k l : freelist_rep k l → is_u32 (k_freelist k).
Proof.
  intros [Hc Hp _]. destruct l as [|v l]; cbn in Hc; [by rewrite Hc|].
  destruct Hc as [-> _]. inversion_clear Hp as [|?? (_ & ? & ?) _].
  unfold is_u32, KERNBASE, PHYSTOP in *. lia.
Qed.

(** [kfree] of a valid page pushes it. *)
Lemma kfree_ok e k i c v :
  lockable k i c LkKmem → page_ok k v →
  kfree v e k = Ret tt e (freed v (kmem_touch i c k)).
Proof.
  intros (Hc & Hw & Hl) Hv. unfold kfree. msteps.
  pose proof (V2P_page _ _ Hv) as Ev. destruct Hv as (Hm & He & Hb). rewrite Hm.
  replace (v <? k_end k) with false by lia.
  replace (V2P v >=? PHYSTOP) with false by lia. cbn [truthy Z.eqb negb orb]. msteps.
  set (k1 := k <| k_mem ::= _ |>).
  assert (Hc1 : oncpu k1 i c) by exact Hc. assert (Hw1 : cli_wf k1 c) by exact Hw.
  assert (Hl1 : lock_free k1 LkKmem) by exact Hl.
  change (k_use_lock k1) with (k_use_lock k). unfold kmem_touch.
  destruct (k_use_lock k) eqn:Eu; cbn [when].
  - mgo (by eapply acquire_free). unfold kst32. msteps. rsimpl.
    change (k_use_lock (acquired i c LkKmem k1)) with (k_use_lock k). rewrite Eu.
    cbn [when]. by erewrite (release_acquired _ _ k1).
  - unfold kst32. msteps. rsimpl. change (k_use_lock k1) with (k_use_lock k).
    rewrite Eu. done.
Qed.

(** [kfree] of anything else panics. *)
Lemma kfree_bad e k v :
  ¬ (v mod PGSIZE = 0 ∧ k_end k ≤ v ∧ V2P v < PHYSTOP) →
  kfree v e k = Panic "kfree" k.
Proof.
  intros H. unfold kfree. msteps. unfold truthy.
  destruct (Z.eqb_spec (v mod PGSIZE) 0), (Z.ltb_spec v (k_end k)); try done.
  cbn [negb orb]. replace (V2P v >=? PHYSTOP) with true by (symmetry; lia). done.
Qed.

(** Popping the head of the list. *)
Definition popped (k : kernel) : kernel :=
  if truthy (k_freelist k) then k <| k_freelist := kld32 k (k_freelist k) |> else k.

Lemma kalloc_eq e k i c :
  lockable k i c LkKmem →
  kalloc e k = Ret (k_freelist k) e (popped (kmem_touch i c k)).
Proof.
  intros (Hc & Hw & Hl). unfold kalloc, kmem_touch. msteps.
  destruct (k_use_lock k) eqn:Eu; cbn [when].
  - mgo (by eapply acquire_free). msteps.
    change (k_freelist (acquired i c LkKmem k)) with (k_freelist k).
    unfold popped. change (k_freelist (touch i c k)) with (k_freelist k).
    destruct (truthy (k_freelist k)); cbn [when]; msteps; rsimpl;
      change (k_use_lock (acquired i c LkKmem k)) with (k_use_lock k);
      rewrite Eu; cbn [when]; by mgo (by eapply release_acquired).
  - msteps. unfold popped. destruct (truthy (k_freelist k)); cbn [when]; msteps;
      rsimpl; rewrite Eu; done.
Qed.

Lemma kalloc_empty e k i c :
  lockable k i c LkKmem → freelist_rep k [] →
  kalloc e k = Ret 0 e (kmem_touch i c k).
Proof.
  intros Hk [Hc _ _]. erewrite kalloc_eq by done. cbn in Hc. rewrite Hc.
  unfold popped, kmem_touch. by destruct (k_use_lock k); ksimpl; rewrite ?Hc.
Qed.

Lemma kalloc_cons e k i c v l :
  lockable k i c LkKmem → freelist_rep k (v :: l) →
  let k' := (kmem_touch i c k) <| k_freelist := kld32 k v |> in
  kalloc e k = Ret v e k' ∧ freelist_rep k' l.
Proof.
  intros Hk [Hc Hp Hn] k'. inversion_clear Hp as [|?? Hv Hp'].
  inversion_clear Hn as [|??? Hn']. destruct Hc as [Hh Hc]. split.
  - erewrite kalloc_eq by done. rewrite Hh. f_equal. unfold popped, k', kmem_touch.
    pose proof (page_ok_pos _ _ Hv). unfold truthy.
    destruct (k_use_lock k); ksimpl;
      rewrite Hh, (proj2 (Z.eqb_neq _ _)) by lia; done.
  - unfold k', kmem_touch. by destruct (k_use_lock k); split.
Qed.

(** ** Sequences of operations *)

Lemma lockable_touch k i c lk :
  lockable k i c lk → lockable (touch i c k) i (touch_cpu (k_if k) c) lk.
Proof.
  intros (Hc & [Hn Hi] & Hl). split_and!; [|split|done].
  - apply (kcpu_oncpu i c); [done|apply touch_cpu_apicid].
  - by rewrite touch_cpu_ncli.
  - rewrite touch_cpu_ncli. exact Hi.
Qed.

Lemma lockable_kmem_touch k i c lk :
  lockable k i c lk → ∃ c', lockable (kmem_touch i c k) i c' lk.
Proof.
  unfold kmem_touch. destruct (k_use_lock k); eauto using lockable_touch.
Qed.

(** Operations on data leave the locks usable. *)
Lemma lockable_sync k k' i c lk :
  same_sync k' k → lockable k i c lk → lockable k' i c lk.
Proof.
  intros Hs (Hc & Hw & Hl). pose proof (same_sync_oncpu _ _ _ _ Hs Hc).
  destruct Hs as (_ & _ & Ei & El). unfold lockable, cli_wf, lock_free.
  by rewrite Ei, El.
Qed.

Inductive kop := Alloc | Free (v : Z).

Definition run_kop (o : kop) : KM Z :=
  match o with Alloc => kalloc | Free v => kfree v;; mret 0 end.

Fixpoint run_kops (os : list kop) : KM (list Z) :=
  match os with
  | [] => mret []
  | o :: os => r ← run_kop o; rs ← run_kops os; mret (r :: rs)
  end.

(** The specification: a stack of free pages.  Freeing a page twice, or
    something that is not a page, is an error of the caller. *)
Definition spec_kop (k : kernel) (o : kop) (l : list Z) : option (Z * list Z) :=
  match o with
  | Alloc => Some (match l with [] => (0, []) | v :: l => (v, l) end)
  | Free v => if decide (page_ok k v ∧ v ∉ l) then Some (0, v :: l) else None
  end.

Fixpoint spec_kops (k : kernel) (os : list kop) (l : list Z) : option (list Z * list Z) :=
  match os with
  | [] => Some ([], l)
  | o :: os => '(r, l) ← spec_kop k o l; '(rs, l) ← spec_kops k os l; Some (r :: rs, l)
  end.

(** Byte [b] of physical memory is in the page [v]. *)
Definition in_page (v b : Z) : Prop := V2P v ≤ b < V2P v + PGSIZE.

Lemma freelist_rep_touch k l i c :
  freelist_rep k l → freelist_rep (kmem_touch i c k) l.
Proof. unfold kmem_touch. intros []. by destruct (k_use_lock k). Qed.

Lemma run_kop_spec o e k i c l r l' :
  lockable k i c LkKmem → freelist_rep k l → spec_kop k o l = Some (r, l') →
  ∃ k' c', run_kop o e k = Ret r e k' ∧ lockable k' i c' LkKmem ∧
    freelist_rep k' l' ∧ k_end k' = k_end k ∧
    ∀ b, (∀ v, o = Free v → ¬ in_page v b) → rd (k_mem k') b = rd (k_mem k) b.
Proof.
  intros Hk Hl Hs. destruct (lockable_kmem_touch _ _ _ _ Hk) as [c' Hk'].
  assert (k_end (kmem_touch i c k) = k_end k ∧ k_mem (kmem_touch i c k) = k_mem k) as [Ee Em]
    by (unfold kmem_touch; by destruct (k_use_lock k)).
  destruct o as [|v]; cbn in *.
  - destruct l as [|v l]; injection Hs as <- <-.
    + exists (kmem_touch i c k), c'. split; [by apply kalloc_empty|].
      split_and!; eauto using freelist_rep_touch. by rewrite Em.
    + destruct (kalloc_cons e k i c v l Hk Hl) as [E Hr]. eexists _, c'.
      split; [exact E|]. split_and!; [by eapply lockable_sync|done|done|].
      intros b _. rsimpl. by rewrite Em.
  - destruct (decide _) as [[Hv Hn]|]; [|done]. injection Hs as <- <-.
    exists (freed v (kmem_touch i c k)), c'. split_and!.
    + by mgo (by eapply kfree_ok).
    + by eapply lockable_sync.
    + apply (freelist_rep_touch k l i c) in Hl as Hl'. apply freed_rep;
        eauto using freelist_head_u32. unfold page_ok. by rewrite Ee.
    + done.
    + intros b Hb. unfold freed. rsimpl. rewrite freed_mem_out; [by rewrite Em|].
      specialize (Hb v eq_refl). unfold in_page in Hb. lia.
Qed.

Lemma spec_kops_end k k' os l : k_end k = k_end k' → spec_kops k os l = spec_kops k' os l.
Proof.
  intros E. revert l. induction os as [|o os IH]; intros l; cbn; [done|].
  assert (spec_kop k o l = spec_kop k' o l) as ->.
  { destruct o; cbn; [done|]. apply decide_ext. unfold page_ok. by rewrite E. }
  destruct (spec_kop k' o l) as [[r l']|]; cbn; [|done]. by rewrite IH.
Qed.

(** C28 The allocator implements its specification: any sequence of [kalloc]
    and [kfree] that frees only pages that are not free returns what a stack
    of pages returns, leaves the list of free pages of the specification, and
    writes no byte outside the pages it was given to free. *)
Theorem kalloc_refines_stack os e k i c l rs l' :
  lockable k i c LkKmem → freelist_rep k l → spec_kops k os l = Some (rs, l') →
  ∃ k', run_kops os e k = Ret rs e k' ∧ freelist_rep k' l' ∧
    ∀ b, (∀ v, Free v ∈ os → ¬ in_page v b) → rd (k_mem k') b = rd (k_mem k) b.
Proof.
  revert k c l rs l'. induction os as [|o os IH]; intros k c l rs l' Hk Hl Hs; cbn in *.
  { injection Hs as <- <-. by exists k. }
  destruct (spec_kop k o l) as [[r l1]|] eqn:Eo; cbn in Hs; [|done].
  destruct (spec_kops k os l1) as [[rs1 l2]|] eqn:Eos; cbn in Hs; [|done].
  injection Hs as <- <-.
  destruct (run_kop_spec o e k i c l r l1 Hk Hl Eo) as (k1 & c1 & E1 & Hk1 & Hl1 & Ee & Hm1).
  rewrite (spec_kops_end k k1) in Eos by done.
  destruct (IH k1 c1 l1 rs1 l2 Hk1 Hl1 Eos) as (k2 & E2 & Hl2 & Hm2).
  exists k2. split_and!; [|done|].
  - mgo (exact E1). by mgo (exact E2).
  - intros b Hb. rewrite Hm2, Hm1; [done|..].
    + intros v ->. apply Hb. left.
    + intros v Hv. apply Hb. by right.
Qed.

(** A kernel whose image ends at the third page, with locking on. *)
Definition k_alloc : kernel :=
  zero_kernel <| k_end := KERNBASE + 0x3000 |> <| k_use_lock := true |>.

Lemma kalloc_refines_stack_witness :
  let a := KERNBASE + 0x4000 in let b := KERNBASE + 0x5000 in
  ∃ k', run_kops [Free a; Free b; Alloc; Alloc; Alloc] [] k_alloc =
        Ret [0; 0; b; a; 0] [] k' ∧ freelist_rep k' [].
Proof.
  intros a b.
  destruct (kalloc_refines_stack [Free a; Free b; Alloc; Alloc; Alloc] [] k_alloc 0
    (Cpu 0 0 true 0 false None) [] [0; 0; b; a; 0] []) as (k' & E & Hl & _).
  - split_and!; [reflexivity|split; cbn; [lia|done]|reflexivity].
  - split; [reflexivity|constructor|constructor].
  - vm_compute. reflexivity.
  - exact (ex_intro _ k' (conj E Hl)).
Defined.

(** ** The initial free list *)

(** [n] consecutive pages from [p], in the order [kfree] leaves them. *)
Fixpoint page_run (p : Z) (n : nat) : list Z :=
  match n with O => [] | S n => page_run (p + PGSIZE) n ++ [p] end.

Lemma page_run_lb p n v : v ∈ page_run p n → p ≤ v.
Proof.
  revert p. induction n as [|n IH]; intros p; cbn; [by intros ?%not_elem_of_nil|].
  rewrite elem_of_app, list_elem_of_singleton. intros [H| ->]; [|lia].
  apply IH in H. unfold PGSIZE in *. lia.
Qed.

Lemma PGROUNDUP_spec a :
  0 ≤ a < 2 ^ 32 - PGSIZE →
  a ≤ PGROUNDUP a < a + PGSIZE ∧ PGROUNDUP a mod PGSIZE = 0.
Proof.
  intros Ha. unfold PGROUNDUP. rewrite wrap32_small by (unfold is_u32, PGSIZE in *; lia).
  change (PGSIZE - 1) with (Z.ones 12). rewrite <- Z.ldiff_land, Z.ldiff_ones_r by lia.
  rewrite Z.shiftl_mul_pow2, Z.shiftr_div_pow2 by lia. unfold PGSIZE in *.
  change (2 ^ 12) with 4096. split; dlia.
Qed.

Lemma freerange_loop_spec n fuel p vend e k i c l :
  lockable k i c LkKmem → freelist_rep k l → (n < fuel)%nat →
  p mod PGSIZE = 0 → KERNBASE < k_end k ≤ p → vend ≤ KERNBASE + PHYSTOP →
  p + Z.of_nat n * PGSIZE ≤ vend < p + Z.of_nat n * PGSIZE + PGSIZE →
  (∀ v, v ∈ l → v < p ∨ vend ≤ v) →
  ∃ k', freerange_loop fuel p vend e k = Ret tt e k' ∧
    freelist_rep k' (page_run p n ++ l).
Proof.
  revert fuel p k c l. induction n as [|n IH];
    intros fuel p k c l Hk Hl Hf Hp He Hv Hn Hd; (destruct fuel as [|fuel]; [lia|]);
    cbn [freerange_loop page_run];
    rewrite wrap32_small by (unfold is_u32, KERNBASE, PHYSTOP, PGSIZE in *; lia).
  - rewrite (proj2 (Z.leb_gt _ _)) by lia. by exists k.
  - rewrite (proj2 (Z.leb_le _ _)) by (unfold PGSIZE in *; lia).
    assert (spec_kop k (Free p) l = Some (0, p :: l)) as Es.
    { cbn. rewrite decide_True; [done|]. split.
      - unfold page_ok, PGSIZE in *. split_and!; lia.
      - intros Hin. destruct (Hd p Hin); unfold PGSIZE in *; lia. }
    destruct (run_kop_spec (Free p) e k i c l 0 (p :: l) Hk Hl Es)
      as (k1 & c1 & (? & ? & ? & E1 & E2)%bind_Ret_inv & Hk1 & Hl1 & Ee & _).
    injection E2 as -> ->. mgo (exact E1).
    destruct (IH fuel (p + PGSIZE) k1 c1 (p :: l)) as (k2 & E & Hr);
      try (done || unfold PGSIZE in *; lia).
    + rewrite <- (Z.mod_add p 1 PGSIZE) in Hp by done. by rewrite Z.mul_1_l in Hp.
    + intros v [->|Hin]%elem_of_cons; [unfold PGSIZE; lia|].
      destruct (Hd v Hin); unfold PGSIZE in *; lia.
    + exists k2. split; [exact E|]. by rewrite <- app_assoc.
Qed.

(** [freerange] ends and frees exactly the whole pages between [vstart] and
    [vend], without a panic, whenever the range is above the kernel image and
    below the top of physical memory and none of its pages is already free. *)
Theorem freerange_spec fuel vstart vend e k i c l :
  lockable k i c LkKmem → freelist_rep k l →
  KERNBASE < k_end k ≤ vstart → vstart ≤ vend ≤ KERNBASE + PHYSTOP →
  (∀ v, v ∈ l → v < vstart ∨ vend ≤ v) →
  let n := Z.to_nat ((vend - PGROUNDUP vstart) / PGSIZE) in
  (n < fuel)%nat →
  ∃ k', freerange fuel vstart vend e k = Ret tt e k' ∧
    freelist_rep k' (page_run (PGROUNDUP vstart) n ++ l).
Proof.
  intros Hk Hl He Hv Hd n Hf.
  destruct (PGROUNDUP_spec vstart) as [Hp Hm];
    [unfold KERNBASE, PHYSTOP, PGSIZE in *; lia|].
  unfold freerange. destruct (decide (PGROUNDUP vstart ≤ vend)) as [Hle|Hgt].
  - eapply (freerange_loop_spec n); try done; [lia..| |].
    + unfold n, PGSIZE in *. rewrite Z2Nat.id; dlia.
    + intros v Hin. destruct (Hd v Hin); lia.
  - exists k. destruct fuel as [|fuel]; [lia|]. cbn [freerange_loop].
    rewrite wrap32_small, (proj2 (Z.leb_gt _ _))
      by (unfold is_u32, KERNBASE, PHYSTOP, PGSIZE in *; lia).
    replace n with 0%nat; [done|]. unfold n, PGSIZE in *. dlia.
Qed.

Lemma freerange_spec_witness :
  ∃ k', freerange 4 (KERNBASE + 0x3001) (KERNBASE + 0x6fff) [] k_alloc = Ret tt [] k' ∧
    freelist_rep k' [KERNBASE + 0x5000; KERNBASE + 0x4000].
Proof.
  apply (freerange_spec 4 (KERNBASE + 0x3001) (KERNBASE + 0x6fff) [] k_alloc 0
    (Cpu 0 0 true 0 false None) []).
  - split_and!; [reflexivity|split; cbn; [lia|done]|reflexivity].
  - split; [reflexivity|constructor|constructor].
  - split; [reflexivity|discriminate].
  - split; discriminate.
  - by intros v ?%not_elem_of_nil.
  - vm_compute. lia.
Defined.

(** Framing: the allocator changes memory, its list and its lock. *)
#[export] Hint Extern 2 (steady _ _ (kfree _)) =>
  unfold kfree, kst32; solve [solve_steady] : steady.
#[export] Hint Extern 2 (steady _ _ kalloc) => unfold kalloc; solve [solve_steady] : steady.
