(* ===== verification/Consout.v ===== *)
(** * Console output (the output half of console.c, and uartputc of uart.c)

    Characters go to the serial port, whose output [k_console] records, and
    to the CGA display, 25 lines of 80 cells at physical address 0xb8000 with
    a hardware cursor [k_crtpos].  Shown: [cgaputc] keeps the cursor and every
    write inside the display, and [printint] prints a numeral that reads back
    as the number, in a buffer of 16 characters. *)

From S2P Require Import Prelude State Spinlock Mem.

(** The bytes of a C string literal. *)
Fixpoint codes (s : string) : list Z :=
  match s with
  | EmptyString => []
  | String c s => Z.of_N (Ascii.N_of_ascii c) :: codes s
  end.

(** [src/xv6-public/console.c:127] *)
Definition BACKSPACE : Z := 0x100.

(** [src/xv6-public/console.c:129] physical address of the display memory *)
Definition crt : Z := 0xb8000.

(** [src/xv6-public/uart.c:51-61] the wait for the port only takes time. *)
Definition uartputc (c : Z) : KM unit :=
  uart ← gets k_uart;
  when uart (modify (λ k, k <| k_console ::= cons (c mod 256) |>)).

(** A cell of the display. *)
Definition st16 (m : mem) (a v : Z) : mem := wr (wr m a v) (a + 1) (v / 256).

(** [src/xv6-public/console.c:153-155] the lines move up, and the rest of line 24
    from [pos] on is cleared. *)
Definition scroll (pos : Z) (m : mem) : mem :=
  memset (memmove m crt (crt + 2 * 80) (2 * 23 * 80))
    (crt + 2 * pos) 0 (2 * (24 * 80 - pos)).

(** [src/xv6-public/console.c:131-163] *)
Definition cgaputc (c : Z) : KM unit :=
  k ← mget;
  let pos := k_crtpos k in
  pos ← (if c =? 10 then mret (pos + (80 - pos mod 80))
         else if c =? BACKSPACE then mret (if pos >? 0 then pos - 1 else pos)
         else modify (λ k, k <| k_mem ::= λ m,
                st16 m (crt + 2 * pos) (Z.lor (Z.land c 0xff) 0x0700) |>);;
              mret (pos + 1));
  if (pos <? 0) || (pos >? 25 * 80) then mpanic "pos under/overflow" else
  pos ← (if pos / 80 >=? 24
         then modify (λ k, k <| k_mem ::= scroll (pos - 80) |>);; mret (pos - 80)
         else mret pos);
  modify (λ k, k <| k_crtpos := pos mod 2 ^ 16 |>);;
  modify (λ k, k <| k_mem ::= λ m, st16 m (crt + 2 * pos) (Z.lor 32 0x0700) |>).

(** [src/xv6-public/console.c:165-179] *)
Definition consputc (c : Z) : KM unit :=
  panicked ← gets k_panicked;
  if panicked : bool then cli;; mspin else
  (if c =? BACKSPACE then uartputc 8;; uartputc 32;; uartputc 8 else uartputc c);;
  cgaputc c.

Fixpoint consputs (s : list Z) : KM unit :=
  match s with [] => mret tt | c :: s => consputc c;; consputs s end.

(** The table [digits]. *)
Definition digit (d : Z) : Z := if d <? 10 then 48 + d else 97 + (d - 10).

(** The [do]-[while] loop that fills [buf], least significant digit first. *)
Fixpoint digits_loop (fuel : nat) (x base : Z) : list Z :=
  match fuel with
  | O => []
  | S fuel =>
    digit (x mod base) ::
      (if x / base =? 0 then [] else digits_loop fuel (x / base) base)
  end.

(** [src/xv6-public/console.c:35-46] the buffer [printint] fills *)
Definition printint_buf (xx base : Z) (sign : bool) : list Z :=
  let sign := sign && (xx <? 0) in
  let x := if sign then wrap32 (- xx) else wrap32 xx in
  digits_loop 16 x base ++ (if sign then [45] else []).

(** [src/xv6-public/console.c:27-50] *)
Definition printint (xx base : Z) (sign : bool) : KM unit :=
  consputs (rev (printint_buf xx base sign)).

(** An argument of [cprintf]. *)
Inductive arg := AInt (z : Z) | AStr (s : option (list Z)).

(** The format loop of [cprintf]. *)
Fixpoint cprintf_loop (fmt : list Z) (args : list arg) : KM unit :=
  match fmt with
  | [] => mret tt
  | c :: fmt =>
    if negb (c =? 37) then consputc c;; cprintf_loop fmt args else
    match fmt with
    | [] => mret tt
    | c :: fmt =>
      if c =? 100 then
        match args with
        | AInt z :: args => printint z 10 true;; cprintf_loop fmt args
        | _ => mfault
        end
      else if (c =? 120) || (c =? 112) then
        match args with
        | AInt z :: args => printint z 16 false;; cprintf_loop fmt args
        | _ => mfault
        end
      else if c =? 115 then
        match args with
        | AStr s :: args =>
          consputs (default (codes "(null)") s);; cprintf_loop fmt args
        | _ => mfault
        end
      else if c =? 37 then consputc 37;; cprintf_loop fmt args
      else consputc 37;; consputc c;; cprintf_loop fmt args
    end
  end.

(** [src/xv6-public/console.c:54-104] *)
Definition cprintf (fmt : string) (args : list arg) : KM unit :=
  locking ← gets k_cons_locking;
  when locking (acquire LkCons);;
  cprintf_loop (codes fmt) args;;
  when locking (release LkCons).

(** ** The display *)

Definition crt_end : Z := crt + 2 * 25 * 80.

Lemma rd_st16_out m a v b : b < a ∨ a + 2 ≤ b → rd (st16 m a v) b = rd m b.
Proof. intros. unfold st16. by rewrite !rd_wr_ne by lia. Qed.

Lemma scroll_out pos m b :
  0 ≤ pos ≤ 24 * 80 → b < crt ∨ crt_end ≤ b → rd (scroll pos m) b = rd m b.
Proof.
  intros Hp Hb. unfold scroll. rewrite memset_spec by lia.
  rewrite decide_False by (unfold crt_end, crt in *; lia).
  unfold memmove. rewrite (proj2 (Z.ltb_ge (crt + 2 * 80) crt)) by lia.
  apply copy_up_out. unfold crt_end, crt in *. lia.
Qed.

(** The state after output: the display's memory, the cursor and the serial port have changed. *)
Definition printed (k k' : kernel) : Prop :=
  ∃ m cs p, k' = k <| k_mem := m |> <| k_console := cs |> <| k_crtpos := p |> ∧ 0 ≤ p < 24 * 80 ∧
    ∀ b, b < crt ∨ crt_end ≤ b → rd m b = rd (k_mem k) b.

Lemma printed_trans k1 k2 k3 : printed k1 k2 → printed k2 k3 → printed k1 k3.
Proof.
  intros (m & cs & p & -> & _ & H1) (m' & cs' & p' & -> & Hp & H2). exists m', cs', p'.
  split_and!; [by destruct k1|lia|lia|]. intros b Hb. by rewrite H2, <- H1.
Qed.

Lemma printed_refl k : 0 ≤ k_crtpos k < 24 * 80 → printed k k.
Proof. intros H. exists (k_mem k), (k_console k), (k_crtpos k). by destruct k. Qed.

(** [cgaputc] in its three steps: a character, a new line of the screen, the cursor. *)
Lemma cgaputc_ok c e k :
  0 ≤ k_crtpos k < 24 * 80 → ∃ k', cgaputc c e k = Ret tt e k' ∧ printed k k'.
Proof.
  intros Hp. unfold cgaputc. msteps.
  set (pos := k_crtpos k) in *.
  assert (∃ pos1 m1,
    (if c =? 10 then mret (pos + (80 - pos mod 80))
     else if c =? BACKSPACE then mret (if pos >? 0 then pos - 1 else pos)
     else modify (λ k, k <| k_mem ::= λ m,
                st16 m (crt + 2 * pos) (Z.lor (Z.land c 0xff) 0x0700) |>);;
          mret (pos + 1)) e k = Ret pos1 e (k <| k_mem := m1 |>) ∧ 0 ≤ pos1 ≤ 24 * 80 ∧
    ∀ b, b < crt ∨ crt_end ≤ b → rd m1 b = rd (k_mem k) b)
    as (pos1 & m1 & E1 & Hp1 & Hm1).
  { assert (k <| k_mem := k_mem k |> = k) as Ek by (by destruct k).
    destruct (c =? 10); [|destruct (c =? BACKSPACE)].
    - eexists _, (k_mem k). rewrite Ek. split; [done|]. split; [dlia|done].
    - eexists _, (k_mem k). rewrite Ek. split; [done|]. split; [|done]. destruct (Z.gtb_spec pos 0); lia.
    - eexists _, _. split; [reflexivity|]. split; [lia|]. intros b Hb.
      apply rd_st16_out. unfold crt_end, crt in *. lia. }
  mgo (exact E1). clear E1.
  replace ((pos1 <? 0) || (pos1 >? 25 * 80)) with false by lia.
  destruct (Z.geb_spec (pos1 / 80) 24) as [Hs|Hs].
  - assert (pos1 = 24 * 80) as -> by dlia. rewrite bind_assoc. msteps. unfold modify.
    eexists. split; [reflexivity|].
    exists (st16 (scroll (24 * 80 - 80) m1) (crt + 2 * (24 * 80 - 80)) (Z.lor 32 0x0700)), (k_console k),
      ((24 * 80 - 80) mod 2 ^ 16). split; [generalize (24 * 80 - 80), scroll; intros; destruct k; reflexivity|]. split; [done|].
    intros b Hb. rewrite rd_st16_out, scroll_out; [by apply Hm1|lia|done|].
    unfold crt_end, crt in *. lia.
  - msteps. unfold modify. eexists. split; [reflexivity|].
    exists (st16 m1 (crt + 2 * pos1) (Z.lor 32 0x0700)), (k_console k), (pos1 mod 2 ^ 16).
    split; [destruct k; reflexivity|]. split.
    + rewrite Z.mod_small by dlia. dlia.
    + intros b Hb. rewrite rd_st16_out; [by apply Hm1|].
      unfold crt_end, crt in *. dlia.
Qed.

Lemma uartputc_ok c e k : ∃ cs, uartputc c e k = Ret tt e (k <| k_console := cs |>).
Proof.
  unfold uartputc. msteps. destruct (k_uart k); cbn [when]; [by eexists|].
  exists (k_console k). by destruct k.
Qed.

Lemma consputc_ok c e k :
  k_panicked k = false → 0 ≤ k_crtpos k < 24 * 80 → ∃ k', consputc c e k = Ret tt e k' ∧ printed k k'.
Proof.
  intros Hk Hp. unfold consputc. msteps. rewrite Hk.
  assert (∃ cs, (if c =? BACKSPACE then uartputc 8;; uartputc 32;; uartputc 8 else uartputc c) e k =
    Ret tt e (k <| k_console := cs |>)) as [cs E].
  { destruct (c =? BACKSPACE); [|apply uartputc_ok].
    destruct (uartputc_ok 8 e k) as [c1 E1]. mgo (exact E1).
    destruct (uartputc_ok 32 e (k <| k_console := c1 |>)) as [c2 E2]. mgo (exact E2).
    destruct (uartputc_ok 8 e (k <| k_console := c2 |>)) as [c3 E3]. exists c3.
    change (k <| k_console := c1 |> <| k_console := c2 |>) with (k <| k_console := c2 |>). rewrite E3. done. }
  mgo (exact E). pose proof (cgaputc_ok c e (k <| k_console := cs |>)) as H.
  destruct (H Hp) as (k' & E' & m & cs' & p & -> & Hr).
  eexists. split; [exact E'|]. exists m, cs', p. split; [by destruct k|done].
Qed.

(** A format without conversions. *)
Lemma cprintf_loop_ok fmt e k :
  37 ∉ fmt → k_panicked k = false → 0 ≤ k_crtpos k < 24 * 80 →
  ∃ k', cprintf_loop fmt [] e k = Ret tt e k' ∧ printed k k'.
Proof.
  revert k. induction fmt as [|c fmt IH]; intros k Hf Hk Hp; cbn [cprintf_loop].
  { exists k. split; [done|]. by apply printed_refl. }
  rewrite not_elem_of_cons in Hf. destruct Hf as [Hc Hf]. rewrite (proj2 (Z.eqb_neq c 37)) by done. cbn [negb].
  destruct (consputc_ok c e k Hk Hp) as (k1 & E1 & H1). mgo (exact E1).
  destruct (IH k1 Hf) as (k2 & E2 & H2); [by destruct H1 as (? & ? & ? & -> & _)| |].
  { destruct H1 as (? & ? & ? & -> & ? & _). done. }
  exists k2. split; [done|]. by eapply printed_trans.
Qed.

Lemma cprintf_ok fmt e k i c :
  37 ∉ codes fmt → k_panicked k = false → 0 ≤ k_crtpos k < 24 * 80 →
  oncpu k i c → cli_wf k c → lock_free k LkCons →
  ∃ k' cpus, cprintf fmt [] e k = Ret tt e (k' <| k_cpus := cpus |>) ∧ printed k k' ∧
    (cpus = k_cpus k ∨ cpus = k_cpus (touch i c k)).
Proof.
  intros Hf Hk Hp Hc Hw Hl. unfold cprintf. msteps. destruct (k_cons_locking k) eqn:El; cbn [when].
  - mgo (by eapply acquire_free).
    destruct (cprintf_loop_ok (codes fmt) e (acquired i c LkCons k) Hf Hk Hp) as (k1 & E1 & m & cs & p & -> & Hr & Hm).
    mgo (exact E1). erewrite release_acquired; [|done..|by split_and!].
    exists (k <| k_mem := m |> <| k_console := cs |> <| k_crtpos := p |>), (k_cpus (touch i c k)).
    split_and!; [by destruct k|by exists m, cs, p|by right].
  - msteps. destruct (cprintf_loop_ok (codes fmt) e k Hf Hk Hp) as (k1 & E1 & H1). mgo (exact E1).
    exists k1, (k_cpus k). split_and!; [|done|by left].
    destruct H1 as (m & cs & p & -> & _). by destruct k.
Qed.

(** C29 [cgaputc] with the cursor on the first 24 lines never panics, leaves the
    cursor on the first 24 lines, and writes no byte outside the display. *)
Theorem cgaputc_bounds c e k :
  0 ≤ k_crtpos k < 24 * 80 →
  ∃ k', cgaputc c e k = Ret tt e k' ∧ 0 ≤ k_crtpos k' < 24 * 80 ∧
    ∀ b, b < crt ∨ crt_end ≤ b → rd (k_mem k') b = rd (k_mem k) b.
Proof.
  intros Hp. destruct (cgaputc_ok c e k Hp) as (k' & E & m & cs & p & -> & Hr & Hm). by eexists.
Qed.

Lemma cgaputc_bounds_witness :
  ∃ k', cgaputc 10 [] (zero_kernel <| k_crtpos := 1919 |>) = Ret tt [] k' ∧
    0 ≤ k_crtpos k' < 1920.
Proof.
  destruct (cgaputc_bounds 10 [] (zero_kernel <| k_crtpos := 1919 |>))
    as (k' & E & H & _); [split; [discriminate|reflexivity]|].
  exact (ex_intro _ k' (conj E H)).
Defined.

(** ** Numerals *)

(** The value of a character as a digit. *)
Definition digit_val (c : Z) : Z := if c <? 97 then c - 48 else c - 97 + 10.

(** The number a sequence of digits stands for, least significant first. *)
Fixpoint numeral (base : Z) (l : list Z) : Z :=
  match l with [] => 0 | c :: l => digit_val c + base * numeral base l end.

Lemma digit_val_digit d : 0 ≤ d < 16 → digit_val (digit d) = d.
Proof.
  intros. unfold digit, digit_val. destruct (Z.ltb_spec d 10).
  - destruct (Z.ltb_spec (48 + d) 97); lia.
  - destruct (Z.ltb_spec (97 + (d - 10)) 97); lia.
Qed.

Lemma digits_loop_spec n fuel x base :
  2 ≤ base ≤ 16 → 0 ≤ x < base ^ Z.of_nat (S n) → (n < fuel)%nat →
  numeral base (digits_loop fuel x base) = x ∧
  (0 < length (digits_loop fuel x base) ≤ S n)%nat.
Proof.
  intros Hb. revert fuel x. induction n as [|n IH]; intros fuel x Hx Hf;
    (destruct fuel as [|fuel]; [lia|]); cbn [digits_loop numeral length].
  - rewrite Z.pow_1_r in Hx. rewrite Z.div_small, Z.mod_small by lia. cbn.
    rewrite digit_val_digit by lia. lia.
  - pose proof (Z.mod_pos_bound x base ltac:(lia)). rewrite digit_val_digit by lia.
    destruct (Z.eqb_spec (x / base) 0) as [E|E]; cbn [numeral length].
    + split; [|lia]. rewrite (Z.div_mod x base) at 2 by lia. lia.
    + destruct (IH fuel (x / base)) as [Ev El]; [|lia|].
      * split; [apply Z.div_pos; lia|]. apply Z.div_lt_upper_bound; [lia|].
        rewrite <- Z.pow_succ_r by lia. replace (Z.succ _) with (Z.of_nat (S (S n))) by lia. lia.
      * rewrite Ev. split; [|lia]. rewrite (Z.div_mod x base) at 3 by lia. lia.
Qed.

(** The signed number that [buf] spells. *)
Definition buf_val (base : Z) (buf : list Z) : Z :=
  match rev buf with
  | c :: ds => if c =? 45 then - numeral base (rev ds) else numeral base buf
  | [] => 0
  end.

Lemma digits_loop_no_minus fuel x base :
  2 ≤ base ≤ 16 → Forall (λ c, c ≠ 45) (digits_loop fuel x base).
Proof.
  intros Hb. revert x. induction fuel as [|fuel IH]; intros x; cbn; constructor.
  - unfold digit. pose proof (Z.mod_pos_bound x base ltac:(lia)).
    destruct (Z.ltb_spec (x mod base) 10); lia.
  - by destruct (_ =? _).
Qed.

Lemma buf_val_pos base l : Forall (λ c, c ≠ 45) l → buf_val base l = numeral base l.
Proof.
  intros Hl. unfold buf_val. destruct (rev l) as [|c ds] eqn:E.
  - apply (f_equal (@rev Z)) in E. rewrite rev_involutive in E. by rewrite E.
  - rewrite Forall_forall in Hl. specialize (Hl c).
    rewrite (proj2 (Z.eqb_neq _ _)); [done|]. apply Hl.
    apply list_elem_of_In, in_rev. rewrite E. by left.
Qed.

(** [printint] prints its number: what it puts in [buf] is the numeral of
    [xx] in the base asked for, read back as [xx] itself when [sign] is set
    (also for the most negative [int]) and as the unsigned value of its 32
    bits otherwise; the numeral fits in the 16 characters of [buf]. *)
Theorem printint_roundtrip xx base sign :
  is_i32 xx → base = 10 ∨ base = 16 →
  buf_val base (printint_buf xx base sign) = (if sign then xx else wrap32 xx) ∧
  (0 < length (printint_buf xx base sign) ≤ 16)%nat.
Proof.
  intros Hx Hb. unfold printint_buf. set (neg := sign && (xx <? 0)).
  set (x := if neg then _ else _).
  assert (0 ≤ x < base ^ Z.of_nat 10) as Hx'.
  { assert (is_u32 x) as [] by (unfold x; destruct neg; apply wrap32_range).
    destruct Hb as [-> | ->]; lia. }
  destruct (digits_loop_spec 9 16 x base) as [Ev El]; [lia|done|lia|].
  pose proof (digits_loop_no_minus 16 x base ltac:(lia)) as Hm.
  split; [|rewrite length_app; destruct neg; cbn [length]; lia].
  destruct neg eqn:En.
  - unfold buf_val. rewrite rev_app_distr. cbn [rev app Z.eqb Pos.eqb].
    rewrite rev_involutive, Ev. unfold x, neg in *.
    destruct sign; cbn in *; [|done]. apply Z.ltb_lt in En.
    rewrite wrap32_small; unfold is_u32, is_i32 in *; lia.
  - rewrite app_nil_r, buf_val_pos, Ev by done. unfold x, neg in *.
    destruct sign; cbn in *; [|done]. apply Z.ltb_ge in En.
    apply wrap32_small. unfold is_u32, is_i32 in *. lia.
Qed.

Lemma printint_roundtrip_witness :
  buf_val 10 (printint_buf (- 2 ^ 31) 10 true) = - 2 ^ 31.
Proof.
  apply (printint_roundtrip (- 2 ^ 31) 10 true); [split; [discriminate|reflexivity]|by left].
Defined.
