(* ===== verification/Sched.v ===== *)
(** * The process table and the scheduler (proc.c)

    The operations of proc.c that work on the process table: [scheduler]
    with its choice of the process to run, the accounting of times and the
    promotion of priorities, [sched], [yield], [sleep], [wakeup], [kill] and
    [change_prio].  [swtch] gives the CPU away until the environment's next
    move; the saved contexts themselves are not modelled. *)

From S2P Require Import Prelude State Spinlock Consout.

(** Read and write a field of [ptable.proc[p]]. *)
Definition proc_get {A} (p : nat) (f : proc → A) : KM A :=
  k ← mget; q ← deref (k_proc k !! p); mret (f q).
Definition proc_upd (p : nat) (f : proc → proc) : KM unit :=
  modify (λ k, k <| k_proc ::= alter f p |>).

Lemma proc_get_ok {A} (f : proc → A) p q e k :
  k_proc k !! p = Some q → proc_get p f e k = Ret (f q) e k.
Proof. intros H. unfold proc_get. msteps. by rewrite H. Qed.

(** [src/xv6-public/proc.c:23] *)
Definition pinit : KM unit := initlock LkPtable.

(** [src/xv6-public/vm.c:149-153] *)
Definition switchkvm : KM unit := modify (λ k, k <| k_cr3 := V2P (k_kpgdir k) |>).

(** [src/xv6-public/vm.c:156-178] the fixed descriptors of the task segment are
    in Desc.v. *)
Definition switchuvm (p : option nat) : KM unit :=
  match p with
  | None => mpanic "switchuvm: no process"
  | Some p =>
    kstack ← proc_get p p_kstack;
    if kstack =? 0 then mpanic "switchuvm: no kstack" else
    pgdir ← proc_get p p_pgdir;
    if pgdir =? 0 then mpanic "switchuvm: no pgdir" else
    pushcli;;
    mycpu_upd (λ c, c <| c_esp0 := wrap32 (kstack + KSTACKSIZE) |>);;
    modify (λ k, k <| k_cr3 := V2P pgdir |>);;
    popcli
  end.

(** ** Sleeping and waking *)

(** [src/xv6-public/proc.c:439-454] *)
Definition sched : KM unit :=
  p ← myproc;
  h ← holding LkPtable;
  if negb h then mpanic "sched ptable.lock" else
  ncli ← mycpu_get c_ncli;
  if negb (ncli =? 1) then mpanic "sched locks" else
  p ← deref p;
  state ← proc_get p p_state;
  if bool_decide (state = RUNNING) then mpanic "sched running" else
  eflags ← gets k_if;
  if eflags : bool then mpanic "sched interruptible" else
  intena ← mycpu_get c_intena;
  switch;;
  mycpu_upd (λ c, c <| c_intena := intena |>).

(** [src/xv6-public/proc.c:457-462] *)
Definition yield : KM unit :=
  acquire LkPtable;;
  p ← myproc;
  p ← deref p;
  proc_upd p (λ q, q <| p_state := RUNNABLE |>);;
  sched;;
  release LkPtable.

(** [src/xv6-public/proc.c:485-518] no caller passes a null lock *)
Definition sleep (chan : chan_t) (lk : lockid) : KM unit :=
  p ← myproc;
  match p with
  | None => mpanic "sleep"
  | Some p =>
    when (bool_decide (lk ≠ LkPtable)) (acquire LkPtable;; release lk);;
    proc_upd p (λ q, q <| p_chan := Some chan |>);;
    proc_upd p (λ q, q <| p_state := SLEEPING |>);;
    sched;;
    proc_upd p (λ q, q <| p_chan := None |>);;
    when (bool_decide (lk ≠ LkPtable)) (release LkPtable;; acquire lk)
  end.

(** [src/xv6-public/proc.c:527-528] one process of the loop of [wakeup1] *)
Definition wake (chan : option chan_t) (q : proc) : proc :=
  if bool_decide (p_state q = SLEEPING) && bool_decide (p_chan q = chan)
  then q <| p_state := RUNNABLE |> else q.

(** [src/xv6-public/proc.c:523-529] *)
Definition wakeup1 (chan : option chan_t) : KM unit :=
  modify (λ k, k <| k_proc ::= map (wake chan) |>).

(** [src/xv6-public/proc.c:532-536] *)
Definition wakeup (chan : chan_t) : KM unit :=
  acquire LkPtable;;
  wakeup1 (Some chan);;
  release LkPtable.

(** The first process of the table with a property. *)
Definition find_proc (P : proc → bool) (ps : list proc) : option nat :=
  fst <$> list_find P ps.

(** [src/xv6-public/proc.c:541-557] *)
Definition kill (pid : Z) : KM Z :=
  acquire LkPtable;;
  ps ← gets k_proc;
  match find_proc (λ q, p_pid q =? pid) ps with
  | Some p =>
    proc_upd p (λ q, q <| p_killed := 1 |>);;
    state ← proc_get p p_state;
    when (bool_decide (state = SLEEPING))
      (proc_upd p (λ q, q <| p_state := RUNNABLE |>));;
    release LkPtable;;
    mret 0
  | None => release LkPtable;; mret (-1)
  end.

(** [src/xv6-public/proc.c:589-606] *)
Definition change_prio (priority : Z) : KM Z :=
  p ← myproc;
  p ← deref p;
  pid ← proc_get p p_pid;
  acquire LkPtable;;
  ps ← gets k_proc;
  match find_proc (λ q, p_pid q =? pid) ps with
  | Some p =>
    proc_upd p (λ q, q <| p_priority := priority |>);;
    release LkPtable;;
    mret 0
  | None =>
    release LkPtable;;
    cprintf "Couldn't find process with pid: %d
 in change_prio()" [AInt pid];;
    mret (-1)
  end.

(** ** The scheduler *)

Definition runnable (q : proc) : bool := bool_decide (p_state q = RUNNABLE).

(** [src/xv6-public/proc.c:330-337] the inner scan: from [h], move to every
    process of strictly higher priority met on the way. *)
Definition higher (ps : list proc) (h j : nat) : nat :=
  match ps !! j, ps !! h with
  | Some q, Some hq => if runnable q && (p_priority q >? p_priority hq) then j else h
  | _, _ => h
  end.
Definition highest_priority_p (ps : list proc) (first : nat) : nat :=
  foldl (higher ps) first (seq 0 (length ps)).

(** [src/xv6-public/proc.c:352-355] what the scheduler records in a process it
    starts *)
Definition start (q : proc) : proc :=
  q <| p_state := RUNNING |>
    <| p_time_slice := INTERV |>
    <| p_queue_time ::= λ t, sint32 (t + 1) |>
    <| p_rutime ::= λ t, sint32 (t + 1) |>.

(** [src/xv6-public/proc.c:370-385] what the scheduler records in each process
    when the process with identifier [pid] has left the CPU *)
Definition account (pid : Z) (q : proc) : proc :=
  let q := q <| p_ctime ::= λ t, wrap32 (t + 1) |> in
  let q :=
    if negb (p_pid q =? pid) then
      if bool_decide (p_state q = SLEEPING)
      then q <| p_stime ::= λ t, sint32 (t + 1) |>
      else q <| p_retime ::= λ t, sint32 (t + 1) |>
    else q in
  if (p_priority q =? 2) && (p_queue_time q >=? P2TO3)
  then q <| p_queue_time := 0 |> <| p_priority := 3 |>
  else if (p_priority q =? 1) && (p_queue_time q >=? P1TO2)
  then q <| p_queue_time := 0 |> <| p_priority := 2 |>
  else q.

(** [src/xv6-public/proc.c:344-386] run the process [p] on CPU [c] until it gives
    the CPU back, then account for it *)
Definition dispatch (c p : nat) : KM unit :=
  modify (λ k, k <| k_cpus ::= alter (λ c, c <| c_proc := Some p |>) c |>);;
  switchuvm (Some p);;
  proc_upd p start;;
  switch;;
  switchkvm;;
  modify (λ k, k <| k_cpus ::= alter (λ c, c <| c_proc := None |>) c |>);;
  pid ← proc_get p p_pid;
  modify (λ k, k <| k_proc ::= map (account pid) |>).

(** [src/xv6-public/proc.c:322-387] the scan of the table from slot [p] on; after
    a dispatch it goes on behind the process that ran, which may be before
    the slot it had reached. *)
Fixpoint scan (fuel : nat) (c p : nat) : KM unit :=
  match fuel with
  | O => λ _ k, NoFuel k
  | S fuel =>
    k ← mget;
    match k_proc k !! p with
    | None => mret tt
    | Some q =>
      if negb (runnable q) then scan fuel c (S p) else
      let p := highest_priority_p (k_proc k) p in
      dispatch c p;;
      scan fuel c (S p)
    end
  end.

(** [src/xv6-public/proc.c:315-390] one turn of the scheduler's endless loop *)
Definition scheduler_round (fuel : nat) (c : nat) : KM unit :=
  sti;;
  acquire LkPtable;;
  scan fuel c 0;;
  release LkPtable.

Fixpoint repeatm (n : nat) (m : KM unit) : KM unit :=
  match n with O => mret tt | S n => m;; repeatm n m end.

(** [src/xv6-public/proc.c:309-391] the first [n] turns *)
Definition scheduler (n fuel : nat) : KM unit :=
  c ← mycpu;
  modify (λ k, k <| k_cpus ::= alter (λ c, c <| c_proc := None |>) c |>);;
  repeatm n (scheduler_round fuel c).

(** [src/xv6-public/proc.c:408-425] the scan of the old round-robin scheduler,
    which goes over each slot once *)
Definition dispatch_original (c p : nat) : KM unit :=
  modify (λ k, k <| k_cpus ::= alter (λ c, c <| c_proc := Some p |>) c |>);;
  switchuvm (Some p);;
  proc_upd p (λ q, q <| p_state := RUNNING |>);;
  switch;;
  switchkvm;;
  modify (λ k, k <| k_cpus ::= alter (λ c, c <| c_proc := None |>) c |>).
Fixpoint scan_original (ps : list nat) (c : nat) : KM unit :=
  match ps with
  | [] => mret tt
  | p :: ps =>
    state ← proc_get p p_state;
    when (bool_decide (state = RUNNABLE)) (dispatch_original c p);;
    scan_original ps c
  end.

(** [src/xv6-public/proc.c:395-429] the first [n] turns *)
Definition scheduler_original (n : nat) : KM unit :=
  c ← mycpu;
  modify (λ k, k <| k_cpus ::= alter (λ c, c <| c_proc := None |>) c |>);;
  repeatm n (
    sti;;
    acquire LkPtable;;
    scan_original (seq 0 NPROC) c;;
    release LkPtable).

(** ** The choice of the process to run *)

(** Process [h] of the table beats every RUNNABLE process of the slots in
    [seen]. *)
Definition beats (ps : list proc) (h : nat) (seen : list nat) : Prop :=
  ∃ hq, ps !! h = Some hq ∧ runnable hq = true ∧
    ∀ j q, j ∈ seen → ps !! j = Some q → runnable q = true →
      p_priority q ≤ p_priority hq.

Lemma higher_beats ps h j seen :
  beats ps h seen → beats ps (higher ps h j) (seen ++ [j]).
Proof.
  intros (hq & Eh & Hr & Hmax). unfold higher. rewrite Eh.
  destruct (ps !! j) as [q|] eqn:Ej.
  2:{ exists hq. split_and!; [done..|]. intros j' q'.
      rewrite elem_of_app, list_elem_of_singleton. naive_solver. }
  destruct (runnable q) eqn:Eq; cbn; [destruct (Z.gtb_spec (p_priority q) (p_priority hq))|];
    eexists; (split_and!; [eassumption..|]); intros j' q';
    rewrite elem_of_app, list_elem_of_singleton; intros [Hin| ->] ? Hr'; simplify_eq;
    try (congruence || lia || eauto).
  specialize (Hmax j' q'). naive_solver lia.
Qed.

Lemma foldl_higher_beats ps l h seen :
  beats ps h seen → beats ps (foldl (higher ps) h l) (seen ++ l).
Proof.
  revert h seen. induction l as [|j l IH]; intros h seen Hb; cbn.
  - by rewrite app_nil_r.
  - rewrite (app_assoc seen [j] l : seen ++ j :: l = _). by apply IH, higher_beats.
Qed.

(** The priority of slot [h], for stating which of equals is chosen. *)
Definition prio (ps : list proc) (h : nat) : Z := default 0 (p_priority <$> ps !! h).

(** Either the first candidate was kept, or the one reached beats all slots
    before it strictly. *)
Definition first_best (ps : list proc) (f h : nat) : Prop :=
  h = f ∨ prio ps f < prio ps h ∧
    ∀ j q, (j < h)%nat → ps !! j = Some q → runnable q = true → p_priority q < prio ps h.

Lemma higher_first ps f h n :
  beats ps h (f :: seq 0 n) → first_best ps f h → first_best ps f (higher ps h n).
Proof.
  intros (hq & Eh & Hr & Hmax) Hb. unfold higher. rewrite Eh.
  destruct (ps !! n) as [q|] eqn:En; [|done].
  destruct (runnable q) eqn:Eq; cbn; [|done].
  destruct (Z.gtb_spec (p_priority q) (p_priority hq)); [|done].
  right. assert (prio ps n = p_priority q ∧ prio ps h = p_priority hq) as [Pn Ph]
    by (unfold prio; by rewrite En, Eh).
  rewrite Pn. split.
  - destruct Hb as [->|[? _]]; lia.
  - intros j qj Hj Ej Hrj. eapply Z.le_lt_trans; [eapply Hmax|]; eauto.
    right. apply elem_of_seq. lia.
Qed.

Lemma highest_first ps f fq n :
  ps !! f = Some fq → runnable fq = true →
  beats ps (foldl (higher ps) f (seq 0 n)) (f :: seq 0 n) ∧
  first_best ps f (foldl (higher ps) f (seq 0 n)).
Proof.
  intros Ef Hr. induction n as [|n [IHb IHf]].
  - split; [|by left]. exists fq. split_and!; [done..|].
    intros j q ->%list_elem_of_singleton ??. by simplify_eq.
  - rewrite seq_S, foldl_app. cbn. split; [|by apply higher_first].
    by apply (higher_beats _ _ _ (f :: seq 0 n)).
Qed.

(** C1 The scheduler's choice.  Started at a RUNNABLE slot [f], the inner scan
    of [scheduler] ends at a RUNNABLE process of maximal priority; among
    equals it takes [f] itself if [f] is one of them, and the one in the
    lowest slot otherwise. *)
Theorem highest_priority_p_spec ps f fq :
  ps !! f = Some fq → runnable fq = true →
  let h := highest_priority_p ps f in
  ∃ q, ps !! h = Some q ∧ runnable q = true ∧
    (∀ j qj, ps !! j = Some qj → runnable qj = true → p_priority qj ≤ p_priority q) ∧
    (h = f ∨ p_priority fq < p_priority q ∧
      ∀ j qj, (j < h)%nat → ps !! j = Some qj → runnable qj = true →
        p_priority qj < p_priority q).
Proof.
  intros Ef Hr h. destruct (highest_first ps f fq (length ps) Ef Hr) as [Hb Hf].
  destruct Hb as (q & Eq & Hq & Hmax). fold (highest_priority_p ps f) in *. fold h in Eq, Hf.
  exists q. split_and!; [done..| |].
  - intros j qj Ej Hj. eapply Hmax; eauto. right. apply elem_of_seq.
    apply lookup_lt_Some in Ej. lia.
  - unfold first_best, prio in Hf. by rewrite Ef, Eq in Hf.
Qed.

(** A process table entry in a given state with a given priority. *)
Definition mkproc (st : procstate) (pid prio : Z) : proc :=
  zero_proc <| p_state := st |> <| p_pid := pid |> <| p_priority := prio |>
    <| p_kstack := KERNBASE + 0x5000 |> <| p_pgdir := KERNBASE + 0x6000 |>.

Lemma highest_priority_p_witness :
  ∃ q, [mkproc SLEEPING 1 3; mkproc RUNNABLE 2 1; mkproc RUNNABLE 3 2;
        mkproc RUNNABLE 4 2] !! 2%nat = Some q ∧ p_pid q = 3 ∧
    ∀ j qj, [mkproc SLEEPING 1 3; mkproc RUNNABLE 2 1; mkproc RUNNABLE 3 2;
        mkproc RUNNABLE 4 2] !! j = Some qj → runnable qj = true →
      p_priority qj ≤ p_priority q.
Proof.
  destruct (highest_priority_p_spec
    [mkproc SLEEPING 1 3; mkproc RUNNABLE 2 1; mkproc RUNNABLE 3 2; mkproc RUNNABLE 4 2]
    1 (mkproc RUNNABLE 2 1) eq_refl eq_refl) as (q & Eq & _ & Hm & _).
  exists q. split_and!; [exact Eq| |exact Hm].
  vm_compute in Eq. by injection Eq as <-.
Defined.

(** ** What a dispatch does to the table *)

Lemma steady_proc_get {A B} b (g : kernel → B) p (f : proc → A) :
  steady b g (proc_get p f).
Proof. unfold proc_get. solve_steady. Qed.
#[export] Hint Resolve steady_proc_get : steady.

Lemma steady_switchuvm b p : steady b k_proc (switchuvm p).
Proof. unfold switchuvm, mycpu_upd. solve_steady. Qed.
#[export] Hint Resolve steady_switchuvm : steady.

(** The table when a dispatch of [p] stops halfway. *)
Definition halfway (p : nat) (e : env kernel) (k k' : kernel) (s : stop) : Prop :=
  k_proc k' = k_proc k ∧ s ≠ SBlocked ∨
  k_proc k' = alter start p (k_proc k) ∧ e = [] ∨
  ∃ f e' k1, e = f :: e' ∧ k_proc k1 = alter start p (k_proc k) ∧
    k_proc k' = k_proc (f k1) ∧ s ≠ SBlocked.

Lemma may_stop_false s : may_stop false s → s ≠ SBlocked ∧ s ≠ SNoFuel.
Proof. by destruct s. Qed.

(** A dispatch takes one move of the environment: the process is started, the
    environment moves, everyone is accounted for. *)
Lemma dispatch_wpo c p e k :
  wpo (λ _ e' k', ∃ f k1 pid, e = f :: e' ∧ k_proc k1 = alter start p (k_proc k) ∧
         k_proc k' = map (account pid) (k_proc (f k1)))
      (λ s k', s ≠ SNoFuel ∧ halfway p e k k' s) (dispatch c p e k).
Proof.
  unfold dispatch, halfway. apply wpo_bind. cbn. apply wpo_bind.
  set (k0 := k <| k_cpus ::= _ |>).
  eapply wpo_mono; [apply (steady_switchuvm false (Some p) e k0)|..]; cbn.
  2:{ intros s k' [[]%may_stop_false E]. auto. }
  intros _ e1 k1 [-> E1]. change (k_proc k0) with (k_proc k) in E1.
  set (k2 := k1 <| k_proc ::= alter start p |>).
  assert (k_proc k2 = alter start p (k_proc k)) as E2
    by (unfold k2, upd, set_k_proc; cbn; by rewrite E1).
  unfold proc_upd, switchkvm. msteps. apply wpo_bind. fold k2.
  destruct e as [|f e]; cbn; [auto|]. msteps. apply wpo_bind.
  eapply wpo_mono; [apply (steady_proc_get false k_proc)|..]; cbn.
  - intros pid e' k' [-> E]. exists f, k2, pid. split_and!; [done..|].
    unfold upd, set_k_proc; cbn. by rewrite E.
  - intros s k' [[]%may_stop_false E]. split; [done|]. right; right. by exists f, e, k2.
Qed.

(** ** The scan ends *)

(** The fuel of the scan is enough: with one pass over the
    table per move of the environment it is never cut short, whatever the
    environment does as long as the table keeps its size.  (Without such a
    bound on the moves it need not end: after each dispatch the scan resumes
    behind the process that ran, which may be earlier in the table.) *)
Lemma scan_fuel c fuel p e k N :
  length (k_proc k) = N →
  Forall (λ f : kernel → kernel, ∀ k, length (k_proc (f k)) = length (k_proc k)) e →
  (N + length e * S N < fuel + p)%nat →
  (p ≤ N)%nat →
  wpo (λ _ _ k', length (k_proc k') = N) (λ s _, s ≠ SNoFuel) (scan fuel c p e k).
Proof.
  intros HN. revert p e k HN. induction fuel as [|fuel IH]; intros p e k HN He Hf Hp; [lia|].
  cbn [scan]. msteps. destruct (k_proc k !! p) as [q|] eqn:Eq; [|done].
  pose proof (lookup_lt_Some _ _ _ Eq) as Hlt.
  destruct (runnable q) eqn:Hr; cbn [negb]; [|apply IH; try done; lia].
  destruct (highest_first (k_proc k) p q (length (k_proc k)) Eq Hr) as [(hq & Eh & _) _].
  fold (highest_priority_p (k_proc k) p) in Eh. apply lookup_lt_Some in Eh.
  apply wpo_bind. eapply wpo_mono; [apply dispatch_wpo|..].
  - intros _ e' k' (f & k1 & pid & -> & E1 & E2).
    inversion_clear He as [|?? Hf1 He']. cbn [length] in Hf. apply IH; [|done|lia..].
    by rewrite E2, length_map, Hf1, E1, length_alter.
  - by intros s k' [? _].
Qed.

(** The environment's move in which the running process [p] uses up its time and
    yields. *)
Definition used_up (p : nat) (k : kernel) : kernel :=
  k <| k_proc ::= alter (λ q, q <| p_state := RUNNABLE |>) p |>.

(** ** Waiting behind a higher priority *)

Section starvation.
Context (w : nat).

(** The process in slot [w] is RUNNABLE with record [wq], and some RUNNABLE
    process has a higher priority. *)
Definition outranked (wq : proc) (ps : list proc) : Prop :=
  ps !! w = Some wq ∧ runnable wq = true ∧
  ∃ h hq, ps !! h = Some hq ∧ runnable hq = true ∧ p_priority wq < p_priority hq.

(** The time in the queue is below the thresholds of promotion. *)
Definition below_threshold (q : proc) : Prop :=
  ¬ (p_priority q = 2 ∧ P2TO3 ≤ p_queue_time q) ∧
  ¬ (p_priority q = 1 ∧ P1TO2 ≤ p_queue_time q).

(** A move that leaves the process [w] of priority [pr] alone while it is
    RUNNABLE, and ends with a process of higher priority RUNNABLE. *)
Definition keeps_busy (pr : Z) (f : kernel → kernel) : Prop :=
  ∀ k wq, k_proc k !! w = Some wq → runnable wq = true → p_priority wq = pr →
    outranked wq (k_proc (f k)).

(** [wq'] is [wq] after waiting for [n] dispatches of others. *)
Definition starved (n : nat) (wq wq' : proc) : Prop :=
  p_state wq' = RUNNABLE ∧ p_priority wq' = p_priority wq ∧
  p_rutime wq' = p_rutime wq ∧ p_queue_time wq' = p_queue_time wq ∧
  p_ctime wq' = wrap32 (p_ctime wq + Z.of_nat n).

Lemma account_fields pid q :
  p_state (account pid q) = p_state q ∧ p_pid (account pid q) = p_pid q ∧
  p_rutime (account pid q) = p_rutime q ∧
  p_ctime (account pid q) = wrap32 (p_ctime q + 1) ∧
  p_priority q ≤ p_priority (account pid q).
Proof.
  unfold account. set (q' := if negb _ then _ else _).
  assert (p_state q' = p_state q ∧ p_pid q' = p_pid q ∧ p_rutime q' = p_rutime q ∧
    p_ctime q' = wrap32 (p_ctime q + 1) ∧ p_priority q' = p_priority q)
    as (<- & <- & <- & <- & <-)
    by (unfold q'; destruct (negb _); [destruct (bool_decide _)|]; done).
  destruct (Z.eqb_spec (p_priority q') 2), (Z.eqb_spec (p_priority q') 1); cbn [andb];
    repeat destruct (_ >=? _); rsimpl; split_and!; done || lia.
Qed.

Lemma account_below pid q :
  below_threshold q →
  p_priority (account pid q) = p_priority q ∧ p_queue_time (account pid q) = p_queue_time q.
Proof.
  intros [H2 H1]. unfold account.
  set (q' := if negb _ then _ else _).
  assert (p_priority q' = p_priority q ∧ p_queue_time q' = p_queue_time q) as [Ep Eq].
  { unfold q'. destruct (negb _); [destruct (bool_decide _)|]; done. }
  rewrite Ep, Eq.
  destruct (Z.eqb_spec (p_priority q) 2), (Z.eqb_spec (p_priority q) 1),
    (Z.geb_spec (p_queue_time q) P2TO3), (Z.geb_spec (p_queue_time q) P1TO2); cbn;
    try (exfalso; lia); done.
Qed.

Lemma outranked_account pid wq ps :
  below_threshold wq → outranked wq ps → outranked (account pid wq) (map (account pid) ps).
Proof.
  intros Hb (Ew & Hr & h & hq & Eh & Hh & Hlt).
  destruct (account_below pid wq Hb) as [Ep _].
  destruct (account_fields pid wq) as (Es & _). destruct (account_fields pid hq) as (Es' & _ & _ & _ & Hp).
  unfold outranked, runnable in *. rewrite Es. split_and!; [|done|].
  - by rewrite list_lookup_fmap, Ew.
  - exists h, (account pid hq). rewrite list_lookup_fmap, Eh, Es', Ep. split_and!; [done..|lia].
Qed.

(** The choice is never the outranked process. *)
Lemma outranked_not_chosen wq ps p q :
  outranked wq ps → ps !! p = Some q → runnable q = true → highest_priority_p ps p ≠ w.
Proof.
  intros (Ew & Hr & h & hq & Eh & Hh & Hlt) Eq Hq E.
  destruct (highest_first ps p q (length ps) Eq Hq) as [(x & Ex & _ & Hmax) _].
  fold (highest_priority_p ps p) in Ex. rewrite E in Ex.
  assert (x = wq) as -> by congruence.
  assert (p_priority hq ≤ p_priority wq); [|lia]. eapply Hmax; eauto.
  right. apply elem_of_seq. apply lookup_lt_Some in Eh. lia.
Qed.

Lemma starved_account n pid wq wq' :
  below_threshold wq → starved n wq wq' → starved (S n) wq (account pid wq').
Proof.
  intros Hb (Es & Ep & Er & Eq & Ec). destruct (account_fields pid wq') as (As & _ & Ar & Ac & _).
  destruct (account_below pid wq') as [Ap Aq].
  { unfold below_threshold in *. by rewrite Ep, Eq. }
  unfold starved. rewrite As, Ap, Ar, Aq, Ac, Ec. split_and!; try done.
  autorewrite with wrap32. f_equal. lia.
Qed.

Lemma starved_below n wq wq' : below_threshold wq → starved n wq wq' → below_threshold wq'.
Proof. intros Hb (_ & Ep & _ & Eq & _). unfold below_threshold in *. by rewrite Ep, Eq. Qed.

Lemma alter_start_other (ps : list proc) p wq :
  p ≠ w → ps !! w = Some wq → alter start p ps !! w = Some wq.
Proof. intros. by rewrite list_lookup_alter_ne. Qed.

(** What waiting leaves: the process has waited [n + m] turns in all, [m] of them
    since the environment was [e]. *)
Definition still_waiting (wq0 : proc) (n : nat) (e e' : env kernel) (k' : kernel) : Prop :=
  ∃ wq, outranked wq (k_proc k') ∧ Forall (keeps_busy (p_priority wq0)) e' ∧ (length e' ≤ length e)%nat ∧
    starved (n + (length e - length e')) wq0 wq.
Definition stopped_waiting (wq0 : proc) (n : nat) (e : env kernel) (k' : kernel) : Prop :=
  ∃ m wq, (m ≤ length e)%nat ∧ k_proc k' !! w = Some wq ∧ starved (n + m) wq0 wq.

Lemma stopped_now wq0 n e k' wq :
  k_proc k' !! w = Some wq → starved n wq0 wq → stopped_waiting wq0 n e k'.
Proof. intros. exists 0%nat, wq. rewrite Nat.add_0_r. split_and!; [lia|done..]. Qed.

Lemma stopped_later wq0 n e e' k' :
  (length e' ≤ length e)%nat →
  stopped_waiting wq0 (n + (length e - length e')) e' k' → stopped_waiting wq0 n e k'.
Proof.
  intros Hl (m & wq & Hm & E & Hs). exists (length e - length e' + m)%nat, wq.
  split_and!; [lia|done|]. by rewrite Nat.add_assoc.
Qed.

Lemma still_later wq0 n e e' e'' k' :
  (length e' ≤ length e)%nat →
  still_waiting wq0 (n + (length e - length e')) e' e'' k' → still_waiting wq0 n e e'' k'.
Proof.
  intros Hl (wq & Ho & He & Hle & Hs). exists wq. split_and!; [done..|lia|].
  by replace (n + _)%nat with (n + (length e - length e') + (length e' - length e''))%nat by lia.
Qed.

Lemma scan_starves fuel c p e k wq0 wq n :
  below_threshold wq0 → starved n wq0 wq → outranked wq (k_proc k) → Forall (keeps_busy (p_priority wq0)) e →
  wpo (λ _ e' k', still_waiting wq0 n e e' k')
      (λ _ k', stopped_waiting wq0 n e k') (scan fuel c p e k).
Proof.
  intros Hb. revert p e k wq n. induction fuel as [|fuel IH]; intros p e k wq n Hs Ho He.
  { destruct Ho as (Ew & _). by eapply stopped_now. }
  cbn [scan]. msteps. destruct (k_proc k !! p) as [q|] eqn:Eq.
  2:{ exists wq. rewrite Nat.sub_diag, Nat.add_0_r. split_and!; done || lia. }
  destruct (runnable q) eqn:Hq; cbn [negb]; [|by eapply IH].
  pose proof (outranked_not_chosen wq _ p q Ho Eq Hq) as Hne.
  destruct Ho as (Ew & Hr & _).
  pose proof (alter_start_other _ _ _ Hne Ew) as Ew'.
  apply wpo_bind. eapply wpo_mono; [apply dispatch_wpo|..].
  - intros _ e' k' (f & k1 & pid & -> & E1 & E2). inversion_clear He as [|?? Hf He'].
    rewrite <- E1 in Ew'. specialize (Hf k1 wq Ew' Hr (proj1 (proj2 Hs))).
    pose proof (starved_below n wq0 wq Hb Hs) as Hbw.
    assert (outranked (account pid wq) (k_proc k')) as Ho'
      by (rewrite E2; by apply outranked_account).
    assert (S n = n + (length (f :: e') - length e'))%nat as En by (cbn [length]; lia).
    eapply wpo_mono; [eapply (IH _ e' k' _ (S n)); eauto using starved_account|..];
      rewrite En; intros; [eapply (still_later _ _ _ e')|eapply (stopped_later _ _ _ e')]; try done; cbn; lia.
  - intros s k' [_ [[E _]|[[E ->]|(f & e' & k1 & -> & E1 & E & _)]]].
    + eapply stopped_now; [by rewrite E|done].
    + eapply stopped_now; [by rewrite E|done].
    + inversion_clear He as [|?? Hf He']. rewrite <- E1 in Ew'.
      destruct (Hf k1 wq Ew' Hr (proj1 (proj2 Hs))) as [Ew2 _]. eapply stopped_now; [by rewrite E|done].
Qed.

Lemma round_starves fuel c e k wq0 wq n :
  below_threshold wq0 → starved n wq0 wq → outranked wq (k_proc k) → Forall (keeps_busy (p_priority wq0)) e →
  wpo (λ _ e' k', still_waiting wq0 n e e' k')
      (λ _ k', stopped_waiting wq0 n e k') (scheduler_round fuel c e k).
Proof.
  intros Hb Hs Ho He. pose proof (proj1 Ho) as Ew. unfold scheduler_round, sti. msteps.
  apply wpo_bind.
  eapply wpo_mono; [apply (steady_acquire k_proc LkPtable); reflexivity|..]; rsimpl.
  2:{ intros s k' [_ E]. eapply stopped_now; [by rewrite E|done]. }
  intros _ e1 k1 [-> E1]. rewrite <- E1 in Ho. apply wpo_bind.
  eapply wpo_mono; [by apply (scan_starves fuel c 0 e k1 wq0 wq n)|..|auto].
  intros _ e2 k2 (wq2 & Ho2 & He2 & Hl2 & Hs2).
  eapply wpo_mono; [apply (steady_release true k_proc); reflexivity|..].
  - intros _ e3 k3 [-> E3]. exists wq2. by rewrite E3.
  - intros s k3 [_ E3]. eexists _, wq2. rewrite E3. split_and!; [|apply Ho2|done]. lia.
Qed.

Lemma rounds_starve rounds fuel c e k wq0 wq n :
  below_threshold wq0 → starved n wq0 wq → outranked wq (k_proc k) → Forall (keeps_busy (p_priority wq0)) e →
  wpo (λ _ e' k', still_waiting wq0 n e e' k')
      (λ _ k', stopped_waiting wq0 n e k') (repeatm rounds (scheduler_round fuel c) e k).
Proof.
  intros Hb. revert e k wq n. induction rounds as [|rounds IH]; intros e k wq n Hs Ho He.
  { exists wq. rewrite Nat.sub_diag, Nat.add_0_r. split_and!; done || lia. }
  cbn [repeatm]. apply wpo_bind.
  eapply wpo_mono; [by eapply round_starves|..|auto].
  intros _ e1 k1 (wq1 & Ho1 & He1 & Hl1 & Hs1).
  eapply wpo_mono; [by eapply (IH e1 k1)|..]; intros;
    [eapply still_later|eapply stopped_later]; eauto.
Qed.
End starvation.

(** C2 Starvation.  As long as, each time the scheduler gets the CPU back, some
    RUNNABLE process has a higher priority, a RUNNABLE process never runs
    and is never promoted, for any number of turns of the scheduler and
    however many dispatches they make: the time it spends waiting (its
    [ctime] grows by one per dispatch) never counts towards [queue_time], so
    the thresholds [P1TO2] and [P2TO3] are not reached by waiting. *)
Theorem scheduler_starves w rounds fuel c e k wq :
  outranked w wq (k_proc k) → below_threshold wq → is_u32 (p_ctime wq) →
  Forall (keeps_busy w (p_priority wq)) e →
  wpo (λ _ e' k', ∃ wq', k_proc k' !! w = Some wq' ∧
         starved (length e - length e') wq wq')
      (λ _ k', ∃ m wq', (m ≤ length e)%nat ∧ k_proc k' !! w = Some wq' ∧ starved m wq wq')
      (repeatm rounds (scheduler_round fuel c) e k).
Proof.
  intros Ho Hb Hc He.
  assert (starved 0 wq wq) as Hs.
  { destruct Ho as (_ & Hr%bool_decide_eq_true & _). split_and!; try done.
    by rewrite Z.add_0_r, wrap32_small. }
  eapply wpo_mono; [by eapply (rounds_starve w)|..].
  - intros _ e' k' (wq' & (Ew & _) & _ & _ & Hs'). by exists wq'.
  - intros _ k' (m & wq' & Hm & Ew & Hs'). by exists m, wq'.
Qed.

(** Each time, the process in slot 1 comes back RUNNABLE with priority 3. *)
Definition busy_move (k : kernel) : kernel :=
  k <| k_proc ::= λ ps, take 1 ps ++ [mkproc RUNNABLE 2 3] |>.

Lemma scheduler_starves_witness :
  let k := zero_kernel <| k_proc := [mkproc RUNNABLE 1 2; mkproc RUNNABLE 2 3] |> in
  wpo (λ _ e' k', ∃ wq', k_proc k' !! 0%nat = Some wq' ∧
         starved (300 - length e') (mkproc RUNNABLE 1 2) wq')
      (λ _ k', ∃ m wq', (m ≤ 300)%nat ∧ k_proc k' !! 0%nat = Some wq' ∧
         starved m (mkproc RUNNABLE 1 2) wq')
      (repeatm 7 (scheduler_round 1000 0) (replicate 300 busy_move) k).
Proof.
  intros k. rewrite <- (length_replicate 300 busy_move) at 1 2.
  apply (scheduler_starves 0 7 1000 0 (replicate 300 busy_move) k (mkproc RUNNABLE 1 2)).
  - split; [done|]. split; [done|]. by exists 1%nat, (mkproc RUNNABLE 2 3).
  - split; intros [H1 H2]; [by apply H2|by vm_compute in H1].
  - done.
  - apply Forall_replicate. intros k' wq Hw Hr Hp. unfold busy_move, outranked. rsimpl.
    destruct (k_proc k') as [|q ps]; [done|]. injection Hw as ->.
    split; [done|]. split; [done|]. exists 1%nat, (mkproc RUNNABLE 2 3).
    split; [done|]. split; [done|]. by rewrite Hp.
Defined.

(** ** Promotion *)

Lemma sint32_succ z : sint32 (sint32 z + 1) = sint32 (z + 1).
Proof.
  assert (∀ x, wrap32 (sint32 x) = wrap32 x) as E.
  { intros x. unfold wrap32, sint32. destruct (_ <? _); [by rewrite Z.mod_mod by lia|].
    rewrite <- (Z.mod_add _ 1 (2 ^ 32)) by lia. rewrite Z.mul_1_l, Z.sub_add. by rewrite Z.mod_mod by lia. }
  rewrite <- (sint32_wrap32 (sint32 z + 1)), <- (sint32_wrap32 (z + 1)). f_equal.
  rewrite <- (wrap32_add_l (sint32 z)), E. apply wrap32_add_l.
Qed.

(** What the scheduler counts for a process. *)
Definition counters (q : proc) : Z * Z * Z := (p_priority q, p_queue_time q, p_rutime q).

Section promotion.
Context (w : nat) (pr thr : Z).

(** A queue with the number of dispatches that end a stay in it. *)
Definition queue : Prop := (pr = 2 ∧ thr = P2TO3) ∨ (pr = 1 ∧ thr = P1TO2).

(** [q] is [q0] after [m] dispatches. *)
Definition dispatched (q0 : proc) (m : nat) (q : proc) : Prop :=
  let need := thr - p_queue_time q0 in
  p_rutime q = sint32 (p_rutime q0 + Z.of_nat m) ∧
  (Z.of_nat m < need → p_priority q = pr ∧ p_queue_time q = p_queue_time q0 + Z.of_nat m) ∧
  (Z.of_nat m = need → p_priority q = pr + 1 ∧ p_queue_time q = 0).

(** A move that leaves the counters of process [w] to the scheduler. *)
Definition keeps_counters (f : kernel → kernel) : Prop :=
  ∀ k q, k_proc k !! w = Some q → ∃ q', k_proc (f k) !! w = Some q' ∧ counters q' = counters q.

Lemma dispatched_counters q0 m q q' : counters q' = counters q → dispatched q0 m q → dispatched q0 m q'.
Proof. unfold counters, dispatched. intros [= -> -> ->]. done. Qed.

Lemma dispatched_below q0 m q :
  queue → dispatched q0 m q → Z.of_nat m ≤ thr - p_queue_time q0 → 0 ≤ p_queue_time q0 → below_threshold q.
Proof.
  intros Hq (_ & H1 & H2) Hm Ht. unfold queue, below_threshold, P2TO3, P1TO2 in *.
  destruct (decide (Z.of_nat m = thr - p_queue_time q0)) as [E|E].
  - destruct (H2 E) as [-> ->]. lia.
  - destruct H1 as [-> ->]; [lia|]. lia.
Qed.

(** Another process has run. *)
Lemma dispatched_other q0 m q pid :
  queue → 0 ≤ p_queue_time q0 → dispatched q0 m q → dispatched q0 m (account pid q).
Proof.
  intros Hq Ht H. destruct (account_fields pid q) as (_ & _ & Er & _).
  destruct (decide (Z.of_nat m ≤ thr - p_queue_time q0)) as [Hm|Hm].
  - destruct (account_below pid q (dispatched_below _ _ _ Hq H Hm Ht)) as [Ep Eq].
    eapply dispatched_counters; [|exact H]. unfold counters. by rewrite Er, Ep, Eq.
  - destruct H as (Hr & _). split; [by rewrite Er|]. split; lia.
Qed.

Lemma account_promotes pid q :
  queue → p_priority q = pr → thr ≤ p_queue_time q →
  p_priority (account pid q) = pr + 1 ∧ p_queue_time (account pid q) = 0.
Proof.
  intros Hq Ep Et. unfold account. set (q' := if negb _ then _ else _).
  assert (p_priority q' = pr ∧ p_queue_time q' = p_queue_time q) as [-> ->].
  { unfold q'. destruct (negb _); [destruct (bool_decide _)|]; done. }
  destruct Hq as [[-> ->]|[-> ->]]; cbn [Z.eqb Pos.eqb andb]; rewrite Z.geb_leb, (proj2 (Z.leb_le _ _)) by done; done.
Qed.

(** The process itself has run. *)
Lemma dispatched_self q0 m q q1 pid :
  queue → 0 ≤ p_queue_time q0 → dispatched q0 m q → counters q1 = counters (start q) →
  dispatched q0 (S m) (account pid q1).
Proof.
  intros Hq Ht H Ec. destruct (account_fields pid q1) as (_ & _ & Er & _).
  unfold counters, start in Ec. rsimpl. injection Ec as Ep Et Ert. rsimpl.
  destruct H as (Hr & H1 & H2). unfold dispatched.
  rewrite Er, Ert, Hr, sint32_succ. split; [f_equal; lia|].
  assert (Hthr : thr ≤ 1000) by (unfold queue, P2TO3, P1TO2 in Hq; lia).
  destruct (decide (Z.of_nat (S m) ≤ thr - p_queue_time q0)) as [Hm|Hm]; [|lia].
  destruct H1 as [Hp Hqt]; [lia|]. rewrite Hqt, sint32_small in Et by (unfold is_i32; lia). rewrite Hp in Ep. split.
  - intros Hlt. destruct (account_below pid q1) as [-> ->]; [|lia].
    unfold queue, below_threshold, P2TO3, P1TO2 in *. lia.
  - intros E. apply account_promotes; [done|done|lia].
Qed.

(** Where a stop of the scheduler leaves the process, after [m] dispatches: as it was, or started. *)
Definition stopped_at (q0 : proc) (m : nat) (k : kernel) : Prop :=
  ∃ q, k_proc k !! w = Some q ∧ (dispatched q0 m q ∨ ∃ q1, dispatched q0 m q1 ∧ counters q = counters (start q1)).

Lemma alter_start_counters (ps : list proc) p q :
  ps !! w = Some q → ∃ q1, alter start p ps !! w = Some q1 ∧ counters q1 = counters (if decide (p = w) then start q else q).
Proof.
  intros E. destruct (decide (p = w)) as [->|Hne].
  - exists (start q). by rewrite list_lookup_alter_eq, E.
  - exists q. by rewrite list_lookup_alter_ne.
Qed.

(** ** The clock as a witness of the dispatches *)
Context (c : nat).

(** The process is on CPU [c]. *)
Definition on_cpu (k : kernel) : bool := bool_decide ((c_proc <$> k_cpus k !! c) = Some (Some w)).

(** A move with one tick of the clock if it is made by process [w], and none otherwise. *)
Definition clocked (f : kernel → kernel) : Prop :=
  ∀ k, k_ticks (f k) = k_ticks k + Z.b2z (on_cpu k) ∧ length (k_cpus (f k)) = length (k_cpus k).

Definition tview (k : kernel) : Z * list (Z * option nat) := (k_ticks k, cpu_ids (k_cpus k)).

#[local] Instance tview_sync : SyncFrame tview.
Proof. split; [|done..]. intros k f H. unfold tview. rsimpl. by rewrite H. Qed.

Lemma steady_switchuvm_tview b p : steady b tview (switchuvm p).
Proof. unfold switchuvm. solve_steady. Qed.

Lemma tview_length k k' : tview k' = tview k → length (k_cpus k') = length (k_cpus k).
Proof.
  intros [= _ E]. apply (f_equal length) in E. unfold cpu_ids in E. by rewrite !length_fmap in E.
Qed.

Lemma tview_on_cpu k k' : tview k' = tview k → on_cpu k' = on_cpu k.
Proof.
  intros [= _ E]. apply (f_equal (λ l, snd <$> l !! c)) in E. unfold cpu_ids in E.
  rewrite !list_lookup_fmap in E. unfold on_cpu. apply bool_decide_ext.
  destruct (k_cpus k !! c), (k_cpus k' !! c); cbn in E |- *; try done; injection E as E; by rewrite E.
Qed.

Lemma dispatch_ticks p e k :
  (c < length (k_cpus k))%nat → Forall clocked e →
  wpo (λ _ _ k', k_ticks k' = k_ticks k + Z.b2z (bool_decide (p = w)) ∧ (c < length (k_cpus k'))%nat)
      (λ _ _, True) (dispatch c p e k).
Proof.
  intros Hc He. unfold dispatch. apply wpo_bind. cbn. apply wpo_bind. set (k0 := k <| k_cpus ::= _ |>).
  assert (on_cpu k0 = bool_decide (p = w)) as E0.
  { unfold on_cpu, k0. rsimpl. apply lookup_lt_is_Some in Hc as [cp Ec]. rewrite list_lookup_alter_eq, Ec. cbn.
    apply bool_decide_ext. split; [by intros [= ->]|by intros ->]. }
  assert (length (k_cpus k0) = length (k_cpus k)) as L0 by (unfold k0; rsimpl; apply length_alter).
  eapply wpo_mono; [apply (steady_switchuvm_tview false (Some p) e k0)|..|done].
  intros _ e1 k1 [-> E1]. pose proof (tview_length _ _ E1) as L1. apply tview_on_cpu in E1 as O1. injection E1 as T1 _.
  unfold proc_upd, switchkvm. msteps. apply wpo_bind. destruct e as [|f e]; cbn; [done|].
  apply Forall_cons in He as [Hf _]. set (k2 := k1 <| k_proc ::= _ |>). destruct (Hf k2) as [T2 L2]. msteps. apply wpo_bind.
  eapply wpo_mono; [apply (steady_proc_get false tview)|..|done]. intros pid e' k' [-> E3].
  pose proof (tview_length _ _ E3) as L3. injection E3 as T3 _. cbn. rsimpl. rewrite T3, T2. rewrite length_alter in L3. change (k_cpus k2) with (k_cpus k1) in L2. split; [|lia].
  change (on_cpu k2) with (on_cpu k1). rewrite O1, E0. change (k_ticks k2) with (k_ticks k1). by rewrite T1.
Qed.

Context (q0 : proc) (Hq : queue) (Ht : 0 ≤ p_queue_time q0) (C : Prop) (t0 : Z).

Definition moves (e : env kernel) : Prop := Forall keeps_counters e ∧ (C → Forall clocked e).

(** The process has been dispatched [m] times, also by the clock. *)
Definition after (m : nat) (k : kernel) : Prop :=
  ∃ q, k_proc k !! w = Some q ∧ dispatched q0 m q ∧
    (C → k_ticks k = t0 + Z.of_nat m ∧ (c < length (k_cpus k))%nat).

(** After at most [length e - length e'] dispatches, on top of [m]. *)
Definition goes_on (m : nat) (e e' : env kernel) (k : kernel) : Prop :=
  moves e' ∧ (length e' ≤ length e)%nat ∧ ∃ m', (m ≤ m' ≤ m + (length e - length e'))%nat ∧ after m' k.
Definition stops (m : nat) (e : env kernel) (k : kernel) : Prop :=
  ∃ m', (m ≤ m' ≤ m + length e)%nat ∧ stopped_at q0 m' k.

Lemma stops_now m e k k' : k_proc k' = k_proc k → after m k → stops m e k'.
Proof. intros Ek (q & E & H & _). exists m. split; [lia|]. exists q. rewrite Ek. by split; [|left]. Qed.

Lemma goes_on_now m e k : moves e → after m k → goes_on m e e k.
Proof. intros He H. split; [done|]. split; [done|]. exists m. split; [lia|done]. Qed.

Lemma goes_on_trans m m1 e e1 e2 k :
  (length e1 ≤ length e)%nat → (m ≤ m1 ≤ m + (length e - length e1))%nat → goes_on m1 e1 e2 k → goes_on m e e2 k.
Proof. intros Hl Hm (He & Hl2 & m' & Hm' & H). split; [done|]. split; [lia|]. exists m'. split; [lia|done]. Qed.

Lemma stops_trans m m1 e e1 k :
  (length e1 ≤ length e)%nat → (m ≤ m1 ≤ m + (length e - length e1))%nat → stops m1 e1 k → stops m e k.
Proof. intros Hl Hm (m' & Hm' & H). exists m'. split; [lia|done]. Qed.

Lemma wpo_both {A} (Φ Φ' : A → env kernel → kernel → Prop) Ψ Ψ' o :
  wpo Φ Ψ o → wpo Φ' Ψ' o → wpo (λ a e k, Φ a e k ∧ Φ' a e k) (λ s k, Ψ s k ∧ Ψ' s k) o.
Proof. destruct o; cbn; auto. Qed.

(** One dispatch, of [w] or of another process. *)
Lemma dispatch_counts p e k q m :
  k_proc k !! w = Some q → dispatched q0 m q → Forall keeps_counters e →
  wpo (λ _ e' k', ∃ f q', e = f :: e' ∧ k_proc k' !! w = Some q' ∧ dispatched q0 (m + if decide (p = w) then 1 else 0)%nat q')
      (λ _ k', stopped_at q0 m k') (dispatch c p e k).
Proof.
  intros E H He. destruct (alter_start_counters (k_proc k) p q E) as (q1 & E1 & C1).
  eapply wpo_mono; [apply dispatch_wpo|..].
  - intros _ e' k' (f & k1 & pid & -> & Ek1 & Ek'). apply Forall_cons in He as [Hf He].
    rewrite <- Ek1 in E1. destruct (Hf k1 q1 E1) as (q2 & E2 & C2). rewrite C1 in C2.
    exists f, (account pid q2). split; [done|]. split; [by rewrite Ek', list_lookup_fmap, E2|].
    destruct (decide (p = w)) as [->|].
    + rewrite Nat.add_1_r. by eapply dispatched_self.
    + rewrite Nat.add_0_r. apply dispatched_other; [done..|]. by eapply dispatched_counters.
  - assert (Hst : ∀ k' q', k_proc k' !! w = Some q' → counters q' = counters q1 → stopped_at q0 m k').
    { intros k' q' E' C'. exists q'. split; [done|]. rewrite C1 in C'.
      destruct (decide (p = w)); [right; by exists q|left; by eapply dispatched_counters]. }
    intros s k' [Hs [[Ek _]|[[Ek _]|(f & e' & k1 & -> & Ek1 & Ek & _)]]].
    + exists q. rewrite Ek. by split; [|left].
    + eapply Hst; [by rewrite Ek|done].
    + apply Forall_cons in He as [Hf He]. rewrite <- Ek1 in E1. destruct (Hf k1 q1 E1) as (q2 & E2 & C2).
      eapply Hst; [by rewrite Ek|done].
Qed.

Lemma wpo_given {A} (P : Prop) (Φ : A → env kernel → kernel → Prop) o :
  (P → wpo Φ (λ _ _, True) o) → wpo (λ a e k, P → Φ a e k) (λ _ _, True) o.
Proof. destruct o; cbn; auto. Qed.

Lemma dispatch_promotes p e k m :
  after m k → moves e → wpo (λ _ e' k', goes_on m e e' k') (λ _ k', stops m e k') (dispatch c p e k).
Proof.
  intros (q & E & H & HC) [He Hk].
  eapply wpo_mono; [apply wpo_both; [by eapply dispatch_counts|apply (wpo_given C), (λ HT, dispatch_ticks p e k (proj2 (HC HT)) (Hk HT))]|..].
  - intros _ e' k' [(f & q' & -> & E' & H') HT]. split; [split; [by apply Forall_cons in He as [_ He]|]|].
    { intros HCC. specialize (Hk HCC). by apply Forall_cons in Hk as [_ Hk]. }
    split; [cbn; lia|]. eexists. split; [|exists q'; split; [done|]; split; [exact H'|]].
    + cbn [length]. destruct (decide (p = w)); lia.
    + intros HCC. destruct (HT HCC) as [-> Hc]. split; [|done]. destruct (HC HCC) as [-> _].
      rewrite bool_decide_decide. destruct (decide (p = w)); cbn [Z.b2z]; lia.
  - intros _ k' [Hs _]. exists m. split; [lia|done].
Qed.

Lemma scan_promotes fuel p e k m :
  after m k → moves e → wpo (λ _ e' k', goes_on m e e' k') (λ _ k', stops m e k') (scan fuel c p e k).
Proof.
  revert p e k m. induction fuel as [|fuel IH]; intros p e k m H He; [by eapply stops_now|].
  cbn [scan]. msteps. destruct (k_proc k !! p) as [qp|] eqn:Ep; [|by eapply goes_on_now].
  destruct (runnable qp); cbn [negb]; [|by eapply IH].
  apply wpo_bind. eapply wpo_mono; [by eapply dispatch_promotes|..|done].
  intros _ e1 k1 (He1 & Hl1 & m1 & Hm1 & H1).
  eapply wpo_mono; [by eapply (IH _ e1 k1)|..]; intros; [by eapply goes_on_trans|by eapply stops_trans].
Qed.

Definition rview (k : kernel) : list proc * (Z * list (Z * option nat)) := (k_proc k, tview k).

#[local] Instance rview_sync : SyncFrame rview.
Proof. split; [|done..]. intros k f H. unfold rview, tview. rsimpl. by rewrite H. Qed.

Lemma after_view m k k' : rview k' = rview k → after m k → after m k'.
Proof.
  unfold rview. intros [= Ep Et Ec] (q & E & H & HC).
  exists q. rewrite Ep, Et. split; [done|]. split; [done|].
  rewrite (tview_length k k'); [done|]. unfold tview. by rewrite Et, Ec.
Qed.

Lemma round_promotes fuel e k m :
  after m k → moves e → wpo (λ _ e' k', goes_on m e e' k') (λ _ k', stops m e k') (scheduler_round fuel c e k).
Proof.
  intros H He. unfold scheduler_round, sti. msteps. apply wpo_bind.
  eapply wpo_mono; [apply (steady_acquire rview LkPtable)|..].
  2:{ intros s k' [_ [= Ek _ _]]. by eapply stops_now. }
  intros _ ea ka [-> Ea]. apply (after_view m k) in Ea; [|done]. apply wpo_bind.
  eapply wpo_mono; [by eapply (scan_promotes fuel 0 e ka m)|..|done].
  intros _ e1 k1 (He1 & Hl1 & m1 & Hm1 & H1).
  eapply wpo_mono; [apply (steady_release true rview)|..].
  - intros _ e2 k2 [-> Ek2]. eapply goes_on_trans; [exact Hl1|exact Hm1|].
    apply goes_on_now; [done|by eapply after_view].
  - intros s k2 [_ Ek2]. eapply stops_trans; [exact Hl1|exact Hm1|].
    injection Ek2 as Ek2 _ _. by eapply stops_now.
Qed.

Lemma rounds_promote rounds fuel e k m :
  after m k → moves e →
  wpo (λ _ e' k', goes_on m e e' k') (λ _ k', stops m e k') (repeatm rounds (scheduler_round fuel c) e k).
Proof.
  revert e k m. induction rounds as [|rounds IH]; intros e k m H He; [by eapply goes_on_now|].
  cbn [repeatm]. apply wpo_bind. eapply wpo_mono; [by eapply round_promotes|..|done].
  intros _ e1 k1 (He1 & Hl1 & m1 & Hm1 & H1).
  eapply wpo_mono; [by eapply (IH e1 k1)|..]; intros; [by eapply goes_on_trans|by eapply stops_trans].
Qed.
End promotion.


(** The process uses up its time slice, in one tick. *)
Definition used_up_tick (p : nat) (k : kernel) : kernel :=
  used_up p k <| k_ticks ::= λ t, t + Z.b2z (on_cpu p 0 k) |>.

