(* ===== verification/Fair.v ===== *)
(** * Fairness of the scheduler (proc.c)

    Among processes of the highest priority the scan of [scheduler] is a
    round robin as long as no other process is RUNNABLE ([fair_round]): each
    runs once the ones before it in the table have.  With a RUNNABLE process
    of lower priority among them it is not ([scheduler_overlooks]): the inner
    scan then goes back to the first of them, and those behind wait for
    ever. *)

From S2P Require Import Prelude State Spinlock Consout Sched.

(** ** A dispatch, step by step *)

(** CPU [i] is in [scheduler], inside a critical section. *)
Definition ready (i : nat) (k : kernel) : Prop :=
  ∃ c, oncpu k i c ∧ k_if k = false ∧ 1 ≤ c_ncli c.

(** CPU [i] runs process [p]. *)
Definition runs (i p : nat) (k : kernel) : Prop :=
  (c_proc <$> k_cpus k !! i) = Some (Some p) ∧ (p_state <$> k_proc k !! p) = Some RUNNING.

Definition startable (q : proc) : Prop := p_kstack q ≠ 0 ∧ p_pgdir q ≠ 0.

Lemma ready_upd i f k :
  ready i k → (∀ c, c_apicid (f c) = c_apicid c) → (∀ c, c_ncli (f c) = c_ncli c) →
  ready i (k <| k_cpus ::= alter f i |>).
Proof.
  intros (c & Hc & Hif & Hn) Ha Hf. exists (f c). rewrite (alter_kcpu f i c) by done. split_and!.
  - by eapply kcpu_oncpu.
  - done.
  - by rewrite Hf.
Qed.

Lemma switchuvm_ok i p q k :
  ready i k → k_proc k !! p = Some q → startable q →
  ∃ k', (∀ e, switchuvm (Some p) e k = Ret tt e k') ∧ ready i k' ∧ k_proc k' = k_proc k ∧
    (c_proc <$> k_cpus k' !! i) = (c_proc <$> k_cpus k !! i).
Proof.
  intros (c & Hc & Hif & Hn) Eq [Hk Hp]. set (c1 := push_cpu (k_if k) c).
  assert (oncpu (kcpu i c1 false k) i c1) as Hc1 by (eapply kcpu_oncpu; [done|apply push_cpu_apicid]).
  set (c2 := c1 <| c_esp0 := wrap32 (p_kstack q + KSTACKSIZE) |>).
  set (k3 := (kcpu i c2 false k) <| k_cr3 := V2P (p_pgdir q) |>).
  assert (oncpu k3 i c2) as Hc3 by exact (kcpu_oncpu i c c2 false k Hc (push_cpu_apicid (k_if k) c)).
  assert (c_ncli c2 = c_ncli c + 1) as Hn2 by (apply (push_cpu_ncli (k_if k) c)).
  eexists. split; [|split_and!].
  - intros e. unfold switchuvm. mgo (by apply proc_get_ok). replace (p_kstack q =? 0) with false by lia.
    mgo (by apply proc_get_ok). replace (p_pgdir q =? 0) with false by lia.
    mgo (by eapply pushcli_ok). fold c1. mgo (by eapply mycpu_upd_ok).
    rewrite (alter_kcpu _ i c1), kcpu_kcpu by done. fold c2. rewrite bind_modify. fold k3.
    apply (popcli_ok e k3 i c2 Hc3); [done|lia].
  - eexists. split; [by eapply kcpu_oncpu|]. split.
    + rewrite kcpu_if. by replace (c_ncli c2 =? 1) with false by lia.
    + change (1 ≤ c_ncli c2 - 1). lia.
  - done.
  - apply oncpu_lookup in Hc. change (k_cpus (kcpu i ?a ?b ?k)) with (<[i := a]> (k_cpus k)).
    rewrite list_lookup_insert_eq by (apply oncpu_lookup, lookup_lt_Some in Hc3; done).
    rewrite Hc. cbn. f_equal. apply (push_cpu_proc (k_if k) c).
Qed.

(** The state [k1] in which process [p] gets the CPU; when it comes back by
    the move [f], everyone is accounted for. *)
Lemma dispatch_ok i p q k :
  ready i k → k_proc k !! p = Some q → startable q →
  ∃ k1, runs i p k1 ∧ ready i k1 ∧ k_proc k1 = alter start p (k_proc k) ∧
    dispatch i p [] k = Blocked k1 ∧
    ∀ f, ready i (f k1) → is_Some (k_proc (f k1) !! p) →
      ∃ k' pid, (∀ e, dispatch i p (f :: e) k = Ret tt e k') ∧ ready i k' ∧
        k_proc k' = map (account pid) (k_proc (f k1)).
Proof.
  intros Hr Eq Hst.
  set (k0 := k <| k_cpus ::= alter (λ c, c <| c_proc := Some p |>) i |>).
  assert (ready i k0) as Hr0 by (by apply ready_upd).
  assert ((c_proc <$> k_cpus k0 !! i) = Some (Some p)) as Ep.
  { unfold k0. rsimpl. destruct Hr as (c & Hc%oncpu_lookup & _). by rewrite list_lookup_alter_eq, Hc. }
  destruct (switchuvm_ok i p q k0 Hr0 Eq Hst) as (k1 & E1 & Hr1 & Es & Ec).
  set (k2 := k1 <| k_proc ::= alter start p |>).
  assert (k_proc k2 = alter start p (k_proc k)) as E2 by (unfold k2; rsimpl; by rewrite Es).
  exists k2. split_and!.
  - split; [exact (eq_trans Ec Ep)|]. rewrite E2, list_lookup_alter_eq, Eq. done.
  - exact Hr1.
  - done.
  - unfold dispatch. rewrite bind_modify. fold k0. mgo (apply E1). unfold proc_upd. rewrite bind_modify. done.
  - intros f Hrf [q' Eq']. eexists _, (p_pid q'). split.
    { intros e. unfold dispatch. rewrite bind_modify. fold k0. mgo (apply E1).
      unfold proc_upd. rewrite bind_modify. fold k2. mgo (reflexivity).
      unfold switchkvm. rewrite !bind_modify. mgo (by apply proc_get_ok). reflexivity. }
    split; [|done]. apply (ready_upd i (λ c, c <| c_proc := None |>) ((f k2) <| k_cr3 := _ |>)); [exact Hrf|done..].
Qed.

(** ** Round robin *)

Section fair.
Context (i w : nat).

(** The processes that want the CPU all have the highest priority, process [w]
    is one of them. *)
Definition level (ps : list proc) : Prop :=
  (∃ q, ps !! w = Some q ∧ runnable q = true) ∧
  ∀ j q, ps !! j = Some q → runnable q = true → p_priority q = 3 ∧ startable q.

(** What the process that runs does until it gives the CPU back. *)
Definition fair_move (f : kernel → kernel) : Prop :=
  ∀ k, ready i k → level (k_proc k) → ready i (f k) ∧ level (k_proc (f k)) ∧
    length (k_proc (f k)) = length (k_proc k).

Lemma account_top pid q :
  p_priority q = 3 → p_priority (account pid q) = 3 ∧ p_kstack (account pid q) = p_kstack q ∧
    p_pgdir (account pid q) = p_pgdir q.
Proof.
  intros Hp. unfold account. destruct (negb _); [case_bool_decide|]; rsimpl; rewrite Hp; cbn [Z.eqb Pos.eqb andb];
    rsimpl; by rewrite ?Hp.
Qed.

Lemma level_account pid ps : level ps → level (map (account pid) ps).
Proof.
  intros [(q & Eq & Hq) Hall]. split.
  - exists (account pid q). change (map (account pid) ps) with (account pid <$> ps).
    rewrite list_lookup_fmap, Eq. split; [done|]. unfold runnable in *. by rewrite (proj1 (account_fields pid q)).
  - intros j x Ex Hx. change (map (account pid) ps) with (account pid <$> ps) in Ex.
    rewrite list_lookup_fmap in Ex. destruct (ps !! j) as [y|] eqn:Ey; [|done]. injection Ex as <-.
    unfold runnable in Hx. rewrite (proj1 (account_fields pid y)) in Hx.
    destruct (Hall j y Ey Hx) as [Hp [Hk Hd]]. destruct (account_top pid y Hp) as (-> & E1 & E2).
    split; [done|]. split; congruence.
Qed.

Lemma level_start p ps : p ≠ w → level ps → level (alter start p ps).
Proof.
  intros Hne [(q & Eq & Hq) Hall]. split.
  - exists q. by rewrite list_lookup_alter_ne.
  - intros j x Ex Hx. destruct (decide (j = p)) as [->|].
    + rewrite list_lookup_alter_eq in Ex. destruct (ps !! p) as [y|]; [|done]. injection Ex as <-. done.
    + rewrite list_lookup_alter_ne in Ex by done. by eapply Hall.
Qed.

(** Among equals, the choice is the process that the scan is at. *)
Lemma level_choice ps p q : level ps → ps !! p = Some q → runnable q = true → highest_priority_p ps p = p.
Proof.
  intros [_ Hall] Eq Hq. destruct (highest_first ps p q (length ps) Eq Hq) as [(x & Ex & Hx & _) Hf].
  fold (highest_priority_p ps p) in *. destruct Hf as [|[Hlt _]]; [done|].
  unfold prio in Hlt. rewrite Eq, Ex in Hlt. cbn in Hlt.
  destruct (Hall _ _ Eq Hq) as [? _], (Hall _ _ Ex Hx) as [? _]. lia.
Qed.

Lemma scan_fair fuel p e k :
  ready i k → level (k_proc k) → Forall fair_move e → (p ≤ w)%nat → (w - p < fuel)%nat →
  (w - p ≤ length e)%nat →
  ∃ j k1, (j ≤ w - p)%nat ∧ scan fuel i p (take j e) k = Blocked k1 ∧ runs i w k1.
Proof.
  revert p e k. induction fuel as [|fuel IH]; intros p e k Hr Hl He Hp Hf Hn; [lia|].
  cbn [scan]. pose proof Hl as [(qw & Ew & Hw) Hall]. pose proof (lookup_lt_Some _ _ _ Ew) as Hlt.
  destruct (lookup_lt_is_Some_2 (k_proc k) p) as [q Eq]; [lia|].
  destruct (runnable q) eqn:Hq.
  2: { destruct (decide (p = w)) as [->|]; [congruence|].
       destruct (IH (S p) e k Hr Hl He) as (j & k1 & Hj & E & Hruns); [lia..|]. exists j, k1.
       rewrite bind_mget, Eq, Hq. split_and!; [lia|exact E|done]. }
  pose proof (level_choice _ _ _ Hl Eq Hq) as Hc. destruct (Hall _ _ Eq Hq) as [_ Hst].
  destruct (dispatch_ok i p q k Hr Eq Hst) as (k1 & Hruns & Hr1 & E1 & Eb & Hback).
  destruct (decide (p = w)) as [->|Hne].
  { exists 0%nat, k1. rewrite bind_mget, Eq, Hq. cbn [negb]. rewrite Hc, take_0, bind_eq, Eb. split_and!; [lia|done..]. }
  destruct e as [|f e]; [cbn in Hn; lia|]. apply Forall_cons in He as [Hmv He]. cbn [length] in Hn.
  destruct (Hmv k1 Hr1) as (Hrf & Hlf & Hlen); [rewrite E1; by apply level_start|].
  destruct (Hback f Hrf) as (k2 & pid & Ed & Hr2 & Ek2).
  { apply lookup_lt_is_Some_2. rewrite Hlen, E1, length_alter. lia. }
  destruct (IH (S p) e k2 Hr2) as (j & k3 & Hj & E & Hw3); [rewrite Ek2; by apply level_account|done|lia..|].
  exists (S j), k3. rewrite bind_mget, Eq, Hq. cbn [negb]. rewrite Hc, firstn_cons, (bind_Ret _ _ _ _ _ _ _ (Ed _)).
  split_and!; [lia|exact E|done].
Qed.

Lemma acquired_ready c lk k : oncpu k i c → cli_wf k c → ready i (acquired i c lk k).
Proof.
  intros Hc [Hn _]. exists (push_cpu (k_if k) c). split_and!; [|done|].
  - exact (kcpu_oncpu i c _ false k Hc (push_cpu_apicid _ _)).
  - rewrite push_cpu_ncli. lia.
Qed.

End fair.

(** C13 Round robin among equals.  If the RUNNABLE processes all have the highest priority, each time that
    the scheduler has the CPU, then a RUNNABLE process gets it in this turn of the scheduler: it
    is the next to run after at most [w] dispatches, where [w] is its slot in the table. *)
Theorem fair_round i w fuel c e k :
  oncpu k i c → c_ncli c = 0 → lock_free k LkPtable → level w (k_proc k) → Forall (fair_move i w) e →
  (w < fuel)%nat → (w ≤ length e)%nat →
  ∃ j k1, (j ≤ w)%nat ∧ scheduler_round fuel i (take j e) k = Blocked k1 ∧ runs i w k1.
Proof.
  intros Hc Hn Hl Hlv He Hf Hlen. set (k0 := k <| k_if := true |>).
  assert (oncpu k0 i c) as Hc0 by exact Hc. assert (cli_wf k0 c) as Hw0 by (split; [lia|done]).
  destruct (scan_fair i w fuel 0 e (acquired i c LkPtable k0)) as (j & k1 & Hj & E & Hr); [|done|done|lia..|].
  { by apply acquired_ready. }
  exists j, k1. split_and!; [lia| |done]. unfold scheduler_round, sti. rewrite bind_modify. fold k0.
  mgo (by apply (acquire_free _ k0 i c)). by rewrite bind_eq, E.
Qed.

(** The process that runs goes to sleep. *)
Definition falls_asleep (k : kernel) : kernel :=
  k <| k_proc ::= map (λ q, if bool_decide (p_state q = RUNNING) then q <| p_state := SLEEPING |> else q) |>.

Lemma falls_asleep_fair i w : fair_move i w falls_asleep.
Proof.
  intros k Hr [(q & Eq & Hq) Hall]. split; [exact Hr|]. unfold falls_asleep. rsimpl.
  set (g := λ q, if bool_decide (p_state q = RUNNING) then q <| p_state := SLEEPING |> else q).
  split; [|apply length_map]. change (map g (k_proc k)) with (g <$> k_proc k). split.
  - exists q. rewrite list_lookup_fmap, Eq. split; [|done]. cbn. unfold g. unfold runnable in Hq.
    rewrite bool_decide_eq_true in Hq. by rewrite Hq.
  - intros j x Ex Hx. rewrite list_lookup_fmap in Ex. destruct (k_proc k !! j) as [y|] eqn:Ey; [|done].
    injection Ex as <-. unfold g in *. case_bool_decide; [done|]. by eapply Hall.
Qed.

Definition ready3 (pid : Z) : proc := (mkproc RUNNABLE pid 3) <| p_kstack := 0x80005000 |> <| p_pgdir := 0x80006000 |>.

Lemma fair_round_witness :
  let k := zero_kernel <| k_proc := [ready3 1; ready3 2; mkproc SLEEPING 3 2; ready3 4] |> in
  ∃ j k1, (j ≤ 3)%nat ∧ scheduler_round 9 0 (take j (replicate 3 falls_asleep)) k = Blocked k1 ∧ runs 0 3 k1.
Proof.
  intros k. apply (fair_round 0 3 9 (Cpu 0 0 true 0 false None) (replicate 3 falls_asleep) k).
  - reflexivity.
  - reflexivity.
  - reflexivity.
  - split; [by exists (ready3 4)|]. intros j q Ej Hq.
    do 4 (destruct j as [|j]; [injection Ej as <-; done|]). done.
  - apply Forall_replicate, falls_asleep_fair.
  - lia.
  - done.
Defined.

(** ** Processes that are overlooked *)

Section overlooked.
Context (w l : nat).

(** The RUNNABLE process in slot [w] is behind one in slot [l] that has not the
    highest priority, and that is behind one that has. *)
Definition overlooked (wq : proc) (ps : list proc) : Prop :=
  ps !! w = Some wq ∧ runnable wq = true ∧ (l < w)%nat ∧
  (∃ lq a aq, ps !! l = Some lq ∧ runnable lq = true ∧ below_threshold lq ∧
    (a < l)%nat ∧ ps !! a = Some aq ∧ runnable aq = true ∧
    p_priority lq < 3 ∧ p_priority aq = 3) ∧
  (∀ j q, ps !! j = Some q → runnable q = true → p_priority q ≤ 3).

(** Each time the process that runs gives the CPU back, this is so again. *)
Definition keeps_overlooked (pr : Z) (f : kernel → kernel) : Prop :=
  ∀ k wq, k_proc k !! w = Some wq → runnable wq = true → p_priority wq = pr → overlooked wq (k_proc (f k)).

Lemma account_le3 pid q : p_priority q ≤ 3 → p_priority (account pid q) ≤ 3.
Proof.
  intros Hp. unfold account. destruct (negb _); [case_bool_decide|]; rsimpl; (destruct (_ && _); rsimpl; [lia|]);
    destruct (_ && _); rsimpl; lia.
Qed.

Lemma overlooked_account pid wq ps :
  below_threshold wq → overlooked wq ps → overlooked (account pid wq) (map (account pid) ps).
Proof.
  intros Hb (Ew & Hr & Hlw & (lq & a & aq & El & Hl & Hbl & Hal & Ea & Ha & Hlt & Hle) & Hmx).
  change (map (account pid) ps) with (account pid <$> ps).
  destruct (account_below pid wq Hb) as [Ep _], (account_below pid lq Hbl) as [Epl Eql].
  destruct (account_fields pid wq) as (Es & _), (account_fields pid lq) as (Esl & _),
    (account_fields pid aq) as (Esa & _ & _ & _ & Hpa).
  unfold overlooked, runnable in *. rewrite !list_lookup_fmap, Ew, Es. split_and!; [done..| |].
  2: { intros j q Ej Hq. rewrite list_lookup_fmap in Ej. destruct (ps !! j) as [y|] eqn:Ey; [|done].
       injection Ej as <-. rewrite (proj1 (account_fields pid y)) in Hq.
       apply account_le3. by eapply Hmx. }
  exists (account pid lq), a, (account pid aq). rewrite !list_lookup_fmap, El, Ea, Esl, Esa, Epl.
  split_and!; try done.
  - unfold below_threshold in *. by rewrite Epl, Eql.
  - apply (account_top pid aq Hle).
Qed.

(** From any slot up to [l], the choice is another process, not behind [l]. *)
Lemma overlooked_choice wq ps p q :
  overlooked wq ps → (p ≤ l)%nat → ps !! p = Some q → runnable q = true → (highest_priority_p ps p < l)%nat.
Proof.
  intros (Ew & Hr & Hlw & (lq & a & aq & El & Hl & _ & Hal & Ea & Ha & Hlt & Hle) & Hmx) Hp Eq Hq.
  destruct (highest_first ps p q (length ps) Eq Hq) as [(x & Ex & Hx & Hmax) Hf].
  fold (highest_priority_p ps p) in *. set (h := highest_priority_p ps p) in *.
  assert (p_priority x ≤ 3) as Hx3 by (by eapply Hmx).
  assert (p_priority aq ≤ p_priority x) as Hax.
  { eapply Hmax; [|done..]. right. apply elem_of_seq. apply lookup_lt_Some in Ea. lia. }
  destruct Hf as [E|[_ Hfirst]].
  - rewrite E in Ex. assert (x = q) as -> by congruence.
    destruct (decide (p = l)) as [->|]; [|lia]. assert (lq = q) as -> by congruence. lia.
  - destruct (decide (a < h)%nat) as [Hah|]; [|lia].
    specialize (Hfirst a aq Hah Ea Ha). unfold prio in Hfirst. rewrite Ex in Hfirst. cbn in Hfirst. lia.
Qed.

Lemma scan_overlooks fuel c p e k wq0 wq n :
  below_threshold wq0 → starved n wq0 wq → overlooked wq (k_proc k) → (p ≤ l)%nat →
  Forall (keeps_overlooked (p_priority wq0)) e →
  wpo (λ _ _ _, False) (λ _ k', stopped_waiting w wq0 n e k') (scan fuel c p e k).
Proof.
  intros Hb. revert p e k wq n. induction fuel as [|fuel IH]; intros p e k wq n Hs Ho Hp He.
  { destruct Ho as (Ew & _). by eapply stopped_now. }
  cbn [scan]. msteps. destruct (k_proc k !! p) as [q|] eqn:Eq.
  2:{ destruct Ho as (_ & _ & _ & (lq & a & aq & El & _) & _). apply lookup_lt_Some in El.
      apply lookup_ge_None in Eq. lia. }
  destruct (runnable q) eqn:Hq; cbn [negb].
  2:{ eapply IH; [done..| |done]. assert (p ≠ l); [|lia]. intros ->.
      destruct Ho as (_ & _ & _ & (lq & a & aq & El & Hl & _) & _). congruence. }
  pose proof (overlooked_choice wq _ p q Ho Hp Eq Hq) as Hlt. set (h := highest_priority_p (k_proc k) p) in *.
  pose proof Ho as (Ew & Hr & Hlw & _). assert (h ≠ w) as Hne by lia.
  pose proof (alter_start_other w _ _ _ Hne Ew) as Ew'.
  apply wpo_bind. eapply wpo_mono; [apply dispatch_wpo|..].
  - intros _ e' k' (f & k1 & pid & -> & E1 & E2). inversion_clear He as [|?? Hf He'].
    rewrite <- E1 in Ew'. specialize (Hf k1 wq Ew' Hr (proj1 (proj2 Hs))).
    pose proof (starved_below n wq0 wq Hb Hs) as Hbw.
    assert (overlooked (account pid wq) (k_proc k')) as Ho' by (rewrite E2; by apply overlooked_account).
    eapply wpo_mono; [eapply (IH _ e' k' _ (S n)); eauto using starved_account; lia|done|].
    intros st k2 Hst. assert (S n = n + (length (f :: e') - length e'))%nat as En by (cbn [length]; lia).
    rewrite En in Hst. eapply (stopped_later _ _ _ _ e'); [cbn; lia|done].
  - intros s k' [_ [[E _]|[[E ->]|(f & e' & k1 & -> & E1 & E & _)]]].
    + eapply stopped_now; [by rewrite E|done].
    + eapply stopped_now; [by rewrite E|done].
    + inversion_clear He as [|?? Hf He']. rewrite <- E1 in Ew'.
      destruct (Hf k1 wq Ew' Hr (proj1 (proj2 Hs))) as [Ew2 _]. eapply stopped_now; [by rewrite E|done].
Qed.
End overlooked.

(** C14 Equal priorities do not share the CPU.  A RUNNABLE process [w] never runs, however often others are
    dispatched, whatever its own priority, while one of lower priority than 3 in a slot [l] before it is RUNNABLE
    and, before that, some process of priority 3: after each dispatch the scan resumes at or
    before [l], and from there the choice falls on the first process of priority 3 in the table.
    The scan never gets past [l], so this turn of the scheduler does not return. *)
Theorem scheduler_overlooks w l fuel c e k wq :
  overlooked w l wq (k_proc k) → below_threshold wq → is_u32 (p_ctime wq) →
  Forall (keeps_overlooked w l (p_priority wq)) e →
  wpo (λ _ _ _, False)
      (λ _ k', ∃ m wq', (m ≤ length e)%nat ∧ k_proc k' !! w = Some wq' ∧ starved m wq wq')
      (scheduler_round fuel c e k).
Proof.
  intros Ho Hb Hc He. pose proof Ho as (Ew & Hr%bool_decide_eq_true & _).
  assert (starved 0 wq wq) as Hs by (split_and!; try done; by rewrite Z.add_0_r, wrap32_small).
  unfold scheduler_round, sti. msteps. apply wpo_bind.
  eapply wpo_mono; [apply (steady_acquire k_proc LkPtable); reflexivity|..]; rsimpl.
  2:{ intros s k' [_ E]. exists 0%nat, wq. rewrite E. split_and!; [lia|done..]. }
  intros _ e1 k1 [-> E1]. rewrite <- E1 in Ho. apply wpo_bind.
  eapply wpo_mono; [by apply (scan_overlooks w l fuel c 0 e k1 wq wq 0); [..|lia|]|done|].
  intros _ k' (m & wq' & Hm & E & Hst). by exists m, wq'.
Qed.

(** Slot 0 comes back RUNNABLE. *)
Definition comes_back (k : kernel) : kernel :=
  k <| k_proc ::= λ ps, [mkproc RUNNABLE 1 3; mkproc RUNNABLE 2 2] ++ take 1 (drop 2 ps) |>.

Lemma stuck_overlooked ws wq :
  ws = [wq] → runnable wq = true → p_priority wq = 3 →
  overlooked 2 1 wq ([mkproc RUNNABLE 1 3; mkproc RUNNABLE 2 2] ++ ws).
Proof.
  intros -> Hr Hp. split_and!; [done..|lia| |].
  - exists (mkproc RUNNABLE 2 2), 0%nat, (mkproc RUNNABLE 1 3). split_and!; try done || lia.
    split; intros [H1 H2]; [by apply H2|by vm_compute in H1].
  - intros j q Ej _. do 3 (destruct j as [|j]; [injection Ej as <-; rewrite ?Hp; vm_compute; discriminate|]). done.
Qed.

Lemma scheduler_overlooks_witness :
  let k := zero_kernel <| k_proc := [mkproc RUNNABLE 1 3; mkproc RUNNABLE 2 2; mkproc RUNNABLE 3 3] |> in
  wpo (λ _ _ _, False)
      (λ _ k', ∃ m wq', (m ≤ 300)%nat ∧ k_proc k' !! 2%nat = Some wq' ∧ starved m (mkproc RUNNABLE 3 3) wq')
      (scheduler_round 1000 0 (replicate 300 comes_back) k).
Proof.
  intros k. rewrite <- (length_replicate 300 comes_back) at 1.
  apply (scheduler_overlooks 2 1 1000 0 (replicate 300 comes_back) k (mkproc RUNNABLE 3 3)).
  - apply (stuck_overlooked [mkproc RUNNABLE 3 3]); done.
  - split; intros [H1 H2]; by vm_compute in H1.
  - done.
  - apply Forall_replicate. intros k' wq Hw Hr Hp. unfold comes_back. rsimpl.
    destruct (k_proc k') as [|? [|? [|? ps]]]; try done. injection Hw as ->. by apply stuck_overlooked.
Defined.
