(* ===== verification/Sleep.v ===== *)
(** * Sleeping, waking and killing: behaviour (proc.c)

    What [sched], [sleep], [yield], [wakeup], [kill] and [change_prio] do,
    computed out as the states they lead to: [sleep] hands the CPU over with
    the process SLEEPING, its lock free and [ptable.lock] held, and comes back
    with its lock held.  [Module Handshake] is the interleaving of a sleeper
    and a waker step by step, in which no wakeup is lost. *)

From S2P Require Import Prelude State Spinlock Sched.

(** Process [p] runs on CPU [i], inside exactly the critical section of [lk]. *)
Definition holds (k : kernel) (i : nat) (c : cpu) (lk : lockid) (p : nat) : Prop :=
  oncpu k i c ∧ k_if k = false ∧ c_ncli c = 1 ∧ held_by k lk i ∧ c_proc c = Some p.

Lemma holds_cli_wf k i c lk p : holds k i c lk p → cli_wf k c.
Proof. intros (_ & ? & ? & _). split; [lia|done]. Qed.

Lemma touch_id k i c : oncpu k i c → c_ncli c ≠ 0 → touch i c k = k.
Proof. intros Hc Hn. unfold touch. by rewrite touch_nested, kcpu_id. Qed.

(** The flag that [sched] saves and restores. *)
Definition set_intena (j : nat) (cj : cpu) (b : bool) (k : kernel) : kernel :=
  k <| k_cpus ::= <[j := cj <| c_intena := b |>]> |>.

Lemma sched_ok f e k i c p q j cj :
  holds k i c LkPtable p → k_proc k !! p = Some q → p_state q ≠ RUNNING →
  oncpu (f k) j cj → k_if (f k) = false →
  sched (f :: e) k = Ret tt e (set_intena j cj (c_intena c) (f k)).
Proof.
  intros Hh Hq Hs Hj Hif. pose proof (holds_cli_wf _ _ _ _ _ Hh) as Hw.
  destruct Hh as (Hc & Hi & Hn & Hl & Hp).
  assert (touch i c k = k) as Et by (apply touch_id; [done|lia]).
  unfold sched. mgo (by eapply myproc_ok). rewrite Et.
  mgo (by eapply holding_held). rewrite Et. cbn [negb].
  mgo (by eapply mycpu_get_ok). rewrite Hn. cbn [Z.eqb Pos.eqb negb].
  rewrite Hp. msteps. mgo (by eapply proc_get_ok).
  rewrite bool_decide_eq_false_2 by done. cbn match. msteps. rewrite Hi. cbn match.
  mgo (by eapply mycpu_get_ok). rewrite bind_eq. cbn [switch].
  erewrite mycpu_upd_ok by done. f_equal. unfold set_intena.
  rewrite (alter_kcpu _ j cj) by done. unfold kcpu. rewrite Hif.
  unfold upd, set_k_if, set_k_cpus. cbn. by rewrite Hif.
Qed.

(** Without a move of the environment the process stays off the CPU, in the
    state [sched] left. *)
Lemma sched_blocked k i c p q :
  holds k i c LkPtable p → k_proc k !! p = Some q → p_state q ≠ RUNNING →
  sched [] k = Blocked k.
Proof.
  intros Hh Hq Hs. pose proof (holds_cli_wf _ _ _ _ _ Hh) as Hw.
  destruct Hh as (Hc & Hi & Hn & Hl & Hp).
  assert (touch i c k = k) as Et by (apply touch_id; [done|lia]).
  unfold sched. mgo (by eapply myproc_ok). rewrite Et.
  mgo (by eapply holding_held). rewrite Et. cbn [negb].
  mgo (by eapply mycpu_get_ok). rewrite Hn. cbn [Z.eqb Pos.eqb negb].
  rewrite Hp. msteps. mgo (by eapply proc_get_ok).
  rewrite bool_decide_eq_false_2 by done. cbn match. msteps. rewrite Hi. cbn match.
  mgo (by eapply mycpu_get_ok). done.
Qed.

(** [sched] refuses to switch unless the caller holds [ptable.lock]. *)
Lemma sched_unlocked e k i c :
  oncpu k i c → cli_wf k c → ¬ held_by k LkPtable i →
  ∃ k', sched e k = Panic "sched ptable.lock" k'.
Proof.
  intros Hc Hw Hl. unfold sched. mgo (by eapply myproc_ok).
  assert (oncpu (touch i c k) i (touch_cpu (k_if k) c)) as Hc'
    by (eapply kcpu_oncpu; [done|apply touch_cpu_apicid]).
  mgo (eapply holding_ok; [exact Hc'|split; rewrite touch_cpu_ncli; apply Hw]).
  change (lock_of (touch i c k)) with (lock_of k). unfold held_by in Hl.
  destruct (truthy (sp_locked (lock_of k LkPtable))); cbn; [|by eexists].
  rewrite bool_decide_eq_false_2 by naive_solver. by eexists.
Qed.

(** ** Sleeping *)

(** The process [p] marked as sleeping on [chan]. *)
Definition doze (p : nat) (chan : chan_t) (ps : list proc) : list proc :=
  alter (λ q, q <| p_state := SLEEPING |>) p (alter (λ q, q <| p_chan := Some chan |>) p ps).

(** The locks while CPU [i] goes to sleep with [lk]: [ptable.lock] instead. *)
Definition swap_locks (lk : lockid) (i : nat) (ls : gmap lockid spinlock) :=
  if decide (lk = LkPtable) then ls
  else <[lk := unlocked]> (<[LkPtable := Spinlock 1 (Some i)]> ls).

(** The state in which [sleep] gives the CPU away. *)
Definition asleep (i p : nat) (chan : chan_t) (lk : lockid) (k : kernel) : kernel :=
  k <| k_locks ::= swap_locks lk i |> <| k_proc ::= doze p chan |>.

(** The locks when [sleep] returns on CPU [j]: [lk] instead of [ptable.lock]. *)
Definition unswap_locks (lk : lockid) (j : nat) (ls : gmap lockid spinlock) :=
  if decide (lk = LkPtable) then ls
  else <[lk := Spinlock 1 (Some j)]> (<[LkPtable := unlocked]> ls).

(** The state in which [sleep] returns on CPU [j], resumed in state [k]. *)
Definition awake (j : nat) (cj : cpu) (b : bool) (p : nat) (lk : lockid)
    (k : kernel) : kernel :=
  k <| k_cpus ::= <[j := cj <| c_intena := b |>]> |>
    <| k_proc ::= alter (λ q, q <| p_chan := None |>) p |>
    <| k_locks ::= unswap_locks lk j |>.

(** What the rest of the system must do for a sleeper: resume it on a CPU whose
    scheduler holds [ptable.lock], with [lk] free. *)
Definition resumed (k : kernel) (j : nat) (cj : cpu) (lk : lockid) (p : nat) : Prop :=
  holds k j cj LkPtable p ∧ (lk ≠ LkPtable → lock_free k lk).

Lemma cpu_ncli_id (c : cpu) n : c_ncli c = n → c <| c_ncli := n |> = c.
Proof. destruct c. unfold upd, set_c_ncli; cbn. by intros ->. Qed.

Lemma kcpu_locks i c b g k :
  kcpu i c b (k <| k_locks ::= g |>) = (kcpu i c b k) <| k_locks ::= g |>.
Proof. reflexivity. Qed.

Lemma kcpu_acquired i c c' b lk k :
  kcpu i c' b (acquired i c lk k) =
  (kcpu i c' b k) <| k_locks ::= <[lk := Spinlock 1 (Some i)]> |>.
Proof. unfold acquired. by rewrite kcpu_locks, kcpu_kcpu. Qed.

(** Exchange of a held lock for a free one, one nested in the other. *)
Lemma exchange_locks e k i c l1 l2 p :
  holds k i c l1 p → lock_free k l2 → l1 ≠ l2 →
  (acquire l2;; release l1) e k =
  Ret tt e (k <| k_locks ::= λ ls, <[l1 := unlocked]> (<[l2 := Spinlock 1 (Some i)]> ls) |>).
Proof.
  intros Hh Hf Hne. pose proof (holds_cli_wf _ _ _ _ _ Hh) as Hw.
  destruct Hh as (Hc & Hi & Hn & Hl & Hp). mgo (by eapply acquire_free).
  assert (push_cpu (k_if k) c = c <| c_ncli := 2 |>) as Ec
    by (unfold push_cpu; by rewrite Hn).
  pose proof (acquired_oncpu i c l2 k Hc) as Hc2.
  erewrite release_held; [|exact Hc2|done|rewrite push_cpu_ncli; lia|].
  2:{ unfold held_by, lock_of, acquired. rsimpl. rewrite lookup_insert_ne by done. exact Hl. }
  rewrite Ec. change (c_ncli c <| c_ncli := 2 |>) with 2. cbn [Z.eqb Pos.eqb andb Z.sub].
  change (c <| c_ncli := 2 |> <| c_ncli := _ |>) with (c <| c_ncli := 1 |>).
  rewrite kcpu_acquired, cpu_ncli_id by done.
  rewrite <- (kcpu_id i c k Hc) at 2. by rewrite Hi.
Qed.

Lemma exchange_prefix e k i c lk p :
  holds k i c lk p → (lk ≠ LkPtable → lock_free k LkPtable) →
  when (bool_decide (lk ≠ LkPtable)) (acquire LkPtable;; release lk) e k =
  Ret tt e (k <| k_locks ::= swap_locks lk i |>).
Proof.
  intros Hh Hf. unfold swap_locks. case_decide as Hd.
  - rewrite bool_decide_eq_false_2 by (intros H; by apply H). cbn. f_equal. by destruct k.
  - rewrite bool_decide_eq_true_2 by done. cbn [when]. by eapply exchange_locks; eauto.
Qed.

(** Exchange of a held lock for a free one, one after the other. *)
Lemma handover e k i c l1 l2 p :
  holds k i c l1 p → lock_free k l2 → l1 ≠ l2 →
  (release l1;; acquire l2) e k =
  Ret tt e (k <| k_locks ::= λ ls, <[l2 := Spinlock 1 (Some i)]> (<[l1 := unlocked]> ls) |>).
Proof.
  intros (Hc & Hi & Hn & Hl & Hp) Hf Hne.
  mgo (eapply release_held; [exact Hc|done|lia|done]). rewrite Hn. cbn [Z.eqb Pos.eqb andb Z.sub].
  set (c0 := c <| c_ncli := _ |>). set (k1 := _ <| k_locks ::= _ |>).
  assert (oncpu k1 i c0) as Hc1 by (by apply (kcpu_oncpu i c c0 (c_intena c) k)).
  assert (lock_free k1 l2) as Hf1.
  { unfold lock_free, k1. rsimpl. rewrite lookup_insert_ne by done. exact Hf. }
  assert (cli_wf k1 c0) as Hw1 by (split; [done|by intros []]).
  erewrite acquire_free by done. f_equal.
  assert (push_cpu (k_if k1) c0 = c) as Ep.
  { change (k_if k1) with (c_intena c). unfold push_cpu, c0. rsimpl.
    cbn [Z.eqb Pos.eqb Z.add]. destruct c; unfold upd, set_c_intena, set_c_ncli; cbn in *.
    by rewrite Hn. }
  unfold acquired. rewrite Ep. unfold k1. rewrite kcpu_locks, kcpu_kcpu.
  rewrite <- (kcpu_id i c k Hc) at 2. by rewrite Hi.
Qed.

Lemma handover_suffix e k j c lk p :
  holds k j c LkPtable p → (lk ≠ LkPtable → lock_free k lk) →
  when (bool_decide (lk ≠ LkPtable)) (release LkPtable;; acquire lk) e k =
  Ret tt e (k <| k_locks ::= unswap_locks lk j |>).
Proof.
  intros Hh Hf. unfold unswap_locks. case_decide as Hd.
  - rewrite bool_decide_eq_false_2 by (intros H; by apply H). cbn. f_equal. by destruct k.
  - rewrite bool_decide_eq_true_2 by done. cbn [when].
    erewrite handover; [done|done|by apply Hf|by intros <-].
Qed.

Lemma holds_data k k' i c lk p :
  k_lapicid k' = k_lapicid k → k_cpus k' = k_cpus k → k_if k' = k_if k →
  k_locks k' !! lk = k_locks k !! lk →
  holds k i c lk p → holds k' i c lk p.
Proof.
  unfold holds, oncpu, held_by, lock_of. intros -> -> -> ->. done.
Qed.

Lemma asleep_holds i c p chan lk k :
  holds k i c lk p → (lk ≠ LkPtable → lock_free k LkPtable) →
  holds (asleep i p chan lk k) i c LkPtable p.
Proof.
  intros (Hc & Hi & Hn & Hl & Hp) Hf. unfold asleep.
  split; [exact Hc|]. split; [exact Hi|]. split; [exact Hn|]. split; [|exact Hp].
  unfold held_by, lock_of, swap_locks. rsimpl. case_decide as Hd.
  - subst. exact Hl.
  - rewrite lookup_insert_ne, lookup_insert_eq by done. done.
Qed.

Lemma doze_lookup p chan ps q :
  ps !! p = Some q →
  doze p chan ps !! p = Some (q <| p_chan := Some chan |> <| p_state := SLEEPING |>).
Proof. intros E. unfold doze. by rewrite !list_lookup_alter_eq, E. Qed.

(** [sleep] from the state that gives the CPU away to the state it returns in. *)
Lemma sleep_ok chan lk f e k i c p q j cj :
  holds k i c lk p → (lk ≠ LkPtable → lock_free k LkPtable) → k_proc k !! p = Some q →
  resumed (f (asleep i p chan lk k)) j cj lk p →
  sleep chan lk (f :: e) k =
  Ret tt e (awake j cj (c_intena c) p lk (f (asleep i p chan lk k))).
Proof.
  intros Hh Hf Hq [Hr Hrf]. unfold sleep.
  mgo (eapply myproc_ok; [apply Hh|by eapply holds_cli_wf]).
  pose proof Hh as (Hc & Hi & Hn & Hl & Hp). rewrite touch_id, Hp by (done || lia).
  mgo (by eapply exchange_prefix). unfold proc_upd. msteps.
  set (k1 := k <| k_locks ::= _ |> <| k_proc ::= _ |> <| k_proc ::= _ |>).
  change k1 with (asleep i p chan lk k) in *.
  pose proof (asleep_holds i c p chan lk k Hh Hf) as Hh1.
  assert (k_proc (asleep i p chan lk k) !! p = _) as Hq1 by (apply doze_lookup; exact Hq).
  mgo (eapply sched_ok; [exact Hh1|exact Hq1|done|apply Hr|apply Hr]). msteps.
  set (k2 := f (asleep i p chan lk k)) in *.
  erewrite (handover_suffix _ _ j (cj <| c_intena := c_intena c |>) lk p).
  - done.
  - destruct Hr as (Hc2 & Hi2 & Hn2 & Hl2 & Hp2). unfold set_intena. split_and!; try done.
    set (cj' := cj <| c_intena := c_intena c |>).
    exact (kcpu_oncpu j cj cj' (k_if k2) k2 Hc2 eq_refl).
  - intros Hne. exact (Hrf Hne).
Qed.

(** Nobody runs: the state that [sleep] gives the CPU away in. *)
Lemma sleep_blocked chan lk k i c p q :
  holds k i c lk p → (lk ≠ LkPtable → lock_free k LkPtable) → k_proc k !! p = Some q →
  sleep chan lk [] k = Blocked (asleep i p chan lk k).
Proof.
  intros Hh Hf Hq. unfold sleep.
  mgo (eapply myproc_ok; [apply Hh|by eapply holds_cli_wf]).
  pose proof Hh as (Hc & Hi & Hn & Hl & Hp). rewrite touch_id, Hp by (done || lia).
  mgo (by eapply exchange_prefix). unfold proc_upd. msteps.
  set (k1 := k <| k_locks ::= _ |> <| k_proc ::= _ |> <| k_proc ::= _ |>).
  change k1 with (asleep i p chan lk k) in *.
  assert (k_proc (asleep i p chan lk k) !! p = _) as Hq1 by (apply doze_lookup; exact Hq).
  rewrite bind_eq. erewrite sched_blocked; [done|by eapply asleep_holds|exact Hq1|done].
Qed.

(** C25 [sleep] gives the CPU away with the process SLEEPING on [chan],
    [ptable.lock] held and [lk] free, so that whoever takes [lk] next finds
    the sleeper in the table; and when the process is resumed, on whatever
    CPU, it returns holding [lk] and nothing else, with [chan] cleared. *)
Theorem sleep_handshake chan lk f e k i c p q j cj :
  holds k i c lk p → lk ≠ LkPtable → lock_free k LkPtable → k_proc k !! p = Some q →
  resumed (f (asleep i p chan lk k)) j cj lk p →
  let k1 := asleep i p chan lk k in
  (lock_free k1 lk ∧ held_by k1 LkPtable i ∧
   k_proc k1 !! p = Some (q <| p_chan := Some chan |> <| p_state := SLEEPING |>)) ∧
  ∃ k2 cj', sleep chan lk (f :: e) k = Ret tt e k2 ∧ holds k2 j cj' lk p ∧
    lock_free k2 LkPtable ∧ c_intena cj' = c_intena c ∧
    p_chan <$> k_proc k2 !! p = (λ _, None) <$> k_proc (f k1) !! p.
Proof.
  intros Hh Hne Hf Hq Hr k1. split_and!.
  - unfold lock_free, k1, asleep, swap_locks. rsimpl. rewrite decide_False by done.
    by rewrite lookup_insert_eq.
  - by apply (asleep_holds i c p chan lk k).
  - by apply doze_lookup.
  - eexists _, (cj <| c_intena := c_intena c |>). split; [by eapply sleep_ok|].
    destruct Hr as [(Hc2 & Hi2 & Hn2 & Hl2 & Hp2) Hrf]. unfold awake.
    set (k2 := f _) in *. set (cj' := cj <| c_intena := _ |>). unfold holds.
    split_and!; rsimpl; try done.
    + exact (kcpu_oncpu j cj cj' (k_if k2) k2 Hc2 eq_refl).
    + unfold held_by, lock_of, unswap_locks. rsimpl. rewrite decide_False by done.
      by rewrite lookup_insert_eq.
    + unfold lock_free, unswap_locks. rsimpl. rewrite decide_False, lookup_insert_ne by done.
      by rewrite lookup_insert_eq.
    + rewrite list_lookup_alter_eq. by destruct (k_proc k2 !! p).
Qed.

(** A process that runs on CPU 0 and holds the lock of the clock. *)
Definition k_ticks_held : kernel :=
  zero_kernel <| k_proc := [mkproc RUNNING 1 2] |>
    <| k_cpus := [Cpu 0 0 true 1 true (Some 0%nat)] |>
    <| k_locks ::= <[LkTicks := Spinlock 1 (Some 0%nat)]> |>.


(** The environment wakes the process and dispatches it on the same CPU. *)
Definition wake_and_run (k : kernel) : kernel :=
  k <| k_proc ::= alter (λ q, q <| p_state := RUNNING |>) 0%nat |>.

Lemma sleep_handshake_witness :
  ∃ k2 cj', sleep ChTicks LkTicks [wake_and_run] k_ticks_held = Ret tt [] k2 ∧
    holds k2 0 cj' LkTicks 0.
Proof.
  destruct (sleep_handshake ChTicks LkTicks wake_and_run [] k_ticks_held 0
    (Cpu 0 0 true 1 true (Some 0%nat)) 0 (mkproc RUNNING 1 2) 0
    (Cpu 0 0 true 1 true (Some 0%nat))) as (_ & k2 & cj' & E & Hh & _).
  - by split_and!.
  - discriminate.
  - reflexivity.
  - reflexivity.
  - split; [by split_and!|]. intros _. vm_compute. reflexivity.
  - exact (ex_intro _ k2 (ex_intro _ cj' (conj E Hh))).
Defined.

(** [yield] gives the CPU away with the process RUNNABLE again. *)
Definition yielding (i : nat) (c : cpu) (p : nat) (k : kernel) : kernel :=
  (acquired i c LkPtable k) <| k_proc ::= alter (λ q, q <| p_state := RUNNABLE |>) p |>.

Lemma acquired_holds i c lk k p :
  oncpu k i c → c_ncli c = 0 → c_proc c = Some p →
  holds (acquired i c lk k) i (push_cpu (k_if k) c) lk p.
Proof.
  intros Hc Hn Hp. split_and!.
  - by apply acquired_oncpu.
  - done.
  - rewrite push_cpu_ncli. lia.
  - apply acquired_held.
  - by rewrite push_cpu_proc.
Qed.

Lemma yield_blocked k i c p q :
  settled k i c → c_ncli c = 0 → lock_free k LkPtable → c_proc c = Some p →
  k_proc k !! p = Some q → yield [] k = Blocked (yielding i c p k).
Proof.
  intros Hs Hn Hl Hp Hq. pose proof Hs as (Hc & Hw & _). unfold yield.
  mgo (by eapply acquire_free).
  pose proof (acquired_holds i c LkPtable k p Hc Hn Hp) as Hh.
  mgo (eapply myproc_ok; [apply Hh|by eapply holds_cli_wf]).
  rewrite touch_id, push_cpu_proc, Hp by (try apply Hh; rewrite push_cpu_ncli; lia).
  msteps. rewrite bind_eq. unfold proc_upd, modify. cbn match. rewrite bind_eq.
  fold (yielding i c p k).
  erewrite sched_blocked; [done|by eapply (holds_data (acquired i c LkPtable k))|..].
  - unfold yielding. ksimpl. by rewrite list_lookup_alter_eq, Hq.
  - done.
Qed.

(** ** Framing

    Sleeping, yielding and waking change the process table and the
    synchronization state, and nothing else. *)

(** [g] does not look at the process table either. *)
Class TableFrame {B} (g : kernel → B) : Prop := {
  table_sync : SyncFrame g;
  table_proc k f : g (k <| k_proc ::= f |>) = g k }.
#[export] Hint Extern 1 (SyncFrame ?g) =>
  match goal with H : TableFrame g |- _ => exact (@table_sync _ g H) end : typeclass_instances.
#[export] Hint Extern 2 (TableFrame _) =>
  split; [apply _|reflexivity] : typeclass_instances.
#[export] Hint Extern 0 (TableFrame _) => apply _ : steady quiet.

Section frame.
Context {B : Type} (g : kernel → B) `{!TableFrame g}.

Lemma steady_proc_upd b p f : steady b g (proc_upd p f).
Proof. unfold proc_upd. apply steady_modify. intros. apply table_proc. Qed.
Lemma steady_wakeup1 b chan : steady b g (wakeup1 chan).
Proof. apply steady_modify. intros. apply table_proc. Qed.
#[local] Hint Resolve steady_proc_upd steady_wakeup1 : steady.

Lemma steady_wakeup chan : steady true g (wakeup chan).
Proof. unfold wakeup. solve_steady. Qed.

Lemma quiet_sched : quiet g sched.
Proof. unfold sched. solve_quiet. Qed.
#[local] Hint Resolve quiet_sched : quiet.

Lemma quiet_sleep chan lk : quiet g (sleep chan lk).
Proof. unfold sleep. solve_quiet. Qed.

Lemma quiet_yield : quiet g yield.
Proof. unfold yield. solve_quiet. Qed.
End frame.
#[export] Hint Resolve steady_proc_upd steady_wakeup1 steady_wakeup : steady.
#[export] Hint Resolve quiet_sched quiet_sleep quiet_yield : quiet.

(** ** Waking *)

Lemma wakeup_ok chan e k i c :
  oncpu k i c → cli_wf k c → lock_free k LkPtable →
  wakeup chan e k = Ret tt e ((touch i c k) <| k_proc ::= map (wake (Some chan)) |>).
Proof.
  intros Hc Hw Hl. unfold wakeup, wakeup1. mgo (by eapply acquire_free). msteps.
  by erewrite (release_acquired _ _ k i c).
Qed.

(** What [kill] does to its process. *)
Definition slay (q : proc) : proc :=
  (if bool_decide (p_state q = SLEEPING) then q <| p_state := RUNNABLE |> else q)
    <| p_killed := 1 |>.

Lemma kill_ok pid e k i c :
  oncpu k i c → cli_wf k c → lock_free k LkPtable →
  kill pid e k =
  match find_proc (λ q, p_pid q =? pid) (k_proc k) with
  | Some p => Ret 0 e ((touch i c k) <| k_proc ::= alter slay p |>)
  | None => Ret (-1) e (touch i c k)
  end.
Proof.
  intros Hc Hw Hl. unfold kill. mgo (by eapply acquire_free). msteps. ksimpl.
  destruct (find_proc _ _) as [p|] eqn:Ef.
  2:{ mgo (by apply (release_acquired _ _ k i c)). by ksync_push. }
  unfold find_proc in Ef. destruct (list_find _ _) as [[p' q]|] eqn:El; [|done].
  injection Ef as ->. apply list_find_Some in El as (Eq & _).
  unfold proc_upd. msteps.
  mgo (eapply (proc_get_ok p_state p (q <| p_killed := 1 |>));
    ksimpl; by rewrite list_lookup_alter_eq, Eq). rsimpl.
  destruct (bool_decide (p_state q = SLEEPING)) eqn:Es; cbn [when]; msteps;
    mgo (by apply (release_acquired _ _ k i c)); ksync_push; unfold mret, M_ret; f_equal;
    merge_upd; upd_ext; ksimpl; rewrite ?list_alter_alter;
    (apply list_alter_ext; [|done]); intros x Ex; simplify_eq; unfold slay; by rewrite Es.
Qed.

(** The table right after the boot has free slots with pid 0. *)
Lemma find_proc_Some P ps p :
  find_proc P ps = Some p ↔
  ∃ q, ps !! p = Some q ∧ P q = true ∧
    ∀ j qj, ps !! j = Some qj → (j < p)%nat → P qj = false.
Proof.
  unfold find_proc. split.
  - destruct (list_find P ps) as [[p' q]|] eqn:E; [|done]. intros [= ->].
    apply list_find_Some in E as (Eq & HP & Hlt). exists q. split_and!; [done|by apply Is_true_true|].
    intros j qj Ej Hj. specialize (Hlt j qj Ej Hj). by destruct (P qj).
  - intros (q & Eq & HP & Hlt). assert (list_find P ps = Some (p, q)) as ->; [|done].
    apply list_find_Some. split_and!; [done|by apply Is_true_true|].
    intros j qj Ej Hj. rewrite (Hlt j qj Ej Hj). by intros [].
Qed.

(** C30 [kill(0)] succeeds whenever the table has a free slot: a slot that [wait]
    has emptied, or that was never used, has pid 0, and the search of [kill]
    does not look at the state.  The first such slot is marked killed, and
    the mark is still there when the slot is given to a new process. *)
Theorem kill_zero e k i c p q :
  oncpu k i c → cli_wf k c → lock_free k LkPtable →
  k_proc k !! p = Some q → p_state q = UNUSED → p_pid q = 0 →
  (∀ j qj, k_proc k !! j = Some qj → (j < p)%nat → p_pid qj ≠ 0) →
  ∃ k', kill 0 e k = Ret 0 e k' ∧
    k_proc k' !! p = Some (q <| p_killed := 1 |>) ∧
    ∀ j, j ≠ p → k_proc k' !! j = k_proc k !! j.
Proof.
  intros Hc Hw Hl Eq Hs Hp Hlt. erewrite kill_ok by done.
  assert (find_proc (λ q, p_pid q =? 0) (k_proc k) = Some p) as ->.
  { apply find_proc_Some. exists q. rewrite Hp. split_and!; [done..|].
    intros j qj Ej Hj. apply Z.eqb_neq. by eapply Hlt. }
  eexists. split; [done|]. ksimpl. split.
  - rewrite list_lookup_alter_eq, Eq. cbn. unfold slay.
    by rewrite bool_decide_eq_false_2 by congruence.
  - intros j Hj. by rewrite list_lookup_alter_ne.
Qed.

Lemma kill_zero_witness :
  ∃ k', kill 0 [] zero_kernel = Ret 0 [] k' ∧
    p_killed <$> k_proc k' !! 0%nat = Some 1.
Proof.
  destruct (kill_zero [] zero_kernel 0 (Cpu 0 0 true 0 false None) 0 zero_proc)
    as (k' & E & Ep & _); [reflexivity|split; cbn; [lia|done]|reflexivity..|lia|].
  exists k'. split; [exact E|]. by rewrite Ep.
Defined.

Lemma change_prio_ok priority e k i c p q :
  oncpu k i c → cli_wf k c → lock_free k LkPtable → c_proc c = Some p →
  k_proc k !! p = Some q →
  (∀ j qj, k_proc k !! j = Some qj → (j < p)%nat → p_pid qj ≠ p_pid q) →
  change_prio priority e k =
  Ret 0 e ((touch i c k) <| k_proc ::= alter (λ q, q <| p_priority := priority |>) p |>).
Proof.
  intros Hc Hw Hl Hp Eq Hlt. unfold change_prio.
  mgo (by eapply myproc_ok). rewrite Hp. msteps. mgo (by eapply proc_get_ok).
  assert (oncpu (touch i c k) i (touch_cpu (k_if k) c)) as Hc'
    by (eapply kcpu_oncpu; [done|apply touch_cpu_apicid]).
  mgo (eapply acquire_free; [exact Hc'|split; rewrite touch_cpu_ncli; apply Hw|exact Hl]).
  msteps. ksimpl.
  assert (find_proc (λ q', p_pid q' =? p_pid q) (k_proc k) = Some p) as ->.
  { apply find_proc_Some. exists q. split_and!; [done|apply Z.eqb_refl|].
    intros j qj Ej Hj. apply Z.eqb_neq. by eapply Hlt. }
  unfold proc_upd. msteps.
  mgo (apply (release_acquired _ _ (touch i c k) i (touch_cpu (k_if k) c));
    [exact Hc'|split; rewrite touch_cpu_ncli; apply Hw|exact Hl|done]).
  ksync_push. unfold touch at 1. change (k_if (touch i c k)) with (k_if k).
  rewrite touch_touch. unfold touch. by rewrite kcpu_kcpu.
Qed.

(** ** No lost wakeup *)

Module Handshake.

(** The two processes of the protocol, and everyone else. *)
Inductive who := Sleeper | Waker | Other.

(** Where the sleeper is in [acquire(lk); while(!cond) sleep(chan, lk);]. *)
Inductive spc :=
  | S_start      (** before [acquire(lk)] *)
  | S_test       (** holds [lk]; tests the condition next *)
  | S_sleep      (** found it false; [acquire(&ptable.lock)] of [sleep] is next *)
  | S_both       (** holds both locks; [release(lk)] is next *)
  | S_mark       (** [p->state = SLEEPING] is next *)
  | S_sched      (** in [sched]; the scheduler releases [ptable.lock] next *)
  | S_off        (** off the CPU *)
  | S_back       (** dispatched again, with [ptable.lock] held *)
  | S_relock     (** [acquire(lk)] of [sleep] is next *)
  | S_done.      (** found the condition true; holds [lk] *)

(** Where the waker is in [acquire(lk); cond = 1; wakeup(chan); release(lk);]. *)
Inductive wpc :=
  | W_start | W_set | W_wakeup | W_scan | W_unlock | W_release | W_done.

Inductive pstate := Running | Sleeping | Runnable.

Record state := State {
  lk : option who; pl : option who; cond : bool; st : pstate; sp : spc; wp : wpc
}.

(** [src/xv6-public/proc.c:485-536] one step of one of them; locks are taken only
    when free. *)
Inductive step : state → state → Prop :=
  | s_acquire pl cond st wp :
      step (State None pl cond st S_start wp) (State (Some Sleeper) pl cond st S_test wp)
  | s_test lk pl cond st wp :
      step (State lk pl cond st S_test wp)
           (State lk pl cond st (if cond then S_done else S_sleep) wp)
  | s_sleep lk cond st wp :
      step (State lk None cond st S_sleep wp) (State lk (Some Sleeper) cond st S_both wp)
  | s_both lk pl cond st wp :
      step (State lk pl cond st S_both wp) (State None pl cond st S_mark wp)
  | s_mark lk pl cond st wp :
      step (State lk pl cond st S_mark wp) (State lk pl cond Sleeping S_sched wp)
  | s_sched lk pl cond st wp :
      step (State lk pl cond st S_sched wp) (State lk None cond st S_off wp)
  | s_dispatch lk cond wp :
      step (State lk None cond Runnable S_off wp)
           (State lk (Some Sleeper) cond Running S_back wp)
  | s_back lk pl cond st wp :
      step (State lk pl cond st S_back wp) (State lk None cond st S_relock wp)
  | s_relock pl cond st wp :
      step (State None pl cond st S_relock wp) (State (Some Sleeper) pl cond st S_test wp)
  | w_acquire pl cond st sp :
      step (State None pl cond st sp W_start) (State (Some Waker) pl cond st sp W_set)
  | w_set lk pl cond st sp :
      step (State lk pl cond st sp W_set) (State lk pl true st sp W_wakeup)
  | w_wakeup lk cond st sp :
      step (State lk None cond st sp W_wakeup) (State lk (Some Waker) cond st sp W_scan)
  | w_scan lk pl cond st sp :
      step (State lk pl cond st sp W_scan)
           (State lk pl cond (match st with Sleeping => Runnable | _ => st end) sp W_unlock)
  | w_unlock lk pl cond st sp :
      step (State lk pl cond st sp W_unlock) (State lk None cond st sp W_release)
  | w_release lk pl cond st sp :
      step (State lk pl cond st sp W_release) (State None pl cond st sp W_done)
  | o_lk pl cond st sp wp :
      step (State None pl cond st sp wp) (State (Some Other) pl cond st sp wp)
  | o_lk' pl cond st sp wp :
      step (State (Some Other) pl cond st sp wp) (State None pl cond st sp wp)
  | o_pl lk cond st sp wp :
      step (State lk None cond st sp wp) (State lk (Some Other) cond st sp wp)
  | o_pl' lk cond st sp wp :
      step (State lk (Some Other) cond st sp wp) (State lk None cond st sp wp).

Definition init : state := State None None false Running S_start W_start.

Inductive reachable : state → Prop :=
  | reach_init : reachable init
  | reach_step s s' : reachable s → step s s' → reachable s'.

Definition s_has_lk (p : spc) : bool :=
  match p with S_test | S_sleep | S_both | S_done => true | _ => false end.
Definition s_has_pl (p : spc) : bool :=
  match p with S_both | S_mark | S_sched | S_back => true | _ => false end.
Definition w_has_lk (p : wpc) : bool :=
  match p with W_start | W_done => false | _ => true end.
Definition w_has_pl (p : wpc) : bool :=
  match p with W_scan | W_unlock => true | _ => false end.
Definition has_set (p : wpc) : bool :=
  match p with W_start | W_set => false | _ => true end.
Definition has_woken (p : wpc) : bool :=
  match p with W_unlock | W_release | W_done => true | _ => false end.

(** The invariant: who holds the locks, that the condition is false from the
    sleeper's test until it lets go of [lk], and that a sleeper on its way
    down, or down, has its wakeup still to come. *)
Record inv (s : state) : Prop := {
  i_lk_s : s_has_lk (sp s) = true ↔ lk s = Some Sleeper;
  i_lk_w : w_has_lk (wp s) = true ↔ lk s = Some Waker;
  i_pl_s : s_has_pl (sp s) = true ↔ pl s = Some Sleeper;
  i_pl_w : w_has_pl (wp s) = true ↔ pl s = Some Waker;
  i_cond : cond s = has_set (wp s);
  i_test : sp s = S_sleep ∨ sp s = S_both → cond s = false;
  i_mark : sp s = S_mark ∨ sp s = S_sched → has_woken (wp s) = false;
  i_sched : sp s = S_sched → st s = Sleeping;
  i_off : sp s = S_off → st s = Sleeping ∨ st s = Runnable;
  i_down : st s = Sleeping → (sp s = S_sched ∨ sp s = S_off) ∧ has_woken (wp s) = false
}.

Lemma hinv_init : inv init.
Proof. split; cbn; naive_solver. Qed.

Lemma hinv_step s s' : inv s → step s s' → inv s'.
Proof.
  intros [H1 H2 H3 H4 H5 H6 H7 H8 H9 H10] Hs.
  destruct Hs; cbn in *; subst; split; cbn in *; try (intuition congruence).
  all: try (destruct cond0; cbn in *; intuition congruence).
  all: try (destruct wp0; cbn in *; intuition congruence).
  all: try (destruct sp0; cbn in *; intuition congruence).
  all: destruct st0; intuition congruence.
Qed.

Lemma hinv_reachable s : reachable s → inv s.
Proof. induction 1; eauto using hinv_init, hinv_step. Qed.

(** With the condition true and the locks free, the sleeper goes on to [S_done]. *)
Lemma relock_done st wp :
  rtc step (State None None true st S_relock wp)
           (State (Some Sleeper) None true st S_done wp).
Proof.
  eapply rtc_l; [apply s_relock|]. eapply rtc_l; [apply s_test|]. apply rtc_refl.
Qed.

Lemma free_other s :
  (lk s = None ∨ lk s = Some Other) → (pl s = None ∨ pl s = Some Other) →
  rtc step s (State None None (cond s) (st s) (sp s) (wp s)).
Proof.
  destruct s as [l p c t a b]; cbn. intros [-> | ->] [-> | ->].
  - apply rtc_refl.
  - eapply rtc_l; [apply o_pl'|]. apply rtc_refl.
  - eapply rtc_l; [apply o_lk'|]. apply rtc_refl.
  - eapply rtc_l; [apply o_lk'|]. eapply rtc_l; [apply o_pl'|]. apply rtc_refl.
Qed.

Lemma off_done st wp :
  st = Runnable →
  rtc step (State None None true st S_off wp)
           (State (Some Sleeper) None true Running S_done wp).
Proof.
  intros ->. eapply rtc_l; [apply s_dispatch|]. eapply rtc_l; [apply s_back|].
  apply relock_done.
Qed.

(** C24 No wakeup is lost.  However a sleeper in [acquire(lk); while(!cond)
    sleep(chan, lk)] interleaves with a waker in [acquire(lk); cond = 1;
    wakeup(chan); release(lk)] and with other holders of the two locks: once
    [wakeup] has looked at the table the sleeper is not SLEEPING, and once
    the waker is done the sleeper can go on until it has seen the
    condition. *)
Theorem no_lost_wakeup s :
  reachable s →
  (has_woken (wp s) = true → st s ≠ Sleeping) ∧
  (wp s = W_done → ∃ s', rtc step s s' ∧ sp s' = S_done).
Proof.
  intros Hi%hinv_reachable. split; [destruct Hi; intuition congruence|].
  intros Hw. destruct s as [l p c t a b]; destruct Hi as [H1 H2 H3 H4 H5 H6 H7 H8 H9 H10];
    cbn in *; subst; cbn in *.
  assert (∀ x, l = Some x → x = Other ∨ x = Sleeper) as Hl by (intros []; intuition congruence).
  assert (∀ x, p = Some x → x = Other ∨ x = Sleeper) as Hp by (intros []; intuition congruence).
  assert (∀ o : option who, (∀ x, o = Some x → x = Other ∨ x = Sleeper) → o ≠ Some Sleeper →
    o = None ∨ o = Some Other) as Hfree
    by (intros [x|] Hx Hn; [destruct (Hx x eq_refl); subst; intuition congruence|by left]).
  destruct a; cbn in *; try (exfalso; intuition congruence).
  - eexists. split; [etrans; [apply (free_other (State l p true t S_start W_done))|]|].
    + apply Hfree; [done|intuition congruence].
    + apply Hfree; [done|intuition congruence].
    + eapply rtc_l; [apply s_acquire|]. eapply rtc_l; [apply s_test|]. apply rtc_refl.
    + done.
  - eexists. split; [eapply rtc_l; [apply s_test|apply rtc_refl]|done].
  - eexists. split; [etrans; [apply (free_other (State l p true t S_off W_done))|]|].
    + apply Hfree; [done|intuition congruence].
    + apply Hfree; [done|intuition congruence].
    + apply off_done. cbn. intuition congruence.
    + done.
  - eexists. split; [eapply rtc_l; [apply s_back|]|].
    + etrans; [apply (free_other (State l None true t S_relock W_done)); cbn|apply relock_done].
      * apply Hfree; [done|intuition congruence].
      * by left.
    + done.
  - eexists. split; [etrans; [apply (free_other (State l p true t S_relock W_done))|]|].
    + apply Hfree; [done|intuition congruence].
    + apply Hfree; [done|intuition congruence].
    + apply relock_done.
    + done.
  - by eexists; split; [apply rtc_refl|].
Qed.

(** The waker arrives while the sleeper is between [release(lk)] and its mark. *)
Lemma no_lost_wakeup_witness :
  ∃ s', rtc step (State None None true Runnable S_off W_done) s' ∧ sp s' = S_done.
Proof.
  apply (no_lost_wakeup (State None None true Runnable S_off W_done)); [|done].
  eapply reach_step; [|apply w_release].
  eapply reach_step; [|apply w_unlock].
  eapply reach_step; [|apply (w_scan _ _ _ Sleeping)].
  eapply reach_step; [|apply w_wakeup].
  eapply reach_step; [|apply s_sched].
  eapply reach_step; [|apply s_mark].
  eapply reach_step; [|apply w_set].
  eapply reach_step; [|apply w_acquire].
  eapply reach_step; [|apply s_both].
  eapply reach_step; [|apply s_sleep].
  eapply reach_step; [|apply (s_test _ _ false)].
  eapply reach_step; [|apply s_acquire].
  apply reach_init.
Defined.

End Handshake.
