(* ===== verification/Vm.v ===== *)
(** * Virtual memory (vm.c)

    Two-level page tables in byte-addressed physical memory: [walkpgdir],
    [mappages], [setupkvm], [allocuvm], [deallocuvm], [freevm], [clearpteu],
    [copyuvm], [uva2ka] and [copyout], and the address translation of the
    hardware through which the kernel reaches user memory.  ([loaduvm], which
    reads a file, is in the file that models exec.c.) *)

From S2P Require Import Prelude State Spinlock Mem Kalloc Consout Sched.

(** [src/xv6-public/mmu.h:74] *)
Definition PDX (va : Z) : Z := Z.land (Z.shiftr va 22) 0x3FF.
(** [src/xv6-public/mmu.h:77] *)
Definition PTX (va : Z) : Z := Z.land (Z.shiftr va 12) 0x3FF.
(** [src/xv6-public/mmu.h:80] *)
Definition PGADDR (d t o : Z) : Z :=
  wrap32 (Z.lor (Z.lor (Z.shiftl d 22) (Z.shiftl t 12)) o).
(** [src/xv6-public/mmu.h:83] *)
Definition NPDENTRIES : nat := 1024%nat.
(** [src/xv6-public/mmu.h:94] *)
Definition PTE_P : Z := 0x001.
(** [src/xv6-public/mmu.h:95] *)
Definition PTE_W : Z := 0x002.
(** [src/xv6-public/mmu.h:96] *)
Definition PTE_U : Z := 0x004.
(** [src/xv6-public/mmu.h:100] *)
Definition PTE_ADDR (pte : Z) : Z := Z.land pte (Z.lnot 0xFFF).
(** [src/xv6-public/mmu.h:101] *)
Definition PTE_FLAGS (pte : Z) : Z := Z.land pte 0xFFF.

(** A bit of an entry is set. *)
Definition has (v bit : Z) : bool := truthy (Z.land v bit).

(** The bytes [bs] written from the address [a] on. *)
Fixpoint wrn (m : mem) (a : Z) (bs : list Z) : mem :=
  match bs with [] => m | b :: bs => wrn (wr m a b) (a + 1) bs end.

Lemma rd_wrn m a bs b :
  rd (wrn m a bs) b =
  if decide (a ≤ b < a + Z.of_nat (length bs)) then default 0 (bs !! Z.to_nat (b - a)) mod 256 else rd m b.
Proof.
  revert m a. induction bs as [|x bs IH]; intros m a; cbn [wrn length].
  - rewrite decide_False by lia. done.
  - rewrite IH, rd_wr. destruct (decide (a = b)) as [->|].
    + rewrite (decide_False (P := b + 1 ≤ _ < _)), (decide_True (P := b ≤ _ < _)) by lia. by rewrite Z.sub_diag.
    + repeat case_decide; (lia || done || idtac).
      by replace (Z.to_nat (b - a)) with (S (Z.to_nat (b - (a + 1)))) by lia.
Qed.

(** ** Page tables *)

(** [src/xv6-public/vm.c:35-55] the address of the entry for [va], or a null
    pointer *)
Definition walkpgdir (pgdir va : Z) (alloc : bool) : KM (option Z) :=
  let pde := pgdir + 4 * PDX va in
  e ← gets (λ k, kld32 k pde);
  if has e PTE_P then mret (Some (P2V (PTE_ADDR e) + 4 * PTX va)) else
  if negb alloc then mret None else
  pgtab ← kalloc;
  if pgtab =? 0 then mret None else
  modify (λ k, k <| k_mem ::= λ m, memset m (V2P pgtab) 0 PGSIZE |>);;
  kst32 pde (Z.lor (Z.lor (Z.lor (V2P pgtab) PTE_P) PTE_W) PTE_U);;
  mret (Some (pgtab + 4 * PTX va)).

Fixpoint mappages_loop (fuel : nat) (pgdir a last pa perm : Z) : KM Z :=
  match fuel with
  | O => λ _ k, NoFuel k
  | S fuel =>
    pte ← walkpgdir pgdir a true;
    match pte with
    | None => mret (-1)
    | Some pte =>
      e ← gets (λ k, kld32 k pte);
      if has e PTE_P then mpanic "remap" else
      kst32 pte (Z.lor (Z.lor pa perm) PTE_P);;
      if a =? last then mret 0 else
      mappages_loop fuel pgdir (wrap32 (a + PGSIZE)) last (wrap32 (pa + PGSIZE)) perm
    end
  end.

(** [src/xv6-public/vm.c:60-80] the loop goes around the address space at most
    once. *)
Definition mappages (pgdir va size pa perm : Z) : KM Z :=
  let a := PGROUNDDOWN va in
  let last := PGROUNDDOWN (wrap32 (va + size - 1)) in
  mappages_loop (S (Z.to_nat (wrap32 (last - a) / PGSIZE))) pgdir a last pa perm.

(** [src/xv6-public/vm.c:105-115] [(virt, phys_start, phys_end, perm)] *)
Definition kmap (data : Z) : list (Z * Z * Z * Z) :=
  [ (KERNBASE, 0, EXTMEM, PTE_W);
    (KERNLINK, V2P KERNLINK, V2P data, 0);
    (data, V2P data, PHYSTOP, PTE_W);
    (DEVSPACE, DEVSPACE, 0, PTE_W) ].

Fixpoint deallocuvm_loop (fuel : nat) (pgdir a oldsz : Z) : KM unit :=
  match fuel with
  | O => λ _ k, NoFuel k
  | S fuel =>
    if negb (a <? oldsz) then mret tt else
    pte ← walkpgdir pgdir a false;
    match pte with
    | None =>
      let a := wrap32 (PGADDR (PDX a + 1) 0 0 - PGSIZE) in
      deallocuvm_loop fuel pgdir (wrap32 (a + PGSIZE)) oldsz
    | Some pte =>
      e ← gets (λ k, kld32 k pte);
      (if has e PTE_P then
         let pa := PTE_ADDR e in
         if pa =? 0 then mpanic "kfree" else
         kfree (P2V pa);;
         kst32 pte 0
       else mret tt);;
      deallocuvm_loop fuel pgdir (wrap32 (a + PGSIZE)) oldsz
    end
  end.

(** The turns a loop over the pages of [a, b) can take. *)
Definition pages_fuel (a b : Z) : nat := S (Z.to_nat ((b - a + PGSIZE - 1) / PGSIZE)).

(** [src/xv6-public/vm.c:255-279] *)
Definition deallocuvm (pgdir oldsz newsz : Z) : KM Z :=
  if newsz >=? oldsz then mret oldsz else
  let a := PGROUNDUP newsz in
  deallocuvm_loop (pages_fuel a oldsz) pgdir a oldsz;;
  mret newsz.

(** The loop of [freevm] over the entries of the directory. *)
Fixpoint free_tables (pgdir : Z) (idx : list nat) : KM unit :=
  match idx with
  | [] => mret tt
  | i :: idx =>
    e ← gets (λ k, kld32 k (pgdir + 4 * Z.of_nat i));
    when (has e PTE_P) (kfree (P2V (PTE_ADDR e)));;
    free_tables pgdir idx
  end.

(** [src/xv6-public/vm.c:283-298] *)
Definition freevm (pgdir : Z) : KM unit :=
  if pgdir =? 0 then mpanic "freevm: no pgdir" else
  deallocuvm pgdir KERNBASE 0;;
  free_tables pgdir (seq 0 NPDENTRIES);;
  kfree pgdir.

Fixpoint setupkvm_loop (pgdir : Z) (ks : list (Z * Z * Z * Z)) : KM Z :=
  match ks with
  | [] => mret pgdir
  | (virt, phys_start, phys_end, perm) :: ks =>
    r ← mappages pgdir virt (wrap32 (phys_end - phys_start)) phys_start perm;
    if r <? 0 then freevm pgdir;; mret 0 else setupkvm_loop pgdir ks
  end.

(** [src/xv6-public/vm.c:118-136] *)
Definition setupkvm : KM Z :=
  pgdir ← kalloc;
  if pgdir =? 0 then mret 0 else
  modify (λ k, k <| k_mem ::= λ m, memset m (V2P pgdir) 0 PGSIZE |>);;
  if P2V PHYSTOP >? DEVSPACE then mpanic "PHYSTOP too high" else
  data ← gets k_data;
  setupkvm_loop pgdir (kmap data).

(** [src/xv6-public/vm.c:140-145] *)
Definition kvmalloc : KM unit :=
  pgdir ← setupkvm;
  modify (λ k, k <| k_kpgdir := pgdir |>);;
  switchkvm.

(** [src/xv6-public/vm.c:182-193] [init] are the bytes of the program *)
Definition inituvm (pgdir : Z) (init : list Z) : KM unit :=
  if Z.of_nat (length init) >=? PGSIZE then mpanic "inituvm: more than a page" else
  mem ← kalloc;
  modify (λ k, k <| k_mem ::= λ m, memset m (V2P mem) 0 PGSIZE |>);;
  mappages pgdir 0 PGSIZE (V2P mem) (Z.lor PTE_W PTE_U);;
  modify (λ k, k <| k_mem ::= λ m, wrn m (V2P mem) init |>).

Fixpoint allocuvm_loop (fuel : nat) (pgdir a oldsz newsz : Z) : KM Z :=
  match fuel with
  | O => λ _ k, NoFuel k
  | S fuel =>
    if negb (a <? newsz) then mret newsz else
    mem ← kalloc;
    if mem =? 0 then
      cprintf "allocuvm out of memory
" [];;
      deallocuvm pgdir newsz oldsz;;
      mret 0
    else
    modify (λ k, k <| k_mem ::= λ m, memset m (V2P mem) 0 PGSIZE |>);;
    r ← mappages pgdir a PGSIZE (V2P mem) (Z.lor PTE_W PTE_U);
    if r <? 0 then
      cprintf "allocuvm out of memory (2)
" [];;
      deallocuvm pgdir newsz oldsz;;
      kfree mem;;
      mret 0
    else allocuvm_loop fuel pgdir (wrap32 (a + PGSIZE)) oldsz newsz
  end.

(** [src/xv6-public/vm.c:221-249] *)
Definition allocuvm (pgdir oldsz newsz : Z) : KM Z :=
  if newsz >=? KERNBASE then mret 0 else
  if newsz <? oldsz then mret oldsz else
  let a := PGROUNDUP oldsz in
  allocuvm_loop (pages_fuel a newsz) pgdir a oldsz newsz.

(** [src/xv6-public/vm.c:302-311] *)
Definition clearpteu (pgdir uva : Z) : KM unit :=
  pte ← walkpgdir pgdir uva false;
  match pte with
  | None => mpanic "clearpteu"
  | Some pte =>
    e ← gets (λ k, kld32 k pte);
    kst32 pte (Z.land e (Z.lnot PTE_U))
  end.

Fixpoint copyuvm_loop (fuel : nat) (pgdir d i sz : Z) : KM Z :=
  match fuel with
  | O => λ _ k, NoFuel k
  | S fuel =>
    if negb (i <? sz) then mret d else
    pte ← walkpgdir pgdir i false;
    match pte with
    | None => mpanic "copyuvm: pte should exist"
    | Some pte =>
      e ← gets (λ k, kld32 k pte);
      if negb (has e PTE_P) then mpanic "copyuvm: page not present" else
      let pa := PTE_ADDR e in
      let flags := PTE_FLAGS e in
      mem ← kalloc;
      if mem =? 0 then freevm d;; mret 0 else
      modify (λ k, k <| k_mem ::= λ m, memmove m (V2P mem) pa PGSIZE |>);;
      r ← mappages d i PGSIZE (V2P mem) flags;
      if r <? 0 then kfree mem;; freevm d;; mret 0 else
      copyuvm_loop fuel pgdir d (wrap32 (i + PGSIZE)) sz
    end
  end.

(** [src/xv6-public/vm.c:315-345] *)
Definition copyuvm (pgdir sz : Z) : KM Z :=
  d ← setupkvm;
  if d =? 0 then mret 0 else
  copyuvm_loop (pages_fuel 0 sz) pgdir d 0 sz.

(** [src/xv6-public/vm.c:349-360] a null [pte] is dereferenced without a test *)
Definition uva2ka (pgdir uva : Z) : KM Z :=
  pte ← walkpgdir pgdir uva false;
  pte ← deref pte;
  e ← gets (λ k, kld32 k pte);
  if negb (has e PTE_P) then mret 0 else
  if negb (has e PTE_U) then mret 0 else
  mret (P2V (PTE_ADDR e)).

Fixpoint copyout_loop (fuel : nat) (pgdir va : Z) (buf : list Z) : KM Z :=
  match fuel with
  | O => λ _ k, NoFuel k
  | S fuel =>
    let len := Z.of_nat (length buf) in
    if negb (len >? 0) then mret 0 else
    let va0 := PGROUNDDOWN va in
    pa0 ← uva2ka pgdir va0;
    if pa0 =? 0 then mret (-1) else
    let n := Z.min (PGSIZE - (va - va0)) len in
    modify (λ k, k <| k_mem ::= λ m,
      wrn m (V2P pa0 + (va - va0)) (take (Z.to_nat n) buf) |>);;
    copyout_loop fuel pgdir (wrap32 (va0 + PGSIZE)) (drop (Z.to_nat n) buf)
  end.

(** [src/xv6-public/vm.c:365-386] [buf] are the bytes at [p]; every turn but the
    first and the last copies a whole page. *)
Definition copyout (pgdir va : Z) (buf : list Z) : KM Z :=
  copyout_loop (S (S (length buf))) pgdir va buf.

(** ** User memory

    The translation of a virtual address by the hardware, through the page
    table that [%cr3] points to.  The kernel may read any present page and
    write any present page with [PTE_W] (entry.S sets [CR0_WP]); anything
    else is a page fault in kernel mode. *)

Definition translate (m : mem) (cr3 va : Z) (write : bool) : option Z :=
  let pde := ld32 m (cr3 + 4 * PDX va) in
  if negb (has pde PTE_P) then None else
  let pte := ld32 m (PTE_ADDR pde + 4 * PTX va) in
  if negb (has pte PTE_P) then None else
  if write && negb (has pte PTE_W && has pde PTE_W) then None else
  Some (PTE_ADDR pte + va mod PGSIZE).

(** Read and write a byte of the current address space. *)
Definition uld8 (va : Z) : KM Z :=
  k ← mget;
  pa ← deref (translate (k_mem k) (k_cr3 k) va false);
  mret (rd (k_mem k) pa).
Definition ust8 (va v : Z) : KM unit :=
  k ← mget;
  pa ← deref (translate (k_mem k) (k_cr3 k) va true);
  modify (λ k, k <| k_mem ::= λ m, wr m pa v |>).

(** Read and write a word, byte by byte. *)
Definition uld32 (va : Z) : KM Z :=
  b0 ← uld8 va; b1 ← uld8 (va + 1); b2 ← uld8 (va + 2); b3 ← uld8 (va + 3);
  mret (b0 + 256 * (b1 + 256 * (b2 + 256 * b3))).
Definition ust32 (va v : Z) : KM unit :=
  ust8 va v;; ust8 (va + 1) (v / 256);; ust8 (va + 2) (v / 65536);;
  ust8 (va + 3) (v / 16777216).

(** Copy bytes to and from the current address space. *)
Fixpoint uread (va : Z) (n : nat) : KM (list Z) :=
  match n with
  | O => mret []
  | S n => b ← uld8 va; bs ← uread (va + 1) n; mret (b :: bs)
  end.
Fixpoint uwrite (va : Z) (bs : list Z) : KM unit :=
  match bs with
  | [] => mret tt
  | b :: bs => ust8 va b;; uwrite (va + 1) bs
  end.

(** Framing: an access to user memory changes memory only. *)
#[export] Hint Extern 2 (steady _ _ (uld8 _)) => unfold uld8; solve [solve_steady] : steady.
#[export] Hint Extern 2 (steady _ _ (ust8 _ _)) => unfold ust8; solve [solve_steady] : steady.

(** What an access to user memory does depends on memory and [%cr3] only. *)

Lemma uld8_frame a e k k' c :
  k_mem k' = k_mem k → k_cr3 k' = k_cr3 k →
  uld8 a e k = Ret c e k → uld8 a e k' = Ret c e k'.
Proof.
  intros Em Ec. unfold uld8. msteps. rewrite Em, Ec.
  destruct (translate _ _ _ _); [|by rewrite bind_eq]. msteps. unfold mret, M_ret. congruence.
Qed.

Lemma uld8_inv a e k c e' k' : uld8 a e k = Ret c e' k' → e' = e ∧ k' = k.
Proof.
  unfold uld8. msteps. destruct (translate _ _ _ _); [|by rewrite bind_eq].
  msteps. by intros [= _ <- <-].
Qed.

Lemma uread_cons addr m e k c bs :
  uread addr (S m) e k = Ret (c :: bs) e k →
  uld8 addr e k = Ret c e k ∧ uread (addr + 1) m e k = Ret bs e k.
Proof.
  cbn [uread]. intros (c' & e1 & k1 & Ec & H)%bind_Ret_inv.
  destruct (uld8_inv _ _ _ _ _ _ Ec) as [-> ->].
  apply bind_Ret_inv in H as (cs & e1 & k1 & Ecs & H). by injection H as -> -> -> ->.
Qed.

Lemma uread_frame addr m e k k' bs :
  k_mem k' = k_mem k → k_cr3 k' = k_cr3 k →
  uread addr m e k = Ret bs e k → uread addr m e k' = Ret bs e k'.
Proof.
  intros Em Ec. revert addr bs. induction m as [|m IH]; intros addr bs.
  { cbn. unfold mret, M_ret. congruence. }
  intros H. assert (∃ c cs, bs = c :: cs) as (c & cs & ->).
  { apply bind_Ret_inv in H as (c & ? & ? & _ & H).
    apply bind_Ret_inv in H as (cs & ? & ? & _ & H). injection H as <- _ _. by exists c, cs. }
  apply uread_cons in H as [Hc Hr]. cbn [uread].
  mgo (by eapply uld8_frame). by mgo (by apply IH).
Qed.

Lemma ust8_ok a v e k pa :
  translate (k_mem k) (k_cr3 k) a true = Some pa →
  ust8 a v e k = Ret tt e (k <| k_mem ::= λ m, wr m pa v |>).
Proof. intros E. unfold ust8. msteps. by rewrite E. Qed.

Lemma ust8_inv a v e k e' k' :
  ust8 a v e k = Ret tt e' k' →
  ∃ pa, translate (k_mem k) (k_cr3 k) a true = Some pa ∧ e' = e ∧
    k' = k <| k_mem ::= λ m, wr m pa v |>.
Proof.
  unfold ust8. msteps. destruct (translate _ _ _ _) as [pa|]; [|by rewrite bind_eq].
  msteps. unfold modify. intros [= <- <-]. by exists pa.
Qed.

(** The memory after [uwrite]. *)
Fixpoint umem (m : mem) (cr3 a : Z) (bs : list Z) : option mem :=
  match bs with
  | [] => Some m
  | b :: bs =>
    match translate m cr3 a true with
    | Some pa => umem (wr m pa b) cr3 (a + 1) bs
    | None => None
    end
  end.

Lemma k_mem_id k m : m = k_mem k → k <| k_mem := m |> = k.
Proof. intros ->. by destruct k. Qed.

Lemma uwrite_ok a bs e k m :
  umem (k_mem k) (k_cr3 k) a bs = Some m → uwrite a bs e k = Ret tt e (k <| k_mem := m |>).
Proof.
  revert a k. induction bs as [|b bs IH]; intros a k; cbn [umem uwrite].
  { intros [= Em]. by rewrite k_mem_id. }
  destruct (translate _ _ _ _) as [pa|] eqn:Et; [|done]. intros Em.
  mgo (by apply ust8_ok). rewrite IH by (rsimpl; exact Em). by merge_upd.
Qed.
