(* ===== verification/Paging.v ===== *)
(** * Page tables (walkpgdir, mappages, deallocuvm, freevm of vm.c)

    What these functions do to address spaces.  An address space is read
    off memory: [table] is the page table for an index of the directory, [pte]
    the entry for a page number.  [space] says that the directory at [pgdir], its
    tables and the user pages that it maps are pages of the allocator, each
    used once, and none of them free.  Operations that cannot sleep run alone
    ([runs]); each keeps [space], and the pages owned and the free pages
    together stay the same ([owned] and the free list are permuted): no page
    is lost, used twice, or written when someone else owns it.  Uvm.v builds
    on this. *)

From S2P Require Import Prelude State Spinlock Mem Kalloc Consout Sched Vm.

(** ** Operations that run alone *)

(** [m] returns from the state [k], without a move of the environment, with [Q]. *)
Definition runs {A} (m : KM A) (k : kernel) (Q : A → kernel → Prop) : Prop :=
  ∀ e, ∃ a k', m e k = Ret a e k' ∧ Q a k'.

Lemma runs_mono {A} (m : KM A) k (Q Q' : A → kernel → Prop) :
  runs m k Q → (∀ a k', Q a k' → Q' a k') → runs m k Q'.
Proof. intros H Hq e. destruct (H e) as (a & k' & E & HQ). eauto. Qed.

Lemma runs_bind {A B} (m : KM A) (f : A → KM B) k Q Q' :
  runs m k Q → (∀ a k', Q a k' → runs (f a) k' Q') → runs (m ≫= f) k Q'.
Proof.
  intros H Hf e. destruct (H e) as (a & k' & E & HQ). rewrite (bind_Ret _ _ _ _ _ _ _ E). by apply Hf.
Qed.

Lemma runs_ret {A} (a : A) k (Q : A → kernel → Prop) : Q a k → runs (mret a) k Q.
Proof. intros H e. by exists a, k. Qed.

Lemma runs_gets {A B} (g : kernel → A) (f : A → KM B) k Q :
  runs (f (g k)) k Q → runs (gets g ≫= f) k Q.
Proof. intros H e. apply H. Qed.

Lemma runs_modify {B} (g : kernel → kernel) (f : unit → KM B) k Q :
  runs (f tt) (g k) Q → runs (modify g ≫= f) k Q.
Proof. intros H e. apply H. Qed.

(** ** Page table entries *)

Lemma entry_disjoint pa f : pa mod PGSIZE = 0 → 0 ≤ f < PGSIZE → Z.land pa f = 0.
Proof.
  unfold PGSIZE. intros Hp Hf. apply Z.bits_inj'. intros n Hn. rewrite Z.land_spec, Z.bits_0.
  destruct (Z.lt_ge_cases n 12) as [Hl|Hl].
  - replace pa with (pa / 2 ^ 12 * 2 ^ 12) by (change (2 ^ 12) with 4096; dlia).
    by rewrite Z.mul_pow2_bits_low.
  - rewrite andb_comm. destruct (Z.eq_dec f 0) as [->|]; [by rewrite Z.bits_0|].
    rewrite Z.bits_above_log2; [done|lia|]. apply Z.lt_le_trans with 12; [|done]. apply Z.log2_lt_pow2; lia.
Qed.

Lemma entry_lor pa f : pa mod PGSIZE = 0 → 0 ≤ f < PGSIZE → Z.lor pa f = pa + f.
Proof.
  intros Hp Hf. pose proof (entry_disjoint pa f Hp Hf) as H.
  by rewrite <- Z.lxor_lor, <- Z.add_nocarry_lxor by done.
Qed.

Lemma pte_addr e : PTE_ADDR e = e - e mod PGSIZE.
Proof.
  unfold PTE_ADDR, PGSIZE. change 0xFFF with (Z.ones 12).
  rewrite <- Z.ldiff_land, Z.ldiff_ones_r, Z.shiftl_mul_pow2, Z.shiftr_div_pow2 by lia.
  change (2 ^ 12) with 4096. dlia.
Qed.

Lemma pte_flags e : PTE_FLAGS e = e mod PGSIZE.
Proof. unfold PTE_FLAGS. change 0xFFF with (Z.ones 12). by rewrite Z.land_ones by lia. Qed.

Lemma entry_addr pa f : pa mod PGSIZE = 0 → 0 ≤ f < PGSIZE → PTE_ADDR (pa + f) = pa.
Proof. rewrite pte_addr. unfold PGSIZE. intros. dlia. Qed.

Lemma entry_flags pa f : pa mod PGSIZE = 0 → 0 ≤ f < PGSIZE → PTE_FLAGS (pa + f) = f.
Proof. rewrite pte_flags. unfold PGSIZE. intros. dlia. Qed.

Lemma entry_has pa f b :
  pa mod PGSIZE = 0 → 0 ≤ f < PGSIZE → 0 ≤ b < PGSIZE → has (pa + f) b = has f b.
Proof.
  intros Hp Hf Hb. unfold has. f_equal. rewrite <- entry_lor by done.
  rewrite Z.land_lor_distr_l, entry_disjoint by done. done.
Qed.

Lemma flags_lor f g : 0 ≤ f < PGSIZE → 0 ≤ g < PGSIZE → 0 ≤ Z.lor f g < PGSIZE.
Proof.
  unfold PGSIZE. intros Hf Hg. replace (Z.lor f g) with (Z.lor f g mod 2 ^ 12); [apply Z.mod_pos_bound; lia|].
  rewrite <- Z.land_ones, Z.land_lor_distr_l, !Z.land_ones, !Z.mod_small by lia. done.
Qed.

Lemma has_lor f b : b ≠ 0 → has (Z.lor f b) b = true.
Proof.
  intros Hb. unfold has, truthy. replace (Z.land _ b) with b; [by rewrite (proj2 (Z.eqb_neq _ _))|].
  apply Z.bits_inj'. intros n _. rewrite Z.land_spec, Z.lor_spec. by destruct (Z.testbit f n), (Z.testbit b n).
Qed.

Lemma lor_present f : has f PTE_P = true → Z.lor f PTE_P = f.
Proof.
  unfold has, PTE_P, truthy. intros H. apply Z.bits_inj'. intros n Hn. rewrite Z.lor_spec.
  destruct (Z.eq_dec n 0) as [->|Hne].
  - change (Z.testbit 1 0) with true. rewrite orb_true_r. rewrite Z.bit0_odd.
    change 1 with (Z.ones 1) in H. rewrite Z.land_ones in H by lia. change (2 ^ 1) with 2 in H.
    rewrite Zmod_odd in H. by destruct (Z.odd f).
  - rewrite (Z.bits_above_log2 1 n) by (cbn; lia). apply orb_false_r.
Qed.

(** ** Address spaces in memory *)

(** The pages of the user part, below [KERNBASE]. *)
Definition NUSER : Z := KERNBASE / PGSIZE.
Lemma NUSER_val : NUSER = 524288.
Proof. done. Qed.

(** The table for the index [i] of the directory, by its kernel address. *)
Definition table (m : mem) (pgdir i : Z) : option Z :=
  let e := ld32 m (V2P pgdir + 4 * i) in
  if has e PTE_P then Some (P2V (PTE_ADDR e)) else None.

(** The entry for the page [n], if it is present. *)
Definition pte (m : mem) (pgdir n : Z) : option Z :=
  t ← table m pgdir (n / 1024);
  let e := ld32 m (V2P t + 4 * (n mod 1024)) in
  if has e PTE_P then Some e else None.

(** The kernel address of the page mapped at the user page [n]. *)
Definition upage (m : mem) (pgdir n : Z) : option Z := (λ e, P2V (PTE_ADDR e)) <$> pte m pgdir n.

(** The lists are sealed: they are for statements, and long. *)
Definition tables_def (m : mem) (pgdir : Z) : list Z := omap (table m pgdir) (seqZ 0 1024).
Definition tables_aux : seal tables_def.
Proof. by eexists. Qed.
Definition tables : mem → Z → list Z := unseal tables_aux.
Definition upages_def (m : mem) (pgdir : Z) : list Z := omap (upage m pgdir) (seqZ 0 NUSER).
Definition upages_aux : seal upages_def.
Proof. by eexists. Qed.
Definition upages : mem → Z → list Z := unseal upages_aux.

Lemma tables_eq m d : tables m d = omap (table m d) (seqZ 0 1024).
Proof. unfold tables. by rewrite seal_eq. Qed.
Lemma upages_eq m d : upages m d = omap (upage m d) (seqZ 0 NUSER).
Proof. unfold upages. by rewrite seal_eq. Qed.

(** All pages of an address space. *)
Definition owned (m : mem) (pgdir : Z) : list Z := pgdir :: tables m pgdir ++ upages m pgdir.

Lemma owned_app m pgdir : owned m pgdir = (pgdir :: tables m pgdir) ++ upages m pgdir.
Proof. done. Qed.

(** The allocator is usable and its free pages are [l]. *)
Definition heap (k : kernel) (l : list Z) : Prop :=
  (∃ i c, lockable k i c LkKmem) ∧ freelist_rep k l.

Record space (k : kernel) (pgdir : Z) (l : list Z) : Prop := {
  sp_heap : heap k l;
  sp_pages : Forall (page_ok k) (owned (k_mem k) pgdir);
  sp_nodup : NoDup (owned (k_mem k) pgdir ++ l);
  sp_pde : ∀ i t, 0 ≤ i < 1024 → table (k_mem k) pgdir i = Some t →
    ld32 (k_mem k) (V2P pgdir + 4 * i) = V2P t + 7;
  sp_pte : ∀ n e, 0 ≤ n < NUSER → pte (k_mem k) pgdir n = Some e → is_u32 e
}.

(** Nothing but memory, the free list and the CPUs differs. *)
Definition mem_only (k k' : kernel) : Prop :=
  ∃ m h cs, k' = k <| k_mem := m |> <| k_freelist := h |> <| k_cpus := cs |>.

(** Memory differs in the pages [ps] only. *)
Definition within (ps : list Z) (m m' : mem) : Prop :=
  ∀ b, (∀ p, p ∈ ps → ¬ in_page p b) → rd m' b = rd m b.

(** ** Frames *)

Lemma mem_only_refl k : mem_only k k.
Proof. exists (k_mem k), (k_freelist k), (k_cpus k). by destruct k. Qed.

Lemma mem_only_trans k1 k2 k3 : mem_only k1 k2 → mem_only k2 k3 → mem_only k1 k3.
Proof.
  intros (m & h & cs & ->) (m' & h' & cs' & ->). exists m', h', cs'. by destruct k1.
Qed.

Lemma mem_only_mem k m : mem_only k (k <| k_mem := m |>).
Proof. exists m, (k_freelist k), (k_cpus k). by destruct k. Qed.

Lemma mem_only_heap k m h : mem_only k (k <| k_mem := m |> <| k_freelist := h |>).
Proof. exists m, h, (k_cpus k). by destruct k. Qed.

Lemma mem_only_freelist k h : mem_only k (k <| k_freelist := h |>).
Proof. exists (k_mem k), h, (k_cpus k). by destruct k. Qed.

Lemma mem_only_end k k' : mem_only k k' → k_end k' = k_end k.
Proof. by intros (m & h & cs & ->). Qed.

Lemma mem_only_data k k' : mem_only k k' → k_data k' = k_data k.
Proof. by intros (m & h & cs & ->). Qed.

Lemma page_ok_end k k' v : k_end k' = k_end k → page_ok k v → page_ok k' v.
Proof. unfold page_ok. by intros ->. Qed.

Lemma mem_only_page_ok k k' v : mem_only k k' → page_ok k v → page_ok k' v.
Proof. intros H%mem_only_end. by apply page_ok_end. Qed.

Lemma within_refl ps m : within ps m m.
Proof. done. Qed.

Lemma within_trans ps m1 m2 m3 : within ps m1 m2 → within ps m2 m3 → within ps m1 m3.
Proof. intros H1 H2 b Hb. by rewrite H2, H1. Qed.

Lemma within_mono ps qs m m' : within ps m m' → ps ⊆ qs → within qs m m'.
Proof. intros H Hs b Hb. apply H. intros p Hp. apply Hb. set_solver. Qed.

Create HintDb paging.
#[export] Hint Resolve mem_only_refl mem_only_mem within_refl : paging.

Lemma V2P_mod k p : page_ok k p → V2P p mod PGSIZE = 0 ∧ 0 ≤ V2P p < PHYSTOP.
Proof.
  intros Hp. rewrite (V2P_page _ _ Hp). destruct Hp as (? & ? & ?). unfold PGSIZE, KERNBASE, PHYSTOP in *. dlia.
Qed.

Lemma P2V_V2P k p : page_ok k p → P2V (V2P p) = p.
Proof.
  intros Hp. unfold P2V. rewrite (V2P_page _ _ Hp). rewrite wrap32_small; [lia|].
  destruct Hp as (? & ? & ?). unfold is_u32, KERNBASE, PHYSTOP in *. lia.
Qed.

Lemma V2P_off k p o : page_ok k p → 0 ≤ o < PGSIZE → V2P (p + o) = V2P p + o.
Proof.
  intros Hp Ho. rewrite (V2P_page _ _ Hp). unfold V2P. rewrite wrap32_small; [lia|].
  destruct Hp as (? & ? & ?). unfold is_u32, PGSIZE, KERNBASE, PHYSTOP in *. lia.
Qed.

Lemma V2P_word k p j : page_ok k p → 0 ≤ j < 1024 → V2P (p + 4 * j) = V2P p + 4 * j.
Proof. intros. apply (V2P_off k); [done|unfold PGSIZE; lia]. Qed.

Lemma within_byte k ps m m' p o :
  within ps m m' → Forall (page_ok k) ps → page_ok k p → p ∉ ps → 0 ≤ o < PGSIZE →
  rd m' (V2P p + o) = rd m (V2P p + o).
Proof.
  intros Hw Hps Hp Hn Ho. apply Hw. intros q Hq. rewrite Forall_forall in Hps.
  assert (p ≠ q) as Hne by set_solver.
  pose proof (pages_apart _ _ _ _ Hp (Hps q Hq) Hne). unfold in_page. lia.
Qed.

Lemma within_word k ps m m' p o :
  within ps m m' → Forall (page_ok k) ps → page_ok k p → p ∉ ps → 0 ≤ o → o + 4 ≤ PGSIZE →
  ld32 m' (V2P p + o) = ld32 m (V2P p + o).
Proof.
  intros. apply ld32_ext. intros i Hi. rewrite <- Z.add_assoc. eapply within_byte; (done || lia).
Qed.

Lemma within_table k ps m m' pgdir i :
  within ps m m' → Forall (page_ok k) ps → page_ok k pgdir → pgdir ∉ ps → 0 ≤ i < 1024 →
  table m' pgdir i = table m pgdir i.
Proof. intros. unfold table. by erewrite within_word by (done || unfold PGSIZE; lia). Qed.

Lemma elem_of_tables m pgdir t : t ∈ tables m pgdir ↔ ∃ i, 0 ≤ i < 1024 ∧ table m pgdir i = Some t.
Proof. rewrite tables_eq, list_elem_of_omap. setoid_rewrite elem_of_seqZ. naive_solver lia. Qed.

Lemma elem_of_upages m pgdir p : p ∈ upages m pgdir ↔ ∃ n, 0 ≤ n < NUSER ∧ upage m pgdir n = Some p.
Proof. rewrite upages_eq, list_elem_of_omap. setoid_rewrite elem_of_seqZ. naive_solver lia. Qed.

(** A memory that differs outside the directory and the tables holds the same address space. *)
Lemma within_pte k ps m m' pgdir n :
  within ps m m' → Forall (page_ok k) ps → page_ok k pgdir → pgdir ∉ ps →
  Forall (page_ok k) (tables m pgdir) → (∀ t, t ∈ tables m pgdir → t ∉ ps) → 0 ≤ n < 2 ^ 20 →
  pte m' pgdir n = pte m pgdir n.
Proof.
  intros Hw Hps Hd Hnd Ht Hnt Hn. unfold pte.
  rewrite (within_table k ps m m') by (done || dlia).
  destruct (table m pgdir (n / 1024)) as [t|] eqn:E; cbn; [|done].
  assert (t ∈ tables m pgdir) as Hin by (apply elem_of_tables; exists (n / 1024); split; [dlia|done]).
  rewrite Forall_forall in Ht.
  erewrite within_word; try done; [eauto..| |]; [dlia|unfold PGSIZE; dlia].
Qed.

Lemma omap_ext_in {A} (f g : Z → option A) (l : list Z) : (∀ j, j ∈ l → f j = g j) → omap f l = omap g l.
Proof.
  induction l as [|a l IH]; intros H; cbn; [done|]. rewrite H by set_solver. rewrite IH by set_solver. done.
Qed.

(** One more value of a partial function. *)
Lemma omap_add {A} (f g : Z → option A) (l : list Z) n v :
  NoDup l → n ∈ l → f n = None → g n = Some v → (∀ j, j ∈ l → j ≠ n → g j = f j) →
  omap g l ≡ₚ v :: omap f l.
Proof.
  induction l as [|a l IH]; intros Hd Hn Hf Hg H; [set_solver|]. apply NoDup_cons in Hd as [Ha Hd].
  cbn. destruct (decide (a = n)) as [->|Hne].
  - rewrite Hf, Hg. by rewrite (omap_ext_in g f) by set_solver.
  - rewrite H by set_solver. assert (omap g l ≡ₚ v :: omap f l) as Hp by (apply IH; set_solver).
    destruct (f a); [|done]. rewrite Hp. apply Permutation_swap.
Qed.

Lemma owned_within k ps m m' pgdir :
  within ps m m' → Forall (page_ok k) ps → page_ok k pgdir → pgdir ∉ ps →
  Forall (page_ok k) (tables m pgdir) → (∀ t, t ∈ tables m pgdir → t ∉ ps) →
  owned m' pgdir = owned m pgdir.
Proof.
  intros. unfold owned. rewrite !tables_eq, !upages_eq. f_equal. f_equal; apply omap_ext_in; intros j Hj%elem_of_seqZ.
  - eapply within_table; (done || lia).
  - unfold upage. erewrite within_pte; try done. rewrite NUSER_val in Hj. lia.
Qed.

#[global] Opaque NUSER.

(** ** The allocator *)

Lemma kmem_touch_frame i c k :
  k_mem (kmem_touch i c k) = k_mem k ∧ mem_only k (kmem_touch i c k).
Proof.
  unfold kmem_touch. destruct (k_use_lock k); [|by auto with paging]. split; [done|].
  unfold touch, kcpu. eexists (k_mem k), (k_freelist k), _. destruct k. reflexivity.
Qed.

Lemma heap_nodup k l : heap k l → NoDup l ∧ Forall (page_ok k) l.
Proof. by intros [_ []]. Qed.

Lemma kalloc_runs k l :
  heap k l →
  runs kalloc k (λ v k', mem_only k k' ∧ k_mem k' = k_mem k ∧
    match l with [] => v = 0 ∧ heap k' [] | p :: l => v = p ∧ heap k' l end).
Proof.
  intros [(i & c & Hk) Hl] e. destruct (lockable_kmem_touch _ _ _ _ Hk) as [c' Hk'].
  destruct (kmem_touch_frame i c k) as [Em Ho]. destruct l as [|p l].
  - eexists _, _. split; [by apply kalloc_empty|]. split_and!; [done..|].
    split; [eauto|by apply freelist_rep_touch].
  - destruct (kalloc_cons e k i c p l Hk Hl) as [E Hr]. eexists _, _. split; [exact E|].
    split_and!; [|done|done|split; [|done]].
    + eapply mem_only_trans; [exact Ho|apply mem_only_freelist].
    + exists i, c'. by eapply lockable_sync.
Qed.

Lemma kfree_runs k l v :
  heap k l → page_ok k v → v ∉ l →
  runs (kfree v) k (λ _ k', mem_only k k' ∧ within [v] (k_mem k) (k_mem k') ∧ heap k' (v :: l)).
Proof.
  intros [(i & c & Hk) Hl] Hv Hn e. destruct (lockable_kmem_touch _ _ _ _ Hk) as [c' Hk'].
  destruct (kmem_touch_frame i c k) as [Em Ho].
  eexists _, _. split; [by eapply kfree_ok|]. split_and!.
  - eapply mem_only_trans; [exact Ho|apply mem_only_heap].
  - intros b Hb. unfold freed. rsimpl. rewrite freed_mem_out; [by rewrite Em|].
    specialize (Hb v ltac:(by left)). unfold in_page in Hb. lia.
  - apply (freelist_rep_touch k l i c) in Hl as Hl'. split; [exists i, c'; by eapply lockable_sync|].
    apply freed_rep; eauto using freelist_head_u32. by eapply mem_only_page_ok.
Qed.

(** A change of memory outside the free pages. *)
Lemma heap_mem k l ps m :
  heap k l → within ps (k_mem k) m → Forall (page_ok k) ps → (∀ p, p ∈ ps → p ∉ l) →
  heap (k <| k_mem := m |>) l.
Proof.
  intros [(i & c & Hk) [Hc Hp Hn]] Hw Hps Hd. split.
  - exists i, c. by eapply lockable_sync.
  - split; [|done|done]. eapply chain_ext; [|exact Hc]. intros v Hv. rsimpl.
    rewrite Forall_forall in Hp. symmetry. rewrite <- (Z.add_0_r (V2P v)).
    eapply within_word; [done|done|by apply Hp| |done|done]. intros Hin. by apply (Hd v).
Qed.

(** An address space when memory changes elsewhere and pages are taken or given back elsewhere. *)
Lemma space_frame k k' pgdir l l' ps :
  space k pgdir l → heap k' l' → k_end k' = k_end k → within ps (k_mem k) (k_mem k') →
  Forall (page_ok k) ps → (∀ t, t ∈ pgdir :: tables (k_mem k) pgdir → t ∉ ps) →
  (∀ p, p ∈ owned (k_mem k) pgdir → p ∉ l') →
  space k' pgdir l' ∧ owned (k_mem k') pgdir = owned (k_mem k) pgdir ∧
  ∀ n, 0 ≤ n < 2 ^ 20 → pte (k_mem k') pgdir n = pte (k_mem k) pgdir n.
Proof.
  intros [Hh Hp Hn Hpde Hpte] Hh' He Hw Hps Hd Hl.
  assert (page_ok k pgdir ∧ Forall (page_ok k) (tables (k_mem k) pgdir)) as [Hpd Ht].
  { unfold owned in Hp. rewrite Forall_cons, Forall_app in Hp. naive_solver. }
  assert (pgdir ∉ ps) as Hd1 by (apply Hd; left).
  assert (∀ t, t ∈ tables (k_mem k) pgdir → t ∉ ps) as Hd2 by (intros t Hin; apply Hd; by right).
  assert (owned (k_mem k') pgdir = owned (k_mem k) pgdir) as Eo by (by eapply owned_within).
  assert (∀ n, 0 ≤ n < 2 ^ 20 → pte (k_mem k') pgdir n = pte (k_mem k) pgdir n) as Ept.
  { intros n Hn'. by eapply within_pte. }
  split_and!; [|done|done]. split.
  - done.
  - rewrite Eo. eapply Forall_impl; [done|]. intros v. by apply page_ok_end.
  - rewrite Eo. apply NoDup_app in Hn as (Hn & _ & _). apply NoDup_app. split_and!; [done|done|].
    by apply heap_nodup in Hh' as [].
  - intros i t Hi. rewrite (within_table k ps (k_mem k)) by done.
    rewrite (within_word k ps (k_mem k)) by (done || unfold PGSIZE; lia). by apply Hpde.
  - intros n e Hn'. rewrite Ept by (rewrite NUSER_val in Hn'; lia). by apply Hpte.
Qed.

(** ** Reading a space *)

Section space_facts.
Context (k : kernel) (d : Z) (l : list Z) (Hs : space k d l).
Implicit Types (i t n p e va : Z).
Local Abbreviation m := (k_mem k).

Lemma space_dir : page_ok k d.
Proof. destruct Hs as [_ Hp _ _ _]. by apply Forall_cons in Hp as []. Qed.

Lemma space_tables : Forall (page_ok k) (tables m d).
Proof. destruct Hs as [_ Hp _ _ _]. apply Forall_cons in Hp as [_ Hp]. by apply Forall_app in Hp as []. Qed.

Lemma space_table i t : 0 ≤ i < 1024 → table m d i = Some t → page_ok k t ∧ t ∈ tables m d.
Proof.
  intros Hi Ht. assert (t ∈ tables m d) as Hin by (apply elem_of_tables; eauto).
  split; [|done]. pose proof space_tables as H. rewrite Forall_forall in H. by apply H.
Qed.

Lemma space_upage n p : 0 ≤ n < NUSER → upage m d n = Some p → page_ok k p ∧ p ∈ upages m d.
Proof.
  intros Hi Ht. assert (p ∈ upages m d) as Hin by (apply elem_of_upages; eauto).
  split; [|done]. destruct Hs as [_ Hp _ _ _]. apply Forall_cons in Hp as [_ Hp].
  apply Forall_app in Hp as [_ Hp]. rewrite Forall_forall in Hp. by apply Hp.
Qed.

Lemma space_pte_entry n e :
  0 ≤ n < NUSER → pte m d n = Some e →
  ∃ p, upage m d n = Some p ∧ page_ok k p ∧ e = V2P p + PTE_FLAGS e ∧ PTE_ADDR e = V2P p.
Proof.
  intros Hn He. pose proof (sp_pte _ _ _ Hs n e Hn He) as Hu.
  exists (P2V (PTE_ADDR e)). unfold upage. rewrite He. split; [done|].
  assert (page_ok k (P2V (PTE_ADDR e))) as Hp by (eapply space_upage; [exact Hn|unfold upage; by rewrite He]).
  split; [done|].
  assert (V2P (P2V (PTE_ADDR e)) = PTE_ADDR e) as ->.
  { unfold V2P, P2V, is_u32 in *. rewrite wrap32_sub_l. replace (_ + _ - _) with (PTE_ADDR e) by lia.
    apply wrap32_small. rewrite pte_addr. unfold is_u32, PGSIZE. dlia. }
  split; [|done]. rewrite pte_addr, pte_flags. lia.
Qed.

(** No page has two uses. *)
Lemma space_nodup_tables : NoDup (d :: tables m d).
Proof.
  destruct Hs as [_ _ Hn _ _]. apply NoDup_app in Hn as (Hn & _ & _).
  rewrite owned_app in Hn. by apply NoDup_app in Hn as (? & _ & _).
Qed.

Lemma space_free p : p ∈ l → page_ok k p ∧ p ∉ owned m d.
Proof.
  intros Hp. destruct Hs as [Hh _ Hn _ _]. apply heap_nodup in Hh as [_ Hh]. rewrite Forall_forall in Hh.
  split; [by apply Hh|]. apply NoDup_app in Hn as (_ & Hn & _). intros Ho. by apply (Hn p).
Qed.

(** The indices of an address. *)
Lemma va_split va :
  is_u32 va →
  PDX va = va / PGSIZE / 1024 ∧ PTX va = (va / PGSIZE) mod 1024 ∧
  0 ≤ va / PGSIZE / 1024 < 1024 ∧ 0 ≤ va / PGSIZE < 2 ^ 20.
Proof.
  intros [H0 H1]. unfold PDX, PTX, PGSIZE. change 0x3FF with (Z.ones 10).
  rewrite !Z.land_ones, !Z.shiftr_div_pow2 by lia.
  change (2 ^ 22) with 4194304. change (2 ^ 12) with 4096. change (2 ^ 10) with 1024. split_and!; dlia.
Qed.

Lemma omap_inj {A} (f : Z → option A) (s : list Z) i j v :
  NoDup (omap f s) → NoDup s → i ∈ s → j ∈ s → f i = Some v → f j = Some v → i = j.
Proof.
  intros Hn Hns Hi Hj Ei Ej. induction s as [|a s IH]; [by apply not_elem_of_nil in Hi|].
  apply NoDup_cons in Hns as [Ha Hns]. cbn in Hn. rewrite elem_of_cons in Hi, Hj.
  assert (∀ x, x ∈ s → f x = Some v → v ∈ omap f s) as H by (intros; apply list_elem_of_omap; eauto).
  destruct Hi as [->|Hi], Hj as [->|Hj]; [done|..].
  - rewrite Ei in Hn. apply NoDup_cons in Hn as [Hn _]. by destruct Hn; eauto.
  - rewrite Ej in Hn. apply NoDup_cons in Hn as [Hn _]. by destruct Hn; eauto.
  - apply IH; try done. destruct (f a); [by apply NoDup_cons in Hn as []|done].
Qed.

Lemma space_table_inj i j t :
  0 ≤ i < 1024 → 0 ≤ j < 1024 → table m d i = Some t → table m d j = Some t → i = j.
Proof.
  intros Hi Hj. pose proof space_nodup_tables as Hn. apply NoDup_cons in Hn as [_ Hn].
  rewrite tables_eq in Hn.
  eapply omap_inj; [exact Hn|apply NoDup_seqZ|by apply elem_of_seqZ; lia|by apply elem_of_seqZ; lia].
Qed.

Lemma space_upage_inj i j p :
  0 ≤ i < NUSER → 0 ≤ j < NUSER → upage m d i = Some p → upage m d j = Some p → i = j.
Proof.
  intros Hi Hj. destruct Hs as [_ _ Hn _ _]. apply NoDup_app in Hn as (Hn & _ & _).
  apply NoDup_cons in Hn as [_ Hn]. apply NoDup_app in Hn as (_ & _ & Hn).
  rewrite upages_eq in Hn. eapply omap_inj; [exact Hn|apply NoDup_seqZ|by apply elem_of_seqZ; lia|by apply elem_of_seqZ; lia].
Qed.

(** What the processor makes of the space. *)
Lemma space_translate va w :
  is_u32 va →
  translate m (V2P d) va w =
  e ← pte m d (va / PGSIZE); if w && negb (has e PTE_W) then None else Some (PTE_ADDR e + va mod PGSIZE).
Proof.
  intros Hva. unfold translate, pte. destruct (va_split va Hva) as (-> & -> & Hi & _).
  set (i := va / PGSIZE / 1024) in *.
  destruct (table m d i) as [t|] eqn:Et; cbn.
  - destruct (space_table i t Hi Et) as [Ht _]. rewrite (sp_pde _ _ _ Hs i t Hi Et).
    destruct (V2P_mod _ _ Ht) as [Hm _].
    rewrite !entry_has, entry_addr by done. cbn [negb]. change (has 7 PTE_P) with true. change (has 7 PTE_W) with true. cbn [negb].
    destruct (has (ld32 m _) PTE_P); cbn; [|done]. by rewrite andb_true_r.
  - unfold table in Et. by destruct (has (ld32 m _) PTE_P).
Qed.
End space_facts.

(** ** Walking the tables *)

Lemma walk_found k d l va b t :
  space k d l → is_u32 va → table (k_mem k) d (va / PGSIZE / 1024) = Some t →
  runs (walkpgdir d va b) k (λ r k', k' = k ∧ r = Some (t + 4 * ((va / PGSIZE) mod 1024))).
Proof.
  intros Hs Hva Ht e. destruct (va_split va Hva) as (Ed & Et & Hi & _). unfold walkpgdir. rewrite Ed, Et. msteps.
  unfold kld32. rewrite (V2P_word k) by (done || by eapply space_dir).
  unfold table in Ht. destruct (has _ PTE_P); [|done]. injection Ht as ->. by eexists _, _.
Qed.

(** The entry of a page that is present. *)
Lemma walk_pte k d l va b e :
  space k d l → is_u32 va → pte (k_mem k) d (va / PGSIZE) = Some e →
  ∃ a, runs (walkpgdir d va b) k (λ r k', k' = k ∧ r = Some a) ∧ kld32 k a = e ∧ has e PTE_P = true.
Proof.
  intros Hs Hva He. destruct (va_split va Hva) as (_ & _ & Hi & _). unfold pte in He.
  destruct (table (k_mem k) d (va / PGSIZE / 1024)) as [t|] eqn:Et; [|done]. cbn in He.
  destruct (has _ PTE_P) eqn:Hp; [|done]. injection He as <-.
  destruct (space_table _ _ _ Hs _ t Hi Et) as [Hpt _]. eexists. split; [by eapply walk_found|].
  split; [|done]. unfold kld32. rewrite (V2P_word k); [done|done|]. apply Z.mod_pos_bound. done.
Qed.

Lemma walk_absent k d l va :
  space k d l → is_u32 va → table (k_mem k) d (va / PGSIZE / 1024) = None →
  runs (walkpgdir d va false) k (λ r k', k' = k ∧ r = None).
Proof.
  intros Hs Hva Ht e. destruct (va_split va Hva) as (Ed & Et & Hi & _). unfold walkpgdir. rewrite Ed. msteps.
  unfold kld32. rewrite (V2P_word k) by (done || by eapply space_dir).
  unfold table in Ht. destruct (has _ PTE_P); [done|]. by eexists _, _.
Qed.

(** ** Changing an entry *)

(** A zeroed page [p] becomes the table for the index [i]. *)
Definition with_table (m : mem) (d i p : Z) : mem :=
  st32 (memset m (V2P p) 0 PGSIZE) (V2P d + 4 * i) (V2P p + 7).

Lemma st32_within m p o v : 0 ≤ o → o + 4 ≤ PGSIZE → within [p] m (st32 m (V2P p + o) v).
Proof.
  intros Ho Hl b Hb. specialize (Hb p ltac:(by left)). unfold in_page in Hb. apply rd_st32_ne. lia.
Qed.

Lemma memset_within m p c : within [p] m (memset m (V2P p) c PGSIZE).
Proof.
  intros b Hb. specialize (Hb p ltac:(by left)). unfold in_page in Hb.
  by rewrite memset_spec, decide_False by (unfold PGSIZE in *; lia).
Qed.

Lemma with_table_within m d i p : 0 ≤ i < 1024 → within [d; p] m (with_table m d i p).
Proof.
  intros Hi. apply within_trans with (memset m (V2P p) 0 PGSIZE).
  - eapply within_mono; [apply memset_within|set_solver].
  - eapply within_mono; [apply st32_within; unfold PGSIZE; lia|set_solver].
Qed.

Lemma with_table_dir k l d i p j :
  space k d l → page_ok k p → p ≠ d → 0 ≤ i < 1024 → 0 ≤ j < 1024 →
  ld32 (with_table (k_mem k) d i p) (V2P d + 4 * j) =
  if decide (j = i) then V2P p + 7 else ld32 (k_mem k) (V2P d + 4 * j).
Proof.
  intros Hs Hp Hne Hi Hj. pose proof (space_dir _ _ _ Hs) as Hd. unfold with_table. case_decide as Hji.
  - subst j. rewrite ld32_st32_eq. apply wrap32_small. destruct (V2P_mod _ _ Hp) as [_ ?].
    unfold is_u32, PHYSTOP in *. lia.
  - rewrite ld32_st32_ne by lia. eapply within_word; [apply memset_within|by constructor|done| |..]; try (unfold PGSIZE; lia).
    set_solver.
Qed.

Lemma with_table_table k l d i p j :
  space k d l → page_ok k p → p ≠ d → 0 ≤ i < 1024 → 0 ≤ j < 1024 →
  table (with_table (k_mem k) d i p) d j = if decide (j = i) then Some p else table (k_mem k) d j.
Proof.
  intros Hs Hp Hne Hi Hj. unfold table. rewrite (with_table_dir k l) by done. case_decide; [|done].
  destruct (V2P_mod _ _ Hp) as [Hm _]. rewrite entry_has, entry_addr by done. by erewrite P2V_V2P.
Qed.

Lemma with_table_pte k l d i p n :
  space k d l → page_ok k p → p ∉ owned (k_mem k) d → 0 ≤ i < 1024 → table (k_mem k) d i = None →
  0 ≤ n < 2 ^ 20 → pte (with_table (k_mem k) d i p) d n = pte (k_mem k) d n.
Proof.
  intros Hs Hp Ho Hi Hnone Hn. rewrite owned_app, not_elem_of_app, not_elem_of_cons in Ho.
  destruct Ho as [[Hd Ht] _]. unfold pte.
  rewrite (with_table_table k l) by (done || dlia). case_decide as E.
  - rewrite E, Hnone. cbn. unfold with_table. rewrite ld32_st32_ne.
    + rewrite memset_ld32_zero by (unfold PGSIZE; dlia). done.
    + pose proof (pages_apart k k p d Hp (space_dir _ _ _ Hs) Hd). unfold PGSIZE in *. dlia.
  - destruct (table (k_mem k) d (n / 1024)) as [t|] eqn:Et; cbn; [|done].
    destruct (space_table k d l Hs (n / 1024) t) as [Hpt Hin]; [dlia|done|].
    erewrite within_word; [done|by apply with_table_within| |done| |dlia|unfold PGSIZE; dlia].
    + constructor; [by eapply space_dir|by constructor].
    + pose proof (space_nodup_tables _ _ _ Hs) as [Hnd _]%NoDup_cons.
      rewrite not_elem_of_cons, list_elem_of_singleton. split; intros ->; done.
Qed.

(** Directory and tables are pages, each used once. *)
Definition shape (k : kernel) (m : mem) (d : Z) : Prop :=
  Forall (page_ok k) (d :: tables m d) ∧ NoDup (d :: tables m d).

Lemma space_shape k d l : space k d l → shape k (k_mem k) d.
Proof.
  intros Hs. split; [constructor|]; [by eapply space_dir|by eapply space_tables|by eapply space_nodup_tables].
Qed.

Lemma shape_table k m d i t : shape k m d → 0 ≤ i < 1024 → table m d i = Some t → page_ok k t ∧ t ≠ d.
Proof.
  intros [[Hd Hp]%Forall_cons [Hn _]%NoDup_cons] Hi Ht.
  assert (t ∈ tables m d) as Hin by (apply elem_of_tables; eauto).
  rewrite Forall_forall in Hp. split; [by apply Hp|]. intros ->. done.
Qed.

(** Writing the entry of the page [n], in its table [t]. *)
Definition with_pte (m : mem) (t n e : Z) : mem := st32 m (V2P t + 4 * (n mod 1024)) e.

Lemma with_pte_within m t n e : within [t] m (with_pte m t n e).
Proof. apply st32_within; [dlia|unfold PGSIZE; dlia]. Qed.

Lemma with_pte_table k m d t n e j :
  shape k m d → 0 ≤ n < 2 ^ 20 → table m d (n / 1024) = Some t → 0 ≤ j < 1024 →
  table (with_pte m t n e) d j = table m d j.
Proof.
  intros Hs Hn Ht Hj. destruct (shape_table k m d (n / 1024) t Hs ltac:(dlia) Ht) as [Hp Hne].
  eapply within_table; [apply with_pte_within|by constructor| | |done].
  - by destruct Hs as [[? _]%Forall_cons _].
  - rewrite list_elem_of_singleton. done.
Qed.

Lemma with_pte_pte k m d t n e j :
  shape k m d → 0 ≤ n < 2 ^ 20 → table m d (n / 1024) = Some t → is_u32 e → 0 ≤ j < 2 ^ 20 →
  pte (with_pte m t n e) d j = if decide (j = n) then (if has e PTE_P then Some e else None) else pte m d j.
Proof.
  intros Hs Hn Ht He Hj. unfold pte. rewrite (with_pte_table k m d) by (done || dlia).
  case_decide as Hjn.
  - subst j. rewrite Ht. cbn. unfold with_pte. by rewrite ld32_st32_eq, wrap32_small by done.
  - destruct (table m d (j / 1024)) as [t'|] eqn:Et; cbn; [|done].
    destruct (shape_table k m d (n / 1024) t Hs ltac:(dlia) Ht) as [Hp _].
    destruct (shape_table k m d (j / 1024) t' Hs ltac:(dlia) Et) as [Hp' _].
    assert (ld32 (with_pte m t n e) (V2P t' + 4 * (j mod 1024)) = ld32 m (V2P t' + 4 * (j mod 1024))) as ->; [|done].
    destruct (decide (t' = t)) as [->|Hne].
    + assert (j / 1024 = n / 1024) as Hq.
      { destruct Hs as [_ [_ Hnd]%NoDup_cons]. rewrite tables_eq in Hnd.
        eapply omap_inj; [exact Hnd|apply NoDup_seqZ|apply elem_of_seqZ; dlia|apply elem_of_seqZ; dlia|done|done]. }
      unfold with_pte. apply ld32_st32_ne. dlia.
    + eapply within_word; [apply with_pte_within|by constructor|done| |dlia|unfold PGSIZE; dlia].
      by rewrite list_elem_of_singleton.
Qed.

Lemma upages_ext m m' d :
  (∀ n, 0 ≤ n < NUSER → pte m' d n = pte m d n) → upages m' d = upages m d.
Proof.
  intros H. rewrite !upages_eq. apply omap_ext_in. intros j Hj%elem_of_seqZ. unfold upage. rewrite H by lia. done.
Qed.

Lemma tables_ext m m' d :
  (∀ i, 0 ≤ i < 1024 → table m' d i = table m d i) → tables m' d = tables m d.
Proof. intros H. rewrite !tables_eq. apply omap_ext_in. intros j Hj%elem_of_seqZ. rewrite H by lia. done. Qed.

Lemma user_page n : 0 ≤ n < NUSER → 0 ≤ n < 2 ^ 20.
Proof. rewrite NUSER_val. lia. Qed.

Lemma space_with_table k k' d i p l :
  space k d (p :: l) → 0 ≤ i < 1024 → table (k_mem k) d i = None →
  heap k' l → k_end k' = k_end k → k_mem k' = with_table (k_mem k) d i p →
  space k' d l ∧ owned (k_mem k') d ++ l ≡ₚ owned (k_mem k) d ++ p :: l ∧
  ∀ n, 0 ≤ n < 2 ^ 20 → pte (k_mem k') d n = pte (k_mem k) d n.
Proof.
  intros Hs Hi Hnone Hh He Hm. destruct (space_free _ _ _ Hs p ltac:(by left)) as [Hp Ho].
  assert (p ≠ d) as Hpd by (intros ->; apply Ho; left).
  assert (∀ n, 0 ≤ n < 2 ^ 20 → pte (k_mem k') d n = pte (k_mem k) d n) as Hpte.
  { intros n Hn. rewrite Hm. by eapply with_table_pte. }
  assert (tables (k_mem k') d ≡ₚ p :: tables (k_mem k) d) as Ht.
  { rewrite !tables_eq. apply (omap_add _ _ _ i); [apply NoDup_seqZ|apply elem_of_seqZ; lia|done|..].
    - rewrite Hm, (with_table_table k (p :: l)) by done. by rewrite decide_True.
    - intros j Hj%elem_of_seqZ Hne. rewrite Hm, (with_table_table k (p :: l)) by (done || lia). by rewrite decide_False. }
  assert (owned (k_mem k') d ++ l ≡ₚ owned (k_mem k) d ++ p :: l) as Hperm.
  { rewrite !owned_app, Ht, (upages_ext (k_mem k)) by eauto using user_page.
    rewrite <- !app_assoc, <- !app_comm_cons. f_equiv. rewrite !app_assoc. apply Permutation_middle. }
  split_and!; [|done|done]. split.
  - done.
  - pose proof (sp_pages _ _ _ Hs) as Hps. rewrite owned_app, Forall_app, Forall_cons in Hps.
    rewrite owned_app, Forall_app, Forall_cons, (Ht : Permutation _ _), Forall_cons, (upages_ext (k_mem k))
      by eauto using user_page. destruct Hps as [[H1 H2] H3].
    split_and!; eauto using page_ok_end; (eapply Forall_impl; [done|]; eauto using page_ok_end).
  - rewrite Hperm. apply Hs.
  - intros j t Hj. rewrite Hm, (with_table_table k (p :: l)), (with_table_dir k (p :: l)) by done.
    case_decide; [by intros [= ->]|]. by apply Hs.
  - intros n e Hn. rewrite Hpte by eauto using user_page. by apply Hs.
Qed.

(** [walkpgdir] with [alloc]: the table is there or is made from a free page; without a free page
    the answer is a null pointer. *)
Definition walked (k : kernel) (d va : Z) (l : list Z) (r : option Z) (k' : kernel) : Prop :=
  let i := va / PGSIZE / 1024 in
  mem_only k k' ∧
  match r with
  | None => l = [] ∧ table (k_mem k) d i = None ∧ k_mem k' = k_mem k ∧ space k' d []
  | Some a => ∃ t l',
      a = t + 4 * ((va / PGSIZE) mod 1024) ∧ table (k_mem k') d i = Some t ∧ space k' d l' ∧
      (∀ n, 0 ≤ n < 2 ^ 20 → pte (k_mem k') d n = pte (k_mem k) d n) ∧
      owned (k_mem k') d ++ l' ≡ₚ owned (k_mem k) d ++ l ∧ within (d :: l) (k_mem k) (k_mem k') ∧
      (∀ j, 0 ≤ j < 1024 → is_Some (table (k_mem k) d j) → is_Some (table (k_mem k') d j)) ∧
      (l' = l ∧ table (k_mem k) d i = Some t ∨ table (k_mem k) d i = None ∧ l = t :: l')
  end.

Lemma walk_alloc k d l va :
  space k d l → is_u32 va → runs (walkpgdir d va true) k (walked k d va l).
Proof.
  intros Hs Hva. destruct (va_split va Hva) as (Ed & Et & Hi & _).
  destruct (table (k_mem k) d (va / PGSIZE / 1024)) as [t|] eqn:E.
  { eapply runs_mono; [by eapply walk_found|]. intros r k' [-> ->]. split; [apply mem_only_refl|].
    exists t, l. split_and!; eauto with paging. }
  assert (has (kld32 k (d + 4 * PDX va)) PTE_P = false) as Hp.
  { unfold kld32. rewrite Ed, (V2P_word k) by (done || by eapply space_dir).
    unfold table in E. by destruct (has _ PTE_P). }
  unfold walkpgdir. apply runs_gets. rewrite Hp. cbn [negb].
  eapply runs_bind; [apply kalloc_runs, Hs|]. intros v k1 (Ho1 & Em1 & Hv). destruct l as [|p l].
  { destruct Hv as [-> Hh]. apply runs_ret. split_and!; [done|done|done|done|].
    eapply (space_frame k k1 d [] [] []); try done; [by apply mem_only_end|by rewrite Em1|..];
      intros ? _; apply not_elem_of_nil. }
  destruct Hv as [-> Hh1]. destruct (space_free _ _ _ Hs p ltac:(by left)) as [Hp' Ho].
  pose proof (page_ok_pos _ _ Hp'). rewrite (proj2 (Z.eqb_neq p 0)) by lia.
  apply runs_modify. unfold kst32. apply runs_modify.
  set (k2 := k1 <| k_mem ::= _ |> <| k_mem ::= _ |>).
  assert (k_mem k2 = with_table (k_mem k) d (va / PGSIZE / 1024) p) as Em2.
  { unfold k2. rsimpl. unfold with_table. rewrite Em1, Ed, (V2P_word k) by (done || by eapply space_dir).
    destruct (V2P_mod _ _ Hp') as [Hm _]. rewrite <- !Z.lor_assoc.
    change (Z.lor PTE_P (Z.lor PTE_W PTE_U)) with 7. by rewrite entry_lor. }
  assert (heap k2 l) as Hh2.
  { replace k2 with (k1 <| k_mem := with_table (k_mem k) d (va / PGSIZE / 1024) p |>)
      by (rewrite <- Em2; unfold k2; destruct k1; reflexivity).
    eapply (heap_mem _ _ [d; p]); [done|rewrite Em1; by apply with_table_within|..].
    - constructor; [|by constructor; [by eapply mem_only_page_ok|]]. eapply mem_only_page_ok; [done|]. by eapply space_dir.
    - intros q. rewrite elem_of_cons, list_elem_of_singleton. intros [->| ->].
      + intros Hd. destruct (space_free _ _ _ Hs d) as [_ []]; [by right|left].
      + by apply heap_nodup in Hh1; destruct (sp_heap _ _ _ Hs) as [_ [_ _ [? _]%NoDup_cons]]. }
  assert (mem_only k k2) as Ho2.
  { eapply mem_only_trans; [exact Ho1|]. unfold k2. eapply mem_only_trans; apply mem_only_mem. }
  destruct (space_with_table k k2 d (va / PGSIZE / 1024) p l Hs Hi E Hh2 (mem_only_end _ _ Ho2) Em2) as (Hs2 & Hpm & Hpt).
  apply runs_ret. split; [done|]. exists p, l. split_and!; try done.
  - by rewrite Et.
  - rewrite Em2, (with_table_table k (p :: l)) by (done || intros ->; apply Ho; left). by rewrite decide_True.
  - rewrite Em2. eapply within_mono; [by apply with_table_within|]. set_solver.
  - intros j Hj Hsome. rewrite Em2, (with_table_table k (p :: l)) by (done || intros ->; apply Ho; left). by case_decide.
  - by right.
Qed.

(** ** Mapping and unmapping a page *)

(** A write of the entry of page [n], after a change of memory elsewhere. *)
Lemma set_pte_facts k d l ps m1 t n e :
  space k d l → within ps (k_mem k) m1 → Forall (page_ok k) ps →
  (∀ q, q ∈ d :: tables (k_mem k) d → q ∉ ps) → 0 ≤ n < 2 ^ 20 →
  table (k_mem k) d (n / 1024) = Some t → is_u32 e →
  let m' := with_pte m1 t n e in
  tables m' d = tables (k_mem k) d ∧
  (∀ i, 0 ≤ i < 1024 → table m' d i = table (k_mem k) d i ∧
     ld32 m' (V2P d + 4 * i) = ld32 (k_mem k) (V2P d + 4 * i)) ∧
  ∀ j, 0 ≤ j < 2 ^ 20 →
    pte m' d j = if decide (j = n) then (if has e PTE_P then Some e else None) else pte (k_mem k) d j.
Proof.
  intros Hs Hw Hps Hd Hn Ht He m'. pose proof (space_shape _ _ _ Hs) as Hsh.
  assert (d ∉ ps) as Hd1 by (apply Hd; left).
  assert (∀ q, q ∈ tables (k_mem k) d → q ∉ ps) as Hd2 by (intros q Hq; apply Hd; by right).
  pose proof (space_dir _ _ _ Hs) as Hpd. pose proof (space_tables _ _ _ Hs) as Hpt.
  assert (∀ i, 0 ≤ i < 1024 → table m1 d i = table (k_mem k) d i) as E1 by (intros; by eapply within_table).
  assert (tables m1 d = tables (k_mem k) d) as Et by (by apply tables_ext).
  assert (shape k m1 d) as Hsh1 by (unfold shape; by rewrite Et).
  assert (table m1 d (n / 1024) = Some t) as Ht1 by (rewrite E1 by dlia; done).
  assert (∀ i, 0 ≤ i < 1024 → table m' d i = table (k_mem k) d i) as E2.
  { intros i Hi. unfold m'. by rewrite (with_pte_table k m1 d), E1. }
  split_and!; [by apply tables_ext| |].
  - intros i Hi. split; [by apply E2|]. destruct (shape_table k m1 d (n / 1024) t Hsh1 ltac:(dlia) Ht1) as [Hp Hne].
    rewrite (within_word k [t] m1) by
      (apply with_pte_within || (by constructor) || (by rewrite list_elem_of_singleton) || done || unfold PGSIZE; lia).
    eapply within_word; (done || unfold PGSIZE; lia).
  - intros j Hj. unfold m'. rewrite (with_pte_pte k m1 d) by done. case_decide; [done|]. by eapply within_pte.
Qed.

(** A space whose tables are the same. *)
Lemma space_rebuild k k' d l l' :
  space k d l → heap k' l' → k_end k' = k_end k →
  (∀ i, 0 ≤ i < 1024 → table (k_mem k') d i = table (k_mem k) d i ∧
     ld32 (k_mem k') (V2P d + 4 * i) = ld32 (k_mem k) (V2P d + 4 * i)) →
  Forall (page_ok k) (upages (k_mem k') d) → NoDup (owned (k_mem k') d ++ l') →
  (∀ n e, 0 ≤ n < NUSER → pte (k_mem k') d n = Some e → is_u32 e) → space k' d l'.
Proof.
  intros Hs Hh He Ht Hu Hnd Hpte.
  assert (tables (k_mem k') d = tables (k_mem k) d) as Et by (apply tables_ext; intros; by apply Ht).
  split; [done| |done| |done].
  - rewrite owned_app, Et. apply Forall_app. split; [constructor|].
    + eapply page_ok_end; [done|]. by eapply space_dir.
    + eapply Forall_impl; [by eapply space_tables|]. intros v. by apply page_ok_end.
    + eapply Forall_impl; [done|]. intros v. by apply page_ok_end.
  - intros i t Hi. destruct (Ht i Hi) as [-> ->]. by apply Hs.
Qed.

Lemma upages_add m m' d n p :
  0 ≤ n < NUSER → upage m d n = None → upage m' d n = Some p →
  (∀ j, 0 ≤ j < NUSER → j ≠ n → pte m' d j = pte m d j) → upages m' d ≡ₚ p :: upages m d.
Proof.
  intros Hn H0 H1 Hj. rewrite !upages_eq. apply (omap_add _ _ _ n); [apply NoDup_seqZ|apply elem_of_seqZ; lia|done|done|].
  intros j Hj'%elem_of_seqZ Hne. unfold upage. by rewrite Hj by lia.
Qed.

Lemma owned_upages m m' d p :
  tables m' d = tables m d → upages m' d ≡ₚ p :: upages m d → owned m' d ≡ₚ p :: owned m d.
Proof. intros Ht Hu. rewrite !owned_app, Ht, Hu. symmetry. apply Permutation_middle. Qed.

(** The page [p] is mapped at the user page [n], or anything at the kernel page [n]. *)
Lemma space_map k d l t n p e :
  space k d l → 0 ≤ n < 2 ^ 20 → table (k_mem k) d (n / 1024) = Some t → pte (k_mem k) d n = None →
  is_u32 e → has e PTE_P = true →
  (n < NUSER → page_ok k p ∧ (p ∉ owned (k_mem k) d ++ l) ∧ P2V (PTE_ADDR e) = p) →
  let k' := k <| k_mem := with_pte (k_mem k) t n e |> in
  space k' d l ∧
  (∀ j, 0 ≤ j < 2 ^ 20 → pte (k_mem k') d j = if decide (j = n) then Some e else pte (k_mem k) d j) ∧
  owned (k_mem k') d ≡ₚ (if decide (n < NUSER) then [p] else []) ++ owned (k_mem k) d ∧
  within [t] (k_mem k) (k_mem k') ∧
  ∀ i, 0 ≤ i < 1024 → table (k_mem k') d i = table (k_mem k) d i.
Proof.
  intros Hs Hn Ht Hnone He Hp Hu k'.
  destruct (space_table k d l Hs (n / 1024) t ltac:(dlia) Ht) as [Hpt Hin].
  destruct (set_pte_facts k d l [] (k_mem k) t n e) as (Et & Etab & Hpte); try (done || by constructor).
  { intros ? _. apply not_elem_of_nil. }
  rewrite Hp in Hpte. change (with_pte (k_mem k) t n e) with (k_mem k') in Et, Etab, Hpte.
  assert (owned (k_mem k') d ≡ₚ (if decide (n < NUSER) then [p] else []) ++ owned (k_mem k) d) as Ho.
  { case_decide as Hnu; cbn.
    - apply owned_upages; [done|]. destruct (Hu Hnu) as (_ & _ & <-). apply (upages_add _ _ _ n); [lia|..].
      + unfold upage. by rewrite Hnone.
      + unfold upage. rewrite Hpte, decide_True by done. done.
      + intros j Hj Hne. rewrite Hpte, decide_False by eauto using user_page. done.
    - rewrite !owned_app, Et, (upages_ext (k_mem k)); [done|].
      intros j Hj. rewrite Hpte, decide_False by (eauto using user_page || lia). done. }
  assert (within [t] (k_mem k) (k_mem k')) as Hw by apply with_pte_within.
  split_and!; [|done|done|done|intros; by apply Etab].
  apply (space_rebuild k k' d l l Hs); try done.
  - apply (heap_mem k l [t]); [by apply Hs|done|by constructor|].
    intros q ->%list_elem_of_singleton Hl. apply (space_free _ _ _ Hs) in Hl as [_ Hl]. apply Hl.
    rewrite owned_app. set_solver.
  - assert (Forall (page_ok k) (owned (k_mem k') d)) as Hf.
    { rewrite Ho. apply Forall_app. split; [|by apply Hs]. case_decide as Hnu; [|done].
      constructor; [|done]. by apply Hu. }
    rewrite owned_app, Forall_app in Hf. apply Hf.
  - rewrite Ho, <- app_assoc. apply NoDup_app. split_and!; [by case_decide; repeat constructor; set_solver| |by apply Hs].
    intros q. case_decide as Hnu; [|set_solver]. intros ->%list_elem_of_singleton. by apply Hu.
  - intros j e' Hj. rewrite Hpte by eauto using user_page. destruct (decide (j = n)); [by intros [= <-]|]. by apply Hs.
Qed.

(** ** mappages *)

(** One turn of the loop. *)
Lemma mappages_step fuel k d l n last pa perm p Q :
  space k d l → 0 ≤ n < 2 ^ 20 → pte (k_mem k) d n = None →
  pa mod PGSIZE = 0 → 0 ≤ pa → pa < 2 ^ 32 → 0 ≤ perm < PGSIZE →
  (n < NUSER → page_ok k p ∧ (p ∉ owned (k_mem k) d ++ l) ∧ P2V pa = p) →
  (∀ k', walked k d (n * PGSIZE) l None k' → Q (-1) k') →
  (∀ k' l', mem_only k k' → space k' d l' → within (d :: tables (k_mem k) d ++ l) (k_mem k) (k_mem k') →
     (∀ j, 0 ≤ j < 2 ^ 20 →
        pte (k_mem k') d j = if decide (j = n) then Some (pa + Z.lor perm PTE_P) else pte (k_mem k) d j) →
     owned (k_mem k') d ++ l' ≡ₚ (if decide (n < NUSER) then [p] else []) ++ owned (k_mem k) d ++ l →
     (l' = l ∨ table (k_mem k) d (n / 1024) = None ∧ ∃ t, l = t :: l') →
     is_Some (table (k_mem k') d (n / 1024)) →
     (∀ i, 0 ≤ i < 1024 → is_Some (table (k_mem k) d i) → is_Some (table (k_mem k') d i)) →
     if n * PGSIZE =? last then Q 0 k'
     else runs (mappages_loop fuel d (wrap32 (n * PGSIZE + PGSIZE)) last (wrap32 (pa + PGSIZE)) perm) k' Q) →
  runs (mappages_loop (S fuel) d (n * PGSIZE) last pa perm) k Q.
Proof.
  intros Hs Hn Hnone Hpa Hpa0 Hpa1 Hperm Hu Hfail Hok. cbn [mappages_loop].
  assert (is_u32 (n * PGSIZE)) as Hva by (unfold is_u32, PGSIZE; lia).
  assert (n * PGSIZE / PGSIZE = n) as En by (unfold PGSIZE; dlia).
  eapply runs_bind; [by apply walk_alloc|]. intros [a|] k1 Hw; [|by apply runs_ret, Hfail].
  destruct Hw as (Ho1 & t & l' & -> & Ht & Hs1 & Hpte1 & Hperm1 & Hw1 & Hts1 & Hl1). rewrite En in *.
  assert (0 ≤ n / 1024 < 1024) as Hi by dlia.
  destruct (space_table _ _ _ Hs1 _ _ Hi Ht) as [Hpt Hin].
  assert (0 ≤ n mod 1024 < 1024) as Hj by dlia.
  apply runs_gets. unfold kld32. rewrite (V2P_word k1) by done.
  assert (has (ld32 (k_mem k1) (V2P t + 4 * (n mod 1024))) PTE_P = false) as ->.
  { rewrite <- Hpte1 in Hnone by done. unfold pte in Hnone. rewrite Ht in Hnone. cbn in Hnone.
    by destruct (has _ _). }
  unfold kst32. apply runs_modify. rewrite (V2P_word k1) by done.
  assert (0 ≤ Z.lor perm PTE_P < PGSIZE) as Hf by (apply flags_lor; [done|split; done]).
  rewrite <- Z.lor_assoc, entry_lor by done.
  set (ent := pa + Z.lor perm PTE_P) in *.
  assert (is_u32 ent) as Hent by (unfold ent, is_u32, PGSIZE in *; dlia).
  assert (has ent PTE_P = true) as Hp.
  { unfold ent. rewrite entry_has by (done || split; done). by apply has_lor. }
  destruct (space_map k1 d l' t n p ent) as (Hs2 & Hpte2 & Ho2 & Hw2 & Ht2); try done.
  { by rewrite Hpte1. }
  { intros Hnu. destruct (Hu Hnu) as (H1 & H2 & H3). split_and!.
    - by eapply mem_only_page_ok.
    - by rewrite Hperm1.
    - unfold ent. by rewrite entry_addr. }
  change (k1 <| k_mem ::= _ |>) with (k1 <| k_mem := with_pte (k_mem k1) t n ent |>).
  set (k2 := k1 <| k_mem := _ |>) in *.
  assert (if n * PGSIZE =? last then Q 0 k2 else runs (mappages_loop fuel d (wrap32 (n * PGSIZE + PGSIZE)) last (wrap32 (pa + PGSIZE)) perm) k2 Q) as HQ.
  { apply (Hok k2 l').
    - eapply mem_only_trans; [done|apply mem_only_mem].
    - done.
    - apply within_trans with (k_mem k1); (eapply within_mono; [done|]).
      + set_solver.
      + destruct Hl1 as [[-> E]|[_ ->]]; [|set_solver].
        assert (t ∈ tables (k_mem k) d) by (apply elem_of_tables; eauto). set_solver.
    - intros j Hj'. rewrite Hpte2 by done. destruct (decide (j = n)); [done|by apply Hpte1].
    - rewrite Ho2, <- app_assoc. by rewrite Hperm1.
    - destruct Hl1 as [[-> _]|[? ->]]; eauto.
    - rewrite Ht2, Ht by done. eauto.
    - intros i Hi'. rewrite Ht2 by done. by apply Hts1. }
  destruct (n * PGSIZE =? last); [by apply runs_ret|done].
Qed.

Lemma PGROUNDDOWN_mod a : PGROUNDDOWN a = a - a mod PGSIZE.
Proof. exact (pte_addr a). Qed.

(** Mapping one user page. *)
Lemma map_user k d l n p perm :
  space k d l → 0 ≤ n < NUSER → pte (k_mem k) d n = None → page_ok k p → (p ∉ owned (k_mem k) d ++ l) →
  0 ≤ perm < PGSIZE →
  runs (mappages d (n * PGSIZE) PGSIZE (V2P p) perm) k (λ r k',
    mem_only k k' ∧
    (r = 0 ∧ (∃ l', space k' d l' ∧ owned (k_mem k') d ++ l' ≡ₚ p :: owned (k_mem k) d ++ l ∧
       (l' = l ∨ ∃ t, l = t :: l') ∧ within (d :: tables (k_mem k) d ++ l) (k_mem k) (k_mem k') ∧
       ∀ j, 0 ≤ j < 2 ^ 20 →
         pte (k_mem k') d j = if decide (j = n) then Some (V2P p + Z.lor perm PTE_P) else pte (k_mem k) d j)
     ∨ r = -1 ∧ l = [] ∧ k_mem k' = k_mem k ∧ space k' d [])).
Proof.
  intros Hs Hn Hnone Hp Hfree Hperm. pose proof (user_page n Hn) as Hn'. destruct (V2P_mod _ _ Hp) as [Hm Hr].
  assert (PGROUNDDOWN (n * PGSIZE) = n * PGSIZE) as E1 by (rewrite PGROUNDDOWN_mod; unfold PGSIZE; dlia).
  assert (PGROUNDDOWN (wrap32 (n * PGSIZE + PGSIZE - 1)) = n * PGSIZE) as E2.
  { rewrite PGROUNDDOWN_mod, wrap32_small by (unfold is_u32, PGSIZE; lia). unfold PGSIZE. dlia. }
  unfold mappages. rewrite E1, E2. replace (wrap32 _ / PGSIZE) with 0 by (rewrite Z.sub_diag; done).
  eapply (mappages_step _ k d l n _ (V2P p) perm p); try (done || unfold PHYSTOP in Hr; lia).
  - intros _. split_and!; [done..|by eapply P2V_V2P].
  - intros k' (Ho & -> & _ & Em & Hs'). split; [done|]. by right.
  - intros k' l' Ho Hs' Hw Hpte Hperm' Hl' _ _. rewrite Z.eqb_refl. split; [done|]. left. split; [done|].
    rewrite decide_True in Hperm' by lia. exists l'. split_and!; try done. naive_solver.
Qed.

(** Mapping [N] pages of the kernel part. *)
Definition kmapped (k : kernel) (d : Z) (l : list Z) (n N pa perm r : Z) (k' : kernel) : Prop :=
  mem_only k k' ∧ ∃ l', space k' d l' ∧ owned (k_mem k') d ++ l' ≡ₚ owned (k_mem k) d ++ l ∧
    within (owned (k_mem k) d ++ l) (k_mem k) (k_mem k') ∧
    (∀ j, 0 ≤ j < NUSER → pte (k_mem k') d j = pte (k_mem k) d j) ∧
    (r = 0 ∧ (∀ j, 0 ≤ j < 2 ^ 20 →
       pte (k_mem k') d j = if decide (n ≤ j < n + N) then Some (pa + (j - n) * PGSIZE + Z.lor perm PTE_P)
                            else pte (k_mem k) d j)
     ∨ r = -1 ∧ l' = []).

Lemma map_kernel_loop N k d l n last pa perm :
  space k d l → NUSER ≤ n → n + Z.of_nat N < 2 ^ 20 → last = (n + Z.of_nat N) * PGSIZE →
  (∀ j, n ≤ j ≤ n + Z.of_nat N → pte (k_mem k) d j = None) →
  pa mod PGSIZE = 0 → 0 ≤ pa → pa + Z.of_nat N * PGSIZE < 2 ^ 32 → 0 ≤ perm < PGSIZE →
  runs (mappages_loop (S N) d (n * PGSIZE) last pa perm) k (kmapped k d l n (Z.of_nat N + 1) pa perm).
Proof.
  intros Hs Hn Hl -> Hnone Hpa Hpa0 Hpa1 Hperm. pose proof NUSER_val as EU.
  revert k l n pa Hs Hn Hl Hnone Hpa Hpa0 Hpa1. induction N as [|N IH]; intros k l n pa Hs Hn Hl Hnone Hpa Hpa0 Hpa1.
  all: eapply (mappages_step _ k d l n _ pa perm 0); try (done || lia || (unfold PGSIZE in Hpa1; lia)); [apply Hnone; lia|..].
  all: try (intros k' (Ho & -> & _ & Em & Hs'); split; [done|]; exists []; rewrite Em;
            split_and!; [done|done|apply within_refl|done|by right]).
  all: intros k' l' Ho Hs' Hw Hpte Hperm' Hl' _ _; rewrite decide_False in Hperm' by lia; cbn in Hperm'.
  all: assert (within (owned (k_mem k) d ++ l) (k_mem k) (k_mem k')) as Hw'
         by (eapply within_mono; [exact Hw|]; rewrite owned_app; set_solver).
  all: assert (∀ j, 0 ≤ j < NUSER → pte (k_mem k') d j = pte (k_mem k) d j) as Hu
         by (intros; rewrite Hpte, decide_False by lia; done).
  - replace (n * PGSIZE =? _) with true by (symmetry; apply Z.eqb_eq; lia).
    split; [done|]. exists l'. split_and!; try done. left. split; [done|]. intros j Hj. rewrite Hpte by done.
    destruct (decide (j = n)) as [->|]; [rewrite decide_True by lia; f_equal; lia|]. by rewrite decide_False by lia.
  - replace (n * PGSIZE =? _) with false by (symmetry; apply Z.eqb_neq; unfold PGSIZE; lia).
    rewrite !wrap32_small by (unfold is_u32, PGSIZE in *; lia).
    replace (n * PGSIZE + PGSIZE) with ((n + 1) * PGSIZE) by lia.
    replace (n + Z.of_nat (S N)) with (n + 1 + Z.of_nat N) by lia.
    eapply runs_mono; [apply (IH k' l'); try (done || lia)|].
    + intros j Hj. rewrite Hpte, decide_False by lia. apply Hnone. lia.
    + unfold PGSIZE in *. dlia.
    + intros r k2 (Ho2 & l2 & Hs2 & Hp2 & Hw2 & Hu2 & Hr). split; [by eapply mem_only_trans|].
      exists l2. split_and!; [done|by rewrite Hp2| | |].
      * eapply within_trans; [done|]. eapply within_mono; [done|]. by rewrite Hperm'.
      * intros j Hj. by rewrite Hu2, Hu.
      * destruct Hr as [[-> Hr]|[-> ->]]; [|by right]. left. split; [done|]. intros j Hj.
        rewrite Hr, Hpte by done. destruct (decide (j = n)) as [->|].
        { rewrite decide_False, decide_True by lia. f_equal. lia. }
        destruct (decide (n + 1 ≤ j < _)).
        { rewrite decide_True by lia. f_equal. lia. }
        by rewrite decide_False by lia.
Qed.

Lemma map_kernel k d l n N pa perm :
  space k d l → NUSER ≤ n → 0 < N → n + N ≤ 2 ^ 20 →
  (∀ j, n ≤ j < n + N → pte (k_mem k) d j = None) →
  pa mod PGSIZE = 0 → 0 ≤ pa → pa + N * PGSIZE ≤ 2 ^ 32 → 0 ≤ perm < PGSIZE →
  runs (mappages d (n * PGSIZE) (N * PGSIZE) pa perm) k (kmapped k d l n N pa perm).
Proof.
  intros Hs Hn HN Hl Hnone Hpa Hpa0 Hpa1 Hperm. pose proof NUSER_val as EU.
  assert (PGROUNDDOWN (n * PGSIZE) = n * PGSIZE) as E1 by (rewrite PGROUNDDOWN_mod; unfold PGSIZE; dlia).
  assert (PGROUNDDOWN (wrap32 (n * PGSIZE + N * PGSIZE - 1)) = (n + (N - 1)) * PGSIZE) as E2.
  { rewrite PGROUNDDOWN_mod, wrap32_small by (unfold is_u32, PGSIZE; lia). unfold PGSIZE. dlia. }
  unfold mappages. rewrite E1, E2.
  replace (wrap32 ((n + (N - 1)) * PGSIZE - n * PGSIZE) / PGSIZE) with (N - 1)
    by (rewrite wrap32_small by (unfold is_u32, PGSIZE; lia); unfold PGSIZE; dlia).
  replace N with (Z.of_nat (Z.to_nat (N - 1)) + 1) at 3 by lia.
  apply map_kernel_loop; try (done || lia).
  - unfold PGSIZE. rewrite Z2Nat.id by lia. done.
  - intros j Hj. apply Hnone. lia.
  - unfold PGSIZE in *. lia.
Qed.

(** ** Unmapping *)

(** The user page [n] is given back: its page is freed and its entry cleared. *)
Lemma space_unmap k k1 d l n p t :
  space k d l → 0 ≤ n < NUSER → upage (k_mem k) d n = Some p → table (k_mem k) d (n / 1024) = Some t →
  k_end k1 = k_end k → within [p] (k_mem k) (k_mem k1) → heap k1 (p :: l) →
  let k' := k1 <| k_mem := with_pte (k_mem k1) t n 0 |> in
  space k' d (p :: l) ∧
  (∀ j, 0 ≤ j < 2 ^ 20 → pte (k_mem k') d j = if decide (j = n) then None else pte (k_mem k) d j) ∧
  owned (k_mem k') d ++ p :: l ≡ₚ owned (k_mem k) d ++ l ∧ within [t; p] (k_mem k) (k_mem k') ∧
  tables (k_mem k') d = tables (k_mem k) d.
Proof.
  intros Hs Hn Hup Ht He Hw Hh k'. pose proof (user_page n Hn) as Hn'.
  destruct (space_upage _ _ _ Hs n p Hn Hup) as [Hp Hin].
  destruct (space_table _ _ _ Hs (n / 1024) t ltac:(dlia) Ht) as [Hpt Hint].
  assert (NoDup ((d :: tables (k_mem k) d) ++ upages (k_mem k) d)) as (_ & Hdis & _)%NoDup_app.
  { destruct Hs as [_ _ Hnd _ _]. by apply NoDup_app in Hnd as (? & _ & _). }
  destruct (set_pte_facts k d l [p] (k_mem k1) t n 0) as (Et & Etab & Hpte); try (done || by constructor).
  { intros q Hq ->%list_elem_of_singleton. by apply (Hdis p). }
  change (with_pte (k_mem k1) t n 0) with (k_mem k') in Et, Etab, Hpte. change (has 0 PTE_P) with false in Hpte. cbn in Hpte.
  assert (owned (k_mem k) d ≡ₚ p :: owned (k_mem k') d) as Ho.
  { apply owned_upages; [done|]. apply (upages_add _ _ _ n); [done| |done|].
    - unfold upage. by rewrite Hpte, decide_True by done.
    - intros j Hj Hne. by rewrite Hpte, decide_False by eauto using user_page. }
  assert (owned (k_mem k') d ++ p :: l ≡ₚ owned (k_mem k) d ++ l) as Hperm.
  { rewrite Ho. symmetry. apply Permutation_middle. }
  split_and!; [|done|done| |done].
  - apply (space_rebuild k k' d l (p :: l) Hs); try done.
    + apply (heap_mem k1 (p :: l) [t]); [done|apply with_pte_within|by constructor; [by eapply page_ok_end|]|].
      intros q ->%list_elem_of_singleton [->|Hl]%elem_of_cons; [by apply (Hdis p); [right|]|].
      apply (space_free _ _ _ Hs) in Hl as [_ []]. rewrite owned_app. set_solver.
    + assert (Forall (page_ok k) (owned (k_mem k) d)) as Hf by apply Hs.
      rewrite Ho, Forall_cons, owned_app, Forall_app in Hf. apply Hf.
    + rewrite Hperm. apply Hs.
    + intros j e Hj. rewrite Hpte by eauto using user_page. destruct (decide (j = n)); [done|]. by apply Hs.
  - apply within_trans with (k_mem k1); (eapply within_mono; [done || apply with_pte_within|]); set_solver.
Qed.

(** The user pages from [a] up to the size [sz] are unmapped and given back. *)
Definition unmapped (k : kernel) (d a sz : Z) (l : list Z) (k' : kernel) : Prop :=
  mem_only k k' ∧ tables (k_mem k') d = tables (k_mem k) d ∧
  (∃ l', space k' d l' ∧ owned (k_mem k') d ++ l' ≡ₚ owned (k_mem k) d ++ l) ∧
  (∀ j, 0 ≤ j < 2 ^ 20 →
     pte (k_mem k') d j = if decide (a ≤ j * PGSIZE < sz) then None else pte (k_mem k) d j) ∧
  within (owned (k_mem k) d) (k_mem k) (k_mem k') ∧
  ∀ j p o, 0 ≤ j < NUSER → ¬ (a ≤ j * PGSIZE < sz) → upage (k_mem k) d j = Some p → 0 ≤ o < PGSIZE →
    rd (k_mem k') (V2P p + o) = rd (k_mem k) (V2P p + o).

Lemma unmapped_none k d a sz l :
  space k d l → (∀ j, 0 ≤ j < 2 ^ 20 → a ≤ j * PGSIZE < sz → pte (k_mem k) d j = None) →
  unmapped k d a sz l k.
Proof.
  intros Hs Hn. split_and!; eauto with paging. intros j Hj. case_decide; [by apply Hn|done].
Qed.

(** The pages [a, b) first, then [b, sz). *)
Lemma unmapped_trans k k1 k2 d a b sz l l1 :
  unmapped k d a b l k1 → space k d l → space k1 d l1 → owned (k_mem k1) d ++ l1 ≡ₚ owned (k_mem k) d ++ l →
  unmapped k1 d b sz l1 k2 → a ≤ b → (∀ j, ¬ (sz ≤ j * PGSIZE < b)) → unmapped k d a sz l k2.
Proof.
  intros (Ho & Et & _ & Hp & Hw & Hc) Hs Hs1 Hl1 (Ho' & Et' & (l2 & Hs2 & Hl2) & Hp' & Hw' & Hc') Hab Hb.
  split_and!.
  - by eapply mem_only_trans.
  - by rewrite Et', Et.
  - exists l2. split; [done|]. by rewrite Hl2.
  - intros j Hj. rewrite Hp', Hp by done. specialize (Hb j). repeat case_decide; (done || lia).
  - eapply within_trans; [done|]. eapply within_mono; [done|].
    intros q. rewrite !owned_app, Et, !elem_of_app. intros [?|Hq]; [by left|]. right.
    apply elem_of_upages in Hq as (n & Hn & Hq). apply elem_of_upages. exists n. split; [done|].
    unfold upage in *. rewrite Hp in Hq by eauto using user_page. by case_decide.
  - intros j p o Hj Hout Hu Ho''. specialize (Hb j). rewrite (Hc' j), (Hc j); try (done || lia).
    unfold upage in *. rewrite Hp by eauto using user_page. by rewrite decide_False by lia.
Qed.

Lemma pte_no_table m d n : table m d (n / 1024) = None → pte m d n = None.
Proof. unfold pte. by intros ->. Qed.

Lemma unmapped_end k d a sz l : space k d l → sz ≤ a → unmapped k d a sz l k.
Proof. intros. apply unmapped_none; [done|lia]. Qed.

(** A page in the middle of the loop. *)
Lemma unmapped_one k d n l k' l' :
  space k d l → mem_only k k' → 0 ≤ n < NUSER → tables (k_mem k') d = tables (k_mem k) d →
  space k' d l' → owned (k_mem k') d ++ l' ≡ₚ owned (k_mem k) d ++ l →
  (∀ j, 0 ≤ j < 2 ^ 20 → pte (k_mem k') d j = if decide (j = n) then None else pte (k_mem k) d j) →
  (∀ p t, upage (k_mem k) d n = Some p → table (k_mem k) d (n / 1024) = Some t → within [t; p] (k_mem k) (k_mem k')) →
  is_Some (upage (k_mem k) d n) →
  unmapped k d (n * PGSIZE) (n * PGSIZE + PGSIZE) l k'.
Proof.
  intros Hs Ho Hn Et Hs' Hperm Hpte Hw [p Hup].
  assert (∃ t, table (k_mem k) d (n / 1024) = Some t) as [t Ht].
  { unfold upage, pte in Hup. destruct (table _ _ _); [eauto|done]. }
  specialize (Hw p t Hup Ht). pose proof (user_page n Hn) as Hn'.
  destruct (space_upage _ _ _ Hs n p Hn Hup) as [Hp Hin].
  destruct (space_table _ _ _ Hs (n / 1024) t ltac:(dlia) Ht) as [Hpt Hint].
  split_and!; [done|done|eauto| | |].
  - intros j Hj. rewrite Hpte by done. unfold PGSIZE. repeat case_decide; (done || lia).
  - eapply within_mono; [done|]. rewrite owned_app. set_solver.
  - intros j q o Hj Hout Hq Hof. destruct (space_upage _ _ _ Hs j q Hj Hq) as [Hpq Hinq].
    eapply within_byte; [done|by constructor; [|constructor]|done| |done].
    rewrite not_elem_of_cons, list_elem_of_singleton. split.
    + intros ->. destruct Hs as [_ _ Hnd _ _]. apply NoDup_app in Hnd as (Hnd & _ & _).
      rewrite owned_app in Hnd. apply NoDup_app in Hnd as (_ & Hdis & _). apply (Hdis t); [by right|done].
    + intros ->. apply Hout. rewrite (space_upage_inj _ _ _ Hs j n p) by done. unfold PGSIZE. lia.
Qed.

Lemma deallocuvm_loop_ok fuel k d n sz l :
  space k d l → 0 ≤ n → sz ≤ KERNBASE → sz - n * PGSIZE ≤ (Z.of_nat fuel - 1) * PGSIZE → (0 < fuel)%nat →
  runs (deallocuvm_loop fuel d (n * PGSIZE) sz) k (λ _ k', unmapped k d (n * PGSIZE) sz l k').
Proof.
  revert k n l. induction fuel as [|fuel IH]; intros k n l Hs Hn Hsz Hf Hpos; [lia|]. cbn [deallocuvm_loop].
  destruct (Z.ltb_spec (n * PGSIZE) sz) as [Hlt|Hge]; cbn [negb]; [|by apply runs_ret, unmapped_end].
  assert (n < NUSER) as Hnu by (rewrite NUSER_val; unfold KERNBASE, PGSIZE in *; lia).
  assert (is_u32 (n * PGSIZE)) as Hva by (rewrite NUSER_val in Hnu; unfold is_u32, PGSIZE; lia).
  assert (n * PGSIZE / PGSIZE = n) as En by (unfold PGSIZE; dlia).
  assert (0 < fuel)%nat as Hpos' by (unfold PGSIZE in *; lia).
  pose proof NUSER_val as EU.
  assert (∀ k' l', space k' d l' → runs (deallocuvm_loop fuel d (wrap32 (n * PGSIZE + PGSIZE)) sz) k'
            (λ _ k2, unmapped k' d (n * PGSIZE + PGSIZE) sz l' k2)) as Hnext.
  { intros k' l' Hs'. rewrite wrap32_small by (unfold is_u32, PGSIZE in *; lia).
    replace (n * PGSIZE + PGSIZE) with ((n + 1) * PGSIZE) by lia. apply IH; (done || lia || unfold PGSIZE in *; lia). }
  destruct (table (k_mem k) d (n / 1024)) as [t|] eqn:Et.
  - eapply runs_bind; [eapply walk_found; try done; by rewrite En|]. intros r k1 [-> ->]. rewrite En.
    destruct (space_table _ _ _ Hs (n / 1024) t ltac:(dlia) Et) as [Hpt _].
    apply runs_gets. unfold kld32. rewrite (V2P_word k) by (done || dlia).
    set (e := ld32 (k_mem k) (V2P t + 4 * (n mod 1024))).
    destruct (has e PTE_P) eqn:Ep.
    + assert (pte (k_mem k) d n = Some e) as Ee.
      { unfold pte. rewrite Et. cbn. fold e. by rewrite Ep. }
      destruct (space_pte_entry _ _ _ Hs n e ltac:(lia) Ee) as (p & Hup & Hp & _ & Ea). rewrite Ea.
      assert (0 < V2P p) as Hpp. { rewrite (V2P_page _ _ Hp). destruct Hp as (_ & ? & ?). lia. }
      rewrite (proj2 (Z.eqb_neq (V2P p) 0)) by lia. rewrite (P2V_V2P k) by done.
      destruct (space_upage _ _ _ Hs n p ltac:(lia) Hup) as [_ Hin].
      eapply runs_bind; [eapply runs_bind; [apply (kfree_runs k l p); [apply Hs|done|]|]|].
      * intros Hl. apply (space_free _ _ _ Hs) in Hl as [_ []]. rewrite owned_app. set_solver.
      * intros _ k1 (Ho1 & Hw1 & Hh1). instantiate (1 := λ _ k', ∃ k1, mem_only k k1 ∧ within [p] (k_mem k) (k_mem k1) ∧ heap k1 (p :: l) ∧ k' = k1 <| k_mem := with_pte (k_mem k1) t n 0 |>).
        cbn beta. unfold kst32. intros e'. eexists tt, _. split; [reflexivity|].
        exists k1. split_and!; [done..|]. unfold with_pte. rewrite (V2P_word k) by (done || dlia). by destruct k1.
      * intros _ k' (k1 & Ho1 & Hw1 & Hh1 & ->).
        destruct (space_unmap k k1 d l n p t) as (Hs2 & Hp2 & Hperm2 & Hw2 & Ht2); try (done || lia); [by apply mem_only_end|].
        eapply runs_mono; [by apply Hnext|]. intros ? k2 Hun; cbn beta in Hun.
        eapply (unmapped_trans _ _ _ _ _ (n * PGSIZE + PGSIZE)); [|exact Hs|exact Hs2|exact Hperm2|exact Hun|..].
        { eapply unmapped_one; try (done || lia).
          - eapply mem_only_trans; [done|apply mem_only_mem].
          - intros p' t' Hp' Ht'. assert (p' = p) as -> by congruence. by assert (t' = t) as -> by congruence. }
        { unfold PGSIZE. lia. }
        { unfold PGSIZE in *. lia. }
    + eapply runs_bind; [by apply (runs_ret _ _ (λ _ k', k' = k))|]. intros _ k' ->.
      eapply runs_mono; [by apply Hnext|]. intros ? k2 Hun; cbn beta in Hun.
      eapply (unmapped_trans _ k _ _ _ (n * PGSIZE + PGSIZE)); [|done..|exact Hun| |].
      * apply unmapped_none; [done|]. intros j Hj Hj'. assert (j = n) as -> by (unfold PGSIZE in *; lia).
        unfold pte. rewrite Et. cbn. fold e. by rewrite Ep.
      * unfold PGSIZE. lia.
      * unfold PGSIZE in *. lia.
  - eapply runs_bind; [eapply walk_absent; try done; by rewrite En|]. intros r k1 [-> ->].
    destruct (va_split _ Hva) as (-> & _ & _). rewrite En.
    assert (PGADDR (n / 1024 + 1) 0 0 = (n / 1024 + 1) * 1024 * PGSIZE) as ->.
    { unfold PGADDR. rewrite !Z.lor_0_r. rewrite Z.shiftl_mul_pow2 by lia.
      rewrite wrap32_small by (unfold is_u32; dlia). unfold PGSIZE. lia. }
    set (n' := (n / 1024 + 1) * 1024) in *. assert (n < n' ≤ n + 1024) as Hn' by (unfold n'; dlia).
    replace (wrap32 (wrap32 (n' * PGSIZE - PGSIZE) + PGSIZE)) with (n' * PGSIZE)
      by (rewrite wrap32_add_l; rewrite wrap32_small; [lia|unfold is_u32, PGSIZE; dlia]).
    assert (∀ j, n ≤ j < n' → pte (k_mem k) d j = None) as Hnone.
    { intros j Hj. apply pte_no_table. by replace (j / 1024) with (n / 1024) by (unfold n' in *; dlia). }
    destruct (Z.lt_ge_cases (n' * PGSIZE) sz) as [Hlt'|Hge'].
    + eapply runs_mono; [apply (IH k n' l); try (done || lia); unfold PGSIZE in *; lia|]. intros ? k2 Hun; cbn beta in Hun.
      eapply (unmapped_trans _ k _ _ _ (n' * PGSIZE)); [|done..|exact Hun| |]; [|unfold PGSIZE; lia|lia].
      apply unmapped_none; [done|]. intros j Hj Hj'. apply Hnone. unfold PGSIZE in *. lia.
    + destruct fuel as [|fuel]; [lia|]. cbn [deallocuvm_loop]. rewrite (proj2 (Z.ltb_ge _ _)) by done.
      cbn [negb]. apply runs_ret. apply unmapped_none; [done|]. intros j Hj Hj'. apply Hnone. unfold PGSIZE in *. lia.
Qed.

Lemma pages_fuel_enough a b : b - a ≤ (Z.of_nat (pages_fuel a b) - 1) * PGSIZE ∧ (0 < pages_fuel a b)%nat.
Proof. unfold pages_fuel, PGSIZE. split; [|lia]. dlia. Qed.

Lemma PGROUNDUP_page a :
  0 ≤ a < 2 ^ 32 - PGSIZE → ∃ n, PGROUNDUP a = n * PGSIZE ∧ 0 ≤ n ∧ a ≤ n * PGSIZE < a + PGSIZE.
Proof.
  intros Ha. destruct (PGROUNDUP_spec a Ha) as [Hr Hm]. exists (PGROUNDUP a / PGSIZE).
  assert (PGROUNDUP a = PGROUNDUP a / PGSIZE * PGSIZE) as E by (unfold PGSIZE in *; dlia).
  rewrite <- E. split_and!; [done| |lia..]. apply Z.div_pos; [lia|done].
Qed.

Lemma deallocuvm_ok k d l oldsz newsz :
  space k d l → 0 ≤ newsz < 2 ^ 32 - PGSIZE → oldsz ≤ KERNBASE →
  runs (deallocuvm d oldsz newsz) k (λ r k',
    r = Z.min oldsz newsz ∧ unmapped k d (PGROUNDUP newsz) oldsz l k').
Proof.
  intros Hs Hnew Hold. destruct (PGROUNDUP_page newsz Hnew) as (n & E & Hn & Hr). unfold deallocuvm.
  destruct (Z.geb_spec newsz oldsz) as [Hge|Hlt].
  - apply runs_ret. split; [lia|]. apply unmapped_end; [done|]. lia.
  - rewrite E. eapply runs_bind.
    + apply (deallocuvm_loop_ok _ _ _ n _ l); try done; apply pages_fuel_enough.
    + intros ? k' Hk; cbn beta in Hk. apply runs_ret. split; [lia|done].
Qed.

Lemma free_tables_ok idx k d l (f : Z → option Z) :
  heap k l → page_ok k d → Forall (λ i, (i < 1024)%nat) idx →
  (∀ i, i ∈ idx → table (k_mem k) d (Z.of_nat i) = f (Z.of_nat i)) →
  Forall (page_ok k) (omap (λ i, f (Z.of_nat i)) idx) →
  NoDup (d :: omap (λ i, f (Z.of_nat i)) idx ++ l) →
  runs (free_tables d idx) k (λ _ k', mem_only k k' ∧
    (∃ l', heap k' l' ∧ l' ≡ₚ omap (λ i, f (Z.of_nat i)) idx ++ l) ∧
    within (omap (λ i, f (Z.of_nat i)) idx) (k_mem k) (k_mem k')).
Proof.
  revert k l. induction idx as [|i idx IH]; intros k l Hh Hd Hi Ht Hp Hn; cbn [free_tables omap list_omap].
  { apply runs_ret. split_and!; eauto with paging. }
  apply Forall_cons in Hi as [Hi Hidx]. apply runs_gets. unfold kld32. rewrite (V2P_word k) by (done || lia).
  pose proof (Ht i ltac:(by left)) as Hti. cbn [omap list_omap] in Hp, Hn. unfold table in Hti.
  destruct (has _ PTE_P) eqn:Ep; cbn [when].
  - rewrite <- Hti in *. set (p := P2V _) in *. apply Forall_cons in Hp as [Hp Hps].
    apply NoDup_cons in Hn as [Hnd Hn]. apply NoDup_cons in Hn as [Hnp Hn].
    eapply runs_bind; [apply (kfree_runs k l p); [done|done|set_solver]|].
    intros _ k1 (Ho1 & Hw1 & Hh1). eapply runs_mono; [apply (IH k1 (p :: l)); try done|].
    + by eapply mem_only_page_ok.
    + intros j Hj. rewrite Forall_forall in Hidx. rewrite <- Ht by (by right).
      eapply within_table; [exact Hw1|by constructor|done|set_solver|]. specialize (Hidx j Hj). lia.
    + eapply Forall_impl; [done|]. intros v. by eapply mem_only_page_ok.
    + rewrite <- Permutation_middle. apply NoDup_cons. split; [set_solver|]. by apply NoDup_cons.
    + intros _ k2 (Ho2 & (l2 & Hh2 & Hl2) & Hw2). split_and!.
      * by eapply mem_only_trans.
      * exists l2. split; [done|]. rewrite Hl2. symmetry. apply Permutation_middle.
      * eapply within_trans; (eapply within_mono; [done|set_solver]).
  - rewrite <- Hti in *. eapply runs_bind; [by apply (runs_ret _ _ (λ _ k', k' = k))|]. intros _ k1 ->.
    apply IH; try done. intros j Hj. apply Ht. by right.
Qed.

Lemma tables_nat m d : tables m d = omap (λ i, table m d (Z.of_nat i)) (seq 0 NPDENTRIES).
Proof.
  rewrite tables_eq. unfold seqZ. change (Z.to_nat 1024) with NPDENTRIES. generalize (seq 0 NPDENTRIES).
  intros idx. induction idx as [|i idx IH]; cbn; [done|]. rewrite Z.add_0_r. cbn in IH. by rewrite IH.
Qed.

(** [freevm] gives back every page of the space. *)
Lemma freevm_ok k d l :
  space k d l →
  runs (freevm d) k (λ _ k', mem_only k k' ∧ (∃ l', heap k' l' ∧ l' ≡ₚ owned (k_mem k) d ++ l) ∧
    within (owned (k_mem k) d) (k_mem k) (k_mem k')).
Proof.
  intros Hs. pose proof (space_dir _ _ _ Hs) as Hd. pose proof (page_ok_pos _ _ Hd). unfold freevm.
  rewrite (proj2 (Z.eqb_neq d 0)) by lia.
  eapply runs_bind; [by apply (deallocuvm_ok k d l)|]. intros r k1 [_ (Ho1 & Et & (l1 & Hs1 & Hl1) & Hp1 & Hw1 & _)].
  assert (upages (k_mem k1) d = []) as Eu.
  { destruct (upages (k_mem k1) d) as [|p ps] eqn:E; [done|].
    assert (p ∈ upages (k_mem k1) d) as Hin by (rewrite E; left).
    apply elem_of_upages in Hin as (n & Hn & Hu). unfold upage in Hu.
    rewrite Hp1, decide_True in Hu; [done| |by apply user_page].
    change (PGROUNDUP 0) with 0. rewrite NUSER_val in Hn. unfold PGSIZE, KERNBASE. lia. }
  assert (owned (k_mem k1) d = d :: tables (k_mem k1) d) as Eo by (by rewrite owned_app, Eu, app_nil_r).
  pose proof (sp_nodup _ _ _ Hs1) as Hnd. pose proof (space_tables _ _ _ Hs1) as Hpt. rewrite Eo in Hnd.
  rewrite tables_nat in Hnd, Hpt.
  eapply runs_bind; [apply (free_tables_ok _ k1 d l1 (table (k_mem k1) d)); try done|].
  - apply Hs1.
  - by eapply space_dir.
  - apply Forall_forall. intros i Hi%elem_of_seq. unfold NPDENTRIES in Hi. lia.
  - intros _ k2 (Ho2 & (l2 & Hh2 & Hl2) & Hw2). rewrite <- tables_nat in *.
    apply NoDup_cons in Hnd as [Hdn _]. rewrite <- Hl2 in Hdn.
    assert (mem_only k k2) as Ho by (by eapply mem_only_trans).
    eapply runs_mono; [apply (kfree_runs k2 l2 d); [done|by eapply mem_only_page_ok|done]|].
    intros _ k3 (Ho3 & Hw3 & Hh3). split_and!.
    + by eapply mem_only_trans.
    + exists (d :: l2). split; [done|]. rewrite Hl2, <- Hl1, Eo. done.
    + eapply within_trans; [exact Hw1|]. eapply within_trans; (eapply within_mono; [done|]); rewrite owned_app, ?Et; set_solver.
Qed.
