(* ===== verification/Uvm.v ===== *)
(** * User address spaces (setupkvm, copyuvm, allocuvm, copyout of vm.c)

    On top of Paging.v, what a process sees: [user_byte] is the byte that it
    reads at an address.  [copyuvm_correct]: fork's copy has the same bytes and
    permissions in pages of its own, and the kernel part of every space; when
    memory runs out every page is free again.  [allocuvm_correct]: growing adds
    zeroed pages and changes no other byte, or changes nothing.
    [copyout_correct]: bytes that are copied out are what the process reads. *)

From S2P Require Import Prelude State Spinlock Mem Kalloc Consout Sched Vm Paging.

(** ** The kernel part *)

(** The entry of the page [j] above [KERNBASE]: physical memory, writable but for the kernel's text
    and read-only data below [data], and the devices. *)
Definition kernel_pte (data j : Z) : option Z :=
  if decide (KERNBASE ≤ j * PGSIZE < KERNBASE + PHYSTOP) then
    Some (j * PGSIZE - KERNBASE + (if decide (KERNLINK ≤ j * PGSIZE < data) then PTE_P else PTE_P + PTE_W))
  else if decide (DEVSPACE ≤ j * PGSIZE) then Some (j * PGSIZE + (PTE_P + PTE_W)) else None.

(** What kernel.ld makes sure of: the data segment starts at a page, after the text. *)
Definition data_ok (data : Z) : Prop :=
  data mod PGSIZE = 0 ∧ KERNLINK < data < KERNBASE + PHYSTOP.

Lemma length_omap_le {A B} (f : A → option B) (s : list A) : (length (omap f s) ≤ length s)%nat.
Proof. induction s as [|a s IH]; cbn; [done|]. destruct (f a); cbn; lia. Qed.

Lemma length_tables m d : (length (tables m d) ≤ Z.to_nat 1024)%nat.
Proof. rewrite tables_eq. etrans; [apply length_omap_le|]. by rewrite length_seqZ. Qed.

(** The free pages [L] have become the space [d], with the entries [f], and the rest. *)
Definition made (k0 : kernel) (d : Z) (L : list Z) (f : Z → option Z) (k : kernel) : Prop :=
  mem_only k0 k ∧ within L (k_mem k0) (k_mem k) ∧
  (∃ l, space k d l ∧ owned (k_mem k) d ++ l ≡ₚ L) ∧
  ∀ j, 0 ≤ j < 2 ^ 20 → pte (k_mem k) d j = f j.

(** Memory has run out: all pages are free again, and they were fewer than [N]. *)
Definition gave_up (k0 : kernel) (L : list Z) (N : Z) (k : kernel) : Prop :=
  mem_only k0 k ∧ within L (k_mem k0) (k_mem k) ∧ (∃ l, heap k l ∧ l ≡ₚ L) ∧ Z.of_nat (length L) ≤ N.

Lemma no_upages m d : (∀ j, 0 ≤ j < NUSER → pte m d j = None) → upages m d = [].
Proof.
  intros H. destruct (upages m d) as [|p ps] eqn:E; [done|].
  assert (p ∈ upages m d) as Hin by (rewrite E; left).
  apply elem_of_upages in Hin as (n & Hn & Hu). unfold upage in Hu. by rewrite H in Hu.
Qed.

(** A made space is given back. *)
Lemma made_freed k0 d L f k : made k0 d L f k →
  runs (freevm d) k (λ _ k', mem_only k0 k' ∧ within L (k_mem k0) (k_mem k') ∧ ∃ l, heap k' l ∧ l ≡ₚ L).
Proof.
  intros (Ho & Hw & (l & Hs & Hl) & Hf). eapply runs_mono; [by apply freevm_ok|].
  intros _ k' (Ho' & (l' & Hh & Hl') & Hw'). split_and!.
  - by eapply mem_only_trans.
  - eapply within_trans; [done|]. eapply within_mono; [done|]. rewrite <- Hl. set_solver.
  - exists l'. split; [done|]. by rewrite Hl'.
Qed.

Lemma kmap_step k0 d L f k virt start stop perm ks n N Q :
  made k0 d L f k → (∀ j, 0 ≤ j < NUSER → f j = None) →
  virt = n * PGSIZE → wrap32 (stop - start) = N * PGSIZE → NUSER ≤ n → 0 < N → n + N ≤ 2 ^ 20 →
  (∀ j, n ≤ j < n + N → f j = None) →
  start mod PGSIZE = 0 → 0 ≤ start → start + N * PGSIZE ≤ 2 ^ 32 → 0 ≤ perm < PGSIZE →
  (∀ k', made k0 d L (λ j, if decide (n ≤ j < n + N) then Some (start + (j - n) * PGSIZE + Z.lor perm PTE_P) else f j) k' →
     runs (setupkvm_loop d ks) k' Q) →
  (∀ k', gave_up k0 L 1025 k' → Q 0 k') →
  runs (setupkvm_loop d ((virt, start, stop, perm) :: ks)) k Q.
Proof.
  intros Hmade Hu -> HN Hn HN0 HnN Hnone Hst Hst0 Hst1 Hperm Hok Hfail. cbn [setupkvm_loop]. rewrite HN.
  destruct Hmade as (Ho & Hw & (l & Hs & Hl) & Hf). pose proof NUSER_val as EU.
  eapply runs_bind; [apply (map_kernel k d l); try done; intros j Hj; rewrite Hf by lia; by apply Hnone|].
  intros r k1 (Ho1 & l1 & Hs1 & Hl1 & Hw1 & Hu1 & Hr).
  assert (mem_only k0 k1) as Ho01 by (by eapply mem_only_trans).
  assert (within L (k_mem k0) (k_mem k1)) as Hw01.
  { eapply within_trans; [done|]. eapply within_mono; [done|]. by rewrite Hl. }
  destruct Hr as [[-> Hr]|[-> ->]].
  - apply Hok. split_and!; [done|done|exists l1; split; [done|by rewrite Hl1]|].
    intros j Hj. rewrite Hr by done. by case_decide; [|apply Hf].
  - assert (made k0 d L (λ j, pte (k_mem k1) d j) k1) as Hm.
    { split_and!; [done|done|exists []; split; [done|by rewrite Hl1]|done]. }
    cbn [Z.ltb Z.compare]. eapply runs_bind; [by eapply made_freed|]. intros _ k2 (Ho2 & Hw2 & Hh2).
    apply runs_ret, Hfail. split_and!; [done..|].
    rewrite <- Hl, <- Hl1, app_nil_r, owned_app, no_upages, app_nil_r.
    + cbn [length]. pose proof (length_tables (k_mem k1) d). lia.
    + intros j Hj. rewrite Hu1, Hf by eauto using user_page. by apply Hu.
Qed.

(** A zeroed page is a directory without entries. *)
Lemma space_new k p l :
  heap k l → page_ok k p → p ∉ l →
  let k' := k <| k_mem := memset (k_mem k) (V2P p) 0 PGSIZE |> in
  space k' p l ∧ owned (k_mem k') p = [p] ∧ ∀ j, 0 ≤ j < 2 ^ 20 → pte (k_mem k') p j = None.
Proof.
  intros Hh Hp Hl k'.
  assert (∀ i, 0 ≤ i < 1024 → table (k_mem k') p i = None) as Ht.
  { intros i Hi. unfold table. change (k_mem k') with (memset (k_mem k) (V2P p) 0 PGSIZE).
    rewrite memset_ld32_zero by (unfold PGSIZE; lia). done. }
  assert (∀ j, 0 ≤ j < 2 ^ 20 → pte (k_mem k') p j = None) as Hpte.
  { intros j Hj. apply pte_no_table, Ht. dlia. }
  assert (tables (k_mem k') p = []) as Et.
  { destruct (tables (k_mem k') p) as [|t ts] eqn:E; [done|].
    assert (t ∈ tables (k_mem k') p) as (i & Hi & H)%elem_of_tables by (rewrite E; left). by rewrite Ht in H. }
  assert (owned (k_mem k') p = [p]) as Eo.
  { rewrite owned_app, Et, no_upages; [done|]. eauto using user_page. }
  assert (heap k' l) as Hh'.
  { apply (heap_mem k l [p]); [done|apply memset_within|by constructor|]. by intros q ->%list_elem_of_singleton. }
  split_and!; [|done|done]. split.
  - done.
  - rewrite Eo. by constructor.
  - rewrite Eo. apply NoDup_cons. split; [done|]. by apply heap_nodup in Hh' as [].
  - intros i t Hi. by rewrite Ht.
  - intros n e Hn. by rewrite Hpte by eauto using user_page.
Qed.

Lemma made_ext k0 d L f g k :
  made k0 d L f k → (∀ j, 0 ≤ j < 2 ^ 20 → f j = g j) → made k0 d L g k.
Proof. intros (? & ? & ? & Hf) Hg. split_and!; try done. intros j Hj. rewrite Hf by done. by apply Hg. Qed.

(** The side conditions of [kmap_step] for the regions of [kmap]. *)
Ltac kregion := first
  [ done | lia
  | intros; cbv beta; rewrite ?decide_False by lia; done
  | unfold PHYSTOP, PGSIZE; rewrite wrap32_small; [|unfold is_u32]; lia
  | unfold PGSIZE; lia
  | unfold PGSIZE; dlia ].

(** [setupkvm] makes a space with the kernel part only, or gives every page back. *)
Lemma setupkvm_ok k l :
  heap k l → data_ok (k_data k) →
  runs setupkvm k (λ d k',
    d ≠ 0 ∧ made k d l (λ j, if decide (j < NUSER) then None else kernel_pte (k_data k) j) k' ∨
    d = 0 ∧ gave_up k l 1025 k').
Proof.
  intros Hh [Hdm Hdr]. unfold setupkvm. eapply runs_bind; [by apply (kalloc_runs k l)|].
  intros d k1 (Ho1 & Em1 & Hd). destruct l as [|p l].
  { destruct Hd as [-> Hh1]. apply runs_ret. right. split; [done|].
    split_and!; [done|by rewrite Em1|by exists []|done]. }
  destruct Hd as [-> Hh1]. apply heap_nodup in Hh as [[Hpl Hnd]%NoDup_cons [Hp Hps]%Forall_cons].
  pose proof (page_ok_pos _ _ Hp). rewrite (proj2 (Z.eqb_neq p 0)) by lia.
  apply runs_modify. change (P2V PHYSTOP >? DEVSPACE) with false. cbv iota. apply runs_gets.
  change (k1 <| k_mem ::= _ |>) with (k1 <| k_mem := memset (k_mem k1) (V2P p) 0 PGSIZE |>).
  destruct (space_new k1 p l Hh1 ltac:(by eapply mem_only_page_ok) Hpl) as (Hs2 & Eo2 & Hpte2).
  set (k2 := k1 <| k_mem := _ |>) in *.
  assert (mem_only k k2) as Ho2 by (eapply mem_only_trans; [done|apply mem_only_mem]).
  rewrite (mem_only_data k k2 Ho2).
  assert (made k p (p :: l) (λ _, None) k2) as Hm.
  { split_and!; [done| |exists l; split; [done|by rewrite Eo2]|done].
    rewrite <- Em1. eapply within_mono; [apply memset_within|set_solver]. }
  set (data := k_data k) in *. unfold kmap.
  assert (∃ q, data = q * PGSIZE) as [q Eq] by (exists (data / PGSIZE); unfold PGSIZE in *; dlia).
  assert (KERNLINK = 0x80100 * PGSIZE) as EL by done. assert (KERNBASE = 0x80000 * PGSIZE) as EB by done.
  assert (V2P data = (q - 0x80000) * PGSIZE) as EV.
  { unfold V2P. rewrite Eq, EB, wrap32_small; [lia|]. unfold is_u32, KERNLINK, KERNBASE, EXTMEM, PHYSTOP, PGSIZE in *. lia. }
  assert (0x80100 < q < 0x8E000) as Hq by (unfold KERNLINK, KERNBASE, EXTMEM, PHYSTOP, PGSIZE in *; lia).
  rewrite EV. pose proof NUSER_val as EU. change (V2P KERNLINK) with (0x100 * PGSIZE).
  eapply (kmap_step k p (p :: l) _ k2 _ _ _ _ _ 0x80000 0x100); [exact Hm|kregion..| |naive_solver].
  intros k3 Hm3. eapply (kmap_step k p (p :: l) _ k3 _ _ _ _ _ 0x80100 (q - 0x80100)); [exact Hm3|kregion..| |naive_solver].
  intros k4 Hm4. eapply (kmap_step k p (p :: l) _ k4 _ _ _ _ _ q (0x8E000 - q)); [exact Hm4|kregion..| |naive_solver].
  intros k5 Hm5. eapply (kmap_step k p (p :: l) _ k5 _ _ _ _ _ 0xFE000 0x2000); [exact Hm5|kregion..| |naive_solver].
  intros k6 Hm6. apply runs_ret. left. split; [lia|]. eapply made_ext; [exact Hm6|]. intros j Hj. cbv beta.
  change (Z.lor PTE_W PTE_P) with (PTE_P + PTE_W). change (Z.lor 0 PTE_P) with PTE_P.
  unfold kernel_pte. rewrite Eq, EL, EB, EU. change PHYSTOP with (0xE000 * PGSIZE). change DEVSPACE with (0xFE000 * PGSIZE).
  unfold PGSIZE. repeat case_decide; try lia; try done; f_equal; lia.
Qed.

(** ** Copying a space *)

(** The user page [j] of [d'] in [m'] is a copy of that of [d] in [m], with its flags, in a page of its own. *)
Definition page_copied (m : mem) (d : Z) (m' : mem) (d' j : Z) : Prop :=
  ∃ e p q, pte m d j = Some e ∧ upage m d j = Some p ∧
    pte m' d' j = Some (V2P q + PTE_FLAGS e) ∧ upage m' d' j = Some q ∧
    ∀ o, 0 ≤ o < PGSIZE → rd m' (V2P q + o) = rd m (V2P p + o).

(** The pages below [n] of [pgdir] are copied to [d], which was made from the free pages [L]. *)
Record copying (k0 : kernel) (pgdir : Z) (L : list Z) (d n : Z) (k : kernel) : Prop := {
  cp_only : mem_only k0 k;
  cp_within : within L (k_mem k0) (k_mem k);
  cp_space : ∃ l, space k d l ∧ owned (k_mem k) d ++ l ≡ₚ L;
  cp_done : ∀ j, 0 ≤ j < n → page_copied (k_mem k0) pgdir (k_mem k) d j;
  cp_rest : ∀ j, n ≤ j < 2 ^ 20 →
    pte (k_mem k) d j = if decide (j < NUSER) then None else kernel_pte (k_data k0) j
}.

(** A space stays as it was when only pages that were free change. *)
Lemma space_untouched k0 pgdir L k l :
  space k0 pgdir L → mem_only k0 k → within L (k_mem k0) (k_mem k) → heap k l → l ⊆ L →
  space k pgdir l ∧ owned (k_mem k) pgdir = owned (k_mem k0) pgdir ∧
  (∀ j, 0 ≤ j < 2 ^ 20 → pte (k_mem k) pgdir j = pte (k_mem k0) pgdir j) ∧
  ∀ j p o, 0 ≤ j < NUSER → upage (k_mem k0) pgdir j = Some p → 0 ≤ o < PGSIZE →
    rd (k_mem k) (V2P p + o) = rd (k_mem k0) (V2P p + o).
Proof.
  intros Hs0 Ho Hw Hh HL.
  assert (Forall (page_ok k0) L) as HpL by (by apply Hs0).
  assert (∀ q, q ∈ owned (k_mem k0) pgdir → q ∉ L) as Hd.
  { intros q Hq HqL. by apply (space_free _ _ _ Hs0) in HqL as [_ []]. }
  destruct (space_frame k0 k pgdir L l L) as (Hs' & Eo & Hpte); try done.
  - by apply mem_only_end.
  - intros t Ht. apply Hd. rewrite owned_app. set_solver.
  - intros q Hq Hl. apply (Hd q Hq). by apply HL.
  - split_and!; [done|done|done|]. intros j p o Hj Hu Hof. destruct (space_upage _ _ _ Hs0 j p Hj Hu) as [Hp Hin].
    eapply within_byte; try done. apply Hd. rewrite owned_app. set_solver.
Qed.

Lemma copying_parent k0 pgdir L d n k l :
  space k0 pgdir L → copying k0 pgdir L d n k → space k d l → owned (k_mem k) d ++ l ≡ₚ L →
  space k pgdir l ∧ owned (k_mem k) pgdir = owned (k_mem k0) pgdir ∧
  (∀ j, 0 ≤ j < 2 ^ 20 → pte (k_mem k) pgdir j = pte (k_mem k0) pgdir j) ∧
  ∀ j p o, 0 ≤ j < NUSER → upage (k_mem k0) pgdir j = Some p → 0 ≤ o < PGSIZE →
    rd (k_mem k) (V2P p + o) = rd (k_mem k0) (V2P p + o).
Proof.
  intros Hs0 [Ho Hw _ _ _] Hs HL. apply (space_untouched k0 pgdir L); try done; [apply Hs|].
  rewrite <- HL. set_solver.
Qed.

Lemma copy_up_apart n m d s b :
  d + Z.of_nat n ≤ s ∨ s + Z.of_nat n ≤ d →
  rd (copy_up m d s n) b = if decide (d ≤ b < d + Z.of_nat n) then rd m (s + (b - d)) mod 256 else rd m b.
Proof.
  revert m d s. induction n as [|n IH]; intros m d s Hd; cbn [copy_up]; [by rewrite decide_False by lia|].
  rewrite IH by lia. rewrite !rd_wr. destruct (decide (d = b)) as [->|].
  - rewrite decide_False, decide_True by lia. do 2 f_equal. lia.
  - repeat case_decide; try lia; try done. do 2 f_equal. lia.
Qed.

(** A page is copied to another. *)
Lemma memmove_page k m p q b :
  page_ok k p → page_ok k q → p ≠ q →
  rd (memmove m (V2P q) (V2P p) PGSIZE) b =
  if decide (in_page q b) then rd m (V2P p + (b - V2P q)) mod 256 else rd m b.
Proof.
  intros Hp Hq Hne. pose proof (pages_apart _ _ _ _ Hp Hq Hne) as Ha. unfold memmove.
  replace ((V2P p <? V2P q) && (V2P q <? V2P p + PGSIZE)) with false by (symmetry; unfold PGSIZE in *; lia).
  rewrite copy_up_apart by (unfold PGSIZE in *; lia). unfold in_page. rewrite Z2Nat.id by done. done.
Qed.

#[export] Instance in_page_dec p b : Decision (in_page p b).
Proof. unfold in_page. apply _. Defined.

(** Out of memory: everything is given back. *)
Lemma give_up_ok k0 d L l k N (Q : Z → kernel → Prop) :
  mem_only k0 k → within L (k_mem k0) (k_mem k) → space k d l → owned (k_mem k) d ++ l ≡ₚ L →
  Z.of_nat (length L) ≤ N → (∀ k', gave_up k0 L N k' → Q 0 k') →
  runs (freevm d;; mret 0) k Q.
Proof.
  intros Ho Hw Hs Hl HN HQ. eapply runs_bind.
  - apply (made_freed k0 d L (pte (k_mem k) d)). split_and!; eauto.
  - intros _ k' (? & ? & ?). apply runs_ret, HQ. split_and!; done.
Qed.

Lemma length_upages m d n :
  0 ≤ n → (∀ j, n ≤ j < NUSER → pte m d j = None) → Z.of_nat (length (upages m d)) ≤ n.
Proof.
  intros Hn H. rewrite upages_eq. destruct (Z.le_gt_cases n NUSER) as [Hle|].
  - replace NUSER with (n + (NUSER - n)) by lia. rewrite seqZ_app, omap_app by lia.
    rewrite length_app. replace (omap _ (seqZ (0 + n) _)) with (@nil Z).
    + cbn [length]. pose proof (length_omap_le (upage m d) (seqZ 0 n)) as Hl. rewrite length_seqZ in Hl. lia.
    + symmetry. rewrite (omap_ext_in _ (λ _, None)).
      * generalize (seqZ (0 + n) (NUSER - n)). intros s. induction s; cbn; done.
      * intros j Hj%elem_of_seqZ. unfold upage. rewrite H by lia. done.
  - pose proof (length_omap_le (upage m d) (seqZ 0 NUSER)) as Hl. rewrite length_seqZ in Hl. lia.
Qed.

Lemma length_owned m d n :
  0 ≤ n → (∀ j, n ≤ j < NUSER → pte m d j = None) → Z.of_nat (length (owned m d)) ≤ 1025 + n.
Proof.
  intros Hn H. rewrite owned_app, length_app. cbn [length]. pose proof (length_tables m d).
  pose proof (length_upages m d n Hn H). lia.
Qed.

(** A page [q] taken from the free list is filled, which changes no other page. *)
Lemma space_fill k k1 d q l m :
  space k d (q :: l) → heap k1 l → k_end k1 = k_end k → k_mem k1 = k_mem k → within [q] (k_mem k) m →
  let k' := k1 <| k_mem := m |> in
  space k' d l ∧ (∀ j, 0 ≤ j < 2 ^ 20 → pte m d j = pte (k_mem k) d j) ∧
  owned m d = owned (k_mem k) d ∧ (q ∉ owned m d ++ l).
Proof.
  intros Hs Hh He Em Hw k'. destruct (space_free _ _ _ Hs q ltac:(by left)) as [Hq Ho].
  assert (q ∉ l) as Hl by (destruct (sp_heap _ _ _ Hs) as [_ [_ _ [? _]%NoDup_cons]]; done).
  assert (heap k' l) as Hh'.
  { apply (heap_mem k1 l [q]); [done|by rewrite Em|by constructor; [by eapply page_ok_end|]|].
    by intros ? ->%list_elem_of_singleton. }
  destruct (space_frame k k' d (q :: l) l [q]) as (Hs' & Eo & Hpte); try done.
  - by constructor.
  - intros t Ht ->%list_elem_of_singleton. apply Ho. rewrite owned_app. set_solver.
  - intros p Hp Hpl. destruct (space_free _ _ _ Hs p) as [_ []]; [by right|done].
  - split_and!; [done|done|done|]. change (k_mem k') with m in Eo. rewrite Eo. set_solver.
Qed.

Lemma copied_within m0 pgdir m m' d j k l ps :
  page_copied m0 pgdir m d j → 0 ≤ j < NUSER → k_mem k = m → space k d l → within ps m m' → Forall (page_ok k) ps →
  (∀ q, q ∈ upages m d → q ∉ ps) → pte m' d j = pte m d j → page_copied m0 pgdir m' d j.
Proof.
  intros (e & p & q & He & Hp & He' & Hq & Hc) Hj Em Hs Hw Hps Hd Ept. subst m.
  exists e, p, q. unfold upage in *. rewrite Ept. split_and!; try done. intros o Ho. rewrite <- Hc by done.
  destruct (space_upage _ _ _ Hs j q Hj) as [Hpq Hin]; [exact Hq|].
  eapply within_byte; try done. by apply Hd.
Qed.


(** The new page of the copy. *)
Lemma copied_new k0 pgdir L k m2 m3 d n e p q ps :
  space k0 pgdir L → bytes_ok (k_mem k0) → 0 ≤ n < NUSER → page_ok k0 q →
  pte (k_mem k0) pgdir n = Some e → upage (k_mem k0) pgdir n = Some p → mem_only k0 k →
  (∀ o, 0 ≤ o < PGSIZE → rd (k_mem k) (V2P p + o) = rd (k_mem k0) (V2P p + o)) →
  (∀ b, rd m2 b = if decide (in_page q b) then rd (k_mem k) (V2P p + (b - V2P q)) mod 256 else rd (k_mem k) b) →
  within ps m2 m3 → Forall (page_ok k0) ps → q ∉ ps →
  pte m3 d n = Some (V2P q + Z.lor (PTE_FLAGS e) PTE_P) → page_copied (k_mem k0) pgdir m3 d n.
Proof.
  intros Hs0 Hb Hn Hq He Hup Ho Hcont Hm2 Hw Hps Hqp Hpte. destruct (V2P_mod _ _ Hq) as [Hqm _].
  destruct (space_pte_entry _ _ _ Hs0 n e Hn He) as (p' & Hup' & Hp & Ee & _).
  assert (p' = p) as -> by congruence. destruct (V2P_mod _ _ Hp) as [Hpm _].
  assert (0 ≤ PTE_FLAGS e < PGSIZE) as Hf by (rewrite pte_flags; by apply Z.mod_pos_bound).
  assert (has e PTE_P = true) as Hpr.
  { unfold pte in He. destruct (table _ _ _); [|done]. cbn in He. destruct (has _ _) eqn:E; [|done]. by injection He as <-. }
  rewrite lor_present in Hpte by (rewrite Ee, entry_has in Hpr by (done || split; done); done).
  exists e, p, q. split_and!; [done|done|done| |].
  - unfold upage. rewrite Hpte. cbn. rewrite entry_addr by done. f_equal. by eapply P2V_V2P.
  - intros o Hof. rewrite (within_byte k0 ps m2) by done. rewrite Hm2, decide_True by (unfold in_page; lia).
    replace (V2P p + (V2P q + o - V2P q)) with (V2P p + o) by lia. rewrite Hcont by done.
    apply Z.mod_small, Hb.
Qed.

(** The next page is copied to the free page [q] and mapped, or there is no page for its table. *)
Lemma copy_page k0 pgdir L d n k k1 e p q l :
  bytes_ok (k_mem k0) → space k0 pgdir L → copying k0 pgdir L d n k → 0 ≤ n < NUSER →
  space k d (q :: l) → owned (k_mem k) d ++ q :: l ≡ₚ L →
  mem_only k k1 → k_mem k1 = k_mem k → heap k1 l →
  pte (k_mem k0) pgdir n = Some e → has e PTE_P = true → upage (k_mem k0) pgdir n = Some p →
  (∀ o, 0 ≤ o < PGSIZE → rd (k_mem k) (V2P p + o) = rd (k_mem k0) (V2P p + o)) →
  runs (mappages d (n * PGSIZE) PGSIZE (V2P q) (PTE_FLAGS e))
    (k1 <| k_mem := memmove (k_mem k1) (V2P q) (V2P p) PGSIZE |>) (λ r k3,
      r = 0 ∧ copying k0 pgdir L d (n + 1) k3 ∨
      r = -1 ∧ l = [] ∧ mem_only k k3 ∧ within [q] (k_mem k) (k_mem k3) ∧ space k3 d [] ∧
      owned (k_mem k3) d = owned (k_mem k) d).
Proof.
  intros Hb Hs0 Hcp Hn Hs HL Ho1 Em1 Hh1 He Hpres Hup Hcont. pose proof NUSER_val as EU.
  destruct (space_upage _ _ _ Hs0 n p Hn Hup) as [Hp0 Hin].
  destruct (space_free _ _ _ Hs q ltac:(by left)) as [Hq Hqo].
  assert (q ∈ L) as HqL by (rewrite <- HL; set_solver).
  assert (page_ok k p) as Hp by (eapply mem_only_page_ok; [apply Hcp|done]).
  assert (p ≠ q) as Hpq.
  { intros ->. apply (space_free _ _ _ Hs0) in HqL as [_ []]. rewrite owned_app. set_solver. }
  set (m2 := memmove _ _ _ _).
  assert (∀ b, rd m2 b = if decide (in_page q b) then rd (k_mem k) (V2P p + (b - V2P q)) mod 256 else rd (k_mem k) b) as Hm2.
  { intros b. unfold m2. rewrite Em1. by eapply memmove_page. }
  assert (within [q] (k_mem k) m2) as Hw2.
  { intros b Hb'. rewrite Hm2, decide_False; [done|]. apply Hb'. by left. }
  destruct (space_fill k k1 d q l m2) as (Hs2 & Hpte2 & Eo2 & Hq2); try done; [by apply mem_only_end|].
  set (k2 := k1 <| k_mem := m2 |>) in *. change (k_mem k2) with m2 in *.
  assert (mem_only k k2) as Ho2 by (eapply mem_only_trans; [done|apply mem_only_mem]).
  eapply runs_mono; [apply (map_user k2 d l n q); try done|].
  - rewrite Hpte2, (cp_rest _ _ _ _ _ _ Hcp) by lia. by rewrite decide_True by lia.
  - by eapply mem_only_page_ok.
  - rewrite pte_flags. apply Z.mod_pos_bound. done.
  - intros r k3 (Ho3 & Hr). change (k_mem k2) with m2 in Hr. destruct Hr as [(-> & l3 & Hs3 & HL3 & _ & Hw3 & Hpte3)|(-> & -> & Em3 & Hs3)].
    + assert (∀ v, v ∈ d :: tables m2 d ++ l → v ∈ L) as HsL.
      { intros v. rewrite <- HL, <- Eo2, owned_app. set_solver. }
      assert (q ∉ d :: tables m2 d ++ l) as Hqp by (rewrite owned_app in Hq2; set_solver).
      assert (Forall (page_ok k0) (d :: tables m2 d ++ l)) as HpL.
      { apply Forall_forall. intros v Hv%HsL. by apply (space_free _ _ _ Hs0) in Hv as []. }
      assert (page_copied (k_mem k0) pgdir (k_mem k3) d n) as Hnew.
      { apply (copied_new k0 pgdir L k m2 (k_mem k3) d n e p q (d :: tables m2 d ++ l)); try done.
        - by apply (space_free _ _ _ Hs0).
        - apply Hcp.
        - by rewrite Hpte3, decide_True by eauto using user_page. }
      assert (∀ j, 0 ≤ j < n → page_copied (k_mem k0) pgdir (k_mem k3) d j) as Hold.
      { intros j Hj.
        apply (copied_within (k_mem k0) pgdir m2 (k_mem k3) d j k2 l (d :: tables m2 d ++ l)); try (done || lia).
        - apply (copied_within (k_mem k0) pgdir (k_mem k) m2 d j k (q :: l) [q]); try (done || lia || by constructor).
          + by apply Hcp.
          + intros v Hv ->%list_elem_of_singleton. apply Hqo. rewrite owned_app. set_solver.
          + apply Hpte2. lia.
        - eapply Forall_impl; [done|]. intros v Hv. eapply mem_only_page_ok; [|done]. eapply mem_only_trans; [apply Hcp|done].
        - intros v Hv Hin'. pose proof (sp_nodup _ _ _ Hs2) as Hnd. change (k_mem k2) with m2 in Hnd.
          rewrite owned_app, <- app_assoc in Hnd. apply NoDup_app in Hnd as (_ & Hd1 & Hnd).
          apply NoDup_app in Hnd as (_ & Hd2 & _). set_solver.
        - rewrite Hpte3, decide_False by lia. done. }
      left. split; [done|]. split.
      * eapply mem_only_trans; [apply Hcp|]. by eapply mem_only_trans.
      * eapply within_trans; [apply Hcp|]. eapply within_trans; (eapply within_mono; [done|]); [set_solver|].
        rewrite <- HL, <- Eo2, owned_app. set_solver.
      * exists l3. split; [done|]. rewrite HL3, <- HL, Eo2. apply Permutation_middle.
      * intros j Hj. destruct (decide (j = n)) as [->|Hjn]; [by apply Hnew|]. apply Hold. lia.
      * intros j Hj. rewrite Hpte3, decide_False, Hpte2 by lia. apply Hcp. lia.
    + right. split_and!; [done|done|by eapply mem_only_trans|by rewrite Em3|done|by rewrite Em3].
Qed.

Lemma copyuvm_step k0 pgdir L d n k e fuel sz Q :
  space k0 pgdir L → bytes_ok (k_mem k0) → copying k0 pgdir L d n k → 0 ≤ n < NUSER →
  pte (k_mem k0) pgdir n = Some e → n * PGSIZE < sz →
  (∀ k', copying k0 pgdir L d (n + 1) k' →
     runs (copyuvm_loop fuel pgdir d (wrap32 (n * PGSIZE + PGSIZE)) sz) k' Q) →
  (∀ k', gave_up k0 L (1026 + n) k' → Q 0 k') →
  runs (copyuvm_loop (S fuel) pgdir d (n * PGSIZE) sz) k Q.
Proof.
  intros Hs0 Hb Hcp Hn He Hsz Hrest Hfail. pose proof (user_page n Hn) as Hn'. pose proof NUSER_val as EU.
  destruct (cp_space _ _ _ _ _ _ Hcp) as (l & Hs & HL).
  destruct (copying_parent k0 pgdir L d n k l Hs0 Hcp Hs HL) as (Hsp & _ & Hptep & Hcont).
  destruct (space_pte_entry _ _ _ Hs0 n e Hn He) as (p & Hup & Hp & Ee & Ea).
  cbn [copyuvm_loop]. rewrite (proj2 (Z.ltb_lt _ _)) by done. cbn [negb].
  assert (is_u32 (n * PGSIZE)) as Hva by (unfold is_u32, PGSIZE; lia).
  assert (n * PGSIZE / PGSIZE = n) as En by (unfold PGSIZE; dlia).
  destruct (walk_pte k pgdir l (n * PGSIZE) false e) as (a & Hwalk & Ek & Hpres); [done|done|by rewrite En, Hptep|].
  eapply runs_bind; [exact Hwalk|]. intros r k1 [-> ->]. apply runs_gets. rewrite Ek, Hpres, Ea. cbn [negb].
  assert (∀ j, n ≤ j < NUSER → pte (k_mem k) d j = None) as Hnone.
  { intros j Hj. rewrite (cp_rest _ _ _ _ _ _ Hcp) by lia. by rewrite decide_True by lia. }
  assert (length L = length (owned (k_mem k) d) + length l)%nat as HLl by (rewrite <- HL; apply length_app).
  pose proof (length_owned (k_mem k) d n ltac:(lia) Hnone) as Hown.
  eapply runs_bind; [apply (kalloc_runs k l), Hs|]. intros q k1 (Ho1 & Em1 & Hq). destruct l as [|q' l].
  { destruct Hq as [-> Hh1]. rewrite Z.eqb_refl.
    destruct (space_frame k k1 d [] [] []) as (Hs1 & Eo1 & _); try done;
      [by apply mem_only_end|by rewrite Em1|set_solver..|].
    eapply (give_up_ok k0 d L [] k1 (1026 + n)); try done.
    - eapply mem_only_trans; [apply Hcp|done].
    - rewrite Em1. apply Hcp.
    - by rewrite Eo1.
    - rewrite HLl. cbn [length]. lia. }
  destruct Hq as [-> Hh1]. destruct (space_free _ _ _ Hs q' ltac:(by left)) as [Hpq Hqo].
  pose proof (page_ok_pos _ _ Hpq). rewrite (proj2 (Z.eqb_neq q' 0)) by lia. apply runs_modify.
  change (k1 <| k_mem ::= _ |>) with (k1 <| k_mem := memmove (k_mem k1) (V2P q') (V2P p) PGSIZE |>).
  eapply runs_bind; [eapply (copy_page k0 pgdir L d n k k1 e p q' l); try done; eauto|].
  intros r k3 [[-> Hcp']|(-> & -> & Ho3 & Hw3 & Hs3 & Eo3)]; [by apply Hrest|]. cbn [Z.ltb Z.compare].
  eapply runs_bind; [apply (kfree_runs k3 [] q'); [apply Hs3|by eapply mem_only_page_ok|apply not_elem_of_nil]|].
  intros _ k4 (Ho4 & Hw4 & Hh4).
  destruct (space_frame k3 k4 d [] [q'] [q']) as (Hs4 & Eo4 & _); try done.
  { by apply mem_only_end. }
  { constructor; [by eapply mem_only_page_ok|done]. }
  { intros v Hv ->%list_elem_of_singleton. apply Hqo. rewrite <- Eo3, owned_app. set_solver. }
  { intros v Hv ->%list_elem_of_singleton. apply Hqo. by rewrite <- Eo3. }
  eapply (give_up_ok k0 d L [q'] k4 (1026 + n)); try done.
  - eapply mem_only_trans; [apply Hcp|]. by eapply mem_only_trans.
  - eapply within_trans; [apply Hcp|]. eapply within_mono; [by eapply within_trans|]. rewrite <- HL. set_solver.
  - by rewrite Eo4, Eo3.
  - rewrite HLl. cbn [length]. lia.
Qed.

Lemma copyuvm_loop_ok fuel k0 pgdir L d n k sz :
  space k0 pgdir L → bytes_ok (k_mem k0) → copying k0 pgdir L d n k → 0 ≤ n → 0 ≤ sz ≤ KERNBASE →
  (∀ j, 0 ≤ j → j * PGSIZE < sz → is_Some (pte (k_mem k0) pgdir j)) →
  sz - n * PGSIZE ≤ (Z.of_nat fuel - 1) * PGSIZE → (0 < fuel)%nat → n ≤ (sz + PGSIZE - 1) / PGSIZE →
  runs (copyuvm_loop fuel pgdir d (n * PGSIZE) sz) k (λ r k',
    r = d ∧ copying k0 pgdir L d ((sz + PGSIZE - 1) / PGSIZE) k' ∨
    r = 0 ∧ gave_up k0 L (1025 + (sz + PGSIZE - 1) / PGSIZE) k').
Proof.
  intros Hs0 Hb. revert n k. induction fuel as [|fuel IH]; intros n k Hcp Hn Hsz Hall Hf Hpos Hle; [lia|].
  destruct (Z.lt_ge_cases (n * PGSIZE) sz) as [Hlt|Hge].
  - destruct (Hall n Hn Hlt) as [e He]. pose proof NUSER_val as EU.
    assert (n < NUSER) by (unfold KERNBASE, PGSIZE in *; lia).
    assert (n + 1 ≤ (sz + PGSIZE - 1) / PGSIZE) as Hle' by (unfold PGSIZE in *; dlia).
    eapply copyuvm_step; try done; [|].
    + intros k' Hcp'. rewrite wrap32_small by (unfold is_u32, PGSIZE; lia).
      replace (n * PGSIZE + PGSIZE) with ((n + 1) * PGSIZE) by lia.
      apply IH; (done || lia || unfold PGSIZE in *; lia).
    + intros k' (? & ? & ? & Hlen). right. split; [done|]. split_and!; [done..|]. lia.
  - cbn [copyuvm_loop]. rewrite (proj2 (Z.ltb_ge _ _)) by done. cbn [negb]. apply runs_ret. left. split; [done|].
    assert ((sz + PGSIZE - 1) / PGSIZE = n) as -> by (unfold PGSIZE in *; dlia). done.
Qed.

Lemma copyuvm_ok k pgdir l sz :
  space k pgdir l → bytes_ok (k_mem k) → data_ok (k_data k) → 0 ≤ sz ≤ KERNBASE →
  (∀ j, 0 ≤ j → j * PGSIZE < sz → is_Some (pte (k_mem k) pgdir j)) →
  runs (copyuvm pgdir sz) k (λ d k',
    d ≠ 0 ∧ copying k pgdir l d ((sz + PGSIZE - 1) / PGSIZE) k' ∨
    d = 0 ∧ gave_up k l (1025 + (sz + PGSIZE - 1) / PGSIZE) k').
Proof.
  intros Hs Hb Hd Hsz Hall. unfold copyuvm.
  assert (0 ≤ (sz + PGSIZE - 1) / PGSIZE) as Hpos by (unfold PGSIZE; dlia).
  eapply runs_bind; [apply (setupkvm_ok k l); [apply Hs|done]|].
  intros d k1 [[Hd0 (Ho & Hw & (l1 & Hs1 & Hl1) & Hpte)]|[-> (? & ? & ? & Hlen)]].
  - rewrite (proj2 (Z.eqb_neq d 0)) by done.
    eapply runs_mono; [apply (copyuvm_loop_ok _ k pgdir l d 0); try (done || apply pages_fuel_enough)|].
    + split; [done|done|eauto|lia|]. intros j Hj. rewrite Hpte by lia. done.
    + intros r k' [[-> ?]|?]; [by left|by right].
  - rewrite Z.eqb_refl. apply runs_ret. right. split; [done|]. split_and!; [done..|]. lia.
Qed.

(** ** What a process sees *)

(** The byte at the address [va], through the space [d]. *)
Definition user_byte (m : mem) (d va : Z) : option Z := rd m <$> translate m (V2P d) va false.

(** May the processor use the address [va] in user mode, for a write if [w]? *)
Definition user_may (m : mem) (d va : Z) (w : bool) : bool :=
  match pte m d (va / PGSIZE) with
  | Some e => has e PTE_U && (negb w || has e PTE_W)
  | None => false
  end.

Lemma user_va va : 0 ≤ va < KERNBASE → is_u32 va ∧ 0 ≤ va / PGSIZE < NUSER.
Proof. rewrite NUSER_val. unfold is_u32, KERNBASE, PGSIZE. intros. split; [lia|dlia]. Qed.

Lemma user_byte_page k d l va :
  space k d l → 0 ≤ va < KERNBASE →
  user_byte (k_mem k) d va = (λ p, rd (k_mem k) (V2P p + va mod PGSIZE)) <$> upage (k_mem k) d (va / PGSIZE).
Proof.
  intros Hs Hva. destruct (user_va va Hva) as [Hu Hn]. unfold user_byte. rewrite (space_translate k d l) by done.
  unfold upage. destruct (pte (k_mem k) d (va / PGSIZE)) as [e|] eqn:E; cbn; [|done].
  destruct (space_pte_entry k d l Hs _ e Hn E) as (p & Hup & _ & _ & Ea).
  unfold upage in Hup. rewrite E in Hup. injection Hup as Hup. by rewrite Hup, Ea.
Qed.

(** An address below the size is in one of its pages. *)
Lemma va_page va sz : 0 ≤ va < sz → 0 ≤ va / PGSIZE < (sz + PGSIZE - 1) / PGSIZE ∧ va / PGSIZE * PGSIZE < sz.
Proof. unfold PGSIZE. intros. split; dlia. Qed.

Lemma copied_user_byte k0 pgdir l0 k d l va :
  space k0 pgdir l0 → space k d l → 0 ≤ va < KERNBASE →
  page_copied (k_mem k0) pgdir (k_mem k) d (va / PGSIZE) →
  user_byte (k_mem k) d va = user_byte (k_mem k0) pgdir va ∧
  ∀ w, user_may (k_mem k) d va w = user_may (k_mem k0) pgdir va w.
Proof.
  intros Hs0 Hs Hva (e & p & q & He & Hp & He' & Hq & Hc). destruct (user_va va Hva) as [_ Hn].
  rewrite (user_byte_page k d l), (user_byte_page k0 pgdir l0), Hp, Hq by done. split.
  - cbn. rewrite Hc; [done|]. by apply Z.mod_pos_bound.
  - intros w. unfold user_may. rewrite He, He'.
    destruct (space_pte_entry k0 pgdir l0 Hs0 _ e Hn He) as (p' & _ & Hp' & Ee & _).
    destruct (space_upage k d l Hs _ q Hn Hq) as [Hpq _].
    destruct (V2P_mod _ _ Hp') as [H1 _]. destruct (V2P_mod _ _ Hpq) as [H2 _].
    assert (0 ≤ PTE_FLAGS e < PGSIZE) as Hf by (rewrite pte_flags; by apply Z.mod_pos_bound).
    assert (∀ b, 0 ≤ b < PGSIZE → has (V2P q + PTE_FLAGS e) b = has e b) as Hhas.
    { intros b Hb. rewrite Ee at 2. by rewrite !entry_has. }
    rewrite !Hhas by (split; done). done.
Qed.

(** Two spaces with disjoint pages share no byte. *)
Lemma spaces_apart k d d' l l' va va' pa pa' w w' :
  space k d l → space k d' l' → (∀ p, p ∈ owned (k_mem k) d → p ∉ owned (k_mem k) d') →
  0 ≤ va < KERNBASE → 0 ≤ va' < KERNBASE →
  translate (k_mem k) (V2P d) va w = Some pa → translate (k_mem k) (V2P d') va' w' = Some pa' → pa ≠ pa'.
Proof.
  intros Hs Hs' Hd Hva Hva' Ht Ht'. destruct (user_va va Hva) as [Hu Hn]. destruct (user_va va' Hva') as [Hu' Hn'].
  rewrite (space_translate k d l) in Ht by done. rewrite (space_translate k d' l') in Ht' by done.
  destruct (pte (k_mem k) d _) as [e|] eqn:E; [|done]. destruct (pte (k_mem k) d' _) as [e'|] eqn:E'; [|done].
  cbn in Ht, Ht'. destruct (w && _); [done|]. destruct (w' && _); [done|]. injection Ht as <-. injection Ht' as <-.
  destruct (space_pte_entry k d l Hs _ e Hn E) as (p & Hup & Hp & _ & ->).
  destruct (space_pte_entry k d' l' Hs' _ e' Hn' E') as (p' & Hup' & Hp' & _ & ->).
  destruct (space_upage k d l Hs _ p Hn Hup) as [_ Hin]. destruct (space_upage k d' l' Hs' _ p' Hn' Hup') as [_ Hin'].
  assert (p ≠ p') as Hne. { intros <-. apply (Hd p); rewrite owned_app, elem_of_app; by right. }
  pose proof (pages_apart _ _ _ _ Hp Hp' Hne).
  pose proof (Z.mod_pos_bound va PGSIZE ltac:(done)). pose proof (Z.mod_pos_bound va' PGSIZE ltac:(done)). lia.
Qed.

(** The same page with the same contents. *)
Lemma user_byte_at k d l k' l' va :
  space k d l → space k' d l' → 0 ≤ va < KERNBASE →
  pte (k_mem k') d (va / PGSIZE) = pte (k_mem k) d (va / PGSIZE) →
  (∀ p o, upage (k_mem k) d (va / PGSIZE) = Some p → 0 ≤ o < PGSIZE →
     rd (k_mem k') (V2P p + o) = rd (k_mem k) (V2P p + o)) →
  user_byte (k_mem k') d va = user_byte (k_mem k) d va.
Proof.
  intros Hs Hs' Hva Hpte Hcont. rewrite (user_byte_page k' d l'), (user_byte_page k d l) by done.
  assert (upage (k_mem k') d (va / PGSIZE) = upage (k_mem k) d (va / PGSIZE)) as ->.
  { unfold upage. by rewrite Hpte. }
  destruct (upage (k_mem k) d (va / PGSIZE)) as [p|] eqn:Ep; cbn; [|done]. f_equal.
  apply Hcont; [done|]. by apply Z.mod_pos_bound.
Qed.

Lemma user_byte_same k d l k' l' :
  space k d l → space k' d l' → (∀ j, 0 ≤ j < 2 ^ 20 → pte (k_mem k') d j = pte (k_mem k) d j) →
  (∀ j p o, 0 ≤ j < NUSER → upage (k_mem k) d j = Some p → 0 ≤ o < PGSIZE →
     rd (k_mem k') (V2P p + o) = rd (k_mem k) (V2P p + o)) →
  ∀ va, 0 ≤ va < KERNBASE → user_byte (k_mem k') d va = user_byte (k_mem k) d va.
Proof.
  intros Hs Hs' Hpte Hcont va Hva. destruct (user_va va Hva) as [_ Hn].
  apply (user_byte_at k d l k' l'); try done; [by apply Hpte, user_page|]. intros p o. by apply Hcont.
Qed.

(** ** Fork's copy *)

(** C8 [copyuvm] copies an address space.  It returns, and either the new space [d] has the same
    bytes and permissions as the old one up to the size, nothing above it, the kernel part of
    [kernel_pte], and shares no byte with the old space, whose contents stay the same; or memory has
    run out, which it does not with more free pages than the tables and the pages can take, and
    every page is free again.  No page is lost: those of the new space are those that are no longer
    free. *)
Theorem copyuvm_correct k pgdir l sz e :
  space k pgdir l → bytes_ok (k_mem k) → data_ok (k_data k) → 0 ≤ sz ≤ KERNBASE →
  (∀ j, 0 ≤ j → j * PGSIZE < sz → is_Some (pte (k_mem k) pgdir j)) →
  ∃ d k', copyuvm pgdir sz e k = Ret d e k' ∧ mem_only k k' ∧
    (∀ va, 0 ≤ va < KERNBASE → user_byte (k_mem k') pgdir va = user_byte (k_mem k) pgdir va) ∧
    (d ≠ 0 ∧ (∃ l', space k' pgdir l' ∧ space k' d l' ∧ owned (k_mem k') d ++ l' ≡ₚ l) ∧
     (∀ va, 0 ≤ va < sz → user_byte (k_mem k') d va = user_byte (k_mem k) pgdir va ∧
        ∀ w, user_may (k_mem k') d va w = user_may (k_mem k) pgdir va w) ∧
     (∀ j, (sz + PGSIZE - 1) / PGSIZE ≤ j < 2 ^ 20 →
        pte (k_mem k') d j = if decide (j < NUSER) then None else kernel_pte (k_data k) j) ∧
     (∀ va va' pa pa' w w', 0 ≤ va < KERNBASE → 0 ≤ va' < KERNBASE →
        translate (k_mem k') (V2P d) va w = Some pa →
        translate (k_mem k') (V2P pgdir) va' w' = Some pa' → pa ≠ pa')
     ∨ d = 0 ∧ Z.of_nat (length l) ≤ 1025 + (sz + PGSIZE - 1) / PGSIZE ∧
       ∃ l', space k' pgdir l' ∧ l' ≡ₚ l).
Proof.
  intros Hs Hb Hd Hsz Hall.
  destruct (copyuvm_ok k pgdir l sz Hs Hb Hd Hsz Hall e) as (d & k' & E & Hr). exists d, k'. split; [done|].
  destruct Hr as [[Hd0 Hcp]|[-> (Ho & Hw & (l' & Hh & Hl) & Hlen)]].
  - pose proof (cp_only _ _ _ _ _ _ Hcp) as Ho. destruct (cp_space _ _ _ _ _ _ Hcp) as (l' & Hs' & Hl).
    destruct (copying_parent k pgdir l d _ k' l' Hs Hcp Hs' Hl) as (Hsp & Eo & Hpte & Hcont).
    split; [done|]. split; [|left; split; [done|]; split; [by exists l'|]; split_and!].
    + by apply (user_byte_same k pgdir l k' l').
    + intros va Hva. destruct (va_page va sz Hva) as [Hn _]. eapply copied_user_byte; [done|done|lia|]. by apply Hcp.
    + apply Hcp.
    + intros va va' pa pa' w w'. apply (spaces_apart k' d pgdir l' l'); try done.
      intros p Hp Hp'. rewrite Eo in Hp'. destruct (space_free _ _ _ Hs p) as [_ []]; [|done].
      rewrite <- Hl. set_solver.
  - destruct (space_untouched k pgdir l k' l') as (Hsp & _ & Hpte & Hcont); try done; [by rewrite Hl|].
    split; [done|]. split; [by apply (user_byte_same k pgdir l k' l')|]. right. eauto.
Qed.

(** ** Messages *)

(** The kernel can print: nobody has panicked, the console's lock is free, the cursor is on the
    screen, and the kernel lies above the display. *)
Record can_print (k : kernel) : Prop := {
  pr_panicked : k_panicked k = false;
  pr_cursor : 0 ≤ k_crtpos k < 24 * 80;
  pr_lock : lock_free k LkCons;
  pr_end : KERNLINK ≤ k_end k
}.

(** Nothing but memory, the free list, the CPUs and the console's devices differs. *)
Definition io_only (k k' : kernel) : Prop :=
  ∃ m h cs o p, k' = k <| k_mem := m |> <| k_freelist := h |> <| k_cpus := cs |>
                       <| k_console := o |> <| k_crtpos := p |>.

Lemma mem_only_io k k' : mem_only k k' → io_only k k'.
Proof. intros (m & h & cs & ->). exists m, h, cs, (k_console k), (k_crtpos k). by destruct k. Qed.

Lemma io_only_trans k1 k2 k3 : io_only k1 k2 → io_only k2 k3 → io_only k1 k3.
Proof.
  intros (m & h & cs & o & p & ->) (m' & h' & cs' & o' & p' & ->). exists m', h', cs', o', p'. by destruct k1.
Qed.

Lemma io_only_end k k' : io_only k k' → k_end k' = k_end k.
Proof. by intros (m & h & cs & o & p & ->). Qed.

Lemma can_print_mem k k' : can_print k → mem_only k k' → can_print k'.
Proof. intros [] (m & h & cs & ->). by split. Qed.

(** Printing changes no page. *)
Lemma print_page k m' p o :
  KERNLINK ≤ k_end k → (∀ b, b < crt ∨ crt_end ≤ b → rd m' b = rd (k_mem k) b) → page_ok k p → 0 ≤ o < PGSIZE →
  rd m' (V2P p + o) = rd (k_mem k) (V2P p + o).
Proof.
  intros He Hm Hp Ho. apply Hm. right. rewrite (V2P_page _ _ Hp). destruct Hp as (_ & _ & ?).
  unfold crt_end, crt, KERNLINK, EXTMEM in *. lia.
Qed.

Lemma print_word k m' p o :
  KERNLINK ≤ k_end k → (∀ b, b < crt ∨ crt_end ≤ b → rd m' b = rd (k_mem k) b) → page_ok k p →
  0 ≤ o → o + 4 ≤ PGSIZE → ld32 m' (V2P p + o) = ld32 (k_mem k) (V2P p + o).
Proof. intros. apply ld32_ext. intros i Hi. rewrite <- Z.add_assoc. eapply print_page; (done || lia). Qed.

(** A space after a message. *)
Lemma space_print k d l k' :
  space k d l → can_print k → heap k' l → k_end k' = k_end k →
  (∀ b, b < crt ∨ crt_end ≤ b → rd (k_mem k') b = rd (k_mem k) b) →
  space k' d l ∧ (∀ j, 0 ≤ j < 2 ^ 20 → pte (k_mem k') d j = pte (k_mem k) d j) ∧
  owned (k_mem k') d = owned (k_mem k) d.
Proof.
  intros Hs Hpr Hh He Hm. pose proof (pr_end _ Hpr) as HE. pose proof (space_dir _ _ _ Hs) as Hd.
  assert (∀ i, 0 ≤ i < 1024 → ld32 (k_mem k') (V2P d + 4 * i) = ld32 (k_mem k) (V2P d + 4 * i)) as Hw.
  { intros i Hi. eapply print_word; (done || unfold PGSIZE; lia). }
  assert (∀ i, 0 ≤ i < 1024 → table (k_mem k') d i = table (k_mem k) d i) as Ht.
  { intros i Hi. unfold table. by rewrite Hw. }
  assert (∀ j, 0 ≤ j < 2 ^ 20 → pte (k_mem k') d j = pte (k_mem k) d j) as Hpte.
  { intros j Hj. unfold pte. rewrite Ht by dlia. destruct (table (k_mem k) d (j / 1024)) as [t|] eqn:Et; cbn; [|done].
    destruct (space_table k d l Hs (j / 1024) t ltac:(dlia) Et) as [Hpt _].
    by rewrite (print_word k) by (done || unfold PGSIZE; dlia). }
  assert (owned (k_mem k') d = owned (k_mem k) d) as Eo.
  { rewrite !owned_app, (tables_ext (k_mem k)), (upages_ext (k_mem k)); [done| |done]. intros. by apply Hpte, user_page. }
  split_and!; [|done|done]. apply (space_rebuild k k' d l l Hs); try done.
  - intros i Hi. split; [by apply Ht|by apply Hw].
  - assert (Forall (page_ok k) (owned (k_mem k') d)) as Hf by (rewrite Eo; apply Hs).
    rewrite owned_app, Forall_app in Hf. apply Hf.
  - rewrite Eo. apply Hs.
  - intros n e Hn. rewrite Hpte by (by apply user_page). by apply Hs.
Qed.

Lemma cprintf_runs fmt k d l :
  37 ∉ codes fmt → can_print k → space k d l →
  runs (cprintf fmt []) k (λ _ k', io_only k k' ∧ can_print k' ∧ space k' d l ∧
    (∀ j, 0 ≤ j < 2 ^ 20 → pte (k_mem k') d j = pte (k_mem k) d j) ∧
    owned (k_mem k') d = owned (k_mem k) d ∧
    ∀ p o, page_ok k p → 0 ≤ o < PGSIZE → rd (k_mem k') (V2P p + o) = rd (k_mem k) (V2P p + o)).
Proof.
  intros Hf Hpr Hs e. destruct (sp_heap _ _ _ Hs) as [(i & c & Hk) Hl]. destruct Hpr as [H1 H2 H3 H4] eqn:Epr. clear Epr.
  destruct (cprintf_ok fmt e k i c Hf H1 H2) as (k1 & cpus & E & (m & cs & p & -> & Hp & Hm) & Hc);
    [apply Hk|apply Hk|done|].
  eexists tt, _. split; [exact E|]. set (k' := _ <| k_cpus := cpus |>).
  assert (heap k' l) as Hh.
  { split.
    - destruct Hc as [Hc|Hc].
      + exists i, c. eapply lockable_sync; [|exact Hk]. split_and!; done || exact Hc.
      + exists i, (touch_cpu (k_if k) c). eapply lockable_sync; [|exact (lockable_touch _ _ _ _ Hk)].
        split_and!; done || exact Hc.
    - destruct Hl as [Hch Hpg Hnd]. split; [|done|done]. eapply chain_ext; [|exact Hch]. intros v Hv.
      rewrite Forall_forall in Hpg. symmetry. rewrite <- (Z.add_0_r (V2P v)).
      apply (print_word k); [done|exact Hm|by apply Hpg|done|done]. }
  destruct (space_print k d l k') as (Hs' & Hpte & Eo); try done.
  split_and!; try done.
  - exists m, (k_freelist k), cpus, cs, p. by destruct k.
  - intros q o Hq Ho. by apply (print_page k).
Qed.

(** ** Growing *)

(** A free page [q], filled to [m2], is mapped at the page [n]; no other page of the space changes. *)
Lemma fill_map k k1 d q l n m2 perm :
  space k d (q :: l) → heap k1 l → mem_only k k1 → k_mem k1 = k_mem k → within [q] (k_mem k) m2 →
  0 ≤ n < NUSER → pte (k_mem k) d n = None → 0 ≤ perm < PGSIZE →
  runs (mappages d (n * PGSIZE) PGSIZE (V2P q) perm) (k1 <| k_mem := m2 |>) (λ r k3,
    mem_only k k3 ∧
    (∀ j p o, 0 ≤ j < NUSER → upage (k_mem k) d j = Some p → 0 ≤ o < PGSIZE →
       rd (k_mem k3) (V2P p + o) = rd (k_mem k) (V2P p + o)) ∧
    (r = 0 ∧ (∃ l3, space k3 d l3 ∧ owned (k_mem k3) d ++ l3 ≡ₚ owned (k_mem k) d ++ q :: l) ∧
       (∀ j, 0 ≤ j < 2 ^ 20 →
          pte (k_mem k3) d j = if decide (j = n) then Some (V2P q + Z.lor perm PTE_P) else pte (k_mem k) d j) ∧
       (∀ o, 0 ≤ o < PGSIZE → rd (k_mem k3) (V2P q + o) = rd m2 (V2P q + o))
     ∨ r = -1 ∧ l = [] ∧ space k3 d [] ∧ owned (k_mem k3) d = owned (k_mem k) d ∧
       ∀ j, 0 ≤ j < 2 ^ 20 → pte (k_mem k3) d j = pte (k_mem k) d j)).
Proof.
  intros Hs Hh1 Ho1 Em1 Hw2 Hn Hnone Hperm.
  destruct (space_free _ _ _ Hs q ltac:(by left)) as [Hq Hqo].
  destruct (space_fill k k1 d q l m2) as (Hs2 & Hpte2 & Eo2 & Hq2); try done; [by apply mem_only_end|].
  set (k2 := k1 <| k_mem := m2 |>) in *. change (k_mem k2) with m2 in *.
  assert (mem_only k k2) as Ho2 by (eapply mem_only_trans; [done|apply mem_only_mem]).
  assert (∀ j p o, 0 ≤ j < NUSER → upage (k_mem k) d j = Some p → 0 ≤ o < PGSIZE →
       rd m2 (V2P p + o) = rd (k_mem k) (V2P p + o)) as Hc2.
  { intros j p o Hj Hp Ho. destruct (space_upage _ _ _ Hs j p Hj Hp) as [Hpp Hin].
    eapply within_byte; [done|by constructor|done| |done]. intros ->%list_elem_of_singleton.
    apply Hqo. rewrite owned_app, elem_of_app. by right. }
  eapply runs_mono; [apply (map_user k2 d l n q); try done|].
  - rewrite Hpte2; [done|]. by apply user_page.
  - by eapply mem_only_page_ok.
  - intros r k3 (Ho3 & Hr). change (k_mem k2) with m2 in Hr.
    assert (Forall (page_ok k2) (d :: tables m2 d ++ l)) as HpL.
    { pose proof (sp_pages _ _ _ Hs2) as Hp. change (k_mem k2) with m2 in Hp.
      rewrite owned_app, Forall_app, Forall_cons in Hp. apply Forall_cons. split; [apply Hp|].
      apply Forall_app. split; [apply Hp|]. by apply Hs2. }
    split; [by eapply mem_only_trans|].
    destruct Hr as [(-> & l3 & Hs3 & HL3 & _ & Hw3 & Hpte3)|(-> & -> & Em3 & Hs3)].
    + split; [|left; split_and!; [done| | |]].
      * intros j p o Hj Hp Ho. rewrite <- (Hc2 j p o) by done.
        destruct (space_upage k2 d l Hs2 j p Hj) as [Hpp Hin].
        { unfold upage in *. change (k_mem k2) with m2. by rewrite Hpte2 by (by apply user_page). }
        eapply within_byte; [done|done|done| |done]. change (k_mem k2) with m2 in Hin.
        pose proof (sp_nodup _ _ _ Hs2) as Hnd. change (k_mem k2) with m2 in Hnd.
        rewrite owned_app, <- app_assoc in Hnd. apply NoDup_app in Hnd as (_ & Hd1 & Hnd).
        apply NoDup_app in Hnd as (_ & Hd2 & _). intros [Hx|Hx]%(elem_of_app (d :: tables m2 d)); [|by apply (Hd2 p)].
        apply (Hd1 p Hx). apply elem_of_app. by left.
      * exists l3. split; [done|]. rewrite HL3, Eo2. apply Permutation_middle.
      * intros j Hj. rewrite Hpte3 by done. destruct (decide (j = n)); [done|by apply Hpte2].
      * intros o Ho. eapply within_byte; [done|done|by eapply mem_only_page_ok| |done].
        intros Hx. apply Hq2. rewrite owned_app. apply (elem_of_app (d :: tables m2 d)) in Hx as [Hx|Hx]; rewrite !elem_of_app; auto.
    + rewrite Em3. split; [done|]. right. split_and!; try done.
Qed.

(** The pages from [n0] up to [n] have been added to [d], each zeroed. *)
Record growing (k0 : kernel) (d : Z) (l0 : list Z) (n0 n : Z) (k : kernel) : Prop := {
  gr_only : mem_only k0 k;
  gr_space : ∃ l, space k d l ∧ owned (k_mem k) d ++ l ≡ₚ owned (k_mem k0) d ++ l0;
  gr_new : ∀ j, n0 ≤ j < n → ∃ q, pte (k_mem k) d j = Some (V2P q + 7) ∧ upage (k_mem k) d j = Some q ∧
    ∀ o, 0 ≤ o < PGSIZE → rd (k_mem k) (V2P q + o) = 0;
  gr_old : ∀ j, 0 ≤ j < 2 ^ 20 → ¬ (n0 ≤ j < n) → pte (k_mem k) d j = pte (k_mem k0) d j;
  gr_bytes : ∀ j p o, 0 ≤ j < NUSER → ¬ (n0 ≤ j < n) → upage (k_mem k0) d j = Some p → 0 ≤ o < PGSIZE →
    rd (k_mem k) (V2P p + o) = rd (k_mem k0) (V2P p + o)
}.

(** Growing has failed: the space is as it was. *)
Definition shrunk (k0 : kernel) (d : Z) (l0 : list Z) (k : kernel) : Prop :=
  io_only k0 k ∧ (∃ l, space k d l ∧ owned (k_mem k) d ++ l ≡ₚ owned (k_mem k0) d ++ l0) ∧
  (∀ j, 0 ≤ j < 2 ^ 20 → pte (k_mem k) d j = pte (k_mem k0) d j) ∧
  ∀ j p o, 0 ≤ j < NUSER → upage (k_mem k0) d j = Some p → 0 ≤ o < PGSIZE →
    rd (k_mem k) (V2P p + o) = rd (k_mem k0) (V2P p + o).

Lemma growing_next k0 d l0 n0 n k k3 q l :
  growing k0 d l0 n0 n k → space k d (q :: l) → owned (k_mem k) d ++ q :: l ≡ₚ owned (k_mem k0) d ++ l0 →
  0 ≤ n0 ≤ n → n < NUSER → mem_only k k3 →
  (∀ j p o, 0 ≤ j < NUSER → upage (k_mem k) d j = Some p → 0 ≤ o < PGSIZE →
     rd (k_mem k3) (V2P p + o) = rd (k_mem k) (V2P p + o)) →
  (∃ l3, space k3 d l3 ∧ owned (k_mem k3) d ++ l3 ≡ₚ owned (k_mem k) d ++ q :: l) →
  (∀ j, 0 ≤ j < 2 ^ 20 → pte (k_mem k3) d j = if decide (j = n) then Some (V2P q + 7) else pte (k_mem k) d j) →
  (∀ o, 0 ≤ o < PGSIZE → rd (k_mem k3) (V2P q + o) = 0) →
  growing k0 d l0 n0 (n + 1) k3.
Proof.
  intros Hg Hs HL Hn Hnu Ho3 Hc (l3 & Hs3 & HL3) Hpte Hz. pose proof NUSER_val as EU.
  destruct (space_free _ _ _ Hs q ltac:(by left)) as [Hq _]. destruct (V2P_mod _ _ Hq) as [Hqm _].
  split.
  - eapply mem_only_trans; [apply Hg|done].
  - exists l3. split; [done|]. by rewrite HL3, HL.
  - intros j Hj. destruct (decide (j = n)) as [->|Hjn].
    + exists q. split; [by rewrite Hpte, decide_True by lia|]. split; [|done].
      unfold upage. rewrite Hpte, decide_True by lia. cbn. rewrite entry_addr by done. f_equal. by eapply P2V_V2P.
    + destruct (gr_new _ _ _ _ _ _ Hg j ltac:(lia)) as (p & Hp & Hup & Hzp). exists p.
      unfold upage in *. rewrite Hpte, decide_False by lia. split_and!; [done|done|].
      intros o Ho. rewrite (Hc j p o); [by apply Hzp|lia|done|done].
  - intros j Hj Hout. rewrite Hpte, decide_False by lia. apply Hg; [done|lia].
  - intros j p o Hj Hout Hp Ho. rewrite (Hc j p o); [apply (gr_bytes _ _ _ _ _ _ Hg j); (done || lia)|done| |done].
    unfold upage in *. rewrite (gr_old _ _ _ _ _ _ Hg); [done|by apply user_page|lia].
Qed.

(** The pages added are taken back. *)
Lemma shrink_ok k0 d l0 n0 n k k1 l oldsz newsz :
  growing k0 d l0 n0 n k → io_only k0 k1 → space k1 d l →
  (∀ j, 0 ≤ j < 2 ^ 20 → pte (k_mem k1) d j = pte (k_mem k) d j) →
  (∀ j p o, 0 ≤ j < NUSER → upage (k_mem k) d j = Some p → 0 ≤ o < PGSIZE →
     rd (k_mem k1) (V2P p + o) = rd (k_mem k) (V2P p + o)) →
  0 ≤ oldsz < newsz → newsz ≤ KERNBASE → PGROUNDUP oldsz = n0 * PGSIZE → 0 ≤ n0 → (n - 1) * PGSIZE < newsz →
  (∀ j, 0 ≤ j < NUSER → oldsz ≤ j * PGSIZE → pte (k_mem k0) d j = None) →
  runs (deallocuvm d newsz oldsz) k1 (λ _ k', mem_only k1 k' ∧
    (∃ l', space k' d l' ∧ owned (k_mem k') d ++ l' ≡ₚ owned (k_mem k1) d ++ l) ∧
    (∀ j, 0 ≤ j < 2 ^ 20 → pte (k_mem k') d j = pte (k_mem k0) d j) ∧
    ∀ j p o, 0 ≤ j < NUSER → upage (k_mem k0) d j = Some p → 0 ≤ o < PGSIZE →
      rd (k_mem k') (V2P p + o) = rd (k_mem k0) (V2P p + o)).
Proof.
  intros Hg Ho1 Hs1 Hpte1 Hc1 Hold Hnew Er Hn0 Hn Hnone.
  eapply runs_mono; [apply (deallocuvm_ok k1 d l newsz oldsz); [done| |done]|].
  { unfold KERNBASE, PGSIZE in *. lia. }
  intros r k' [_ (Ho' & _ & Hs' & Hpte' & _ & Hc')]. rewrite Er in *.
  assert (0 ≤ oldsz < 2 ^ 32 - PGSIZE) as Hsz by (unfold KERNBASE, PGSIZE in *; lia).
  destruct (PGROUNDUP_page oldsz Hsz) as (m & Em & _ & Hm). rewrite Er in Em.
  split_and!; [done|done| |].
  - intros j Hj. rewrite Hpte', Hpte1 by done. case_decide as Hin.
    + symmetry. apply Hnone; [|lia]. rewrite NUSER_val. unfold KERNBASE, PGSIZE in *. lia.
    + apply (gr_old _ _ _ _ _ _ Hg); [done|]. unfold PGSIZE in *. lia.
  - intros j p o Hj Hp Ho. assert (¬ (n0 ≤ j)) as Hout.
    { intros Hle. unfold upage in Hp. rewrite Hnone in Hp; [done|done|]. unfold PGSIZE in *. lia. }
    assert (upage (k_mem k) d j = Some p) as Hp1.
    { unfold upage in *. rewrite (gr_old _ _ _ _ _ _ Hg); [done|by apply user_page|lia]. }
    rewrite (Hc' j p o), (Hc1 j p o); try done.
    + apply (gr_bytes _ _ _ _ _ _ Hg j); (done || lia).
    + unfold PGSIZE in *. lia.
    + unfold upage in *. by rewrite Hpte1 by (by apply user_page).
Qed.

(** What [allocuvm] leaves: the pages, or the space as it was, and then memory was short. *)
Definition grown (k0 : kernel) (d : Z) (l0 : list Z) (n0 n newsz r : Z) (k : kernel) : Prop :=
  r = newsz ∧ growing k0 d l0 n0 n k ∨
  r = 0 ∧ shrunk k0 d l0 k ∧ Z.of_nat (length l0) ≤ 1025 + n.

Lemma runs_assoc {A B C} (m : KM A) (f : A → KM B) (g : B → KM C) k Q :
  runs ((m ≫= f) ≫= g) k Q → runs (m ≫= λ a, f a ≫= g) k Q.
Proof. intros H e. rewrite <- bind_assoc. apply H. Qed.

(** The message, and the pages added are taken back. *)
Lemma alloc_fails k0 d l0 n0 n k k1 newsz oldsz msg :
  growing k0 d l0 n0 n k → can_print k0 → space k1 d [] → mem_only k k1 →
  (∀ j, 0 ≤ j < 2 ^ 20 → pte (k_mem k1) d j = pte (k_mem k) d j) →
  (∀ j p o, 0 ≤ j < NUSER → upage (k_mem k) d j = Some p → 0 ≤ o < PGSIZE →
     rd (k_mem k1) (V2P p + o) = rd (k_mem k) (V2P p + o)) →
  37 ∉ codes msg →
  0 ≤ oldsz < newsz → newsz ≤ KERNBASE → PGROUNDUP oldsz = n0 * PGSIZE → 0 ≤ n0 → n * PGSIZE < newsz →
  (∀ j, 0 ≤ j < NUSER → oldsz ≤ j * PGSIZE → pte (k_mem k0) d j = None) →
  runs (cprintf msg [];; deallocuvm d newsz oldsz) k1 (λ _ k', io_only k0 k' ∧
    (∃ l', space k' d l' ∧ owned (k_mem k') d ++ l' ≡ₚ owned (k_mem k1) d) ∧
    (∀ j, 0 ≤ j < 2 ^ 20 → pte (k_mem k') d j = pte (k_mem k0) d j) ∧
    ∀ j p o, 0 ≤ j < NUSER → upage (k_mem k0) d j = Some p → 0 ≤ o < PGSIZE →
      rd (k_mem k') (V2P p + o) = rd (k_mem k0) (V2P p + o)).
Proof.
  intros Hg Hpr Hs1 Ho1 Hpte1 Hc1 Hmsg Hold Hnew Er Hn0 Hn Hnone.
  assert (mem_only k0 k1) as Ho01 by (eapply mem_only_trans; [apply Hg|done]).
  eapply runs_bind; [apply (cprintf_runs msg k1 d []); [done|by eapply can_print_mem|done]|].
  intros _ k2 (Ho2 & _ & Hs2 & Hpte2 & Eo2 & Hc2).
  assert (io_only k0 k2) as Ho02 by (eapply io_only_trans; [by apply mem_only_io|done]).
  eapply runs_mono; [eapply (shrink_ok k0 d l0 n0 n k k2 [] oldsz newsz); try done|].
  - intros j Hj. by rewrite Hpte2, Hpte1.
  - intros j p o Hj Hp Ho. rewrite Hc2; [by apply (Hc1 j)| |done].
    eapply (space_upage k1 d [] Hs1 j p Hj). unfold upage in *. by rewrite Hpte1 by (by apply user_page).
  - unfold PGSIZE in *. lia.
  - intros _ k' (Ho' & (l' & Hs' & HL') & Hpte' & Hc'). split_and!; [|exists l'; split; [done|]|done|done].
    + eapply io_only_trans; [done|by apply mem_only_io].
    + by rewrite HL', Eo2, app_nil_r.
Qed.

Lemma shrunk_free k0 d l0 k q l :
  io_only k0 k → space k d l → page_ok k q → (q ∉ owned (k_mem k) d ++ l) →
  q :: owned (k_mem k) d ++ l ≡ₚ owned (k_mem k0) d ++ l0 →
  (∀ j, 0 ≤ j < 2 ^ 20 → pte (k_mem k) d j = pte (k_mem k0) d j) →
  (∀ j p o, 0 ≤ j < NUSER → upage (k_mem k0) d j = Some p → 0 ≤ o < PGSIZE →
    rd (k_mem k) (V2P p + o) = rd (k_mem k0) (V2P p + o)) →
  runs (kfree q) k (λ _ k', shrunk k0 d l0 k').
Proof.
  intros Ho Hs Hq Hnq HL Hpte Hc. rewrite elem_of_app in Hnq.
  eapply runs_mono; [apply (kfree_runs k l q); [apply Hs|done|tauto]|]. intros _ k' (Ho' & Hw & Hh).
  assert (q ∉ owned (k_mem k) d) as Hqo by tauto.
  destruct (space_frame k k' d l (q :: l) [q]) as (Hs' & Eo & Hpte'); try done.
  { by apply mem_only_end. }
  { by constructor. }
  { intros t Ht ->%list_elem_of_singleton. apply Hqo. rewrite owned_app, elem_of_app. by left. }
  { intros p Hp [->|Hl]%elem_of_cons; [done|]. by apply (space_free _ _ _ Hs) in Hl as [_ []]. }
  split_and!.
  - eapply io_only_trans; [done|by apply mem_only_io].
  - exists (q :: l). split; [done|]. rewrite Eo, <- HL. symmetry. apply Permutation_middle.
  - intros j Hj. by rewrite Hpte', Hpte.
  - intros j p o Hj Hp Hof. rewrite <- (Hc j p o) by done.
    destruct (space_upage k d l Hs j p Hj) as [Hpp Hin].
    { unfold upage in *. by rewrite Hpte by (by apply user_page). }
    eapply within_byte; [done|by constructor|done| |done]. intros ->%list_elem_of_singleton.
    apply Hqo. rewrite owned_app, elem_of_app. by right.
Qed.

Lemma allocuvm_loop_ok fuel k0 d l0 n0 n k oldsz newsz :
  growing k0 d l0 n0 n k → can_print k0 → 0 ≤ oldsz → newsz < KERNBASE → PGROUNDUP oldsz = n0 * PGSIZE →
  oldsz ≤ n0 * PGSIZE → 0 ≤ n0 ≤ n → (∀ j, 0 ≤ j < NUSER → oldsz ≤ j * PGSIZE → pte (k_mem k0) d j = None) →
  newsz - n * PGSIZE ≤ (Z.of_nat fuel - 1) * PGSIZE → (0 < fuel)%nat → n ≤ Z.max n0 ((newsz + PGSIZE - 1) / PGSIZE) →
  runs (allocuvm_loop fuel d (n * PGSIZE) oldsz newsz) k
    (grown k0 d l0 n0 (Z.max n0 ((newsz + PGSIZE - 1) / PGSIZE)) newsz).
Proof.
  revert n k. induction fuel as [|fuel IH]; intros n k Hg Hpr Hold Hnew Er Hrn Hn0 Hnone Hf Hpos Hle; [lia|].
  cbn [allocuvm_loop]. destruct (Z.ltb_spec (n * PGSIZE) newsz) as [Hlt|Hge]; cbn [negb].
  2: { apply runs_ret. left. split; [done|].
       replace (Z.max n0 ((newsz + PGSIZE - 1) / PGSIZE)) with n; [done|]. unfold PGSIZE in *. dlia. }
  assert (n + 1 ≤ (newsz + PGSIZE - 1) / PGSIZE) as Hle' by (unfold PGSIZE in *; dlia).
  assert (n < NUSER) as Hnu by (rewrite NUSER_val; unfold KERNBASE, PGSIZE in *; lia).
  assert (oldsz < newsz) as Hsz by (unfold PGSIZE in *; lia).
  assert (pte (k_mem k) d n = None) as Hpn.
  { rewrite (gr_old _ _ _ _ _ _ Hg); [apply Hnone; unfold PGSIZE in *; lia|apply user_page; lia|lia]. }
  destruct (gr_space _ _ _ _ _ _ Hg) as (l & Hs & HL).
  assert (∀ j, n ≤ j < NUSER → pte (k_mem k) d j = None) as Hrest.
  { intros j Hj. rewrite (gr_old _ _ _ _ _ _ Hg); [apply Hnone; unfold PGSIZE in *; lia|apply user_page; lia|lia]. }
  pose proof (length_owned (k_mem k) d n ltac:(lia) Hrest) as Hown.
  assert (Z.of_nat (length l0) ≤ 1025 + n + Z.of_nat (length l)) as Hlen.
  { apply Permutation_length in HL. rewrite !length_app in HL. lia. }
  eapply runs_bind; [apply (kalloc_runs k l), Hs|]. intros q k1 (Ho1 & Em1 & Hq).
  destruct l as [|q' l]; destruct Hq as [-> Hh1].
  - rewrite Z.eqb_refl.
    destruct (space_frame k k1 d [] [] []) as (Hs1 & Eo1 & Hpte1); try done;
      [by apply mem_only_end|by rewrite Em1|intros ? _; apply not_elem_of_nil..|].
    apply runs_assoc. eapply runs_bind; [eapply (alloc_fails k0 d l0 n0 n k k1); try (done || lia)|].
    + intros j p o _ _ _. by rewrite Em1.
    + by apply (bool_decide_unpack _).
    + intros r k' (Ho' & (l' & Hs' & HL') & Hpte' & Hc'). apply runs_ret. right. split; [done|].
      split; [|cbn in Hlen; lia]. split_and!; [done|exists l'; split; [done|]|done|done].
      rewrite HL', Eo1, <- HL. by rewrite app_nil_r.
  - destruct (space_free _ _ _ Hs q' ltac:(by left)) as [Hpq Hqo].
    pose proof (page_ok_pos _ _ Hpq). rewrite (proj2 (Z.eqb_neq q' 0)) by lia. apply runs_modify.
    change (k1 <| k_mem ::= _ |>) with (k1 <| k_mem := memset (k_mem k1) (V2P q') 0 PGSIZE |>).
    eapply runs_bind; [apply (fill_map k k1 d q' l n); try (done || lia)|].
    + rewrite Em1. apply memset_within.
    + intros r k3 (Ho3 & Hc3 & [(-> & Hs3 & Hpte3 & Hz3)|(-> & -> & Hs3 & Eo3 & Hpte3)]).
      * cbn [Z.ltb Z.compare]. rewrite wrap32_small by (unfold is_u32, KERNBASE, PGSIZE in *; lia).
        replace (n * PGSIZE + PGSIZE) with ((n + 1) * PGSIZE) by lia.
        apply IH; try (done || lia); [|unfold PGSIZE in *; lia].
        eapply (growing_next k0 d l0 n0 n k k3 q' l); try (done || lia).
        intros o Ho. rewrite Hz3 by done. rewrite memset_spec, decide_True by (unfold PGSIZE in *; lia). done.
      * cbn [Z.ltb Z.compare]. apply runs_assoc.
        eapply runs_bind; [eapply (alloc_fails k0 d l0 n0 n k k3); try (done || lia)|].
        { by apply (bool_decide_unpack _). }
        intros r k' (Ho' & (l' & Hs' & HL') & Hpte' & Hc').
        eapply runs_bind; [apply (shrunk_free k0 d l0 k' q' l'); try done|].
        -- eapply page_ok_end; [|exact Hpq]. by rewrite (io_only_end _ _ Ho'), (mem_only_end _ _ (gr_only _ _ _ _ _ _ Hg)).
        -- by rewrite HL', Eo3.
        -- rewrite HL', Eo3, <- HL. apply Permutation_cons_append.
        -- intros ? k'' Hsh. apply runs_ret. right. split; [done|]. split; [exact Hsh|]. cbn in Hlen. lia.
Qed.

(** A page that has been added. *)
Lemma grown_byte k0 d l0 n0 n k l va :
  growing k0 d l0 n0 n k → space k d l → 0 ≤ va < KERNBASE → n0 ≤ va / PGSIZE < n →
  user_byte (k_mem k) d va = Some 0 ∧ user_may (k_mem k) d va true = true.
Proof.
  intros Hg Hs Hva Hj. destruct (gr_new _ _ _ _ _ _ Hg _ Hj) as (q & Hpte & Hup & Hz).
  destruct (user_va va Hva) as [_ Hn]. destruct (space_upage k d l Hs _ q Hn Hup) as [Hq _].
  destruct (V2P_mod _ _ Hq) as [Hm _]. rewrite (user_byte_page k d l), Hup by done. split.
  - cbn. rewrite Hz; [done|]. by apply Z.mod_pos_bound.
  - unfold user_may. rewrite Hpte, !entry_has by (done || split; done). done.
Qed.

(** C9 [allocuvm] grows an address space.  With a size that the kernel part leaves no room for it
    returns 0, with a smaller one the old size.  Otherwise it returns the new size, every byte from
    the end of the last page on reads as zero and may be written, and nothing else has changed; or
    memory has run out, which it does not with enough free pages, and the space is as it was.  No
    page is lost: those of the space and the free pages together are the same. *)
Theorem allocuvm_correct k d l oldsz newsz e :
  space k d l → can_print k → 0 ≤ oldsz < KERNBASE →
  (∀ j, 0 ≤ j < NUSER → oldsz ≤ j * PGSIZE → pte (k_mem k) d j = None) →
  (KERNBASE ≤ newsz → allocuvm d oldsz newsz e k = Ret 0 e k) ∧
  (newsz < oldsz → allocuvm d oldsz newsz e k = Ret oldsz e k) ∧
  (oldsz ≤ newsz < KERNBASE → ∃ r k',
     allocuvm d oldsz newsz e k = Ret r e k' ∧ io_only k k' ∧
     (∃ l', space k' d l' ∧ owned (k_mem k') d ++ l' ≡ₚ owned (k_mem k) d ++ l) ∧
     (∀ va, 0 ≤ va < PGROUNDUP oldsz → user_byte (k_mem k') d va = user_byte (k_mem k) d va) ∧
     (r = newsz ∧
      (∀ va, PGROUNDUP oldsz ≤ va < newsz →
         user_byte (k_mem k') d va = Some 0 ∧ user_may (k_mem k') d va true = true) ∧
      (∀ j, 0 ≤ j < 2 ^ 20 → ¬ (PGROUNDUP oldsz ≤ j * PGSIZE < newsz) →
         pte (k_mem k') d j = pte (k_mem k) d j)
      ∨ r = 0 ∧ Z.of_nat (length l) ≤ 1025 + (newsz + PGSIZE - 1) / PGSIZE ∧
        ∀ j, 0 ≤ j < 2 ^ 20 → pte (k_mem k') d j = pte (k_mem k) d j)).
Proof.
  intros Hs Hpr Hold Hnone. unfold allocuvm. split_and!.
  - intros H. by rewrite (proj2 (Z.geb_le _ _)).
  - intros H. replace (newsz >=? KERNBASE) with false by lia. by rewrite (proj2 (Z.ltb_lt _ _)).
  - intros Hnew. replace (newsz >=? KERNBASE) with false by lia. rewrite (proj2 (Z.ltb_ge _ _)) by lia.
    assert (0 ≤ oldsz < 2 ^ 32 - PGSIZE) as Hsz by (unfold KERNBASE, PGSIZE in *; lia).
    destruct (PGROUNDUP_page oldsz Hsz) as (n0 & Er & Hn0 & Hrn). rewrite Er.
    assert (growing k d l n0 n0 k) as Hg by (split; [apply mem_only_refl|eauto|lia|done|done]).
    destruct (allocuvm_loop_ok (pages_fuel (n0 * PGSIZE) newsz) k d l n0 n0 k oldsz newsz) with (e := e) as (r & k' & E & Hr);
      try (done || lia || apply pages_fuel_enough).
    exists r, k'. split; [done|].
    assert (Z.max n0 ((newsz + PGSIZE - 1) / PGSIZE) = (newsz + PGSIZE - 1) / PGSIZE) as EN
      by (unfold PGSIZE in *; dlia).
    destruct Hr as [[-> Hg']|(-> & (Ho & (l' & Hs' & HL) & Hpte & Hc) & Hlen)].
    + destruct (gr_space _ _ _ _ _ _ Hg') as (l' & Hs' & HL). rewrite EN in Hg'.
      split_and!; [by apply mem_only_io, Hg'|by exists l'| |left; split_and!; [done| |]].
      * intros va Hva. apply (user_byte_at k d l k' l'); try done.
        { unfold KERNBASE, PGSIZE in *. lia. }
        { apply Hg'; unfold PGSIZE in *; dlia. }
        { intros p o. apply Hg'; [apply user_va; unfold KERNBASE, PGSIZE in *; lia|]. unfold PGSIZE in *. dlia. }
      * intros va Hva. eapply (grown_byte k d l n0); [done|done|unfold PGSIZE in *; lia|]. unfold PGSIZE in *. dlia.
      * intros j Hj Hout. apply Hg'; [done|]. unfold PGSIZE in *. dlia.
    + split_and!; [done|by exists l'| |right; split_and!; [done|lia|done]].
      intros va Hva. apply (user_byte_same k d l k' l'); try done. unfold KERNBASE, PGSIZE in *. lia.
Qed.

(** ** Copying out *)

Lemma uva2ka_ok k d l n e :
  space k d l → 0 ≤ n < NUSER → pte (k_mem k) d n = Some e → has e PTE_U = true →
  ∃ p, upage (k_mem k) d n = Some p ∧ page_ok k p ∧ runs (uva2ka d (n * PGSIZE)) k (λ r k', k' = k ∧ r = p).
Proof.
  intros Hs Hn He Hu. destruct (space_pte_entry k d l Hs n e Hn He) as (p & Hup & Hp & _ & Ea).
  exists p. split_and!; [done|done|]. pose proof NUSER_val as EU.
  assert (n * PGSIZE / PGSIZE = n) as En by (unfold PGSIZE; dlia).
  destruct (walk_pte k d l (n * PGSIZE) false e) as (a & Hwalk & Ek & Hpres);
    [done|unfold is_u32, PGSIZE; lia|by rewrite En|].
  unfold uva2ka. eapply runs_bind; [exact Hwalk|]. intros r k' [-> ->]. cbn [deref].
  eapply runs_bind; [by apply (runs_ret _ _ (λ x k', k' = k ∧ x = a))|]. intros x k' [-> ->].
  apply runs_gets. rewrite Ek, Hpres, Hu. cbn [negb]. apply runs_ret. split; [done|]. rewrite Ea. by eapply P2V_V2P.
Qed.

Lemma uva2ka_refuses k d l va :
  space k d l → 0 ≤ va < KERNBASE → user_may (k_mem k) d va false = false →
  ∀ e, uva2ka d (va / PGSIZE * PGSIZE) e k =
    if decide (table (k_mem k) d (va / PGSIZE / 1024) = None) then Fault k else Ret 0 e k.
Proof.
  intros Hs Hva Hmay e. destruct (user_va va Hva) as [_ Hn]. set (n := va / PGSIZE) in *.
  pose proof NUSER_val as EU. assert (n * PGSIZE / PGSIZE = n) as En by (unfold PGSIZE; dlia).
  assert (is_u32 (n * PGSIZE)) as Hu by (unfold is_u32, PGSIZE; lia). unfold uva2ka.
  destruct (table (k_mem k) d (n / 1024)) as [t|] eqn:Et.
  - rewrite decide_False by done.
    destruct (walk_found k d l (n * PGSIZE) false t Hs Hu ltac:(by rewrite En) e) as (a & k' & E & -> & ->).
    rewrite En in E. rewrite (bind_Ret _ _ _ _ _ _ _ E). cbn [deref]. asteps.
    destruct (space_table k d l Hs (n / 1024) t ltac:(dlia) Et) as [Hpt _]. unfold kld32.
    rewrite (V2P_word k) by (done || dlia). unfold user_may, pte in Hmay. fold n in Hmay. rewrite Et in Hmay. cbn in Hmay.
    destruct (has _ PTE_P); [|done]. cbn [negb]. rewrite andb_true_r in Hmay. by rewrite Hmay.
  - rewrite decide_True by done.
    destruct (walk_absent k d l (n * PGSIZE) Hs Hu ltac:(by rewrite En) e) as (a & k' & E & -> & ->).
    by rewrite (bind_Ret _ _ _ _ _ _ _ E).
Qed.

(** Bytes are written to a page of the space. *)
Lemma write_page k d l n p off bs :
  space k d l → 0 ≤ n < NUSER → upage (k_mem k) d n = Some p → 0 ≤ off → off + Z.of_nat (length bs) ≤ PGSIZE →
  let k' := k <| k_mem := wrn (k_mem k) (V2P p + off) bs |> in
  space k' d l ∧ (∀ j, 0 ≤ j < 2 ^ 20 → pte (k_mem k') d j = pte (k_mem k) d j) ∧
  ∀ a, 0 ≤ a < KERNBASE → user_byte (k_mem k') d a =
    if decide (n * PGSIZE + off ≤ a < n * PGSIZE + off + Z.of_nat (length bs))
    then Some (default 0 (bs !! Z.to_nat (a - (n * PGSIZE + off))) mod 256) else user_byte (k_mem k) d a.
Proof.
  intros Hs Hn Hup Hoff Hlen k'. destruct (space_upage k d l Hs n p Hn Hup) as [Hp Hin].
  assert (∀ b, rd (k_mem k') b = if decide (V2P p + off ≤ b < V2P p + off + Z.of_nat (length bs))
    then default 0 (bs !! Z.to_nat (b - (V2P p + off))) mod 256 else rd (k_mem k) b) as Hrd by (intros; apply rd_wrn).
  assert (within [p] (k_mem k) (k_mem k')) as Hw.
  { intros b Hb. specialize (Hb p ltac:(by left)). unfold in_page in Hb. rewrite Hrd, decide_False by lia. done. }
  assert ((p ∉ d :: tables (k_mem k) d) ∧ p ∉ l) as [Hnt Hnl].
  { pose proof (sp_nodup _ _ _ Hs) as Hnd. rewrite owned_app, <- app_assoc in Hnd.
    apply NoDup_app in Hnd as (_ & Hd1 & Hnd). apply NoDup_app in Hnd as (_ & Hd2 & _).
    split; [|by apply Hd2]. intros Hx. apply (Hd1 p Hx). apply elem_of_app. by left. }
  destruct (space_frame k k' d l l [p]) as (Hs' & Eo & Hpte); try done.
  { apply (heap_mem k l [p]); [apply Hs|done|by constructor|]. by intros q ->%list_elem_of_singleton. }
  { by constructor. }
  { by intros t Ht ->%list_elem_of_singleton. }
  { intros q Hq Hl. by apply (space_free _ _ _ Hs) in Hl as [_ []]. }
  split_and!; [done|done|]. intros a Ha. destruct (user_va a Ha) as [_ Hna].
  rewrite (user_byte_page k' d l), (user_byte_page k d l) by done.
  assert (upage (k_mem k') d (a / PGSIZE) = upage (k_mem k) d (a / PGSIZE)) as ->.
  { unfold upage. by rewrite Hpte by (by apply user_page). }
  pose proof (Z.mod_pos_bound a PGSIZE ltac:(done)) as Hmod. pose proof (Z.div_mod a PGSIZE ltac:(done)) as Hdiv.
  destruct (decide (a / PGSIZE = n)) as [Ean|Hne].
  - rewrite Ean, Hup. cbn. rewrite Hrd. rewrite Ean in Hdiv.
    destruct (decide (n * PGSIZE + off ≤ a < _)); [rewrite decide_True by lia|by rewrite decide_False by lia].
    do 5 f_equal. lia.
  - rewrite decide_False.
    + destruct (upage (k_mem k) d (a / PGSIZE)) as [q|] eqn:Eq; cbn; [|done]. f_equal.
      destruct (space_upage k d l Hs _ q Hna Eq) as [Hq _].
      eapply within_byte; [done|by constructor|done| |done]. intros ->%list_elem_of_singleton.
      apply Hne. by apply (space_upage_inj k d l Hs _ n p).
    + unfold PGSIZE in *. dlia.
Qed.

(** The page of [va] is the user's: one turn of the loop fills it, or its part behind [va]. *)
Lemma copyout_turn fuel k d l va bs :
  space k d l → 0 ≤ va → va + Z.of_nat (length bs) ≤ KERNBASE → bs ≠ [] → user_may (k_mem k) d va false = true →
  let c := Z.min (PGSIZE - va mod PGSIZE) (Z.of_nat (length bs)) in
  ∃ k1, (∀ e, copyout_loop (S fuel) d va bs e k =
      copyout_loop fuel d (va / PGSIZE * PGSIZE + PGSIZE) (drop (Z.to_nat c) bs) e k1) ∧
    space k1 d l ∧ mem_only k k1 ∧ (∀ j, 0 ≤ j < 2 ^ 20 → pte (k_mem k1) d j = pte (k_mem k) d j) ∧
    ∀ a, 0 ≤ a < KERNBASE → user_byte (k_mem k1) d a =
      if decide (va ≤ a < va + c)
      then Some (default 0 (bs !! Z.to_nat (a - va)) mod 256) else user_byte (k_mem k) d a.
Proof.
  intros Hs Hva Hle Hne Hmay c. assert (0 < Z.of_nat (length bs)) as Hpos by (destruct bs; cbn; [done|lia]).
  pose proof (Z.mod_pos_bound va PGSIZE ltac:(done)) as Hmod. pose proof (Z.div_mod va PGSIZE ltac:(done)) as Hdiv.
  set (n := va / PGSIZE) in *. set (off := va mod PGSIZE) in *. assert (0 < c) as Hc by lia.
  assert (0 ≤ n < NUSER) as Hn by (apply user_va; lia).
  assert (∃ e, pte (k_mem k) d n = Some e ∧ has e PTE_U = true) as (e & He & Hu).
  { unfold user_may in Hmay. fold n in Hmay.
    destruct (pte (k_mem k) d n) as [e|]; [|done]. exists e. by apply andb_true_iff in Hmay as []. }
  destruct (uva2ka_ok k d l n e Hs Hn He Hu) as (p & Hup & Hp & Hrun). pose proof (page_ok_pos _ _ Hp).
  assert (Z.of_nat (length (take (Z.to_nat c) bs)) = c) as Hlt by (rewrite length_take; lia).
  destruct (write_page k d l n p off (take (Z.to_nat c) bs)) as (Hs1 & Hpte1 & Hub1); try (done || lia).
  set (k1 := k <| k_mem := _ |>) in *. rewrite Hlt in Hub1. exists k1. split_and!; [|done|apply mem_only_mem|done|].
  - intros e0. cbn [copyout_loop]. rewrite (proj2 (Z.gtb_lt _ _)) by done. cbn [negb].
    assert (PGROUNDDOWN va = n * PGSIZE) as -> by (rewrite PGROUNDDOWN_mod; fold off; lia).
    destruct (Hrun e0) as (r & k0 & E & -> & ->). rewrite (bind_Ret _ _ _ _ _ _ _ E).
    rewrite (proj2 (Z.eqb_neq p 0)) by lia. replace (va - n * PGSIZE) with off by lia. fold c. msteps.
    pose proof NUSER_val as EU. by rewrite wrap32_small by (unfold is_u32, PGSIZE in *; lia).
  - intros a Ha. rewrite Hub1 by done. replace (n * PGSIZE + off) with va by lia.
    case_decide; [|done]. by rewrite lookup_take_lt by lia.
Qed.

(** How the loop ends when it has come to [b]. *)
Definition copyout_ends (m : mem) (d va : Z) (bs : list Z) (b : Z) (e : env kernel) (k' : kernel) : outcome kernel Z :=
  if decide (b = va + Z.of_nat (length bs)) then Ret 0 e k'
  else if decide (table m d (b / PGSIZE / 1024) = None) then Fault k' else Ret (-1) e k'.

Lemma copyout_loop_ok fuel k d l va bs b e :
  space k d l → 0 ≤ va ≤ b → b ≤ va + Z.of_nat (length bs) ≤ KERNBASE → (length bs < fuel)%nat →
  (∀ a, va ≤ a < b → user_may (k_mem k) d a false = true) →
  (b < va + Z.of_nat (length bs) → user_may (k_mem k) d b false = false) →
  ∃ k', copyout_loop fuel d va bs e k = copyout_ends (k_mem k') d va bs b e k' ∧ space k' d l ∧ mem_only k k' ∧
    (∀ j, 0 ≤ j < 2 ^ 20 → pte (k_mem k') d j = pte (k_mem k) d j) ∧
    ∀ a, 0 ≤ a < KERNBASE → user_byte (k_mem k') d a =
      if decide (va ≤ a < b) then Some (default 0 (bs !! Z.to_nat (a - va)) mod 256) else user_byte (k_mem k) d a.
Proof.
  revert k va bs. induction fuel as [|fuel IH]; intros k va bs Hs Hva Hle Hf Hmay Hb; [lia|].
  destruct (decide (bs = [])) as [->|Hne].
  { cbn [length Z.of_nat] in *. exists k. unfold copyout_ends. rewrite decide_True by (cbn; lia).
    split_and!; [done|done|apply mem_only_refl|done|]. intros a _. by rewrite decide_False by lia. }
  assert (0 < Z.of_nat (length bs)) as Hpos by (destruct bs; cbn; [done|lia]).
  destruct (user_may (k_mem k) d va false) eqn:Hv.
  - destruct (copyout_turn fuel k d l va bs Hs ltac:(lia) ltac:(lia) Hne Hv) as (k1 & E1 & Hs1 & Ho1 & Hpte1 & Hub1).
    pose proof (Z.mod_pos_bound va PGSIZE ltac:(done)) as Hmod. pose proof (Z.div_mod va PGSIZE ltac:(done)) as Hdiv.
    set (c := Z.min _ _) in *. set (v1 := va / PGSIZE * PGSIZE + PGSIZE) in *. rewrite E1.
    assert (Hcb : va + c ≤ b).
    { destruct (Z.le_gt_cases (va + c) b); [done|]. specialize (Hb ltac:(lia)).
      assert (b / PGSIZE = va / PGSIZE) as En by (unfold PGSIZE in *; dlia).
      exfalso. unfold user_may in Hb, Hv. rewrite En in Hb. congruence. }
    destruct (decide (c = Z.of_nat (length bs))) as [Hall|Hpart].
    + (* the last page *)
      assert (drop (Z.to_nat c) bs = []) as -> by (apply drop_ge; lia). exists k1. split_and!; [|done..|].
      * destruct fuel as [|fuel]; [lia|]. unfold copyout_ends. by rewrite decide_True by lia.
      * intros a Ha. rewrite Hub1 by done. by replace (va + c) with b by lia.
    + assert (va + c = v1) as Hc1 by lia.
      destruct (IH k1 v1 (drop (Z.to_nat c) bs)) as (k2 & E2 & Hs2 & Ho2 & Hpte2 & Hub2);
        [done|lia|rewrite length_drop; lia|rewrite length_drop; lia| | |].
      * intros a Ha. unfold user_may. rewrite Hpte1 by (apply user_page, user_va; lia). apply Hmay. lia.
      * intros Hlt. rewrite length_drop in Hlt. unfold user_may. rewrite Hpte1 by (apply user_page, user_va; lia). apply Hb. lia.
      * exists k2. split_and!; [|done| | |].
        -- rewrite E2. unfold copyout_ends. rewrite length_drop. by replace (v1 + _) with (va + Z.of_nat (length bs)) by lia.
        -- by eapply mem_only_trans.
        -- intros j Hj. by rewrite Hpte2, Hpte1.
        -- intros a Ha. rewrite Hub2, Hub1 by done. repeat case_decide; try lia; [|done..].
           rewrite lookup_drop. do 4 f_equal. lia.
  - assert (b = va) as -> by (destruct (decide (b = va)); [done|]; rewrite Hmay in Hv by lia; done).
    exists k. split_and!; [|done|apply mem_only_refl|done|intros a _; by rewrite decide_False by lia].
    cbn [copyout_loop]. rewrite (proj2 (Z.gtb_lt _ _)) by done. cbn [negb].
    replace (PGROUNDDOWN va) with (va / PGSIZE * PGSIZE) by (rewrite PGROUNDDOWN_mod; unfold PGSIZE; dlia).
    pose proof (uva2ka_refuses k d l va Hs ltac:(lia) Hv e) as Hr.
    unfold copyout_ends. rewrite decide_False by lia. rewrite bind_eq, Hr. by case_decide.
Qed.

(** ** A space to try *)

Lemma heap_push k l v :
  heap k l → bytes_ok (k_mem k) → page_ok k v → v ∉ l →
  ∃ k', mem_only k k' ∧ heap k' (v :: l) ∧ bytes_ok (k_mem k').
Proof.
  intros [(i & c & Hk) Hl] Hb Hv Hn. destruct (lockable_kmem_touch _ _ _ _ Hk) as [c' Hk'].
  destruct (kmem_touch_frame i c k) as [Em Ho]. exists (freed v (kmem_touch i c k)). split_and!.
  - eapply mem_only_trans; [exact Ho|apply mem_only_heap].
  - apply (freelist_rep_touch k l i c) in Hl as Hl'. split; [exists i, c'; by eapply lockable_sync|].
    apply freed_rep; eauto using freelist_head_u32. by eapply mem_only_page_ok.
  - unfold freed. rsimpl. apply st32_bytes_ok, memset_bytes_ok; [done|]. by rewrite Em.
Qed.

Lemma heap_grow n p k l :
  heap k l → bytes_ok (k_mem k) → p mod PGSIZE = 0 → KERNBASE < k_end k ≤ p →
  p + Z.of_nat n * PGSIZE ≤ KERNBASE + PHYSTOP → (∀ v, v ∈ l → v < p) →
  ∃ k' l', mem_only k k' ∧ heap k' (l' ++ l) ∧ bytes_ok (k_mem k') ∧ length l' = n.
Proof.
  revert p k l. induction n as [|n IH]; intros p k l Hh Hb Hp He Hn Hl.
  { exists k, []. split_and!; [apply mem_only_refl|done|done|done]. }
  destruct (heap_push k l p) as (k1 & Ho1 & Hh1 & Hb1); try done.
  - split_and!; [done|lia|lia|]. unfold PGSIZE in *. lia.
  - intros Hin. specialize (Hl p Hin). lia.
  - pose proof (mem_only_end _ _ Ho1) as Ee.
    destruct (IH (p + PGSIZE) k1 (p :: l)) as (k2 & l2 & Ho2 & Hh2 & Hb2 & Hlen); try done.
    + unfold PGSIZE in *. dlia.
    + rewrite Ee. unfold PGSIZE. lia.
    + unfold PGSIZE in *. lia.
    + intros v [->|Hv]%elem_of_cons; [unfold PGSIZE; lia|]. specialize (Hl v Hv). unfold PGSIZE. lia.
    + exists k2, (l2 ++ [p]). split_and!; [by eapply mem_only_trans|by rewrite <- app_assoc|done|].
      rewrite length_app, Hlen. cbn. lia.
Qed.

Lemma heap_pop k v l : heap k (v :: l) → ∃ h, heap (k <| k_freelist := h |>) l ∧ page_ok k v ∧ v ∉ l.
Proof.
  intros [(i & c & Hk) [[Hh Hc] [Hp Hps]%Forall_cons [Hn Hnd]%NoDup_cons]].
  exists (ld32 (k_mem k) (V2P v)). split_and!; [|done|done]. split; [exists i, c; by eapply lockable_sync|by split].
Qed.

Lemma space_pop k d q l :
  space k d (q :: l) → ∃ h, space (k <| k_freelist := h |>) d l ∧ page_ok k q ∧ (q ∉ owned (k_mem k) d ++ l).
Proof.
  intros Hs. destruct (space_free _ _ _ Hs q ltac:(by left)) as [Hq Ho].
  destruct (heap_pop k q l) as (h & Hh & _ & Hn); [apply Hs|]. exists h. split_and!; [|done|by rewrite elem_of_app; tauto].
  eapply (space_frame k _ d (q :: l) l []); try done; [intros ? _; apply not_elem_of_nil|].
  intros p Hp Hl. destruct (space_free _ _ _ Hs p) as [_ []]; [by right|done].
Qed.

(** A space with one page, whose byte 5 is 42, and a lot of free memory. *)
Lemma sample_space :
  ∃ k d l, space k d l ∧ bytes_ok (k_mem k) ∧ data_ok (k_data k) ∧ can_print k ∧ (1100 < length l)%nat ∧
    (∀ j, 0 ≤ j < 2 ^ 20 → is_Some (pte (k_mem k) d j) ↔ j = 0) ∧
    user_byte (k_mem k) d 5 = Some 42 ∧ user_may (k_mem k) d 5 true = true.
Proof.
  assert (heap zero_kernel []) as Hh0.
  { split; [|split; [done|constructor|constructor]].
    exists 0%nat, (Cpu 0 0 true 0 false None). split_and!; [reflexivity|split; cbn; [lia|done]|reflexivity]. }
  assert (bytes_ok (k_mem zero_kernel)) as Hb0 by (intros b; split; done).
  destruct (heap_grow 1200 (KERNLINK + 0x10000) zero_kernel []) as (k1 & l & Ho1 & Hh1 & Hb1 & Hlen); try done.
  { intros v Hv. by apply not_elem_of_nil in Hv. }
  rewrite app_nil_r in Hh1. destruct l as [|A [|B [|C l]]]; try done.
  destruct (heap_pop _ _ _ Hh1) as (h1 & Hh2 & HA & HAl). set (k2 := k1 <| k_freelist := h1 |>) in *.
  destruct (space_new k2 A (B :: C :: l)) as (Hs3 & _ & Hp3); [done|done|done|].
  set (k3 := k2 <| k_mem := _ |>) in *.
  destruct (space_pop k3 A B (C :: l) Hs3) as (h3 & Hh4 & HB & HBl).
  destruct (space_free _ _ _ Hs3 B ltac:(by left)) as [_ HBo].
  set (k4 := k3 <| k_freelist := h3 |> <| k_mem := with_table (k_mem k3) A 0 B |>).
  assert (heap k4 (C :: l)) as Hh4'.
  { apply (heap_mem (k3 <| k_freelist := h3 |>) (C :: l) [A; B]); [apply Hh4|by apply with_table_within|..].
    - constructor; [exact (space_dir _ _ _ Hs3)|by constructor].
    - intros q. rewrite elem_of_cons, list_elem_of_singleton. intros [->| ->]; [set_solver|].
      rewrite elem_of_app in HBl. tauto. }
  assert (table (k_mem k3) A 0 = None) as Ht3.
  { unfold k3, table. rsimpl. change (V2P A + 4 * 0) with (V2P A + 0). rewrite Z.add_0_r.
    rewrite memset_ld32_zero by (unfold PGSIZE; lia). done. }
  destruct (space_with_table k3 k4 A 0 B (C :: l)) as (Hs4 & _ & Hp4); try done.
  assert (table (k_mem k4) A 0 = Some B) as Ht4.
  { change (k_mem k4) with (with_table (k_mem k3) A 0 B).
    rewrite (with_table_table k3 (B :: C :: l)); [by rewrite decide_True|done|done|intros ->; apply HBo; left|done|done]. }
  destruct (space_pop k4 A C l Hs4) as (h4 & Hs5 & HC & HCl). set (k5 := k4 <| k_freelist := h4 |>) in *.
  destruct (V2P_mod _ _ HC) as [HCm HCr].
  destruct (space_map k5 A l B 0 C (V2P C + 7)) as (Hs6 & Hp6 & _); try done.
  { change (pte (k_mem k4) A 0 = None). rewrite Hp4 by done. by apply Hp3. }
  { unfold is_u32, PHYSTOP in *. lia. }
  { by rewrite entry_has. }
  { intros _. split_and!; [done|done|]. rewrite entry_addr by done. by eapply P2V_V2P. }
  set (k6 := k5 <| k_mem := _ |>) in *.
  assert (upage (k_mem k6) A 0 = Some C) as Hu6.
  { unfold upage. rewrite Hp6, decide_True by done. cbn. rewrite entry_addr by done. f_equal. by eapply P2V_V2P. }
  destruct (write_page k6 A l 0 C 5 [42]) as (Hs7 & Hp7 & Hb7); try done.
  set (k7 := k6 <| k_mem := _ |>) in *.
  assert (mem_only zero_kernel k7) as Ho7.
  { eapply mem_only_trans; [exact Ho1|]. eexists (k_mem k7), h4, (k_cpus k1). by destruct k1. }
  exists k7, A, l. split_and!.
  - done.
  - by repeat first [apply wr_bytes_ok|apply st32_bytes_ok|apply memset_bytes_ok].
  - rewrite (mem_only_data _ _ Ho7). by split_and!.
  - eapply can_print_mem; [|exact Ho7]. by split.
  - cbn in Hlen. lia.
  - intros j Hj. rewrite Hp7, Hp6 by done. destruct (decide (j = 0)); [by split|].
    change (k_mem k5) with (k_mem k4). rewrite Hp4, Hp3 by done. by split; [intros []|].
  - rewrite Hb7 by done. done.
  - unfold user_may. change (5 / PGSIZE) with 0. rewrite Hp7, Hp6, decide_True by done.
    by rewrite !entry_has.
Qed.

Lemma copyuvm_correct_witness :
  ∃ k pgdir l d k', space k pgdir l ∧ copyuvm pgdir PGSIZE [] k = Ret d [] k' ∧ d ≠ 0 ∧
    user_byte (k_mem k') d 5 = Some 42 ∧ user_may (k_mem k') d 5 true = true.
Proof.
  destruct sample_space as (k & pgdir & l & Hs & Hb & Hd & _ & Hlen & Hp & Hu & Hm).
  destruct (copyuvm_correct k pgdir l PGSIZE [] Hs Hb Hd) as (d & k' & E & _ & _ & Hr).
  - unfold PGSIZE, KERNBASE. lia.
  - intros j Hj Hlt. apply Hp; unfold PGSIZE in *; lia.
  - destruct Hr as [(Hd0 & _ & Hbyte & _)|(_ & Hle & _)].
    + destruct (Hbyte 5) as [Hb5 Hm5]; [unfold PGSIZE; lia|]. exists k, pgdir, l, d, k'.
      split_and!; [done|done|done|by rewrite Hb5|by rewrite Hm5].
    + exfalso. change ((PGSIZE + PGSIZE - 1) / PGSIZE) with 1 in Hle. lia.
Defined.

Lemma allocuvm_correct_witness :
  ∃ k d l k', space k d l ∧ allocuvm d PGSIZE 10000 [] k = Ret 10000 [] k' ∧
    user_byte (k_mem k') d 5 = Some 42 ∧ user_byte (k_mem k') d 9999 = Some 0.
Proof.
  destruct sample_space as (k & d & l & Hs & _ & _ & Hpr & Hlen & Hp & Hu & _).
  destruct (allocuvm_correct k d l PGSIZE 10000 [] Hs Hpr) as (_ & _ & H).
  - unfold PGSIZE, KERNBASE. lia.
  - intros j Hj Hle. pose proof NUSER_val as EU. destruct (pte (k_mem k) d j) as [e|] eqn:E; [|done].
    assert (j = 0) as -> by (apply Hp; [lia|by rewrite E]). unfold PGSIZE in Hle. lia.
  - destruct H as (r & k' & E & _ & _ & Hold & Hr); [unfold PGSIZE, KERNBASE; lia|].
    change (PGROUNDUP PGSIZE) with 4096 in *.
    destruct Hr as [(-> & Hnew & _)|(_ & Hle & _)].
    + exists k, d, l, k'. split_and!; [done|done|by rewrite Hold by lia|]. by destruct (Hnew 9999 ltac:(lia)).
    + exfalso. change ((10000 + PGSIZE - 1) / PGSIZE) with 3 in Hle. lia.
Defined.

(** C22 [copyout] writes to a process as far as its pages allow.  Let [b] be the first address of the
    range that may not be used in user mode, or the end of the range.  Then the bytes before
    [b] have been written, and the process reads them there; every other byte of it is as before,
    and nothing but memory has changed.  At the end of the range [copyout] returns 0; at a page that
    may not be used, be it the first of the range or a later one, it returns -1, unless that page has not even a
    table: then the kernel follows a null pointer. *)
Theorem copyout_correct k d l va bs b e :
  space k d l → 0 ≤ va ≤ b → b ≤ va + Z.of_nat (length bs) ≤ KERNBASE →
  (∀ a, va ≤ a < b → user_may (k_mem k) d a false = true) →
  (b < va + Z.of_nat (length bs) → user_may (k_mem k) d b false = false) →
  ∃ k', copyout d va bs e k =
      (if decide (b = va + Z.of_nat (length bs)) then Ret 0 e k'
       else if decide (table (k_mem k') d (b / PGSIZE / 1024) = None) then Fault k' else Ret (-1) e k') ∧
    space k' d l ∧ mem_only k k' ∧
    ∀ a, 0 ≤ a < KERNBASE → user_byte (k_mem k') d a =
      if decide (va ≤ a < b)
      then Some (default 0 (bs !! Z.to_nat (a - va)) mod 256) else user_byte (k_mem k) d a.
Proof.
  intros Hs Hva Hle Hmay Hb.
  destruct (copyout_loop_ok (S (S (length bs))) k d l va bs b e Hs Hva Hle ltac:(lia) Hmay Hb)
    as (k' & E & Hs' & Ho & _ & Hub). eauto 10.
Qed.

(** Two bytes within the page, and four that run out of it after two. *)
Lemma copyout_correct_witness :
  ∃ k d l, space k d l ∧
    (∃ k', copyout d 4 [7; 8] [] k = Ret 0 [] k' ∧ user_byte (k_mem k') d 4 = Some 7 ∧ user_byte (k_mem k') d 5 = Some 8) ∧
    ∃ k', (copyout d 4094 [7; 8; 9; 10] [] k = Ret (-1) [] k' ∨ copyout d 4094 [7; 8; 9; 10] [] k = Fault k') ∧
      user_byte (k_mem k') d 4095 = Some 8.
Proof.
  destruct sample_space as (k & d & l & Hs & _ & _ & _ & _ & Hp & _ & Hm). exists k, d, l. split; [done|].
  assert (∀ a, 0 ≤ a < 4096 → user_may (k_mem k) d a false = true) as Hmay.
  { intros a Ha. unfold user_may in *. replace (a / PGSIZE) with (5 / PGSIZE) by (unfold PGSIZE; dlia).
    destruct (pte (k_mem k) d (5 / PGSIZE)) as [e|]; [|done]. by apply andb_true_iff in Hm as [-> _]. }
  split.
  - destruct (copyout_correct k d l 4 [7; 8] 6 [] Hs) as (k' & E & _ & _ & Hb);
      [lia|unfold KERNBASE; cbn; lia|intros; apply Hmay; lia|cbn; lia|].
    exists k'. split_and!; [done|by rewrite Hb|by rewrite Hb].
  - destruct (copyout_correct k d l 4094 [7; 8; 9; 10] 4096 [] Hs) as (k' & E & _ & _ & Hb);
      [lia|unfold KERNBASE; cbn; lia|intros; apply Hmay; lia| |].
    + intros _. unfold user_may. destruct (pte (k_mem k) d (4096 / PGSIZE)) as [x|] eqn:Ex; [|done].
      exfalso. assert (4096 / PGSIZE = 0) as E0 by (apply Hp; [unfold PGSIZE; dlia|by rewrite Ex]). by vm_compute in E0.
    + exists k'. rewrite decide_False in E by (cbn; lia). case_decide; (split; [by auto|by rewrite Hb]).
Defined.

(** C21 [freevm] gives an address space back: every page of it, the directory, the tables and the
    user pages, is free afterwards, with the pages that were free before, and no other byte of
    memory has changed. *)
Theorem freevm_correct k d l e :
  space k d l →
  ∃ k' l', freevm d e k = Ret tt e k' ∧ mem_only k k' ∧ heap k' l' ∧ l' ≡ₚ owned (k_mem k) d ++ l ∧
    ∀ b, (∀ p, p ∈ owned (k_mem k) d → ¬ in_page p b) → rd (k_mem k') b = rd (k_mem k) b.
Proof.
  intros Hs. destruct (freevm_ok k d l Hs e) as ([] & k' & E & Ho & (l' & Hh & Hl) & Hw). by exists k', l'.
Qed.

Lemma freevm_correct_witness :
  ∃ k d k' l', user_byte (k_mem k) d 5 = Some 42 ∧ freevm d [] k = Ret tt [] k' ∧ heap k' l' ∧ d ∈ l'.
Proof.
  destruct sample_space as (k & d & l & Hs & _ & _ & _ & _ & _ & Hu & _).
  destruct (freevm_correct k d l [] Hs) as (k' & l' & E & _ & Hh & Hl & _).
  exists k, d, k', l'. split_and!; [done|done|done|]. rewrite Hl. left.
Defined.
