(* ===== verification/Pipe.v ===== *)
(** * Pipes (pipe.c)

    A ring of [PIPESIZE] bytes between two counters that run freely modulo
    2^32, shared by readers and writers that sleep on each other.
    ([pipealloc] is with the file table, which it uses.) *)

From S2P Require Import Prelude State Spinlock Mem Kalloc Sched Sleep Vm.

Definition pipe_get {A} (p : Z) (f : pipe → A) : KM A :=
  k ← mget; x ← deref (k_pipe k !! p); mret (f x).
Definition pipe_upd (p : Z) (f : pipe → pipe) : KM unit :=
  modify (λ k, k <| k_pipe ::= alter f p |>).

(** [myproc()->killed] *)
Definition my_killed : KM bool :=
  p ← myproc; p ← deref p; x ← proc_get p p_killed; mret (truthy x).

(** [src/xv6-public/pipe.c:59-75] *)
Definition pipeclose (p : Z) (writable : bool) : KM unit :=
  acquire (LkPipe p);;
  (if writable
   then pipe_upd p (λ x, x <| pi_writeopen := false |>);; wakeup (ChNread p)
   else pipe_upd p (λ x, x <| pi_readopen := false |>);; wakeup (ChNwrite p));;
  x ← pipe_get p id;
  if negb (pi_readopen x) && negb (pi_writeopen x)
  then release (LkPipe p);; kfree p
  else release (LkPipe p).

(** The byte [c] put into the ring, and the oldest byte taken out. *)
Definition put (c : Z) (x : pipe) : pipe :=
  x <| pi_data ::= <[Z.to_nat (pi_nwrite x mod PIPESIZE) := c]> |>
    <| pi_nwrite ::= λ n, wrap32 (n + 1) |>.
Definition take_out (x : pipe) : pipe := x <| pi_nread ::= λ n, wrap32 (n + 1) |>.
Definition oldest (x : pipe) : Z :=
  default 0 (pi_data x !! Z.to_nat (pi_nread x mod PIPESIZE)).

(** [src/xv6-public/pipe.c:85-92] wait until the pipe is not full; [false] when
    the write is given up, with the lock released *)
Definition wait_space (p : Z) : KM bool :=
  mrepeat (
    x ← pipe_get p id;
    if pi_nwrite x =? wrap32 (pi_nread x + PIPESIZE) then
      giving ← (if negb (pi_readopen x) then mret true else my_killed);
      if giving : bool then release (LkPipe p);; mret (inr false)
      else
        wakeup (ChNread p);;
        sleep (ChNwrite p) (LkPipe p);;
        mret (inl tt)
    else mret (inr true)).

(** The loop of [pipewrite], with [n] bytes to go from [addr] on. *)
Fixpoint pipewrite_loop (p addr : Z) (n : nat) : KM bool :=
  match n with
  | O => mret true
  | S n =>
    ok ← wait_space p;
    if negb ok then mret false else
    c ← uld8 addr;
    pipe_upd p (put c);;
    pipewrite_loop p (addr + 1) n
  end.

(** [src/xv6-public/pipe.c:78-98] *)
Definition pipewrite (p addr n : Z) : KM Z :=
  acquire (LkPipe p);;
  ok ← pipewrite_loop p addr (Z.to_nat n);
  if negb ok then mret (-1) else
  wakeup (ChNread p);;
  release (LkPipe p);;
  mret n.

(** [src/xv6-public/pipe.c:106-112] wait for data or the end of the writers *)
Definition wait_data (p : Z) : KM bool :=
  mrepeat (
    x ← pipe_get p id;
    if (pi_nread x =? pi_nwrite x) && pi_writeopen x then
      killed ← my_killed;
      if killed : bool then release (LkPipe p);; mret (inr false)
      else sleep (ChNread p) (LkPipe p);; mret (inl tt)
    else mret (inr true)).

(** The copy loop of [piperead]; returns the number of bytes copied. *)
Fixpoint piperead_loop (p addr : Z) (n : nat) : KM Z :=
  match n with
  | O => mret 0
  | S n =>
    x ← pipe_get p id;
    if pi_nread x =? pi_nwrite x then mret 0 else
    pipe_upd p take_out;;
    ust8 addr (oldest x);;
    r ← piperead_loop p (addr + 1) n;
    mret (r + 1)
  end.

(** [src/xv6-public/pipe.c:100-121] *)
Definition piperead (p addr n : Z) : KM Z :=
  acquire (LkPipe p);;
  ok ← wait_data p;
  if negb ok then mret (-1) else
  i ← piperead_loop p addr (Z.to_nat n);
  wakeup (ChNwrite p);;
  release (LkPipe p);;
  mret i.

(** ** The ring as a queue

    The counters name the bytes [nread], [nread + 1], ..., [nwrite - 1], modulo
    2^32; byte [n] is kept at index [n mod PIPESIZE], which is well defined
    because [PIPESIZE] divides 2^32. *)

Definition pipe_len (x : pipe) : Z := wrap32 (pi_nwrite x - pi_nread x).
Definition pipe_byte (x : pipe) (i : Z) : Z :=
  default 0 (pi_data x !! Z.to_nat ((pi_nread x + i) mod PIPESIZE)).
Definition contents (x : pipe) : list Z := pipe_byte x <$> seqZ 0 (pipe_len x).

Record pipe_wf (x : pipe) : Prop := {
  wf_data : length (pi_data x) = Z.to_nat PIPESIZE;
  wf_nread : is_u32 (pi_nread x);
  wf_nwrite : is_u32 (pi_nwrite x);
  wf_len : pipe_len x ≤ PIPESIZE }.

Definition pipe_full (x : pipe) : Prop := pi_nwrite x = wrap32 (pi_nread x + PIPESIZE).
Definition pipe_empty (x : pipe) : Prop := pi_nread x = pi_nwrite x.

Lemma pipe_len_range x : 0 ≤ pipe_len x < 2 ^ 32.
Proof. apply wrap32_range. Qed.

Lemma contents_length x : length (contents x) = Z.to_nat (pipe_len x).
Proof. unfold contents. by rewrite length_fmap, length_seqZ. Qed.

(** The tests of the code, in terms of the number of bytes. *)
Lemma pipe_full_len x : pipe_wf x → pipe_full x ↔ pipe_len x = PIPESIZE.
Proof.
  intros [_ Hr Hw _]. unfold pipe_full, pipe_len, wrap32, PIPESIZE, is_u32 in *. split; dlia.
Qed.

Lemma pipe_empty_len x : pipe_wf x → pipe_empty x ↔ pipe_len x = 0.
Proof.
  intros [_ Hr Hw _]. unfold pipe_empty, pipe_len, wrap32, is_u32 in *. split; dlia.
Qed.

Lemma pipe_empty_contents x : pipe_wf x → pipe_empty x ↔ contents x = [].
Proof.
  intros Hx. rewrite pipe_empty_len by done. rewrite <- length_zero_iff_nil, contents_length.
  pose proof (pipe_len_range x). lia.
Qed.

Lemma wrap32_index z : wrap32 z mod PIPESIZE = z mod PIPESIZE.
Proof. unfold wrap32, PIPESIZE. dlia. Qed.

(** Distinct bytes of the queue have distinct places. *)
Lemma put_byte c x i :
  pipe_wf x → 0 ≤ i ≤ pipe_len x → pipe_len x < PIPESIZE →
  pipe_byte (put c x) i = if decide (i = pipe_len x) then c else pipe_byte x i.
Proof.
  intros [Hd Hr Hw Hl] Hi Hlt. unfold pipe_byte, put. rsimpl. unfold PIPESIZE in *.
  case_decide as E.
  - subst i. unfold pipe_len. rewrite <- Zplus_mod_idemp_r, (wrap32_index _ : _ mod 512 = _).
    rewrite Zplus_mod_idemp_r, Zplus_minus.
    rewrite list_lookup_insert_eq; [done|]. rewrite Hd.
    pose proof (Z.mod_pos_bound (pi_nwrite x) 512 ltac:(lia)). lia.
  - rewrite list_lookup_insert_ne; [done|]. unfold pipe_len, wrap32, is_u32 in *. dlia.
Qed.

Lemma put_len c x : pipe_wf x → pipe_len x < PIPESIZE → pipe_len (put c x) = pipe_len x + 1.
Proof.
  intros [_ Hr Hw _]. unfold pipe_len, put. rsimpl. autorewrite with wrap32.
  unfold wrap32, is_u32, PIPESIZE in *. dlia.
Qed.

Lemma put_wf c x : pipe_wf x → pipe_len x < PIPESIZE → pipe_wf (put c x).
Proof.
  intros Hx Hl. pose proof (put_len c x Hx Hl). destruct Hx as [Hd Hr Hw _]. split; [..|lia].
  - unfold put. rsimpl. by rewrite length_insert.
  - exact Hr.
  - apply wrap32_range.
Qed.

Lemma put_contents c x :
  pipe_wf x → pipe_len x < PIPESIZE → contents (put c x) = contents x ++ [c].
Proof.
  intros Hx Hl. pose proof (pipe_len_range x). unfold contents. rewrite put_len by done.
  rewrite seqZ_app by lia. rewrite fmap_app.
  replace (seqZ (0 + pipe_len x) 1) with [pipe_len x] by (unfold seqZ; cbn; f_equal; lia).
  cbn [fmap list_fmap]. f_equal; [|f_equal].
  - apply list_fmap_ext. intros j i Hi. apply lookup_seqZ in Hi as [-> Hi].
    rewrite put_byte by (done || lia). case_decide; [lia|done].
  - rewrite put_byte by (done || lia). case_decide; [done|lia].
Qed.

Lemma take_len x : pipe_wf x → 0 < pipe_len x → pipe_len (take_out x) = pipe_len x - 1.
Proof.
  intros [_ Hr Hw _]. unfold pipe_len, take_out. rsimpl. autorewrite with wrap32.
  unfold wrap32, is_u32, PIPESIZE in *. dlia.
Qed.

Lemma take_wf x : pipe_wf x → 0 < pipe_len x → pipe_wf (take_out x).
Proof.
  intros Hx Hl. pose proof (take_len x Hx Hl). destruct Hx as [Hd Hr Hw Hn]. split; [..|lia].
  - exact Hd.
  - apply wrap32_range.
  - exact Hw.
Qed.

Lemma take_contents x :
  pipe_wf x → 0 < pipe_len x → contents x = oldest x :: contents (take_out x).
Proof.
  intros Hx Hl. unfold contents. rewrite take_len by done.
  rewrite seqZ_cons by lia. cbn [fmap list_fmap]. f_equal.
  - unfold pipe_byte, oldest. by rewrite Z.add_0_r.
  - replace (Z.pred (pipe_len x)) with (pipe_len x - 1) by lia.
    replace (seqZ (Z.succ 0) _) with (Z.add 1 <$> seqZ 0 (pipe_len x - 1))
      by apply fmap_add_seqZ.
    rewrite <- list_fmap_compose.
    apply list_fmap_ext. intros j i Hi. unfold pipe_byte, take_out. rsimpl. cbn [compose].
    f_equal. f_equal. f_equal.
    rewrite <- (Zplus_mod_idemp_l (wrap32 _)), wrap32_index, Zplus_mod_idemp_l. f_equal. lia.
Qed.

(** ** Interference

    Readers, writers and the closing of either end keep every pipe well
    formed, whatever other processes do in between, if they do the same. *)

Definition pipes_wf (ps : gmap Z pipe) : Prop := map_Forall (λ _, pipe_wf) ps.
Definition pipes_ok (k : kernel) : Prop := pipes_wf (k_pipe k).

Lemma pipes_wf_alter ps p f :
  pipes_wf ps → (∀ x, ps !! p = Some x → pipe_wf x → pipe_wf (f x)) → pipes_wf (alter f p ps).
Proof.
  intros H Hf q y Hq. apply lookup_alter_Some in Hq as [(-> & x & E & ->)|[_ Hq]]; [|by eapply H].
  apply Hf; [done|by eapply H].
Qed.

Lemma steady_my_killed {B} b (g : kernel → B) `{!SyncFrame g} : steady b g my_killed.
Proof. unfold my_killed. solve_steady. Qed.
#[export] Hint Resolve steady_my_killed : steady.

Section interference.
Implicit Types p addr n : Z.

(** What holds of the pipe [p] between two switches. *)
Definition pipe_is p (R : pipe → Prop) (k : kernel) : Prop :=
  pipes_ok k ∧ ∀ x, k_pipe k !! p = Some x → R x.

Lemma hoare_pipe_steady {A} p R (m : KM A) :
  steady true k_pipe m → hoare pipes_ok pipes_ok (pipe_is p R) m (λ _, pipe_is p R).
Proof.
  intros Hm. eapply hoare_steady; [done|..].
  - unfold pipe_is, pipes_ok. by intros k k' ->.
  - by intros k [? _].
Qed.

Lemma hoare_pipe_quiet {A} (m : KM A) : quiet k_pipe m → hoare pipes_ok pipes_ok pipes_ok m (λ _, pipes_ok).
Proof. intros H. exact (H pipes_wf). Qed.

Lemma hoare_pipe_get p : hoare pipes_ok pipes_ok pipes_ok (pipe_get p id) (λ x k, pipes_ok k ∧ k_pipe k !! p = Some x).
Proof.
  intros e k He Hk. unfold pipe_get. msteps.
  by destruct (k_pipe k !! p) eqn:E; rewrite bind_eq; cbn.
Qed.

Lemma hoare_wait_space p :
  hoare pipes_ok pipes_ok pipes_ok (wait_space p)
    (λ ok, if ok : bool then pipe_is p (λ x, ¬ pipe_full x) else pipes_ok).
Proof.
  apply hoare_mrepeat. eapply hoare_bind; [apply hoare_pipe_get|]. intros x. cbn beta.
  destruct (Z.eqb_spec (pi_nwrite x) (wrap32 (pi_nread x + PIPESIZE))) as [E|E].
  - apply (hoare_pre _ _ pipes_ok); [|by intros k [H _]].
    eapply hoare_bind; [apply hoare_pipe_quiet; solve_quiet|].
    intros []; cbn match.
    + eapply hoare_bind; [apply hoare_pipe_quiet; solve_quiet|]. intros ?. by apply hoare_ret.
    + eapply hoare_bind; [apply hoare_pipe_quiet; solve_quiet|]. intros ?.
      eapply hoare_bind; [apply hoare_pipe_quiet; solve_quiet|]. intros ?.
      by apply hoare_ret.
  - apply hoare_ret. intros k [H Ex]. split; [done|]. intros x' Ex' Hf. by simplify_eq.
Qed.

Lemma hoare_pipe_upd p f (R : pipe → Prop) :
  (∀ x, R x → pipe_wf x → pipe_wf (f x)) →
  hoare pipes_ok pipes_ok (pipe_is p R) (pipe_upd p f) (λ _, pipes_ok).
Proof.
  intros Hf. apply hoare_modify. intros k [Hk HR]. unfold pipes_ok. rsimpl.
  apply pipes_wf_alter; [done|]. intros x Ex. apply Hf. by apply HR.
Qed.

Lemma put_keeps c x : ¬ pipe_full x → pipe_wf x → pipe_wf (put c x).
Proof.
  intros Hf Hx. apply put_wf; [done|]. rewrite pipe_full_len in Hf by done.
  destruct Hx. lia.
Qed.

Lemma take_keeps x : ¬ pipe_empty x → pipe_wf x → pipe_wf (take_out x).
Proof.
  intros Hf Hx. apply take_wf; [done|]. rewrite pipe_empty_len in Hf by done.
  pose proof (pipe_len_range x). lia.
Qed.

Lemma hoare_pipewrite_loop p addr m :
  hoare pipes_ok pipes_ok pipes_ok (pipewrite_loop p addr m) (λ _, pipes_ok).
Proof.
  revert addr. induction m as [|m IH]; intros addr; cbn [pipewrite_loop]; [by apply hoare_ret|].
  eapply hoare_bind; [apply hoare_wait_space|]. intros []; cbn [negb]; [|by apply hoare_ret].
  eapply hoare_bind; [apply hoare_pipe_steady; solve_steady|]. intros c.
  eapply hoare_bind; [apply hoare_pipe_upd, put_keeps|]. intros ?. apply IH.
Qed.

Lemma hoare_piperead_loop p addr m :
  hoare pipes_ok pipes_ok pipes_ok (piperead_loop p addr m) (λ _, pipes_ok).
Proof.
  revert addr. induction m as [|m IH]; intros addr; cbn [piperead_loop]; [by apply hoare_ret|].
  eapply hoare_bind; [apply hoare_pipe_get|]. intros x. cbn beta.
  destruct (Z.eqb_spec (pi_nread x) (pi_nwrite x)) as [E|E].
  { apply hoare_ret. by intros k [H _]. }
  apply (hoare_pre _ _ (pipe_is p (λ x, ¬ pipe_empty x))).
  2:{ intros k [H Ex]. split; [done|]. intros x' Ex' Hf. by simplify_eq. }
  eapply hoare_bind; [apply hoare_pipe_upd, take_keeps|]. intros ?.
  eapply hoare_bind; [apply hoare_pipe_quiet; solve_quiet|]. intros ?.
  eapply hoare_bind; [apply IH|]. intros r. by apply hoare_ret.
Qed.

Lemma hoare_wait_data p : hoare pipes_ok pipes_ok pipes_ok (wait_data p) (λ _, pipes_ok).
Proof.
  apply hoare_mrepeat. eapply hoare_bind; [apply hoare_pipe_quiet; unfold pipe_get; solve_quiet|].
  intros x. apply (hoare_conseq _ _ pipes_ok _ _ (λ _, pipes_ok)); [|done|by intros []].
  apply hoare_pipe_quiet. solve_quiet.
Qed.

(** C16 The ring of a pipe never holds more than [PIPESIZE] bytes: whatever
    processes read, write and close pipes at the same time, and however
    their calls are interleaved at the points where they sleep, every call
    keeps the counters of every pipe within [PIPESIZE] of each other, modulo
    2^32, if the other processes do. *)
Theorem pipe_ring_safe p addr n (writable : bool) :
  hoare pipes_ok pipes_ok pipes_ok (pipewrite p addr n) (λ _, pipes_ok) ∧
  hoare pipes_ok pipes_ok pipes_ok (piperead p addr n) (λ _, pipes_ok) ∧
  hoare pipes_ok pipes_ok pipes_ok (pipeclose p writable) (λ _, pipes_ok).
Proof.
  split_and!.
  - unfold pipewrite. eapply hoare_bind; [apply hoare_pipe_quiet; solve_quiet|]. intros ?.
    eapply hoare_bind; [apply hoare_pipewrite_loop|]. intros ok.
    apply hoare_pipe_quiet. solve_quiet.
  - unfold piperead. eapply hoare_bind; [apply hoare_pipe_quiet; solve_quiet|]. intros ?.
    eapply hoare_bind; [apply hoare_wait_data|]. intros [|]; cbn [negb]; [|by apply hoare_ret].
    eapply hoare_bind; [apply hoare_piperead_loop|]. intros ok.
    apply hoare_pipe_quiet. solve_quiet.
  - unfold pipeclose. eapply hoare_bind; [apply hoare_pipe_quiet; solve_quiet|]. intros ?.
    assert (∀ f, (∀ x, pipe_wf x → pipe_wf (f x)) →
      hoare pipes_ok pipes_ok pipes_ok (pipe_upd p f) (λ _, pipes_ok)) as Hupd.
    { intros f Hf. eapply (hoare_pre _ _ (pipe_is p (λ _, True))); [|by intros k Hk].
      apply hoare_pipe_upd. auto. }
    eapply (hoare_bind _ _ _ _ _ (λ _, pipes_ok)).
    { destruct writable; (eapply hoare_bind; [apply Hupd; intros x []; by split|]);
        intros ?; apply hoare_pipe_quiet; solve_quiet. }
    intros ?. unfold pipe_get. apply hoare_pipe_quiet. solve_quiet.
Qed.
End interference.

(** ** Reading and writing without waiting *)

Lemma wait_space_ok p e k x :
  k_pipe k !! p = Some x → ¬ pipe_full x → wait_space p e k = Ret true e k.
Proof.
  intros Ex Hf. unfold wait_space, mrepeat. cbn [mloop]. rewrite bind_assoc.
  unfold pipe_get. asteps. rewrite Ex. asteps. unfold id.
  by rewrite (proj2 (Z.eqb_neq (pi_nwrite x) _) Hf).
Qed.

(** The bytes of a list put into the ring one by one. *)
Definition puts (bs : list Z) (x : pipe) : pipe := foldl (λ x c, put c x) x bs.

Lemma puts_ok bs x :
  pipe_wf x → pipe_len x + Z.of_nat (length bs) ≤ PIPESIZE →
  pipe_wf (puts bs x) ∧ contents (puts bs x) = contents x ++ bs.
Proof.
  revert x. induction bs as [|c bs IH]; intros x Hx Hl; cbn [length] in *.
  { by rewrite app_nil_r. }
  change (puts (c :: bs) x) with (puts bs (put c x)).
  destruct (IH (put c x)) as [H1 H2].
  - apply put_wf; [done|lia].
  - rewrite put_len by (done || lia). lia.
  - split; [done|]. rewrite H2, put_contents by (done || lia). by rewrite <- app_assoc.
Qed.

Lemma k_pipe_id k p x : k_pipe k !! p = Some x → k <| k_pipe ::= <[p := x]> |> = k.
Proof. intros E. destruct k. unfold upd, set_k_pipe. cbn in *. by rewrite insert_id. Qed.

Lemma pipe_upd_ok p f e k x :
  k_pipe k !! p = Some x → pipe_upd p f e k = Ret tt e (k <| k_pipe ::= <[p := f x]> |>).
Proof.
  intros Ex. unfold pipe_upd, modify. f_equal. upd_ext.
  apply map_eq. intros q. destruct (decide (p = q)) as [->|].
  - by rewrite lookup_alter_eq, lookup_insert_eq, Ex.
  - by rewrite lookup_alter_ne, lookup_insert_ne.
Qed.

Lemma k_pipe_insert k p x y :
  k <| k_pipe ::= <[p := x]> |> <| k_pipe ::= <[p := y]> |> = k <| k_pipe ::= <[p := y]> |>.
Proof. merge_upd. upd_ext. apply insert_insert_eq. Qed.

Lemma pipewrite_loop_ok p bs addr e k x :
  k_pipe k !! p = Some x → pipe_wf x → pipe_len x + Z.of_nat (length bs) ≤ PIPESIZE →
  uread addr (length bs) e k = Ret bs e k →
  pipewrite_loop p addr (length bs) e k = Ret true e (k <| k_pipe ::= <[p := puts bs x]> |>).
Proof.
  revert addr k x. induction bs as [|c bs IH]; intros addr k x Ex Hx Hl Hr;
    cbn [length pipewrite_loop puts foldl] in *.
  { by rewrite k_pipe_id. }
  apply uread_cons in Hr as [Hc Hr].
  mgo (eapply wait_space_ok; [done|]; rewrite pipe_full_len by done; lia). cbn [negb].
  mgo (exact Hc). mgo (by apply pipe_upd_ok). fold (puts bs (put c x)).
  rewrite <- (k_pipe_insert k p (put c x) (puts bs (put c x))). apply IH.
  - rsimpl. apply lookup_insert_eq.
  - apply put_wf; [done|lia].
  - rewrite put_len by (done || lia). lia.
  - by eapply uread_frame; [..|exact Hr].
Qed.

Lemma takes_ok m x :
  pipe_wf x → (m ≤ length (contents x))%nat →
  pipe_wf (Nat.iter m take_out x) ∧ contents (Nat.iter m take_out x) = drop m (contents x).
Proof.
  intros Hx Hm. induction m as [|m IH]; [by rewrite drop_0|].
  destruct IH as [Hw Hc]; [lia|]. rewrite Nat.iter_succ.
  assert (0 < pipe_len (Nat.iter m take_out x)) as Hl.
  { assert (length (contents (Nat.iter m take_out x)) = length (contents x) - m)%nat as E
      by (by rewrite Hc, length_drop).
    rewrite contents_length in E. lia. }
  split; [by apply take_wf|].
  pose proof (take_contents _ Hw Hl) as E. rewrite Hc in E.
  by rewrite <- Nat.add_1_r, <- drop_drop, E.
Qed.

Lemma k_pipe_mem k f g :
  k <| k_mem ::= g |> <| k_pipe ::= f |> = k <| k_pipe ::= f |> <| k_mem ::= g |>.
Proof. reflexivity. Qed.

(** The bytes that [piperead] copies: at most [n], oldest first. *)
Lemma piperead_loop_ok p n addr e k x m :
  k_pipe k !! p = Some x → pipe_wf x →
  umem (k_mem k) (k_cr3 k) addr (take n (contents x)) = Some m →
  let r := Nat.min n (length (contents x)) in
  piperead_loop p addr n e k =
  Ret (Z.of_nat r) e (k <| k_pipe ::= <[p := Nat.iter r take_out x]> |> <| k_mem := m |>).
Proof.
  revert addr k x. induction n as [|n IH]; intros addr k x Ex Hx Hm; cbn [piperead_loop].
  { cbn in Hm. injection Hm as <-. cbn. by rewrite k_pipe_id, k_mem_id. }
  unfold pipe_get. asteps. rewrite Ex. asteps. unfold id.
  destruct (Z.eqb_spec (pi_nread x) (pi_nwrite x)) as [E|E].
  - apply pipe_empty_contents in E; [|done]. rewrite E in *. cbn in Hm. injection Hm as <-.
    cbn. by rewrite k_pipe_id, k_mem_id.
  - assert (0 < pipe_len x) as Hl.
    { rewrite (pipe_empty_len x Hx : pi_nread x = pi_nwrite x ↔ _) in E.
      pose proof (pipe_len_range x). lia. }
    mgo (by apply pipe_upd_ok). rewrite take_contents in Hm by done. cbn [take umem] in Hm.
    destruct (translate _ _ _ _) as [pa|] eqn:Et; [|done]. mgo (by apply ust8_ok).
    mgo (apply (IH _ _ (take_out x)); [rsimpl; apply lookup_insert_eq|by apply take_wf|exact Hm]).
    rewrite (take_contents x) by done. cbn [length Nat.min]. rewrite Nat.iter_succ_r.
    rewrite k_pipe_mem, k_pipe_insert. merge_upd. unfold mret, M_ret. f_equal. lia.
Qed.

Lemma wait_data_ok p e k x :
  k_pipe k !! p = Some x → ¬ pipe_empty x → wait_data p e k = Ret true e k.
Proof.
  intros Ex Hf. unfold wait_data, mrepeat. cbn [mloop]. rewrite bind_assoc.
  unfold pipe_get. asteps. rewrite Ex. asteps. unfold id.
  by rewrite (proj2 (Z.eqb_neq (pi_nread x) _) Hf).
Qed.

(** The state after a call on the pipe [p], which wakes the other side. *)
Definition after_call (p : Z) (x : pipe) (chan : chan_t) (k : kernel) : kernel :=
  k <| k_pipe ::= <[p := x]> |> <| k_proc ::= map (wake (Some chan)) |>.

(** The end of both calls: wake the other side and leave. *)
Lemma pipe_leave {A} p chan (a : A) e k k1 i c x m :
  settled k i c → lock_free k (LkPipe p) → lock_free k LkPtable →
  k1 = (acquired i c (LkPipe p) k) <| k_pipe ::= <[p := x]> |> <| k_mem := m |> →
  (wakeup chan;; release (LkPipe p);; mret a) e k1 =
  Ret a e (after_call p x chan k <| k_mem := m |>).
Proof.
  intros Hs Hl Ht ->. pose proof Hs as (Hc & Hw & _). set (k1 := _ <| k_mem := m |>).
  assert (same_sync k1 (acquired i c (LkPipe p) k)) as Hk by done.
  pose proof (same_sync_settled _ _ _ _ Hk (acquired_settled i c (LkPipe p) k Hc Hw)) as Hs1.
  mgo (eapply wakeup_ok; [apply Hs1|apply Hs1|by eapply same_sync_free, acquired_free]).
  rewrite (touch_settled _ _ _ Hs1).
  by mgo (by apply (release_settled e _ k i c)).
Qed.

Lemma pipewrite_ok p addr bs e k i c x :
  settled k i c → lock_free k (LkPipe p) → lock_free k LkPtable →
  k_pipe k !! p = Some x → pipe_wf x → pipe_len x + Z.of_nat (length bs) ≤ PIPESIZE →
  uread addr (length bs) e k = Ret bs e k →
  pipewrite p addr (Z.of_nat (length bs)) e k =
  Ret (Z.of_nat (length bs)) e (after_call p (puts bs x) (ChNread p) k).
Proof.
  intros Hs Hl Ht Ex Hx Hn Hr. unfold pipewrite. rewrite Nat2Z.id.
  mgo (eapply acquire_free; [apply Hs|apply Hs|done]).
  mgo (eapply pipewrite_loop_ok; [exact Ex|done|done|by eapply uread_frame; [..|exact Hr]]).
  cbn [negb]. erewrite pipe_leave; [|exact Hs|done|done|].
  - by rewrite k_mem_id.
  - by rewrite k_mem_id.
Qed.

Lemma piperead_ok p addr n e k i c x m :
  settled k i c → lock_free k (LkPipe p) → lock_free k LkPtable →
  k_pipe k !! p = Some x → pipe_wf x → ¬ pipe_empty x →
  umem (k_mem k) (k_cr3 k) addr (take (Z.to_nat n) (contents x)) = Some m →
  let r := Nat.min (Z.to_nat n) (length (contents x)) in
  piperead p addr n e k =
  Ret (Z.of_nat r) e (after_call p (Nat.iter r take_out x) (ChNwrite p) k <| k_mem := m |>).
Proof.
  intros Hs Hl Ht Ex Hx Hne Hm r. unfold piperead.
  mgo (eapply acquire_free; [apply Hs|apply Hs|done]).
  mgo (eapply wait_data_ok; [exact Ex|done]). cbn [negb].
  mgo (eapply piperead_loop_ok; [exact Ex|done|exact Hm]).
  by eapply pipe_leave.
Qed.

(** C17 A pipe is a queue: what one call writes, later calls read, in order
    and once.  With room for the bytes [bs] at [a], [pipewrite] returns their
    number, and a [piperead] of up to [m] bytes then copies the first [m] of
    the bytes that were in the pipe followed by [bs] to [b] and leaves the
    rest. *)
Theorem pipe_roundtrip p a b bs n e k i c x m :
  settled k i c → lock_free k (LkPipe p) → lock_free k LkPtable →
  k_pipe k !! p = Some x → pipe_wf x →
  0 < pipe_len x + Z.of_nat (length bs) ≤ PIPESIZE →
  uread a (length bs) e k = Ret bs e k →
  let q := contents x ++ bs in
  umem (k_mem k) (k_cr3 k) b (take n q) = Some m →
  ∃ k' x',
    (w ← pipewrite p a (Z.of_nat (length bs)); r ← piperead p b (Z.of_nat n); mret (w, r)) e k =
      Ret (Z.of_nat (length bs), Z.of_nat (Nat.min n (length q))) e k' ∧
    k_mem k' = m ∧ k_pipe k' !! p = Some x' ∧ pipe_wf x' ∧ contents x' = drop n q.
Proof.
  intros Hs Hl Ht Ex Hx Hn Hr q Hm. destruct (puts_ok bs x Hx) as [Hw Hq]; [lia|].
  fold q in Hq. set (r := Nat.min n (length q)).
  set (k1 := after_call p (puts bs x) (ChNread p) k).
  pose proof (piperead_ok p b (Z.of_nat n) e k1 i c (puts bs x) m) as E2. cbv zeta in E2.
  rewrite Nat2Z.id, Hq in E2. fold r in E2.
  eexists _, (Nat.iter r take_out (puts bs x)). split; [|split_and!].
  - mgo (by eapply pipewrite_ok; eauto; lia). fold k1. rewrite bind_eq, E2; [reflexivity|..].
    + by apply (same_sync_settled k1 k).
    + done.
    + done.
    + unfold k1, after_call. rsimpl. apply lookup_insert_eq.
    + done.
    + rewrite pipe_empty_contents, Hq by done. intros H. apply (f_equal length) in H.
      unfold q in H. rewrite length_app, contents_length in H. cbn in H.
      pose proof (pipe_len_range x). lia.
    + exact Hm.
  - done.
  - unfold after_call. rsimpl. apply lookup_insert_eq.
  - apply takes_ok; [done|rewrite Hq; lia].
  - destruct (takes_ok r (puts bs x) Hw) as [_ E]; [rewrite Hq; lia|]. rewrite E, Hq.
    unfold r. destruct (decide (n ≤ length q)%nat); [by rewrite Nat.min_l|].
    rewrite Nat.min_r by lia. by rewrite !drop_ge by lia.
Qed.

(** A process with one page of memory, which starts with the bytes 65, 66, 67,
    and a pipe whose counters are about to wrap. *)
Definition k_piped : kernel :=
  zero_kernel <| k_proc := [mkproc RUNNING 1 2] |>
    <| k_cpus := [Cpu 0 0 true 0 false (Some 0%nat)] |>
    <| k_cr3 := 0x1000 |>
    <| k_mem := wrn (st32 (st32 ∅ 0x1000 0x2007) 0x2000 0x3007) 0x3000 [65; 66; 67] |>
    <| k_locks ::= <[LkPipe 0x80009000 := unlocked]> |>
    <| k_pipe := {[0x80009000 :=
         Pipe (replicate 512 0) (2 ^ 32 - 2) (2 ^ 32 - 2) true true]} |>.

Lemma pipe_roundtrip_witness :
  ∃ k', (w ← pipewrite 0x80009000 0 3; r ← piperead 0x80009000 100 2; mret (w, r)) [] k_piped =
    Ret (3, 2) [] k' ∧ rd (k_mem k') 0x3064 = 65 ∧ rd (k_mem k') 0x3065 = 66 ∧
    contents <$> k_pipe k' !! 0x80009000 = Some [67].
Proof.
  destruct (pipe_roundtrip 0x80009000 0 100 [65; 66; 67] 2 [] k_piped 0
    (Cpu 0 0 true 0 false (Some 0%nat))
    (Pipe (replicate 512 0) (2 ^ 32 - 2) (2 ^ 32 - 2) true true)
    (wrn (k_mem k_piped) 0x3064 [65; 66])) as (k' & x' & E & Em & Ex & _ & Ec).
  - repeat split; cbn; lia.
  - reflexivity.
  - reflexivity.
  - reflexivity.
  - split; vm_compute; by split_and?.
  - split; vm_compute; congruence.
  - vm_compute. reflexivity.
  - vm_compute. reflexivity.
  - exists k'. split; [exact E|]. rewrite Em, Ex. cbn. rewrite Ec. vm_compute. by split_and!.
Defined.
