(* ===== verification/Bio.v ===== *)
(** * The disk and the buffer cache (buf.h, ide.c, memide.c, bio.c)

    [iderw] is the interface to the disk: [Class Disk].  memide.c implements
    it by copying to and from a disk in memory, ide.c by a queue of requests
    that the interrupt handler serves; the buffer cache, the log and the file
    system above are written against the class.

    The disk is [k_disk], block by block; [k_dtrace] records the writes it has
    done, which are what a crash leaves behind. *)

From S2P Require Import Prelude State Spinlock Sched Sleep Sleeplock.

(** [src/xv6-public/buf.h:12] buffer has been read from disk *)
Definition B_VALID : Z := 0x2.
(** [src/xv6-public/buf.h:13] buffer needs to be written to disk *)
Definition B_DIRTY : Z := 0x4.

Definition buf_get {A} (b : nat) (f : buf → A) : KM A :=
  k ← mget; x ← deref (k_buf k !! b); mret (f x).
Definition buf_upd (b : nat) (f : buf → buf) : KM unit :=
  modify (λ k, k <| k_buf ::= alter f b |>).

(** The disk has done the write of [data] to block [n]. *)
Definition disk_write (n : Z) (data : list Z) (k : kernel) : kernel :=
  k <| k_disk ::= <[n := data]> |> <| k_dtrace ::= cons (n, data) |>.

(** Sync a locked buffer with the disk. *)
Class Disk := iderw : nat → KM unit.

(** ** The contents of a block

    Little-endian numbers in a list of bytes. *)

Definition get8 (l : list Z) (o : Z) : Z := default 0 (l !! Z.to_nat o).
Definition put8 (l : list Z) (o v : Z) : list Z := <[Z.to_nat o := v mod 256]> l.
Definition get16 (l : list Z) (o : Z) : Z := get8 l o + 256 * get8 l (o + 1).
Definition put16 (l : list Z) (o v : Z) : list Z := put8 (put8 l o v) (o + 1) (v / 256).
Definition get32 (l : list Z) (o : Z) : Z := get16 l o + 65536 * get16 l (o + 2).
Definition put32 (l : list Z) (o v : Z) : list Z :=
  put16 (put16 l o v) (o + 2) (v / 65536).

(** The bytes [bs] copied over [l] from offset [o] on, and [n] bytes of [l]. *)
Definition splice (l : list Z) (o : Z) (bs : list Z) : list Z :=
  take (Z.to_nat o) l ++ bs ++ drop (Z.to_nat o + length bs) l.
Definition slice (l : list Z) (o n : Z) : list Z := take (Z.to_nat n) (drop (Z.to_nat o) l).

(** ** The disk in memory *)

Module Memide.

(** [src/xv6-public/memide.c:28-33] *)
Definition ideintr : KM unit := mret tt.

(** [src/xv6-public/memide.c:38-60] the blocks of the image are the ones [k_disk]
    has *)
Definition iderw (b : nat) : KM unit :=
  h ← holdingsleep (SlBuf b);
  if negb h then mpanic "iderw: buf not locked" else
  x ← buf_get b id;
  if Z.land (b_flags x) (Z.lor B_VALID B_DIRTY) =? B_VALID
  then mpanic "iderw: nothing to do" else
  if negb (b_dev x =? 1) then mpanic "iderw: request not for disk 1" else
  k ← mget;
  match k_disk k !! b_blockno x with
  | None => mpanic "iderw: block out of range"
  | Some p =>
    (if truthy (Z.land (b_flags x) B_DIRTY) then
       buf_upd b (λ x, x <| b_flags ::= λ f, Z.land f (Z.lnot B_DIRTY) |>);;
       modify (disk_write (b_blockno x) (b_data x))
     else buf_upd b (λ x, x <| b_data := p |>));;
    buf_upd b (λ x, x <| b_flags ::= λ f, Z.lor f B_VALID |>)
  end.

#[export] Instance disk : Disk := iderw.

End Memide.

(** ** The IDE disk

    The device takes the data of a write when it is started, and gives the
    block back when a finished read is fetched; it never reports an error,
    and the requests are for disk 1. *)

Module Ide.

(** [src/xv6-public/ide.c:73-100] sectors are blocks, since both are 512 bytes *)
Definition idestart (b : option nat) : KM unit :=
  match b with
  | None => mpanic "idestart"
  | Some b =>
    x ← buf_get b id;
    if b_blockno x >=? FSSIZE then mpanic "incorrect blockno" else
    when (truthy (Z.land (b_flags x) B_DIRTY))
      (modify (disk_write (b_blockno x) (b_data x)))
  end.

(** [src/xv6-public/ide.c:103-131] *)
Definition ideintr : KM unit :=
  acquire LkIde;;
  q ← gets k_idequeue;
  match q with
  | None => release LkIde
  | Some b =>
    x ← buf_get b id;
    modify (λ k, k <| k_idequeue := b_qnext x |>);;
    (if negb (truthy (Z.land (b_flags x) B_DIRTY)) then
       k ← mget;
       data ← deref (k_disk k !! b_blockno x);
       buf_upd b (λ x, x <| b_data := data |>)
     else mret tt);;
    buf_upd b (λ x, x <| b_flags ::= λ f, Z.lor f B_VALID |>);;
    buf_upd b (λ x, x <| b_flags ::= λ f, Z.land f (Z.lnot B_DIRTY) |>);;
    wakeup (ChBuf b);;
    q ← gets k_idequeue;
    (match q with Some _ => idestart q | None => mret tt end);;
    release LkIde
  end.

(** [src/xv6-public/ide.c:153-155] the walk to the end of the queue, from the
    buffer [b] in it *)
Fixpoint append_after (fuel : nat) (b new : nat) : KM unit :=
  match fuel with
  | O => λ _ k, NoFuel k
  | S fuel =>
    next ← buf_get b b_qnext;
    match next with
    | None => buf_upd b (λ x, x <| b_qnext := Some new |>)
    | Some next => append_after fuel next new
    end
  end.

(** [src/xv6-public/ide.c:137-168] a queue holds each of the [NBUF] buffers at most
    once *)
Definition iderw (b : nat) : KM unit :=
  h ← holdingsleep (SlBuf b);
  if negb h then mpanic "iderw: buf not locked" else
  x ← buf_get b id;
  if Z.land (b_flags x) (Z.lor B_VALID B_DIRTY) =? B_VALID
  then mpanic "iderw: nothing to do" else
  havedisk1 ← gets k_havedisk1;
  if negb (b_dev x =? 0) && negb havedisk1
  then mpanic "iderw: ide disk 1 not present" else
  acquire LkIde;;
  buf_upd b (λ x, x <| b_qnext := None |>);;
  q ← gets k_idequeue;
  (match q with
   | None => modify (λ k, k <| k_idequeue := Some b |>)
   | Some q => append_after NBUF q b
   end);;
  q ← gets k_idequeue;
  when (bool_decide (q = Some b)) (idestart (Some b));;
  mwait (f ← buf_get b b_flags;
         mret (negb (Z.land f (Z.lor B_VALID B_DIRTY) =? B_VALID)))
        (sleep (ChBuf b) LkIde);;
  release LkIde.

#[export] Instance disk : Disk := iderw.

End Ide.

(** ** The buffer cache *)

(** The index of [bcache.head]. *)
Definition head : nat := NBUF.

(** [src/xv6-public/bio.c:134-137] *)
Definition link_first (b : nat) : KM unit :=
  first ← buf_get head b_next;
  buf_upd b (λ x, x <| b_next := first |>);;
  buf_upd b (λ x, x <| b_prev := head |>);;
  first ← buf_get head b_next;
  buf_upd first (λ x, x <| b_prev := b |>);;
  buf_upd head (λ x, x <| b_next := b |>).

(** [src/xv6-public/bio.c:49-55] *)
Fixpoint binit_loop (bs : list nat) : KM unit :=
  match bs with
  | [] => mret tt
  | b :: bs =>
    first ← buf_get head b_next;
    buf_upd b (λ x, x <| b_next := first |>);;
    buf_upd b (λ x, x <| b_prev := head |>);;
    initsleeplock (SlBuf b);;
    first ← buf_get head b_next;
    buf_upd first (λ x, x <| b_prev := b |>);;
    buf_upd head (λ x, x <| b_next := b |>);;
    binit_loop bs
  end.

(** [src/xv6-public/bio.c:38-56] *)
Definition binit : KM unit :=
  initlock LkBcache;;
  buf_upd head (λ x, x <| b_prev := head |>);;
  buf_upd head (λ x, x <| b_next := head |>);;
  binit_loop (seq 0 NBUF).

(** [for(b = start; b != &bcache.head; b = dir(b)) if(P(b)) ...] *)
Fixpoint bfind (fuel : nat) (dir : buf → nat) (P : buf → bool) (b : nat) : KM (option nat) :=
  match fuel with
  | O => λ _ k, NoFuel k
  | S fuel =>
    if bool_decide (b = head) then mret None else
    x ← buf_get b id;
    if P x then mret (Some b) else bfind fuel dir P (dir x)
  end.

(** [src/xv6-public/bio.c:61-93] *)
Definition bget (dev blockno : Z) : KM nat :=
  acquire LkBcache;;
  first ← buf_get head b_next;
  r ← bfind (S NBUF) b_next (λ x, (b_dev x =? dev) && (b_blockno x =? blockno)) first;
  match r with
  | Some b =>
    buf_upd b (λ x, x <| b_refcnt ::= λ n, n + 1 |>);;
    release LkBcache;;
    acquiresleep (SlBuf b);;
    mret b
  | None =>
    last ← buf_get head b_prev;
    r ← bfind (S NBUF) b_prev
          (λ x, (b_refcnt x =? 0) && (Z.land (b_flags x) B_DIRTY =? 0)) last;
    match r with
    | Some b =>
      buf_upd b (λ x, x <| b_dev := dev |>);;
      buf_upd b (λ x, x <| b_blockno := blockno |>);;
      buf_upd b (λ x, x <| b_flags := 0 |>);;
      buf_upd b (λ x, x <| b_refcnt := 1 |>);;
      release LkBcache;;
      acquiresleep (SlBuf b);;
      mret b
    | None => mpanic "bget: no buffers"
    end
  end.

Section bio.
Context `{Disk}.

(** [src/xv6-public/bio.c:96-106] *)
Definition bread (dev blockno : Z) : KM nat :=
  b ← bget dev blockno;
  flags ← buf_get b b_flags;
  when (Z.land flags B_VALID =? 0) (iderw b);;
  mret b.

(** [src/xv6-public/bio.c:109-116] *)
Definition bwrite (b : nat) : KM unit :=
  h ← holdingsleep (SlBuf b);
  if negb h then mpanic "bwrite" else
  buf_upd b (λ x, x <| b_flags ::= λ f, Z.lor f B_DIRTY |>);;
  iderw b.
End bio.

(** [src/xv6-public/bio.c:120-141] *)
Definition brelse (b : nat) : KM unit :=
  h ← holdingsleep (SlBuf b);
  if negb h then mpanic "brelse" else
  releasesleep (SlBuf b);;
  acquire LkBcache;;
  buf_upd b (λ x, x <| b_refcnt ::= λ n, n - 1 |>);;
  refcnt ← buf_get b b_refcnt;
  (if refcnt =? 0 then
     next ← buf_get b b_next;
     prev ← buf_get b b_prev;
     buf_upd next (λ x, x <| b_prev := prev |>);;
     prev ← buf_get b b_prev;
     next ← buf_get b b_next;
     buf_upd prev (λ x, x <| b_next := next |>);;
     link_first b
   else mret tt);;
  release LkBcache.
