(* ===== verification/Bytes.v ===== *)
(** * Numbers in blocks

    The little-endian fields that log headers, dinodes and directory entries
    are made of ([get16], [put32], ... of Bio.v): a field that was written
    reads back, and the writes of other fields do not disturb it. *)

From S2P Require Import Prelude State Bio.

Lemma length_put8 l o v : length (put8 l o v) = length l.
Proof. apply length_insert. Qed.
Lemma length_put16 l o v : length (put16 l o v) = length l.
Proof. unfold put16. by rewrite !length_put8. Qed.
Lemma length_put32 l o v : length (put32 l o v) = length l.
Proof. unfold put32. by rewrite !length_put16. Qed.

Lemma get8_put8_eq l o v : 0 ≤ o < Z.of_nat (length l) → get8 (put8 l o v) o = v mod 256.
Proof. intros H. unfold get8, put8. rewrite list_lookup_insert_eq by lia. done. Qed.
Lemma get8_put8_ne l o o' v : 0 ≤ o → 0 ≤ o' → o ≠ o' → get8 (put8 l o v) o' = get8 l o'.
Proof. intros. unfold get8, put8. by rewrite list_lookup_insert_ne by lia. Qed.

Lemma get16_put16_eq l o v :
  0 ≤ o → o + 2 ≤ Z.of_nat (length l) → get16 (put16 l o v) o = v mod 65536.
Proof.
  intros Ho Hl. unfold get16, put16.
  rewrite get8_put8_ne, get8_put8_eq by lia. rewrite get8_put8_eq by (rewrite length_put8; lia).
  change 65536 with (256 * 256). rewrite Z.rem_mul_r by lia. done.
Qed.
Lemma get16_put8_ne l o o' v :
  0 ≤ o → 0 ≤ o' → o + 1 ≤ o' ∨ o' + 2 ≤ o → get16 (put8 l o v) o' = get16 l o'.
Proof. intros. unfold get16. by rewrite !get8_put8_ne by lia. Qed.
Lemma get16_put16_ne l o o' v :
  0 ≤ o → 0 ≤ o' → o + 2 ≤ o' ∨ o' + 2 ≤ o → get16 (put16 l o v) o' = get16 l o'.
Proof. intros. unfold put16. by rewrite !get16_put8_ne by lia. Qed.
Lemma get16_put32_ne l o o' v :
  0 ≤ o → 0 ≤ o' → o + 4 ≤ o' ∨ o' + 2 ≤ o → get16 (put32 l o v) o' = get16 l o'.
Proof. intros. unfold put32. by rewrite !get16_put16_ne by lia. Qed.

Lemma get32_put32_eq l o v :
  0 ≤ o → o + 4 ≤ Z.of_nat (length l) → get32 (put32 l o v) o = wrap32 v.
Proof.
  intros Ho Hl. unfold get32, put32, wrap32.
  rewrite get16_put16_ne, get16_put16_eq by lia. rewrite get16_put16_eq by (rewrite ?length_put16; lia).
  change (2 ^ 32) with (65536 * 65536). rewrite Z.rem_mul_r by lia. done.
Qed.
Lemma get32_put16_ne l o o' v :
  0 ≤ o → 0 ≤ o' → o + 2 ≤ o' ∨ o' + 4 ≤ o → get32 (put16 l o v) o' = get32 l o'.
Proof. intros. unfold get32. by rewrite !get16_put16_ne by lia. Qed.
Lemma get32_put32_ne l o o' v :
  0 ≤ o → 0 ≤ o' → o + 4 ≤ o' ∨ o' + 4 ≤ o → get32 (put32 l o v) o' = get32 l o'.
Proof. intros. unfold put32. by rewrite !get32_put16_ne by lia. Qed.
