(* ===== verification/Bcache.v ===== *)
(** * The buffer cache, proved (bio.c)

    [ring]: the buffers form one doubly linked list through [bcache.head].
    The operations of bio.c are shown on a list of buffers first: scans visit
    the ring once, [brelse] moves a buffer to its front.  Then, for a process
    that runs undisturbed on the disk in memory, [bread], [bwrite] and
    [brelse] are reads and writes of one copy of each disk block ([bread_ok],
    [bwrite_ok], [brelse_ok]); log.c is proved above that. *)

From S2P Require Import Prelude State Spinlock Sched Sleep Sleeplock Bio.

(** ** The ring *)

Definition nxt (bs : list buf) (x : nat) : option nat := b_next <$> bs !! x.
Definition prv (bs : list buf) (x : nat) : option nat := b_prev <$> bs !! x.

(** [y] is behind [x]. *)
Definition link (bs : list buf) (x y : nat) : Prop := nxt bs x = Some y ∧ prv bs y = Some x.

(** From [x] through [l] to the last of them, [p]. *)
Fixpoint path (bs : list buf) (x : nat) (l : list nat) (p : nat) : Prop :=
  match l with [] => p = x | z :: l => link bs x z ∧ path bs z l p end.

(** The buffers in order, from the most recently used. *)
Record ring (bs : list buf) (order : list nat) : Prop := {
  ring_len : length bs = S NBUF;
  ring_perm : order ≡ₚ seq 0 NBUF;
  ring_path : ∃ p, path bs head order p ∧ link bs p head;
}.

Lemma ring_nodup bs order : ring bs order → NoDup (head :: order).
Proof.
  intros H. rewrite (ring_perm _ _ H). constructor; [|apply NoDup_seq].
  rewrite elem_of_seq. unfold head. lia.
Qed.

Lemma ring_in bs order b : ring bs order → b ∈ order ↔ (b < NBUF)%nat.
Proof. intros H. rewrite (ring_perm _ _ H), elem_of_seq. lia. Qed.

Lemma path_app bs x l z l' p :
  path bs x (l ++ z :: l') p ↔ ∃ q, path bs x l q ∧ link bs q z ∧ path bs z l' p.
Proof.
  revert x. induction l as [|y l IH]; intros x; cbn.
  - split; [intros [? ?]; by exists x|intros (? & -> & ?); done].
  - rewrite IH. naive_solver.
Qed.

Lemma path_last bs x l p : path bs x l p → p ∈ x :: l.
Proof.
  revert x. induction l as [|z l IH]; intros x; cbn; [intros ->; by left|].
  intros [_ H%IH]. by right.
Qed.

Lemma path_ext bs bs' x l p :
  path bs x l p → NoDup (x :: l) →
  (∀ z, z ∈ x :: l → z ≠ p → nxt bs' z = nxt bs z) → (∀ z, z ∈ l → prv bs' z = prv bs z) →
  path bs' x l p.
Proof.
  revert x. induction l as [|z l IH]; intros x; cbn; [done|].
  intros [[Hn Hp] Hl] [Hx Hnd]%NoDup_cons H1 H2. split.
  - split; [|by rewrite H2 by (by left)]. rewrite H1; [done|by left|].
    intros ->. by apply path_last in Hl.
  - apply IH; [done..| |].
    + intros y Hy. apply H1. by right.
    + intros y Hy. apply H2. by right.
Qed.

#[local] Opaque head.

(** ** Changing links *)

Definition set_next (v : nat) (x : buf) : buf := x <| b_next := v |>.
Definition set_prev (v : nat) (x : buf) : buf := x <| b_prev := v |>.

Lemma nxt_set_next bs y v z :
  nxt (alter (set_next v) y bs) z =
  if decide (z = y) then (λ _, v) <$> bs !! y else nxt bs z.
Proof.
  unfold nxt. case_decide as E; [subst; rewrite list_lookup_alter_eq; by destruct (bs !! y)|].
  by rewrite list_lookup_alter_ne.
Qed.
Lemma prv_set_prev bs y v z :
  prv (alter (set_prev v) y bs) z =
  if decide (z = y) then (λ _, v) <$> bs !! y else prv bs z.
Proof.
  unfold prv. case_decide as E; [subst; rewrite list_lookup_alter_eq; by destruct (bs !! y)|].
  by rewrite list_lookup_alter_ne.
Qed.
Lemma nxt_set_prev bs y v z : nxt (alter (set_prev v) y bs) z = nxt bs z.
Proof.
  unfold nxt. destruct (decide (z = y)) as [->|]; [|by rewrite list_lookup_alter_ne].
  rewrite list_lookup_alter_eq. by destruct (bs !! y).
Qed.
Lemma prv_set_next bs y v z : prv (alter (set_next v) y bs) z = prv bs z.
Proof.
  unfold prv. destruct (decide (z = y)) as [->|]; [|by rewrite list_lookup_alter_ne].
  rewrite list_lookup_alter_eq. by destruct (bs !! y).
Qed.

Create Rewrite HintDb links.
#[export] Hint Rewrite nxt_set_next prv_set_prev nxt_set_prev prv_set_next @length_alter : links.

(** [b->next->prev = b->prev; b->prev->next = b->next;] *)
Definition unlinked (p b q : nat) (bs : list buf) : list buf :=
  alter (set_next q) p (alter (set_prev p) q bs).

(** [link_first] with [f] the first buffer. *)
Definition pushed (b f : nat) (bs : list buf) : list buf :=
  alter (set_next b) head (alter (set_prev b) f (alter (set_prev head) b (alter (set_next f) b bs))).

Definition circ (bs : list buf) (m : list nat) : Prop := ∃ p, path bs head m p ∧ link bs p head.

Lemma link_some bs x y : link bs x y → is_Some (bs !! x) ∧ is_Some (bs !! y).
Proof.
  intros [H1 H2]. unfold nxt in H1. unfold prv in H2.
  by destruct (bs !! x), (bs !! y).
Qed.

Ltac links := autorewrite with links; repeat case_decide; subst; try done; try congruence.

Ltac lookups :=
  repeat first [rewrite list_lookup_alter_eq | rewrite list_lookup_alter_ne by done].

Lemma unlink_circ bs l1 b l2 :
  circ bs (l1 ++ b :: l2) → NoDup (head :: l1 ++ b :: l2) →
  ∃ p q, nxt bs b = Some q ∧ prv bs b = Some p ∧ p ≠ b ∧ q ≠ b ∧
    circ (unlinked p b q bs) (l1 ++ l2).
Proof.
  intros (r & Hp & Hr) Hnd. apply path_app in Hp as (p & Hl1 & Hpb & Hl2).
  assert (NoDup (head :: l1)) as Hnd1.
  { rewrite app_comm_cons in Hnd. by apply NoDup_app in Hnd as (? & _). }
  assert (NoDup (b :: l2)) as Hnd2.
  { apply NoDup_cons in Hnd as [_ Hnd]. by apply NoDup_app in Hnd as (_ & _ & ?). }
  assert (∀ z, z ∈ head :: l1 → z ∉ b :: l2) as Hdis.
  { rewrite app_comm_cons in Hnd. by apply NoDup_app in Hnd as (_ & ? & _). }
  pose proof Hnd1 as [Hhd _]%NoDup_cons.
  pose proof (path_last _ _ _ _ Hl1) as Hpin. destruct (link_some _ _ _ Hpb) as [[xp Ep] _].
  destruct l2 as [|q l2].
  - cbn in Hl2. subst r. exists p, head. split; [apply Hr|]. split; [apply Hpb|].
    split; [intros ->; apply (Hdis b); set_solver|]. split; [intros <-; apply (Hdis head); set_solver|].
    rewrite app_nil_r. exists p. split.
    + eapply path_ext; [exact Hl1|done|..]; intros z Hz; try intros Hzp; unfold unlinked; links; exfalso; set_solver.
    + destruct (link_some _ _ _ Hr) as [_ [xh Eh]]. unfold unlinked. split; links.
      * destruct (decide (p = head)) as [->|].
        -- by rewrite list_lookup_alter_eq, Eh.
        -- by rewrite list_lookup_alter_ne, Ep.
      * by rewrite Eh.
  - destruct Hl2 as [Hbq Hl2]. exists p, q. split; [apply Hbq|]. split; [apply Hpb|].
    destruct (link_some _ _ _ Hbq) as [_ [xq Eq]].
    assert (p ≠ q) by (intros ->; apply (Hdis q); set_solver).
    split; [intros ->; apply (Hdis b); set_solver|].
    split; [intros ->; apply NoDup_cons in Hnd2 as [? _]; set_solver|].
    exists r. split; [apply path_app; exists p; split_and!|].
    + eapply path_ext; [exact Hl1|done|..]; intros z Hz; try intros Hzp; unfold unlinked; links; exfalso; set_solver.
    + unfold unlinked. split; links; [by rewrite list_lookup_alter_ne, Ep|by rewrite Eq].
    + apply NoDup_cons in Hnd2 as [_ Hnd2].
      eapply path_ext; [exact Hl2|done|..]; intros z Hz; try intros Hzp; unfold unlinked;
        apply NoDup_cons in Hnd2 as [? _]; links; exfalso; set_solver.
    + destruct Hr as [Hr1 Hr2]. apply path_last in Hl2. unfold unlinked.
      assert (r ≠ p) by (intros ->; apply (Hdis p); set_solver).
      assert (head ≠ q) by (intros E; apply (Hdis q); rewrite <- ?E; set_solver).
      split; links.
Qed.

Lemma circ_first bs m : circ bs m → nxt bs head = Some (hd head m).
Proof. intros (p & Hp & Hl). destruct m as [|f m]; cbn in *; [subst; apply Hl|apply Hp]. Qed.

Lemma push_circ bs b m :
  circ bs m → NoDup (head :: m) → b ∉ head :: m → is_Some (bs !! b) →
  circ (pushed b (hd head m) bs) (b :: m).
Proof.
  intros (p & Hp & Hl) Hnd Hb [xb Eb]. apply not_elem_of_cons in Hb as [Hbh Hbm].
  apply NoDup_cons in Hnd as [Hhm Hnd]. destruct m as [|f m]; cbn [hd path] in *.
  - subst p. destruct (link_some _ _ _ Hl) as [[xh Eh] _]. exists b. cbn. split; [split; [|done]|].
    + split; unfold pushed; links; lookups; by rewrite ?Eb, ?Eh.
    + split; unfold pushed; links; lookups; by rewrite ?Eb, ?Eh.
  - destruct Hp as [Hhf Hp]. destruct (link_some _ _ _ Hhf) as [[xh Eh] [xf Ef]].
    pose proof (path_last _ _ _ _ Hp) as Hpin.
    assert (f ≠ head ∧ b ≠ f ∧ p ≠ head ∧ p ≠ b) as (Hfh & Hbf & Hph & Hpb) by set_solver.
    exists p. cbn [path]. split_and!.
    + split; unfold pushed; links; lookups; by rewrite ?Eb, ?Eh, ?Ef.
    + split; unfold pushed; links; lookups; by rewrite ?Eb, ?Eh, ?Ef.
    + eapply path_ext; [exact Hp|done|..]; intros z Hz; try intros Hzp; unfold pushed;
        apply NoDup_cons in Hnd as [? _]; links; exfalso; set_solver.
    + destruct Hl as [Hl1 Hl2]. split; unfold pushed; links.
Qed.

(** A buffer without its links. *)
Definition bare (x : buf) : buf := x <| b_next := O |> <| b_prev := O |>.

Lemma bare_alter (f : buf → buf) (b : nat) (bs : list buf) :
  (∀ x, bare (f x) = bare x) → bare <$> alter f b bs = bare <$> bs.
Proof.
  intros Hf. apply list_eq. intros i. rewrite !list_lookup_fmap.
  destruct (decide (i = b)) as [->|]; [|by rewrite list_lookup_alter_ne].
  rewrite list_lookup_alter_eq. destruct (bs !! b); cbn; [|done]. by rewrite Hf.
Qed.

Lemma bare_unlinked p b q bs : bare <$> unlinked p b q bs = bare <$> bs.
Proof. unfold unlinked. by rewrite !bare_alter. Qed.
Lemma bare_pushed b f bs : bare <$> pushed b f bs = bare <$> bs.
Proof. unfold pushed. by rewrite !bare_alter. Qed.

(** [brelse] of an unused buffer moves it to the front of the ring. *)
Lemma move_to_front bs order b :
  ring bs order → b ∈ order →
  ∃ p q, nxt bs b = Some q ∧ prv bs b = Some p ∧ p ≠ b ∧ q ≠ b ∧ b ≠ head ∧
    ∃ f, nxt (unlinked p b q bs) head = Some f ∧
    ∃ order', ring (pushed b f (unlinked p b q bs)) order'.
Proof.
  intros H Hb. apply list_elem_of_split in Hb as (l1 & l2 & ->).
  pose proof (ring_nodup _ _ H) as Hnd. pose proof (ring_perm _ _ H) as Hperm.
  pose proof (ring_len _ _ H) as Hlen. destruct (unlink_circ bs l1 b l2) as (p & q & Hq & Hp & Hpb & Hqb & Hc);
    [apply H|done|].
  exists p, q. do 4 (split; [done|]). split.
  { intros ->. apply NoDup_cons in Hnd as [? _]. set_solver. }
  exists (hd head (l1 ++ l2)).
  split; [by apply circ_first|]. exists (b :: l1 ++ l2). rewrite <- Permutation_middle in Hnd, Hperm.
  split.
  - unfold pushed, unlinked. by rewrite !length_alter.
  - done.
  - apply NoDup_cons in Hnd as [Hh [Hb Hnd]%NoDup_cons]. apply not_elem_of_cons in Hh as [? ?].
    apply push_circ; [done|by constructor|by apply not_elem_of_cons|].
    unfold nxt in Hq. unfold unlinked. destruct (bs !! b) eqn:E; [|done].
    apply lookup_lt_is_Some. rewrite !length_alter. by eapply lookup_lt_Some.
Qed.

(** ** Scans *)

Lemma buf_get_ok {A} (f : buf → A) b x e k :
  k_buf k !! b = Some x → buf_get b f e k = Ret (f x) e k.
Proof. intros E. unfold buf_get. msteps. by rewrite E. Qed.

(** Following [dir] from the first of [l] visits [l] and then [e]. *)
Fixpoint chain (bs : list buf) (dir : buf → nat) (l : list nat) (e : nat) : Prop :=
  match l with
  | [] => True
  | x :: l => dir <$> bs !! x = Some (hd e l) ∧ chain bs dir l e
  end.

Lemma chain_snoc bs dir l z e : chain bs dir (l ++ [z]) e ↔ chain bs dir l z ∧ dir <$> bs !! z = Some e.
Proof.
  induction l as [|x l IH]; cbn; [tauto|]. rewrite IH.
  replace (hd e (l ++ [z])) with (hd z l) by (by destruct l). tauto.
Qed.

Lemma path_next bs x l p e : path bs x l p → nxt bs p = Some e → chain bs b_next (x :: l) e.
Proof.
  revert x. induction l as [|z l IH]; intros x; cbn [path]; [intros -> ?; by split|].
  intros [[? _] Hl] Hp. split; [done|]. by apply IH.
Qed.

Lemma path_prev bs x l p : path bs x l p → chain bs b_prev (rev l) x ∧ hd x (rev l) = p.
Proof.
  revert x. induction l as [|z l IH]; intros x; cbn [path rev]; [done|].
  intros [[_ Hz] [Hc Hp]%IH]. split; [by apply chain_snoc|].
  destruct (rev l); cbn in *; done.
Qed.

Definition holds (P : buf → bool) (bs : list buf) (b : nat) : bool :=
  match bs !! b with Some x => P x | None => false end.

Lemma bfind_chain fuel dir P l e k :
  chain (k_buf k) dir l head → head ∉ l → (length l < fuel)%nat →
  bfind fuel dir P (hd head l) e k = Ret (List.find (holds P (k_buf k)) l) e k.
Proof.
  revert l. induction fuel as [|fuel IH]; intros l Hc Hh Hf; [lia|]. destruct l as [|x l]; cbn [bfind hd].
  { by rewrite bool_decide_eq_true_2. }
  apply not_elem_of_cons in Hh as [Hx Hh]. rewrite bool_decide_eq_false_2 by done.
  destruct Hc as [Hx' Hc]. cbn [List.find]. unfold holds at 1.
  destruct (k_buf k !! x) as [y|] eqn:E; [|done]. mgo (by apply buf_get_ok). unfold id.
  destruct (P y); [done|]. injection Hx' as ->. apply IH; [done..|cbn in Hf; lia].
Qed.

(** The two scans of [bget]. *)
Lemma bfind_next order P e k :
  ring (k_buf k) order →
  ∃ first, nxt (k_buf k) head = Some first ∧
    bfind (S NBUF) b_next P first e k = Ret (List.find (holds P (k_buf k)) order) e k.
Proof.
  intros H. pose proof (ring_path _ _ H) as (p & Hp & Hl). exists (hd head order).
  split; [apply circ_first; by exists p|].
  pose proof (path_next _ _ _ _ head Hp (proj1 Hl)) as [_ Hc].
  pose proof (ring_nodup _ _ H) as [Hh _]%NoDup_cons. apply bfind_chain; [done..|].
  rewrite (ring_perm _ _ H), length_seq. lia.
Qed.

Lemma bfind_prev order P e k :
  ring (k_buf k) order →
  ∃ last, prv (k_buf k) head = Some last ∧
    bfind (S NBUF) b_prev P last e k = Ret (List.find (holds P (k_buf k)) (rev order)) e k.
Proof.
  intros H. pose proof (ring_path _ _ H) as (p & Hp & Hl). exists p. split; [apply Hl|].
  apply path_prev in Hp as [Hc <-]. pose proof (ring_nodup _ _ H) as [Hh _]%NoDup_cons.
  apply bfind_chain; [done| |].
  - by rewrite <- list_elem_of_In, <- in_rev, list_elem_of_In || (rewrite list_elem_of_In, <- in_rev, <- list_elem_of_In).
  - rewrite length_rev, (ring_perm _ _ H), length_seq. lia.
Qed.

(** ** A process that runs alone

    The rest of the proofs follow a process while no other code runs.  The
    part of the state that changes is [data]; the rest is a kernel state in
    which the CPU runs process [p] and the spin locks needed are free. *)

Record data := Data {
  d_buf : list buf;
  d_proc : list proc;
  d_disk : gmap Z (list Z);
  d_trace : list (Z * list Z);
  d_log : log_t
}.

Definition on (k : kernel) (s : data) : kernel :=
  k <| k_buf := d_buf s |> <| k_proc := d_proc s |> <| k_disk := d_disk s |>
    <| k_dtrace := d_trace s |> <| k_log := d_log s |>.

Definition with_buf (bs : list buf) (s : data) : data :=
  Data bs (d_proc s) (d_disk s) (d_trace s) (d_log s).
Definition with_proc (ps : list proc) (s : data) : data :=
  Data (d_buf s) ps (d_disk s) (d_trace s) (d_log s).
Definition with_log (lg : log_t) (s : data) : data :=
  Data (d_buf s) (d_proc s) (d_disk s) (d_trace s) lg.

Lemma on_settled k s i c : settled k i c → settled (on k s) i c.
Proof. intros H. by eapply same_sync_settled; [|exact H]. Qed.

Lemma on_free k s lk : lock_free k lk → lock_free (on k s) lk.
Proof. intros H. by eapply same_sync_free; [|exact H]. Qed.

Lemma acquire_on k s i c lk e :
  settled k i c → lock_free k lk →
  acquire lk e (on k s) = Ret tt e (on (acquired i c lk k) s).
Proof.
  intros Hs Hl. destruct (on_settled k s i c Hs) as (Hc & Hw & _).
  by rewrite (acquire_free e (on k s) i c lk Hc Hw) by (by apply on_free).
Qed.

Lemma release_on k s i c lk e :
  settled k i c → lock_free k lk →
  release lk e (on (acquired i c lk k) s) = Ret tt e (on k s).
Proof.
  intros Hs Hl. rewrite (release_settled e _ (on k s) i c lk); [|by apply on_settled|by apply on_free|done].
  change (on (acquired i c lk k) s) with (acquired i c lk (on k s)).
  by rewrite ksync_acquired_settled by (by apply on_settled).
Qed.

Lemma wakeup_on k s i c chan e :
  settled k i c → lock_free k LkPtable →
  wakeup chan e (on k s) = Ret tt e (on k (with_proc (map (wake (Some chan)) (d_proc s)) s)).
Proof.
  intros Hs Hl. destruct (on_settled k s i c Hs) as (Hc & Hw & E).
  rewrite (wakeup_ok chan e (on k s) i c Hc Hw) by (by apply on_free).
  rewrite (touch_settled _ _ _ (on_settled k s i c Hs)). done.
Qed.

(** The spin locks that the buffer cache takes are free. *)
Definition locks_free (k : kernel) : Prop :=
  lock_free k LkBcache ∧ lock_free k LkPtable ∧ ∀ b, (b < NBUF)%nat → lock_free k (LkSleep (SlBuf b)).

(** The process [p], with id [pid], is in the table. *)
Definition is_me (p : nat) (pid : Z) (ps : list proc) : Prop :=
  ∃ pr, ps !! p = Some pr ∧ p_pid pr = pid.

Lemma is_me_wake p pid chan ps : is_me p pid ps → is_me p pid (map (wake chan) ps).
Proof.
  intros (pr & E & Hp). exists (wake chan pr). split.
  - change (map (wake chan) ps) with (wake chan <$> ps). by rewrite list_lookup_fmap, E.
  - unfold wake. by destruct (_ && _).
Qed.

Lemma alter_alter {A} (f g h : A → A) (b : nat) (l : list A) :
  (∀ x, f (g x) = h x) → alter f b (alter g b l) = alter h b l.
Proof.
  intros H. apply list_eq. intros j. destruct (decide (j = b)) as [->|].
  - rewrite !list_lookup_alter_eq. destruct (l !! b); cbn; [|done]. by rewrite H.
  - by rewrite !list_lookup_alter_ne.
Qed.

(** Updates of buffers are updates of [data]. *)
Lemma buf_upd_on k s b f e :
  buf_upd b f e (on k s) = Ret tt e (on k (with_buf (alter f b (d_buf s)) s)).
Proof. reflexivity. Qed.

Lemma sl_upd_on k s b f e :
  sl_upd (SlBuf b) f e (on k s) =
  Ret tt e (on k (with_buf (alter (λ x, x <| b_lock ::= f |>) b (d_buf s)) s)).
Proof. reflexivity. Qed.

Lemma buf_get_on {A} (f : buf → A) k s b x e :
  d_buf s !! b = Some x → buf_get b f e (on k s) = Ret (f x) e (on k s).
Proof. intros E. by apply buf_get_ok. Qed.

Lemma mwait_done {K} (test : M K bool) (body : M K unit) e k :
  test e k = Ret false e k → mwait test body e k = Ret tt e k.
Proof. intros H. unfold mwait. cbn [mwhile]. by rewrite (bind_Ret _ _ _ _ _ _ _ H). Qed.

Lemma sl_get_ok {A} (f : sleeplock → A) b x e k :
  k_buf k !! b = Some x → sl_get (SlBuf b) f e k = Ret (f (b_lock x)) e k.
Proof. intros E. unfold sl_get, sl_of. msteps. by rewrite E. Qed.

Lemma nxt_get bs b q : nxt bs b = Some q → ∃ x, bs !! b = Some x ∧ b_next x = q.
Proof. unfold nxt. destruct (bs !! b) as [x|]; [|done]. intros [= <-]. eauto. Qed.
Lemma prv_get bs b q : prv bs b = Some q → ∃ x, bs !! b = Some x ∧ b_prev x = q.
Proof. unfold prv. destruct (bs !! b) as [x|]; [|done]. intros [= <-]. eauto. Qed.

(** Reading a link. *)
Lemma get_next k s b q e : nxt (d_buf s) b = Some q → buf_get b b_next e (on k s) = Ret q e (on k s).
Proof. intros (x & E & <-)%nxt_get. by apply buf_get_ok. Qed.
Lemma get_prev k s b q e : prv (d_buf s) b = Some q → buf_get b b_prev e (on k s) = Ret q e (on k s).
Proof. intros (x & E & <-)%prv_get. by apply buf_get_ok. Qed.

Lemma upd_next_on k s b v e :
  buf_upd b (λ x, x <| b_next := v |>) e (on k s) =
  Ret tt e (on k (with_buf (alter (set_next v) b (d_buf s)) s)).
Proof. reflexivity. Qed.
Lemma upd_prev_on k s b v e :
  buf_upd b (λ x, x <| b_prev := v |>) e (on k s) =
  Ret tt e (on k (with_buf (alter (set_prev v) b (d_buf s)) s)).
Proof. reflexivity. Qed.

Lemma link_first_on k s b f e :
  nxt (d_buf s) head = Some f → b ≠ head →
  link_first b e (on k s) = Ret tt e (on k (with_buf (pushed b f (d_buf s)) s)).
Proof.
  intros Hf Hb. unfold link_first. mgo (by apply get_next). mgo (apply upd_next_on).
  mgo (apply upd_prev_on). mgo (apply get_next; cbn [d_buf with_buf]; links).
  mgo (apply upd_prev_on). by rewrite upd_next_on.
Qed.

(** [brelse] of a buffer that nobody uses. *)
Lemma relink_on k s b order e :
  ring (d_buf s) order → (b < NBUF)%nat →
  ∃ bs order', ring bs order' ∧ bare <$> bs = bare <$> d_buf s ∧
  (next ← buf_get b b_next;
   prev ← buf_get b b_prev;
   buf_upd next (λ x, x <| b_prev := prev |>);;
   prev ← buf_get b b_prev;
   next ← buf_get b b_next;
   buf_upd prev (λ x, x <| b_next := next |>);;
   link_first b) e (on k s) = Ret tt e (on k (with_buf bs s)).
Proof.
  intros Hr Hb. apply (ring_in _ _ _ Hr) in Hb.
  destruct (move_to_front _ _ _ Hr Hb) as (p & q & Hq & Hp & Hpb & Hqb & Hbh & f & Hf & order' & Hr').
  eexists _, order'. split; [exact Hr'|]. split; [by rewrite bare_pushed, bare_unlinked|].
  mgo (by apply get_next). mgo (by apply get_prev). mgo (apply upd_prev_on).
  mgo (apply get_prev; cbn [d_buf with_buf]; links).
  mgo (apply get_next; cbn [d_buf with_buf]; links). mgo (apply upd_next_on).
  by rewrite (link_first_on _ _ _ f).
Qed.

Section alone.
Context (k : kernel) (i : nat) (c : cpu) (p : nat) (pid : Z).
Context (Hset : settled k i c) (Hfree : locks_free k) (Hproc : c_proc c = Some p).

Definition set_lock (l : sleeplock) (b : nat) (bs : list buf) : list buf :=
  alter (λ x, x <| b_lock := l |>) b bs.

Lemma acquiresleep_on b s x e :
  (b < NBUF)%nat → is_me p pid (d_proc s) → d_buf s !! b = Some x → sl_locked (b_lock x) = 0 →
  acquiresleep (SlBuf b) e (on k s) =
  Ret tt e (on k (with_buf (set_lock (Sleeplock 1 pid) b (d_buf s)) s)).
Proof.
  intros Hb (pr & Ep & Hpid) Eb Hl. unfold acquiresleep.
  pose proof (proj2 (proj2 Hfree) b Hb) as Hlk. pose proof Hset as (Hc & Hw & _).
  mgo (by apply (acquire_on k s i c)). set (k1 := acquired i c _ k).
  assert (settled k1 i (push_cpu (k_if k) c)) as Hs1 by (by apply acquired_settled).
  mgo (apply mwait_done; rewrite (sl_get_ok _ b x) by exact Eb; by rewrite Hl).
  mgo (apply sl_upd_on). mgo (eapply myproc_settled, on_settled; exact Hs1).
  rewrite push_cpu_proc, Hproc. asteps. mgo (apply (proc_get_ok _ p pr); exact Ep). rewrite Hpid.
  mgo (apply sl_upd_on). cbn [d_buf with_buf].
  rewrite (alter_alter _ _ (λ x, x <| b_lock := Sleeplock 1 pid |>)) by done.
  by apply release_on.
Qed.

Lemma releasesleep_on b s e :
  (b < NBUF)%nat →
  releasesleep (SlBuf b) e (on k s) =
  Ret tt e (on k (with_proc (map (wake (Some (ChSleep (SlBuf b)))) (d_proc s))
    (with_buf (set_lock (Sleeplock 0 0) b (d_buf s)) s))).
Proof.
  intros Hb. unfold releasesleep. destruct Hfree as (_ & Ht & Hlk). specialize (Hlk b Hb).
  pose proof Hset as (Hc & Hw & _).
  mgo (by apply (acquire_on k s i c)). set (k1 := acquired i c _ k).
  assert (settled k1 i (push_cpu (k_if k) c)) as Hs1 by (by apply acquired_settled).
  mgo (apply sl_upd_on). mgo (apply sl_upd_on). cbn [d_buf with_buf].
  rewrite (alter_alter _ _ (λ x, x <| b_lock := Sleeplock 0 0 |>)) by done.
  mgo (eapply wakeup_on; [exact Hs1|by apply acquired_free]).
  by apply release_on.
Qed.

Lemma holdingsleep_on b s x e :
  (b < NBUF)%nat → is_me p pid (d_proc s) → d_buf s !! b = Some x → b_lock x = Sleeplock 1 pid →
  holdingsleep (SlBuf b) e (on k s) = Ret true e (on k s).
Proof.
  intros Hb (pr & Ep & Hpid) Eb Hl. unfold holdingsleep.
  pose proof (proj2 (proj2 Hfree) b Hb) as Hlk. pose proof Hset as (Hc & Hw & _).
  mgo (by apply (acquire_on k s i c)). set (k1 := acquired i c _ k).
  assert (settled k1 i (push_cpu (k_if k) c)) as Hs1 by (by apply acquired_settled).
  mgo (rewrite (sl_get_ok _ b x) by exact Eb; reflexivity). rewrite Hl.
  change (truthy (sl_locked (id (Sleeplock 1 pid)))) with true. cbv iota. rewrite !bind_assoc. mgo (eapply myproc_settled, on_settled; exact Hs1).
  rewrite push_cpu_proc, Hproc. asteps. mgo (apply (proc_get_ok _ p pr); exact Ep). rewrite Hpid.
  asteps. mgo (by apply release_on). cbn [sl_pid]. by rewrite Z.eqb_refl.
Qed.

(** ** The cache as a map of blocks

    [C] is what each block of disk 1 holds, through the cache; the blocks of
    [D] are dirty: they are in the cache only.  [held] are the buffers that
    the process has locked. *)

Definition DIRTY : Z := Z.lor B_VALID B_DIRTY.

(** What is known of buffer [b], which is [x] but for its links. *)
Record buf_ok (held : list nat) (C : gmap Z (list Z)) (D : gset Z) (b : nat) (x : buf) : Prop := {
  bo_held : b ∈ held → b_refcnt x = 1 ∧ b_lock x = Sleeplock 1 pid ∧ b_dev x = 1;
  bo_idle : b ∉ held → b_refcnt x = 0 ∧ sl_locked (b_lock x) = 0 ∧
    (b_dev x = 1 → C !! b_blockno x = Some (b_data x));
  bo_flags : if decide (b_dev x = 1)
    then b_flags x = (if decide (b_blockno x ∈ D) then DIRTY else B_VALID) else b_flags x = 0;
}.

Record cache (s : data) (held : list nat) (C : gmap Z (list Z)) (D : gset Z) : Prop := {
  ca_ring : ∃ order, ring (d_buf s) order;
  ca_me : is_me p pid (d_proc s);
  ca_held : Forall (λ b, b < NBUF)%nat held;
  ca_buf : ∀ b x, (b < NBUF)%nat → (bare <$> d_buf s) !! b = Some x → buf_ok held C D b x;
  ca_uniq : ∀ b b' x x', (b < NBUF)%nat → (b' < NBUF)%nat →
    (bare <$> d_buf s) !! b = Some x → (bare <$> d_buf s) !! b' = Some x' →
    b_dev x = 1 → b_dev x' = 1 → b_blockno x = b_blockno x' → b = b';
  ca_dirty : ∀ n, n ∈ D → ∃ b x, (b < NBUF)%nat ∧ (bare <$> d_buf s) !! b = Some x ∧
    b_dev x = 1 ∧ b_blockno x = n;
  ca_disk : ∀ n, n ∉ D → d_disk s !! n = C !! n;
  ca_dom : ∀ n, is_Some (d_disk s !! n) ↔ is_Some (C !! n);
}.

(** Buffer [b] holds block [n] with contents [d]. *)
Definition holds_block (s : data) (b : nat) (n : Z) (d : list Z) : Prop :=
  ∃ x, (bare <$> d_buf s) !! b = Some x ∧ b_blockno x = n ∧ b_data x = d.

(** The processes, the disk and the log are as before. *)
Definition same_rest (s s' : data) : Prop :=
  d_disk s' = d_disk s ∧ d_trace s' = d_trace s ∧ d_log s' = d_log s.

Lemma cache_lookup s held C D b :
  cache s held C D → (b < NBUF)%nat → ∃ x, d_buf s !! b = Some x ∧ (bare <$> d_buf s) !! b = Some (bare x).
Proof.
  intros H Hb. destruct (ca_ring _ _ _ _ H) as [order Hr].
  destruct (lookup_lt_is_Some_2 (d_buf s) b) as [x E]; [rewrite (ring_len _ _ Hr); lia|].
  exists x. split; [done|]. by rewrite list_lookup_fmap, E.
Qed.

Lemma cache_perm s held held' C D : held ≡ₚ held' → cache s held C D → cache s held' C D.
Proof.
  intros Hp []. split; try done; [by rewrite <- Hp|].
  intros b x Hb E. destruct (ca_buf0 b x Hb E). split; [by rewrite <- Hp..|done].
Qed.

(** A change of buffer [b] only. *)
Lemma alter_other f b b' (l : list buf) x :
  alter f b l !! b' = Some x → b' ≠ b → l !! b' = Some x.
Proof. intros E Hne. by rewrite list_lookup_alter_ne in E. Qed.

Lemma bare_alter_comm (f g : buf → buf) (b : nat) (l : list buf) :
  (∀ x, bare (f x) = g (bare x)) → bare <$> alter f b l = alter g b (bare <$> l).
Proof.
  intros H. apply list_eq. intros j. destruct (decide (j = b)) as [->|].
  - rewrite list_lookup_fmap, !list_lookup_alter_eq, list_lookup_fmap.
    destruct (l !! b); cbn; [|done]. by rewrite H.
  - by rewrite list_lookup_fmap, !list_lookup_alter_ne, list_lookup_fmap.
Qed.

(** Buffer [b] changed: the cache is still in order if the buffer is. *)
Lemma cache_update s s' b x x' held held' C C' D D' :
  cache s held C D → (b < NBUF)%nat → (bare <$> d_buf s) !! b = Some x →
  bare <$> d_buf s' = <[b := x']> (bare <$> d_buf s) →
  (∃ order, ring (d_buf s') order) → is_me p pid (d_proc s') → Forall (λ b, b < NBUF)%nat held' →
  (∀ b' y, b' ≠ b → (b' < NBUF)%nat → (bare <$> d_buf s) !! b' = Some y → b_dev y = 1 →
     b_dev x' = 1 → b_blockno y ≠ b_blockno x') →
  (b_dev x = 1 → b_blockno x ∈ D' → b_dev x' = 1 ∧ b_blockno x' = b_blockno x) →
  buf_ok held' C' D' b x' →
  (∀ b' y, b' ≠ b → (b' < NBUF)%nat → (bare <$> d_buf s) !! b' = Some y →
     buf_ok held C D b' y → buf_ok held' C' D' b' y) →
  (∀ n, n ∈ D' → n ∈ D ∨ b_dev x' = 1 ∧ b_blockno x' = n) →
  (∀ n, n ∉ D' → d_disk s' !! n = C' !! n) →
  (∀ n, is_Some (d_disk s' !! n) ↔ is_Some (C' !! n)) → cache s' held' C' D'.
Proof.
  intros H Hb E E' Hr Hme Hh Huq Hdt Hok Hoth HD Hdisk Hdom.
  assert (∀ j y, (bare <$> d_buf s') !! j = Some y →
    j = b ∧ y = x' ∨ j ≠ b ∧ (bare <$> d_buf s) !! j = Some y) as Hcase.
  { intros j y Hy. rewrite E' in Hy. destruct (decide (j = b)) as [->|].
    - rewrite list_lookup_insert_eq in Hy by (by eapply lookup_lt_Some). injection Hy as <-. by left.
    - rewrite list_lookup_insert_ne in Hy by done. by right. }
  split; try done.
  - intros j y Hj [[-> ->]|[Hne Hy]]%Hcase; [done|]. apply Hoth; [done..|]. by eapply ca_buf.
  - intros j j' y y' Hj Hj' [[-> ->]|[Hne Hy]]%Hcase [[-> ->]|[Hne' Hy']]%Hcase Hd Hd' Hn; [done|..].
    + by destruct (Huq j' y' Hne' Hj' Hy' Hd' Hd).
    + by destruct (Huq j y Hne Hj Hy Hd Hd').
    + by eapply (ca_uniq _ _ _ _ H j j' y y').
  - intros n Hn. destruct (HD n Hn) as [HnD|[Hd' Hb']].
    2: { exists b, x'. by rewrite E', list_lookup_insert_eq by (by eapply lookup_lt_Some). }
    destruct (ca_dirty _ _ _ _ H n HnD) as (j & y & Hj & Hy & Hd & En).
    destruct (decide (j = b)) as [->|].
    + rewrite E in Hy. injection Hy as <-. exists b, x'. destruct Hdt as [? ?]; [done|congruence|].
      rewrite E', list_lookup_insert_eq by (by eapply lookup_lt_Some). split_and!; [done..|congruence].
    + exists j, y. rewrite E', list_lookup_insert_ne by done. done.
Qed.

(** The same for a change that leaves the block that the buffer is for. *)
Lemma cache_change s s' b x x' held held' C C' D D' :
  cache s held C D → (b < NBUF)%nat → (bare <$> d_buf s) !! b = Some x →
  bare <$> d_buf s' = <[b := x']> (bare <$> d_buf s) →
  (∃ order, ring (d_buf s') order) → is_me p pid (d_proc s') → Forall (λ b, b < NBUF)%nat held' →
  b_dev x' = b_dev x → b_blockno x' = b_blockno x → buf_ok held' C' D' b x' →
  (∀ b' y, b' ≠ b → (b' < NBUF)%nat → (bare <$> d_buf s) !! b' = Some y →
     buf_ok held C D b' y → buf_ok held' C' D' b' y) →
  (∀ n, n ∈ D' → n ∈ D ∨ b_dev x' = 1 ∧ b_blockno x' = n) →
  (∀ n, n ∉ D' → d_disk s' !! n = C' !! n) →
  (∀ n, is_Some (d_disk s' !! n) ↔ is_Some (C' !! n)) → cache s' held' C' D'.
Proof.
  intros H Hb E E' Hr Hme Hh Hdev Hno. eapply cache_update; try done.
  - intros b' y Hne Hb' Ey Hd Hd' En. apply Hne.
    eapply (ca_uniq _ _ _ _ H b' b y x); congruence.
  - intros Hd _. by rewrite Hdev.
Qed.

Lemma holds_other s s' b b' x' n d :
  bare <$> d_buf s' = <[b := x']> (bare <$> d_buf s) → b' ≠ b →
  holds_block s b' n d → holds_block s' b' n d.
Proof.
  intros E Hne (x & Ex & ?). exists x. by rewrite E, list_lookup_insert_ne.
Qed.

Lemma ring_fields bs bs' order :
  ring bs order → b_next <$> bs' = b_next <$> bs → b_prev <$> bs' = b_prev <$> bs → ring bs' order.
Proof.
  intros [Hl Hp (q & Hpa & Hli)] En Ep.
  assert (∀ z, nxt bs' z = nxt bs z) as Hn by (intros; unfold nxt; by rewrite <- !list_lookup_fmap, En).
  assert (∀ z, prv bs' z = prv bs z) as Hv by (intros; unfold prv; by rewrite <- !list_lookup_fmap, Ep).
  split; [|done|].
  - apply (f_equal length) in En. by rewrite !length_fmap in En; rewrite En.
  - exists q. split; [|unfold link; by rewrite Hn, Hv].
    revert Hpa. generalize head as z. clear -Hn Hv. induction order as [|y l IH]; intros z; cbn; [done|].
    unfold link. rewrite Hn, Hv. intros [? ?]. auto.
Qed.

Lemma ring_alter f b bs order :
  ring bs order → (∀ x, bs !! b = Some x → b_next (f x) = b_next x ∧ b_prev (f x) = b_prev x) →
  ring (alter f b bs) order.
Proof.
  intros H Hf. eapply ring_fields; [exact H|..]; apply list_eq; intros j; rewrite !list_lookup_fmap;
    (destruct (decide (j = b)) as [->|]; [|by rewrite list_lookup_alter_ne]);
    rewrite list_lookup_alter_eq; (destruct (bs !! b) as [x|]; [|done]);
    cbn; f_equal; by apply Hf.
Qed.

Lemma brelse_ok s b held C D n d e :
  cache s (b :: held) C D → b ∉ held → holds_block s b n d → C !! n = Some d →
  ∃ s', brelse b e (on k s) = Ret tt e (on k s') ∧ cache s' held C D ∧ same_rest s s' ∧
    ∀ b' n' d', b' ≠ b → holds_block s b' n' d' → holds_block s' b' n' d'.
Proof.
  intros H Hnin (x & Ex & Hn & Hd) HC.
  pose proof (ca_held _ _ _ _ H) as [Hb Hheld]%Forall_cons.
  destruct (cache_lookup _ _ _ _ b H Hb) as (x0 & E0 & E0'). rewrite Ex in E0'. injection E0' as ->.
  pose proof (ca_buf _ _ _ _ H b _ Hb Ex) as [Hh _ Hf].
  destruct (Hh ltac:(by left)) as (Href & Hlk & Hdev). destruct (ca_ring _ _ _ _ H) as [order Hr].
  pose proof (ca_me _ _ _ _ H) as Hme. pose proof Hset as (Hc & Hw & _). unfold brelse.
  mgo (by eapply holdingsleep_on). cbn [negb]. mgo (by apply releasesleep_on).
  mgo (apply (acquire_on k _ i c); [done|apply Hfree]). set (k1 := acquired i c _ k).
  mgo (apply buf_upd_on).
  set (chg := λ x : buf, x <| b_lock := Sleeplock 0 0 |> <| b_refcnt ::= λ n, n - 1 |>).
  set (s1 := with_buf (alter _ b _) _).
  assert (d_buf s1 = alter chg b (d_buf s)) as E1 by (apply alter_alter; done).
  mgo (apply (buf_get_ok _ b (chg x0)); cbn [on]; change (d_buf s1 !! b = Some (chg x0));
       by rewrite E1, list_lookup_alter_eq, E0).
  change (b_refcnt (chg x0)) with (b_refcnt (bare x0) - 1). rewrite Href. cbn [Z.sub Z.eqb Z.add Z.opp Z.pos_sub].
  destruct (relink_on k1 s1 b order e) as (bs & order' & Hr' & Ebs & Er).
  { rewrite E1. by apply ring_alter. }
  { done. }
  mgo (exact Er). exists (with_buf bs s1).
  assert (bare <$> bs = <[b := chg (bare x0)]> (bare <$> d_buf s)) as Ebs'.
  { rewrite Ebs, E1, (bare_alter_comm chg chg) by done. by apply list_alter_insert. }
  split; [by apply release_on; [|apply Hfree]|]. split_and!; [|done..|].
  - eapply (cache_change s _ b (bare x0) (chg (bare x0))); [done..|eauto|by apply is_me_wake|done|done|done| |
      |by left|apply H|apply H].
    + split; [done| |exact Hf]. intros _. split_and!; [|done|].
      * change (b_refcnt (bare x0) - 1 = 0). lia.
      * intros _. change (C !! b_blockno (bare x0) = Some (b_data (bare x0))). congruence.
    + intros b' y Hne Hb' Ey [Hh' Hi' Hf']. split; [|..|done].
      * intros Hin. apply Hh'. by right.
      * intros Hin. apply Hi'. by apply not_elem_of_cons.
  - intros b' n' d' Hne Hb'. by eapply holds_other.
Qed.

(** The data after a write of block [n]. *)
Definition wrote (n : Z) (d : list Z) (bs : list buf) (s : data) : data :=
  Data bs (d_proc s) (<[n := d]> (d_disk s)) ((n, d) :: d_trace s) (d_log s).

Lemma dirty_flags f : f = DIRTY ∨ f = B_VALID → Z.lor f B_DIRTY = DIRTY.
Proof. by intros [-> | ->]. Qed.

Lemma bwrite_ok s b held C D n d e :
  cache s held C D → b ∈ held → holds_block s b n d → is_Some (C !! n) →
  ∃ s', bwrite (H := Memide.disk) b e (on k s) = Ret tt e (on k s') ∧
    cache s' held (<[n := d]> C) (D ∖ {[n]}) ∧ holds_block s' b n d ∧
    d_disk s' = <[n := d]> (d_disk s) ∧ d_trace s' = (n, d) :: d_trace s ∧ d_log s' = d_log s ∧
    ∀ b' n' d', b' ≠ b → holds_block s b' n' d' → holds_block s' b' n' d'.
Proof.
  intros H Hin (x & Ex & Hn & Hd) HC.
  pose proof (ca_held _ _ _ _ H) as Hheld. rewrite Forall_forall in Hheld. pose proof (Hheld b Hin) as Hb.
  destruct (cache_lookup _ _ _ _ b H Hb) as (x0 & E0 & E0'). rewrite Ex in E0'. injection E0' as ->.
  pose proof (ca_buf _ _ _ _ H b _ Hb Ex) as [Hh _ Hf].
  destruct (Hh Hin) as (Href & Hlk & Hdev). rewrite decide_True in Hf by done.
  assert (Z.lor (b_flags x0) B_DIRTY = DIRTY) as Hfl.
  { apply dirty_flags. change (b_flags x0) with (b_flags (bare x0)). rewrite Hf. case_decide; auto. }
  destruct (ca_ring _ _ _ _ H) as [order Hr]. pose proof (ca_me _ _ _ _ H) as Hme.
  unfold bwrite. mgo (by eapply holdingsleep_on). cbn [negb]. mgo (apply buf_upd_on).
  set (s1 := with_buf _ s).
  assert (d_buf s1 !! b = Some (x0 <| b_flags ::= λ f, Z.lor f B_DIRTY |>)) as E1
    by (cbn; by rewrite list_lookup_alter_eq, E0).
  unfold iderw, Memide.disk, Memide.iderw. mgo (by eapply holdingsleep_on). cbn [negb].
  mgo (by apply buf_get_on). unfold id. rsimpl. rewrite Hfl.
  change (Z.land DIRTY (Z.lor B_VALID B_DIRTY) =? B_VALID) with false.
  assert (b_dev x0 = 1) as Hdev' by exact Hdev. rewrite Hdev'. cbn [Z.eqb Pos.eqb negb]. msteps.
  assert (b_blockno x0 = n) as Hn' by exact Hn. assert (b_data x0 = d) as Hd' by exact Hd.
  rewrite Hn', Hd'. change (k_disk (on k s1)) with (d_disk s).
  destruct (proj2 (ca_dom _ _ _ _ H n) HC) as [pd ->].
  change (truthy (Z.land DIRTY B_DIRTY)) with true. cbv iota. rewrite !bind_assoc.
  mgo (apply buf_upd_on). mgo (reflexivity).
  set (chg := λ x : buf, x <| b_flags := B_VALID |>).
  exists (wrote n d (alter chg b (d_buf s)) s).
  assert (alter (λ x, x <| b_flags ::= λ f, Z.lor f B_VALID |>) b
    (alter (λ x, x <| b_flags ::= λ f, Z.land f (Z.lnot B_DIRTY) |>) b (d_buf s1)) =
    alter chg b (d_buf s)) as Ech.
  { unfold s1. cbn [d_buf with_buf]. rewrite !list_alter_alter.
    rewrite !(list_alter_insert _ _ _ _ E0). f_equal. unfold chg. merge_upd. upd_ext. by rewrite Hfl. }
  assert (bare <$> alter chg b (d_buf s) = <[b := chg (bare x0)]> (bare <$> d_buf s)) as Ebs.
  { rewrite (bare_alter_comm chg chg) by done. by apply list_alter_insert. }
  split.
  { rewrite <- Ech. reflexivity. }
  split_and!; [| |done..|].
  - eapply (cache_change s _ b (bare x0) (chg (bare x0))); try done || (by left) || by apply H.
    + exists order. by apply ring_alter.
    + split; [done|done|]. rewrite decide_True by done. rewrite decide_False; [done|].
      change (b_blockno (chg (bare x0))) with (b_blockno (bare x0)). set_solver.
    + intros b' y Hne Hb' Ey [Hh' Hi' Hf'].
      assert (b_dev y = 1 → b_blockno y ≠ n) as Hny.
      { intros Hd1 <-. apply Hne. by eapply (ca_uniq _ _ _ _ H b' b y (bare x0)). }
      split; [done| |].
      * intros Hnin. destruct (Hi' Hnin) as (? & ? & HCy). split_and!; [done..|]. intros Hd1.
        rewrite lookup_insert_ne; [by apply HCy|]. intros E. by apply Hny.
      * case_decide as Hd1; [|done]. rewrite Hf'. repeat case_decide; set_solver.
    + intros m Hm. left. set_solver.
    + intros m Hm. cbn. destruct (decide (m = n)) as [->|]; [by rewrite !lookup_insert_eq|].
      rewrite !lookup_insert_ne by done. apply (ca_disk _ _ _ _ H). set_solver.
    + intros m. cbn. destruct (decide (m = n)) as [->|]; [by rewrite !lookup_insert_eq|].
      rewrite !lookup_insert_ne by done. apply (ca_dom _ _ _ _ H).
  - exists (chg (bare x0)). cbn [d_buf wrote]. rewrite Ebs.
    rewrite list_lookup_insert_eq by (by eapply lookup_lt_Some). done.
  - intros b' n' d' Hne Hb'. by eapply holds_other.
Qed.

(** Held and dirty buffers are no more than the locks held and the dirty blocks. *)
Lemma all_busy s held C D :
  cache s held C D →
  (∀ b, (b < NBUF)%nat → b ∈ held ∨ ∃ x, (bare <$> d_buf s) !! b = Some x ∧ b_dev x = 1 ∧
     b_blockno x ∈ D) → (NBUF ≤ size D + length held)%nat.
Proof.
  intros H Hbusy. set (l := seq 0 NBUF).
  assert (length (filter (.∈ held) l) ≤ length held)%nat as H1.
  { apply submseteq_length, NoDup_submseteq; [apply NoDup_filter, NoDup_seq|].
    intros b [? _]%list_elem_of_filter. done. }
  set (bn := λ b, default 0 (b_blockno <$> (bare <$> d_buf s) !! b)).
  assert (length (filter (.∉ held) l) ≤ size D)%nat as H2.
  { set (l' := filter _ l). assert (∀ b, b ∈ l' → (b < NBUF)%nat ∧ b ∉ held) as Hl'.
    { intros b [? Hb%elem_of_seq]%list_elem_of_filter. split; [lia|done]. }
    assert (NoDup (bn <$> l')) as Hnd.
    { apply NoDup_fmap_2_strong; [|apply NoDup_filter, NoDup_seq].
      intros b b' [Hb Hn]%Hl' [Hb' Hn']%Hl'. unfold bn.
      destruct (Hbusy b Hb) as [?|(x & Ex & Hd & _)]; [done|].
      destruct (Hbusy b' Hb') as [?|(x' & Ex' & Hd' & _)]; [done|]. rewrite Ex, Ex'. cbn. intros En.
      by eapply (ca_uniq _ _ _ _ H b b' x x'). }
    rewrite <- (length_fmap bn), <- (size_list_to_set (C := gset Z)) by done.
    apply subseteq_size. intros m (b & -> & [Hb Hn]%Hl')%elem_of_list_to_set%list_elem_of_fmap.
    unfold bn. by destruct (Hbusy b Hb) as [?|(x & -> & _ & ?)]. }
  assert (length l = length (filter (.∈ held) l) + length (filter (.∉ held) l))%nat as E.
  { rewrite <- length_app. apply Permutation_length. symmetry. apply (filter_app_complement (.∈ held) l). }
  unfold l in E at 1. rewrite length_seq in E. lia.
Qed.

Definition recyclable (x : buf) : bool :=
  (b_refcnt x =? 0) && (Z.land (b_flags x) B_DIRTY =? 0).

(** There is a buffer to recycle. *)
Lemma free_buffer s held C D order :
  cache s held C D → ring (d_buf s) order → (size D + length held < NBUF)%nat →
  ∃ b x, List.find (holds recyclable (d_buf s)) (rev order) = Some b ∧ (b < NBUF)%nat ∧
    d_buf s !! b = Some x ∧ (b ∉ held) ∧ (b_dev x = 1 → b_blockno x ∉ D).
Proof.
  intros H Hr Hsz. destruct (List.find _ _) as [b|] eqn:Ef.
  - apply List.find_some in Ef as [Hin Hp]. rewrite <- in_rev, <- list_elem_of_In, (ring_in _ _ _ Hr) in Hin.
    destruct (cache_lookup _ _ _ _ b H Hin) as (x & Ex & Ex'). exists b, x.
    unfold holds in Hp. rewrite Ex in Hp. unfold recyclable in Hp.
    apply andb_true_iff in Hp as [Hp1%Z.eqb_eq Hp2%Z.eqb_eq].
    pose proof (ca_buf _ _ _ _ H b _ Hin Ex') as [Hh _ Hf].
    split_and!; [done..| |].
    + intros Hb. assert (b_refcnt x = 1) by (by apply Hh). lia.
    + intros Hd. rewrite decide_True in Hf by done. intros HD. rewrite decide_True in Hf by done.
      assert (b_flags x = DIRTY) as Efl by exact Hf. by rewrite Efl in Hp2.
  - exfalso. pose proof (List.find_none _ _ Ef) as Hno.
    assert (∀ b, (b < NBUF)%nat → b ∈ held ∨ ∃ x, (bare <$> d_buf s) !! b = Some x ∧ b_dev x = 1 ∧
      b_blockno x ∈ D) as Hbusy.
    { intros b Hb. destruct (decide (b ∈ held)) as [?|Hnin]; [by left|right].
      destruct (cache_lookup _ _ _ _ b H Hb) as (x & Ex & Ex'). exists (bare x). split; [done|].
      specialize (Hno b). rewrite <- in_rev, <- list_elem_of_In, (ring_in _ _ _ Hr) in Hno.
      specialize (Hno Hb). unfold holds in Hno. rewrite Ex in Hno. unfold recyclable in Hno.
      pose proof (ca_buf _ _ _ _ H b _ Hb Ex') as [_ Hi Hf]. destruct (Hi Hnin) as (Href & _ & _).
      assert (b_refcnt x = 0) as E0 by exact Href. rewrite E0 in Hno. cbn [Z.eqb andb] in Hno.
      assert (b_flags x = b_flags (bare x)) as Efl by done. rewrite Efl in Hno.
      destruct (decide (b_dev (bare x) = 1)); [|by rewrite Hf in Hno]. split; [done|].
      destruct (decide (b_blockno (bare x) ∈ D)); [done|by rewrite Hf in Hno]. }
    by apply (all_busy s held C D) in Hbusy; [lia|].
Qed.

(** A block that no buffer is for is clean. *)
Lemma uncached_clean s held C D n :
  cache s held C D →
  (∀ b y, (b < NBUF)%nat → (bare <$> d_buf s) !! b = Some y → b_dev y = 1 → b_blockno y ≠ n) → n ∉ D.
Proof.
  intros H Hno Hn. destruct (ca_dirty _ _ _ _ H n Hn) as (b & x & Hb & Ex & Hd & En).
  by apply (Hno b x).
Qed.

(** [bget] up to the release of [bcache.lock]: the buffer, its contents and its
    new reference count. *)
Lemma bget_ok s held C D n e :
  cache s held C D → is_Some (C !! n) → n ∈ D ∨ (size D + length held < NBUF)%nat →
  (∀ b d, b ∈ held → ¬ holds_block s b n d) →
  ∃ b x f, (b < NBUF)%nat ∧ (b ∉ held) ∧ d_buf s !! b = Some x ∧
    bget 1 n e (on k s) =
      Ret b e (on k (with_buf (alter (λ x, x <| b_lock := Sleeplock 1 pid |>) b (alter f b (d_buf s))) s)) ∧
    ((b_dev x = 1 ∧ b_blockno x = n ∧ f x = x <| b_refcnt := 1 |>) ∨
     ((∀ b' y, (b' < NBUF)%nat → (bare <$> d_buf s) !! b' = Some y → b_dev y = 1 → b_blockno y ≠ n) ∧
      (b_dev x = 1 → b_blockno x ∉ D) ∧
      f x = x <| b_dev := 1 |> <| b_blockno := n |> <| b_flags := 0 |> <| b_refcnt := 1 |>)).
Proof.
  intros H HC Hsz Hnh. destruct (ca_ring _ _ _ _ H) as [order Hr].
  pose proof (ca_me _ _ _ _ H) as Hme. pose proof Hset as (Hc & Hw & _). unfold bget.
  mgo (apply (acquire_on k s i c); [done|apply Hfree]). set (k1 := acquired i c _ k).
  destruct (bfind_next order (λ x, (b_dev x =? 1) && (b_blockno x =? n)) e (on k1 s) Hr)
    as (first & Hf & Eb).
  mgo (by apply get_next). mgo (exact Eb). clear Eb. change (k_buf (on k1 s)) with (d_buf s).
  destruct (List.find _ order) as [b|] eqn:Ef.
  - apply List.find_some in Ef as [Hin Hp]. rewrite <- list_elem_of_In, (ring_in _ _ _ Hr) in Hin.
    destruct (cache_lookup _ _ _ _ b H Hin) as (x & Ex & Ex').
    unfold holds in Hp. rewrite Ex in Hp. apply andb_true_iff in Hp as [Hp1%Z.eqb_eq Hp2%Z.eqb_eq].
    assert (b ∉ held) as Hnin.
    { intros Hb. apply (Hnh b (b_data x) Hb). by exists (bare x). }
    pose proof (ca_buf _ _ _ _ H b _ Hin Ex') as [_ Hi _]. destruct (Hi Hnin) as (Href & Hlk & _).
    eexists b, x, _. split_and!; [done..| |].
    + mgo (apply buf_upd_on). mgo (apply release_on; [done|apply Hfree]).
      mgo (eapply acquiresleep_on; [done|done|cbn [d_buf with_buf]; by rewrite list_lookup_alter_eq, Ex|exact Hlk]).
      reflexivity.
    + left. split_and!; [done..|]. upd_ext. assert (b_refcnt x = 0) as -> by exact Href. done.
  - assert (∀ b' y, (b' < NBUF)%nat → (bare <$> d_buf s) !! b' = Some y → b_dev y = 1 → b_blockno y ≠ n) as Hno.
    { intros b' y Hb' Ey Hd Hn. pose proof (List.find_none _ _ Ef b') as Hno.
      rewrite <- list_elem_of_In, (ring_in _ _ _ Hr) in Hno. specialize (Hno Hb').
      unfold holds in Hno. rewrite list_lookup_fmap in Ey. destruct (d_buf s !! b') as [y0|]; [|done].
      injection Ey as <-. apply andb_false_iff in Hno as [Hno%Z.eqb_neq|Hno%Z.eqb_neq]; by apply Hno. }
    destruct Hsz as [HnD|Hsz]; [by destruct (uncached_clean _ _ _ _ n H Hno)|].
    destruct (free_buffer s held C D order H Hr Hsz) as (b & x & Efb & Hb & Ex & Hnin & Hclean).
    pose proof (cache_lookup _ _ _ _ b H Hb) as (x1 & E1 & Ex'). rewrite Ex in E1. injection E1 as <-.
    pose proof (ca_buf _ _ _ _ H b _ Hb Ex') as [_ Hi _]. destruct (Hi Hnin) as (Href & Hlk & _).
    destruct (bfind_prev order recyclable e (on k1 s) Hr) as (last & Hl & Eb).
    mgo (by apply get_prev). mgo (exact Eb). change (k_buf (on k1 s)) with (d_buf s). rewrite Efb.
    eexists b, x, (λ x, x <| b_dev := 1 |> <| b_blockno := n |> <| b_flags := 0 |> <| b_refcnt := 1 |>).
    split_and!; [done..| |].
    + do 4 (mgo (apply buf_upd_on)). mgo (apply release_on; [done|apply Hfree]).
      cbn [d_buf with_buf]. rewrite !list_alter_alter.
      mgo (eapply acquiresleep_on; [done|done|cbn [d_buf with_buf]; by rewrite list_lookup_alter_eq, Ex|exact Hlk]).
      unfold set_lock. cbn [d_buf with_buf]. by rewrite list_alter_alter.
    + by right.
Qed.

(** Reading a block into a buffer for it that is not valid yet. *)
Lemma iderw_read s b x n d e :
  (b < NBUF)%nat → is_me p pid (d_proc s) → d_buf s !! b = Some x → b_lock x = Sleeplock 1 pid → b_flags x = 0 →
  b_dev x = 1 → b_blockno x = n → d_disk s !! n = Some d →
  Memide.iderw b e (on k s) =
  Ret tt e (on k (with_buf (alter (λ x, x <| b_data := d |> <| b_flags := B_VALID |>) b (d_buf s)) s)).
Proof.
  intros Hb Hme Ex Hl Hf Hd Hn Hdk. unfold Memide.iderw. mgo (by eapply holdingsleep_on). cbn [negb].
  mgo (by apply buf_get_on). unfold id. rewrite Hf, Hd, Hn.
  change (Z.land 0 (Z.lor B_VALID B_DIRTY) =? B_VALID) with false. change (negb (1 =? 1)) with false.
  cbv iota. msteps. change (k_disk (on k s)) with (d_disk s). rewrite Hdk.
  change (truthy (Z.land 0 B_DIRTY)) with false. cbv iota.
  mgo (apply buf_upd_on). rewrite buf_upd_on. cbn [d_buf with_buf]. rewrite list_alter_alter.
  assert (alter (λ x, x <| b_data := d |> <| b_flags ::= λ f, Z.lor f B_VALID |>) b (d_buf s) =
    alter (λ x, x <| b_data := d |> <| b_flags := B_VALID |>) b (d_buf s)) as ->; [|done].
  rewrite !(list_alter_insert _ _ _ _ Ex). f_equal. upd_ext. rsimpl. by rewrite Hf.
Qed.

Lemma buf_ok_more held C D b b' y : b' ≠ b → buf_ok held C D b' y → buf_ok (b :: held) C D b' y.
Proof.
  intros Hne [Hh' Hi' Hf']. split; [|..|done].
  - intros [->|?]%elem_of_cons; [done|]. by apply Hh'.
  - intros Hin. apply Hi'. set_solver.
Qed.

Lemma bread_ok s held C D n d e :
  cache s held C D → C !! n = Some d → n ∈ D ∨ (size D + length held < NBUF)%nat →
  (∀ b d, b ∈ held → ¬ holds_block s b n d) →
  ∃ b s', bread (H := Memide.disk) 1 n e (on k s) = Ret b e (on k s') ∧ (b ∉ held) ∧
    cache s' (b :: held) C D ∧ holds_block s' b n d ∧ same_rest s s' ∧
    ∀ b' n' d', b' ≠ b → holds_block s b' n' d' → holds_block s' b' n' d'.
Proof.
  intros H HC Hsz Hnh.
  destruct (bget_ok s held C D n e H ltac:(eauto) Hsz Hnh) as (b & x & f & Hb & Hnin & Ex & Eg & Hcase).
  pose proof (cache_lookup _ _ _ _ b H Hb) as (x1 & E1 & Ex'). rewrite Ex in E1. injection E1 as <-.
  pose proof (ca_buf _ _ _ _ H b _ Hb Ex') as [_ Hi Hf]. destruct (Hi Hnin) as (Href & Hlk & HCx).
  unfold bread. mgo (exact Eg). rewrite list_alter_alter. set (s1 := with_buf _ s).
  assert (d_buf s1 !! b = Some ((f x) <| b_lock := Sleeplock 1 pid |>)) as E1
    by (unfold s1; cbn [d_buf with_buf]; by rewrite list_lookup_alter_eq, Ex).
  mgo (by apply buf_get_on). destruct (ca_ring _ _ _ _ H) as [order Hr].
  pose proof (ca_held _ _ _ _ H) as Hheld.
  destruct Hcase as [(Hd & Hn & Hfx)|(Hno & Hclean & Hfx)].
  - assert ((Z.land (b_flags ((f x) <| b_lock := Sleeplock 1 pid |>)) B_VALID =? 0) = false) as ->.
    { rewrite Hfx. rsimpl. change (b_flags x) with (b_flags (bare x)). rewrite decide_True in Hf by done.
      rewrite Hf. by case_decide. }
    exists b, s1. split_and!; [done|done| | |done..|].
    + eapply (cache_change s s1 b (bare x) (bare ((f x) <| b_lock := Sleeplock 1 pid |>))); try done || (by left) || by apply H.
      * unfold s1. cbn [d_buf with_buf]. rewrite (list_alter_insert _ _ _ _ Ex). apply list_fmap_insert.
      * exists order. apply ring_alter; [done|]. intros y Ey. rewrite Ex in Ey. injection Ey as <-.
        by rewrite Hfx.
      * by constructor.
      * by rewrite Hfx.
      * by rewrite Hfx.
      * rewrite Hfx. split; [done|by intros []; left|exact Hf].
      * intros b' y Hne Hb' Ey. by apply buf_ok_more.
    + eexists. rewrite list_lookup_fmap, E1. split; [done|]. rewrite Hfx. split; [done|].
      specialize (HCx Hd). change (C !! b_blockno x = Some (b_data x)) in HCx. change (b_data x = d).
      congruence.
    + intros b' n' d' Hne. eapply holds_other; [|exact Hne]. unfold s1. cbn [d_buf with_buf].
      rewrite (list_alter_insert _ _ _ _ Ex). apply list_fmap_insert.
  - pose proof (uncached_clean _ _ _ _ n H Hno) as HnD.
    set (g := λ x, (f x) <| b_lock := Sleeplock 1 pid |> <| b_data := d |> <| b_flags := B_VALID |>).
    assert ((Z.land (b_flags ((f x) <| b_lock := Sleeplock 1 pid |>)) B_VALID =? 0) = true) as ->
      by (by rewrite Hfx).
    cbn [when]. pose proof (iderw_read s1 b _ n d e Hb (ca_me _ _ _ _ H) E1) as Erd.
    rewrite Hfx in Erd. specialize (Erd eq_refl eq_refl eq_refl eq_refl).
    rewrite <- HC, <- (ca_disk _ _ _ _ H n HnD) in Erd. specialize (Erd eq_refl).
    mgo (exact Erd). unfold s1 at 1. cbn [d_buf with_buf]. rewrite list_alter_alter. fold g.
    set (s2 := with_buf _ s1).
    assert (bare <$> d_buf s2 = <[b := bare (g x)]> (bare <$> d_buf s)) as E2.
    { unfold s2. cbn [d_buf with_buf]. rewrite (list_alter_insert _ _ _ _ Ex). apply list_fmap_insert. }
    exists b, s2. split_and!; [done|done| | |done..|].
    + eapply (cache_update s s2 b (bare x) (bare (g x))); try done || (by left) || by apply H.
      * exists order. apply ring_alter; [done|]. intros y Ey. rewrite Ex in Ey. injection Ey as <-.
        unfold g. by rewrite Hfx.
      * by constructor.
      * intros b' y Hne Hb' Ey Hd _. unfold g. rewrite Hfx. by apply (Hno b' y).
      * intros Hd HD. by destruct (Hclean Hd).
      * unfold g. rewrite Hfx. split; [done|by intros []; left|]. rewrite decide_True by done.
        by rewrite decide_False.
      * intros b' y Hne Hb' Ey. by apply buf_ok_more.
    + exists (bare (g x)). rewrite E2, list_lookup_insert_eq by (by eapply lookup_lt_Some).
      unfold g. by rewrite Hfx.
    + intros b' n' d' Hne. by eapply holds_other.
Qed.

End alone.
