(* ===== verification/Log.v ===== *)
(** * The log (log.c)

    Transactions over the buffer cache.  A file system operation brackets its
    writes with [begin_op] and [end_op]; [log_write] notes the block in the
    header and pins it in the cache; the last operation to end commits:
    the blocks go to the log on disk, then the header, then the blocks go to
    their homes, then the header is cleared.  [recover_from_log] does the
    second half again after a crash. *)

From S2P Require Import Prelude State Spinlock Sched Sleep Sleeplock Bio.

Definition log_upd (f : log_t → log_t) : KM unit := modify (λ k, k <| k_log ::= f |>).

Section log.
Context `{Disk}.

(** [src/xv6-public/fs.c:31-39] *)
Definition readsb (dev : Z) : KM superblock :=
  bp ← bread dev 1;
  d ← buf_get bp b_data;
  brelse bp;;
  mret (Superblock (get32 d 0) (get32 d 4) (get32 d 8) (get32 d 12) (get32 d 16)
          (get32 d 20) (get32 d 24)).

Definition copy_block (to from : nat) : KM unit :=
  d ← buf_get from b_data; buf_upd to (λ x, x <| b_data := d |>).

(** One turn of the loops of [install_trans] and [write_log]: the block
    numbers of the log and of the home of entry [tail]. *)
Definition log_block (tail : nat) : KM Z := gets (λ k, l_start (k_log k) + Z.of_nat tail + 1).
Definition home_block (tail : nat) : KM Z :=
  k ← mget; deref (lh_block (k_log k) !! tail).
Definition log_dev : KM Z := gets (λ k, l_dev (k_log k)).

Fixpoint install_loop (tails : list nat) : KM unit :=
  match tails with
  | [] => mret tt
  | tail :: tails =>
    dev ← log_dev;
    n ← log_block tail;
    lbuf ← bread dev n;
    n ← home_block tail;
    dbuf ← bread dev n;
    copy_block dbuf lbuf;;
    bwrite dbuf;;
    brelse lbuf;;
    brelse dbuf;;
    install_loop tails
  end.

(** [src/xv6-public/log.c:69-82] *)
Definition install_trans : KM unit :=
  n ← gets (λ k, lh_n (k_log k));
  install_loop (seq 0 (Z.to_nat n)).

(** The block numbers of a header block, and the header block with them. *)
Fixpoint head_blocks (d : list Z) (i : nat) (n : nat) : list Z :=
  match n with O => [] | S n => get32 d (4 + 4 * Z.of_nat i) :: head_blocks d (S i) n end.
Fixpoint put_blocks (d : list Z) (i : nat) (bs : list Z) : list Z :=
  match bs with
  | [] => d
  | b :: bs => put_blocks (put32 d (4 + 4 * Z.of_nat i) b) (S i) bs
  end.

(** [src/xv6-public/log.c:85-96] a count above the size of [block] would be copied
    beyond its end *)
Definition read_head : KM unit :=
  k ← mget;
  buf ← bread (l_dev (k_log k)) (l_start (k_log k));
  d ← buf_get buf b_data;
  let n := sint32 (get32 d 0) in
  log_upd (λ l, l <| lh_n := n |>);;
  if n >? LOGSIZE then mfault else
  log_upd (λ l, l <| lh_block ::= λ bl,
    head_blocks d 0 (Z.to_nat n) ++ drop (Z.to_nat n) bl |>);;
  brelse buf.

(** [src/xv6-public/log.c:101-113] *)
Definition write_head : KM unit :=
  k ← mget;
  buf ← bread (l_dev (k_log k)) (l_start (k_log k));
  k ← mget;
  let n := lh_n (k_log k) in
  buf_upd buf (λ x, x <| b_data ::= λ d,
    put_blocks (put32 d 0 n) 0 (take (Z.to_nat n) (lh_block (k_log k))) |>);;
  bwrite buf;;
  brelse buf.

(** [src/xv6-public/log.c:115-122] *)
Definition recover_from_log : KM unit :=
  read_head;;
  install_trans;;
  log_upd (λ l, l <| lh_n := 0 |>);;
  write_head.

(** [src/xv6-public/log.c:53-66] the header fits in a block *)
Definition initlog (dev : Z) : KM unit :=
  initlock LkLog;;
  sb ← readsb dev;
  log_upd (λ l, l <| l_start := sb_logstart sb |>);;
  log_upd (λ l, l <| l_size := sb_nlog sb |>);;
  log_upd (λ l, l <| l_dev := dev |>);;
  recover_from_log.

Fixpoint write_log_loop (tails : list nat) : KM unit :=
  match tails with
  | [] => mret tt
  | tail :: tails =>
    dev ← log_dev;
    n ← log_block tail;
    to ← bread dev n;
    n ← home_block tail;
    from ← bread dev n;
    copy_block to from;;
    bwrite to;;
    brelse from;;
    brelse to;;
    write_log_loop tails
  end.

(** [src/xv6-public/log.c:177-190] *)
Definition write_log : KM unit :=
  n ← gets (λ k, lh_n (k_log k));
  write_log_loop (seq 0 (Z.to_nat n)).

(** [src/xv6-public/log.c:192-202] *)
Definition commit : KM unit :=
  n ← gets (λ k, lh_n (k_log k));
  if n >? 0 then
    write_log;;
    write_head;;
    install_trans;;
    log_upd (λ l, l <| lh_n := 0 |>);;
    write_head
  else mret tt.

(** [src/xv6-public/log.c:125-141] *)
Definition begin_op : KM unit :=
  acquire LkLog;;
  mrepeat (
    l ← gets k_log;
    if l_committing l then sleep ChLog LkLog;; mret (inl tt)
    else if lh_n l + (l_outstanding l + 1) * MAXOPBLOCKS >? LOGSIZE then
      sleep ChLog LkLog;; mret (inl tt)
    else
      log_upd (λ l, l <| l_outstanding ::= λ n, n + 1 |>);;
      release LkLog;;
      mret (inr tt)).

(** [src/xv6-public/log.c:145-174] *)
Definition end_op : KM unit :=
  acquire LkLog;;
  log_upd (λ l, l <| l_outstanding ::= λ n, n - 1 |>);;
  l ← gets k_log;
  if l_committing l then mpanic "log.committing" else
  do_commit ← (if l_outstanding l =? 0
    then log_upd (λ l, l <| l_committing := true |>);; mret true
    else wakeup ChLog;; mret false);
  release LkLog;;
  when do_commit (
    commit;;
    acquire LkLog;;
    log_upd (λ l, l <| l_committing := false |>);;
    wakeup ChLog;;
    release LkLog).

End log.

(** [src/xv6-public/log.c:224-227] the entry of block [b], or the first free one *)
Fixpoint absorb (b : Z) (bl : list Z) : nat :=
  match bl with
  | [] => O
  | b' :: bl => if b' =? b then O else S (absorb b bl)
  end.

(** [src/xv6-public/log.c:213-233] *)
Definition log_write (b : nat) : KM unit :=
  l ← gets k_log;
  if (lh_n l >=? LOGSIZE) || (lh_n l >=? l_size l - 1)
  then mpanic "too big a transaction" else
  if l_outstanding l <? 1 then mpanic "log_write outside of trans" else
  acquire LkLog;;
  blockno ← buf_get b b_blockno;
  l ← gets k_log;
  let i := absorb blockno (take (Z.to_nat (lh_n l)) (lh_block l)) in
  log_upd (λ l, l <| lh_block ::= <[i := blockno]> |>);;
  when (Z.of_nat i =? lh_n l) (log_upd (λ l, l <| lh_n ::= λ n, n + 1 |>));;
  buf_upd b (λ x, x <| b_flags ::= λ f, Z.lor f B_DIRTY |>);;
  release LkLog.
