(* ===== verification/Crash.v ===== *)
(** * The log survives crashes (log.c)

    What a disk holds through the log is its [view]: the blocks that the
    header on disk names are the ones in the log, the others are themselves.
    [commit] and [recover_from_log] are run on the cache of Bcache.v by a
    process that nothing disturbs; a crash is a prefix of the writes that they
    have done.  The disk writes one block at a time, and whole. *)

From S2P Require Import Prelude State Spinlock Sched Sleep Sleeplock Bio Bytes Bcache Log.

(** ** The header block *)

Definition header (d : list Z) (hs : list Z) : list Z :=
  put_blocks (put32 d 0 (Z.of_nat (length hs))) 0 hs.

Lemma length_put_blocks hs d i : length (put_blocks d i hs) = length d.
Proof. revert d i. induction hs as [|h hs IH]; intros d i; cbn; [done|]. by rewrite IH, length_put32. Qed.

Lemma get32_put_blocks hs d i o :
  0 ≤ o → o + 4 ≤ 4 + 4 * Z.of_nat i → get32 (put_blocks d i hs) o = get32 d o.
Proof.
  revert d i. induction hs as [|h hs IH]; intros d i Ho Hi; cbn; [done|].
  rewrite IH by lia. apply get32_put32_ne; lia.
Qed.

Lemma head_put_blocks hs d i :
  Forall is_u32 hs → 4 + 4 * (Z.of_nat i + Z.of_nat (length hs)) ≤ Z.of_nat (length d) →
  head_blocks (put_blocks d i hs) i (length hs) = hs.
Proof.
  revert d i. induction hs as [|h hs IH]; intros d i; [done|].
  cbn [put_blocks head_blocks length]. rewrite Forall_cons. intros [Hh Hhs] Hl. f_equal.
  - rewrite get32_put_blocks, get32_put32_eq by lia. by apply wrap32_small.
  - apply IH; [done|]. rewrite length_put32. lia.
Qed.

(** The blocks that the header block [d] names. *)
Definition named (d : list Z) : list Z := head_blocks d 0 (Z.to_nat (sint32 (get32 d 0))).

Lemma named_header d hs :
  Forall is_u32 hs → Z.of_nat (length hs) ≤ LOGSIZE → length d = Z.to_nat BSIZE → named (header d hs) = hs.
Proof.
  intros Hhs Hn Hd. unfold named, header. change LOGSIZE with 30 in Hn. change BSIZE with 512 in Hd.
  rewrite get32_put_blocks, get32_put32_eq by lia. rewrite sint32_wrap32, sint32_small by (unfold is_i32; lia).
  rewrite Nat2Z.id. apply head_put_blocks; [done|]. rewrite length_put32. lia.
Qed.

(** ** Disks, writes and crashes *)

Abbreviation disk := (gmap Z (list Z)).
Abbreviation write := (Z * list Z)%type.

Definition apply_writes (ws : list write) (m : disk) : disk :=
  foldl (λ m w, <[w.1 := w.2]> m) m ws.

Lemma apply_writes_app ws ws' m : apply_writes (ws ++ ws') m = apply_writes ws' (apply_writes ws m).
Proof. apply foldl_app. Qed.

Lemma apply_writes_ne ws m n : n ∉ ws.*1 → apply_writes ws m !! n = m !! n.
Proof.
  revert m. induction ws as [|w ws IH]; intros m Hn; [done|].
  change (apply_writes (w :: ws) m) with (apply_writes ws (<[w.1 := w.2]> m)). rewrite fmap_cons in Hn.
  apply not_elem_of_cons in Hn as [? ?]. rewrite IH by done. by rewrite lookup_insert_ne.
Qed.

Lemma apply_writes_eq ws m n d : NoDup ws.*1 → (n, d) ∈ ws → apply_writes ws m !! n = Some d.
Proof.
  revert m. induction ws as [|w ws IH]; intros m Hnd; [by intros ?%elem_of_nil|].
  change (apply_writes (w :: ws) m) with (apply_writes ws (<[w.1 := w.2]> m)). rewrite fmap_cons in Hnd.
  apply NoDup_cons in Hnd as [Hn Hnd]. intros [<-|Hin]%elem_of_cons; [|by apply IH].
  rewrite apply_writes_ne by done. cbn. by rewrite lookup_insert_eq.
Qed.

Lemma apply_writes_some ws m n : is_Some (m !! n) → is_Some (apply_writes ws m !! n).
Proof.
  revert m. induction ws as [|w ws IH]; intros m Hn; [done|]. apply IH, lookup_insert_is_Some'. by right.
Qed.

(** The log proper: the header and the blocks behind it. *)
Definition in_log (start size m : Z) : Prop := start ≤ m < start + size.

(** The blocks of the file system are the same on the two disks. *)
Definition same_files (start size : Z) (m m' : disk) : Prop :=
  ∀ n, ¬ in_log start size n → m !! n = m' !! n.

(** A list of blocks that can be committed: [nlog] is at most [LOGSIZE]. *)
Record txn (start size : Z) (hs : list Z) : Prop := {
  tx_len : Z.of_nat (length hs) < size;
  tx_size : size ≤ LOGSIZE;
  tx_nodup : NoDup hs;
  tx_homes : Forall (λ h, is_u32 h ∧ ¬ in_log start size h) hs;
}.

(** The log's blocks are there. *)
Definition has_log (start size : Z) (m : disk) : Prop :=
  (∃ d, m !! start = Some d ∧ length d = Z.to_nat BSIZE) ∧
  ∀ n, in_log start size n → is_Some (m !! n).

(** The blocks [hs] replaced by the log's blocks from [i] on. *)
Fixpoint replay (start : Z) (i : nat) (hs : list Z) (m : disk) : disk :=
  match hs with
  | [] => m
  | h :: hs =>
    replay start (S i) hs
      (match m !! (start + Z.of_nat i + 1) with Some d => <[h := d]> m | None => m end)
  end.

(** What the disk holds, with the transaction that the header names. *)
Definition view (start : Z) (m : disk) : disk :=
  match m !! start with Some d => replay start 0 (named d) m | None => m end.

Section view.
Context (start size : Z).

Lemma tx_log hs i h : txn start size hs → hs !! i = Some h → in_log start size (start + Z.of_nat i + 1).
Proof. intros [] E%lookup_lt_Some. unfold in_log. lia. Qed.

Lemma replay_ne hs i m n : n ∉ hs → replay start i hs m !! n = m !! n.
Proof.
  revert i m. induction hs as [|h hs IH]; intros i m Hn; [done|].
  apply not_elem_of_cons in Hn as [? ?]. cbn. rewrite IH by done.
  destruct (m !! _); [|done]. by rewrite lookup_insert_ne.
Qed.

Lemma replay_eq hs i m j h d :
  NoDup hs → Forall (λ h, ¬ in_log start size h) hs →
  Z.of_nat i + Z.of_nat (length hs) < size → hs !! j = Some h →
  m !! (start + Z.of_nat (i + j) + 1) = Some d → replay start i hs m !! h = Some d.
Proof.
  revert i j m. induction hs as [|h' hs IH]; intros i j m Hnd Hout Hsz Ej Em; [done|].
  apply NoDup_cons in Hnd as [Hn Hnd]. apply Forall_cons in Hout as [Ho Hout].
  destruct j as [|j]; cbn in Ej |- *.
  - injection Ej as ->. rewrite Nat.add_0_r in Em. rewrite Em, replay_ne by done.
    apply lookup_insert_eq.
  - cbn [length] in Hsz. apply (IH (S i) j); [done|done|lia|done|].
    replace (S i + j)%nat with (i + S j)%nat by lia.
    destruct (m !! (start + Z.of_nat i + 1)); [|done]. rewrite lookup_insert_ne; [done|].
    intros ->. apply Ho. unfold in_log. apply lookup_lt_Some in Ej. lia.
Qed.

(** The view when a header names [hs]. *)
Lemma view_files hs m d base :
  txn start size hs → m !! start = Some d → named d = hs →
  (∀ i h, hs !! i = Some h → m !! (start + Z.of_nat i + 1) = base !! h) →
  (∀ h, h ∈ hs → is_Some (base !! h)) →
  (∀ n, ¬ in_log start size n → n ∉ hs → m !! n = base !! n) → same_files start size (view start m) base.
Proof.
  intros [Hl Hs Hnd Hout] Em <- Hlog Hb Hoth n Hn. unfold view. rewrite Em.
  destruct (decide (n ∈ named d)) as [Hin|]; [|by rewrite replay_ne; auto].
  destruct (Hb n Hin) as [c Hc]. rewrite Hc. apply list_elem_of_lookup in Hin as [j Ej].
  eapply (replay_eq _ 0 _ j); [done| |lia|done|rewrite Hlog with (h := n); done].
  eapply Forall_impl; [exact Hout|]. by intros ? [].
Qed.

(** An empty log. *)
Lemma view_empty m d : m !! start = Some d → named d = [] → view start m = m.
Proof. intros E Hd. unfold view. by rewrite E, Hd. Qed.

End view.

(** ** The writes of the log's operations *)

Fixpoint log_writes (start : Z) (C : disk) (i : nat) (hs : list Z) : list write :=
  match hs with
  | [] => []
  | h :: hs => (start + Z.of_nat i + 1, default [] (C !! h)) :: log_writes start C (S i) hs
  end.

Fixpoint install_writes (start : Z) (C : disk) (i : nat) (hs : list Z) : list write :=
  match hs with
  | [] => []
  | h :: hs => (h, default [] (C !! (start + Z.of_nat i + 1))) :: install_writes start C (S i) hs
  end.

Lemma log_writes_fst start C i hs : (log_writes start C i hs).*1 = (λ j, start + Z.of_nat j + 1) <$> seq i (length hs).
Proof. revert i. induction hs as [|h hs IH]; intros i; [done|]. cbn. by rewrite IH. Qed.

Lemma install_writes_fst start C i hs : (install_writes start C i hs).*1 = hs.
Proof. revert i. induction hs as [|h hs IH]; intros i; [done|]. cbn. by rewrite IH. Qed.

Lemma log_writes_nodup start C hs : NoDup (log_writes start C 0 hs).*1.
Proof. rewrite log_writes_fst. apply NoDup_fmap; [intros ? ? ?; lia|apply NoDup_seq]. Qed.

Lemma head_not_logged start C hs : start ∉ (log_writes start C 0 hs).*1.
Proof. rewrite log_writes_fst. intros (j & E & _)%list_elem_of_fmap. lia. Qed.

Lemma log_writes_elem start C i hs j h :
  hs !! j = Some h → (start + Z.of_nat (i + j) + 1, default [] (C !! h)) ∈ log_writes start C i hs.
Proof.
  revert i j. induction hs as [|h' hs IH]; intros i [|j] E; cbn in *; try done.
  - injection E as ->. rewrite Nat.add_0_r. by left.
  - right. rewrite <- Nat.add_succ_comm. by apply IH.
Qed.

Lemma install_writes_elem start C i hs j h :
  hs !! j = Some h → (h, default [] (C !! (start + Z.of_nat (i + j) + 1))) ∈ install_writes start C i hs.
Proof.
  revert i j. induction hs as [|h' hs IH]; intros i [|j] E; cbn in *; try done.
  - injection E as ->. rewrite Nat.add_0_r. by left.
  - right. rewrite <- Nat.add_succ_comm. by apply IH.
Qed.

Lemma log_writes_ext start C C' i hs :
  (∀ h, h ∈ hs → C !! h = C' !! h) → log_writes start C i hs = log_writes start C' i hs.
Proof.
  revert i. induction hs as [|h hs IH]; intros i H; [done|]. cbn. rewrite H by (by left). f_equal.
  apply IH. intros. apply H. by right.
Qed.

Lemma install_writes_ext start C C' i hs :
  (∀ j, (i ≤ j < i + length hs)%nat → C !! (start + Z.of_nat j + 1) = C' !! (start + Z.of_nat j + 1)) →
  install_writes start C i hs = install_writes start C' i hs.
Proof.
  revert i. induction hs as [|h hs IH]; intros i H; [done|]. cbn [length] in H. cbn. rewrite H by lia. f_equal.
  apply IH. intros. apply H. lia.
Qed.

Definition home_writes (C : disk) (hs : list Z) : list write := (λ h, (h, default [] (C !! h))) <$> hs.

Lemma install_home_writes start C C' i hs :
  (∀ j h, hs !! j = Some h → C' !! (start + Z.of_nat (i + j) + 1) = C !! h) →
  install_writes start C' i hs = home_writes C hs.
Proof.
  revert i. induction hs as [|h hs IH]; intros i H; [done|]. cbn. f_equal.
  - rewrite <- (H O h) by done. by rewrite Nat.add_0_r.
  - apply IH. intros j h' E. rewrite <- (H (S j) h') by done. do 2 f_equal. lia.
Qed.

(** The process has done the writes [ws]. *)
Definition wrote_all (ws : list write) (s s' : data) : Prop :=
  d_disk s' = apply_writes ws (d_disk s) ∧ d_trace s' = rev ws ++ d_trace s.

Lemma wrote_all_app ws ws' s s' s'' :
  wrote_all ws s s' → wrote_all ws' s' s'' → wrote_all (ws ++ ws') s s''.
Proof.
  intros [E T] [E' T']. split; [by rewrite apply_writes_app, <- E|].
  by rewrite rev_app_distr, <- (assoc (++)), <- T.
Qed.

Lemma wrote_all_rest ws s s' s'' : same_rest s s' → wrote_all ws s' s'' → wrote_all ws s s''.
Proof. intros (E & T & _) [E' T']. split; congruence. Qed.

(** The log structure in memory: [hs] are the blocks of the transaction. *)
Record logged (start : Z) (hs : list Z) (l : log_t) : Prop := {
  lg_dev : l_dev l = 1;
  lg_start : l_start l = start;
  lg_n : lh_n l = Z.of_nat (length hs);
  lg_blocks : take (length hs) (lh_block l) = hs;
}.

Lemma logged_at start hs l i h : logged start hs l → hs !! i = Some h → lh_block l !! i = Some h.
Proof.
  intros [_ _ _ H] E. rewrite <- H in E. pose proof (lookup_lt_Some _ _ _ E) as Hi.
  rewrite lookup_take_lt in E; [done|]. rewrite length_take in Hi. lia.
Qed.

Section alone.
Context (k : kernel) (i : nat) (c : cpu) (p : nat) (pid : Z).
Context (Hset : settled k i c) (Hfree : locks_free k) (Hproc : c_proc c = Some p).

#[local] Abbreviation cache := (cache p pid).

(** The contents of a locked buffer change. *)
Lemma upd_data_ok s held C D b n d (g : list Z → list Z) e :
  cache s held C D → b ∈ held → holds_block s b n d →
  ∃ s', buf_upd b (λ x, x <| b_data ::= g |>) e (on k s) = Ret tt e (on k s') ∧
    cache s' held C D ∧ holds_block s' b n (g d) ∧ same_rest s s' ∧
    ∀ b' n' d', b' ≠ b → holds_block s b' n' d' → holds_block s' b' n' d'.
Proof.
  intros H Hin (x & Ex & Hn & Hd). pose proof (ca_held _ _ _ _ _ _ H) as Hheld.
  rewrite Forall_forall in Hheld. pose proof (Hheld b Hin) as Hb.
  pose proof (ca_buf _ _ _ _ _ _ H b x Hb Ex) as [Hh Hi Hf]. destruct (ca_ring _ _ _ _ _ _ H) as [order Hr].
  set (f := λ x : buf, x <| b_data ::= g |>).
  assert (bare <$> alter f b (d_buf s) = <[b := f x]> (bare <$> d_buf s)) as E.
  { rewrite (bare_alter_comm f f) by done. by apply list_alter_insert. }
  eexists. rewrite buf_upd_on. split; [done|]. split_and!; [| |done..|].
  - eapply (cache_change _ _ s _ b x (f x)); try done || (by left) || by apply H.
    exists order. by apply ring_alter.
  - exists (f x). cbn [d_buf with_buf]. rewrite E, list_lookup_insert_eq by (by eapply lookup_lt_Some).
    split_and!; [done|done|]. unfold f. rsimpl. by rewrite Hd.
  - intros b' n' d' Hne. by eapply holds_other.
Qed.

Lemma copy_ok s held C D to from n m d d' e :
  cache s held C D → to ∈ held → holds_block s to n d → holds_block s from m d' →
  ∃ s', copy_block to from e (on k s) = Ret tt e (on k s') ∧
    cache s' held C D ∧ holds_block s' to n d' ∧ same_rest s s' ∧
    ∀ b' n' d', b' ≠ to → holds_block s b' n' d' → holds_block s' b' n' d'.
Proof.
  intros H Hin Hto (x & Ex & _ & Hx). unfold copy_block.
  rewrite list_lookup_fmap in Ex. destruct (d_buf s !! from) as [y|] eqn:Ey; [|done]. injection Ex as <-.
  mgo (by apply buf_get_on). change (b_data y) with (b_data (bare y)). rewrite Hx.
  exact (upd_data_ok s held C D to n d (λ _, d') e H Hin Hto).
Qed.

(** Blocks [n] and [m] read, the contents of [m] written to [n]. *)
Lemma fetch_ok s C D n m dn dm e :
  cache s [] C D → C !! n = Some dn → C !! m = Some dm → n ≠ m →
  n ∈ D ∨ (size D < NBUF)%nat → m ∈ D ∨ (size D + 1 < NBUF)%nat →
  ∃ b b' s1 s2, b ≠ b' ∧ bread (H := Memide.disk) 1 n e (on k s) = Ret b e (on k s1) ∧
    bread (H := Memide.disk) 1 m e (on k s1) = Ret b' e (on k s2) ∧
    same_rest s s1 ∧ same_rest s s2 ∧
    cache s2 [b'; b] C D ∧ holds_block s2 b n dn ∧ holds_block s2 b' m dm.
Proof.
  intros H Hn Hm Hne Hrn Hrm.
  destruct (bread_ok k i c p pid Hset Hfree Hproc s [] C D n dn e H Hn) as (b & s1 & E1 & _ & H1 & Hb & R1 & _).
  { cbn. by rewrite Nat.add_0_r. }
  { by intros ? ? ?%elem_of_nil. }
  destruct (bread_ok k i c p pid Hset Hfree Hproc s1 [b] C D m dm e H1 Hm) as (b' & s2 & E2 & Hb'' & H2 & Hb' & R2 & Ho).
  { done. }
  { intros b0 d0 ->%list_elem_of_singleton (x & Ex & En & _). destruct Hb as (x' & Ex' & En' & _). congruence. }
  assert (b ≠ b') as Hbb by (intros ->; by apply Hb'', list_elem_of_singleton).
  exists b, b', s1, s2. split_and!; try done.
  - by split_and!; etrans; [apply R2|apply R1|apply R2|apply R1|apply R2|apply R1].
  - apply Ho; [done|exact Hb].
Qed.

Lemma store_ok s held C D to from n m dn dm (rest : KM unit) e :
  cache s held C D → held ≡ₚ [from; to] → to ≠ from → n ≠ m →
  holds_block s to n dn → holds_block s from m dm → C !! n = Some dn → C !! m = Some dm →
  ∃ s', (copy_block to from;; bwrite (H := Memide.disk) to;; brelse from;; brelse to;; rest) e (on k s) =
      rest e (on k s') ∧
    cache s' [] (<[n := dm]> C) (D ∖ {[n]}) ∧ wrote_all [(n, dm)] s s' ∧ d_log s' = d_log s.
Proof.
  intros H Hp Hne Hnm Hto Hfrom Hn Hm. apply (cache_perm _ _ _ _ _ _ _ Hp) in H.
  assert (to ∈ [from; to]) as Hin by set_solver.
  destruct (copy_ok s _ C D to from n m dn dm e H Hin Hto Hfrom) as (s1 & E1 & H1 & Hto1 & R1 & Ho1).
  assert (holds_block s1 from m dm) as Hfrom1 by (apply Ho1; done).
  destruct (bwrite_ok k i c p pid Hset Hfree Hproc s1 to _ C D n dm e H1 Hin Hto1 ltac:(by eexists))
    as (s2 & E2 & H2 & Hto2 & Ed & Et & El & Ho2).
  assert (holds_block s2 from m dm) as Hfrom2 by (apply Ho2; done).
  destruct (brelse_ok k i c p pid Hset Hfree Hproc s2 from [to] _ _ m dm e H2) as (s3 & E3 & H3 & R3 & Ho3).
  { set_solver. }
  { done. }
  { by rewrite lookup_insert_ne. }
  destruct (brelse_ok k i c p pid Hset Hfree Hproc s3 to [] _ _ n dm e H3) as (s4 & E4 & H4 & R4 & Ho4).
  { set_solver. }
  { by apply Ho3. }
  { apply lookup_insert_eq. }
  exists s4. destruct R1 as (R1 & R1' & R1''), R3 as (R3 & R3' & R3''), R4 as (R4 & R4' & R4'').
  split.
  { mgo (exact E1). mgo (exact E2). mgo (exact E3). by mgo (exact E4). }
  split_and!; [done| |congruence]. split; [|cbn [rev app]; congruence].
  change (d_disk s4 = <[n := dm]> (d_disk s)). congruence.
Qed.

(** The blocks of a transaction leave room in the cache. *)
Lemma room (D : gset Z) hs h :
  D ⊆ list_to_set hs → NoDup hs → (length hs < NBUF)%nat → h ∈ hs →
  (size D < NBUF)%nat ∧ (h ∈ D ∨ (size D + 1 < NBUF)%nat).
Proof.
  intros HD Hnd Hl Hin. pose proof (size_list_to_set (C := gset Z) hs Hnd) as Hs.
  pose proof (subseteq_size _ _ HD). split; [lia|].
  destruct (decide (h ∈ D)) as [?|Hn]; [by left|right].
  assert (size (D ∪ {[h]}) = size D + 1)%nat as E by (rewrite size_union, size_singleton; set_solver).
  assert (size (D ∪ {[h]}) ≤ size (list_to_set hs : gset Z))%nat; [|lia].
  apply subseteq_size. set_solver.
Qed.

Context (start size : Z).

Lemma txn_nbuf hs : txn start size hs → (length hs < NBUF)%nat.
Proof. intros [H1 H2 _ _]. change LOGSIZE with 30 in H2. change NBUF with 30%nat. lia. Qed.

Lemma has_log_insert m n d : has_log start size m → n ≠ start → has_log start size (<[n := d]> m).
Proof.
  intros [(d0 & E & Hd) H] Hn. split; [exists d0; by rewrite lookup_insert_ne|].
  intros n' Hn'. apply lookup_insert_is_Some'. right. by apply H.
Qed.

Lemma home_out hs h : txn start size hs → h ∈ hs → ¬ in_log start size h.
Proof. intros [_ _ _ Hh] Hin. rewrite Forall_forall in Hh. by apply Hh. Qed.

Lemma header_has_log m d hs :
  has_log start size m → m !! start = Some d → has_log start size (<[start := header d hs]> m).
Proof.
  intros [(d' & E & Hd) H] Ed. split.
  - exists (header d hs). rewrite lookup_insert_eq. split; [done|]. unfold header.
    rewrite length_put_blocks, length_put32. congruence.
  - intros n Hn. apply lookup_insert_is_Some'. right. by apply H.
Qed.

Lemma has_log_writes ws m : has_log start size m → start ∉ ws.*1 → has_log start size (apply_writes ws m).
Proof.
  intros [(d' & E & Hd) H] Hn. split; [exists d'; by rewrite apply_writes_ne|].
  intros n Hin. by apply apply_writes_some, H.
Qed.

(** After [write_log], the log has the blocks. *)
Lemma log_written C m hs j h :
  hs !! j = Some h → is_Some (C !! h) →
  apply_writes (log_writes start C 0 hs) m !! (start + Z.of_nat j + 1) = C !! h.
Proof.
  intros Ej [x Ex]. rewrite Ex. apply apply_writes_eq; [apply log_writes_nodup|]. pose proof (log_writes_elem start C 0 hs j h Ej) as Hin. by rewrite Ex in Hin.
Qed.

Lemma home_ok s s' hs j h e :
  same_rest s s' → logged start hs (d_log s) → hs !! j = Some h →
  home_block j e (on k s') = Ret h e (on k s').
Proof.
  intros (_ & _ & R) Hlog Eh. unfold home_block. rewrite bind_mget. change (k_log (on k s')) with (d_log s').
  by rewrite R, (logged_at _ _ _ _ _ Hlog Eh).
Qed.

Lemma write_log_ok pre hs s C (D : gset Z) e :
  let all := pre ++ hs in
  let ws := log_writes start C (length pre) hs in
  logged start all (d_log s) → txn start size all → D ⊆ list_to_set all → cache s [] C D →
  has_log start size C → (∀ h, h ∈ hs → is_Some (C !! h)) →
  ∃ s', write_log_loop (H := Memide.disk) (seq (length pre) (length hs)) e (on k s) = Ret tt e (on k s') ∧
    cache s' [] (apply_writes ws C) D ∧ wrote_all ws s s' ∧ d_log s' = d_log s.
Proof.
  revert pre s C. induction hs as [|h hs IH]; intros pre s C all ws Hlog Htx HD H Hhl Hs.
  { by exists s. }
  assert (all !! length pre = Some h) as Eh by (by apply list_lookup_middle).
  pose proof (list_elem_of_lookup_2 _ _ _ Eh) as Hin.
  pose proof (tx_log _ _ _ _ _ Htx Eh) as Hn. set (n := start + Z.of_nat (length pre) + 1) in *.
  assert (n ≠ h) as Hne by (intros E; apply (home_out _ _ Htx Hin); by rewrite <- E).
  assert (n ∉ D) as HnD.
  { intros Hx%HD%elem_of_list_to_set. by apply (home_out _ _ Htx Hx). }
  destruct (proj2 Hhl n Hn) as [dn Edn], (Hs h ltac:(by left)) as [dh Edh].
  destruct (room D all h HD (tx_nodup _ _ _ Htx) (txn_nbuf _ Htx) Hin) as [Hr1 Hr2].
  destruct (fetch_ok s C D n h dn dh e H Edn Edh Hne (or_intror Hr1) Hr2)
    as (b & b' & s1 & s2 & Hbb & E1 & E2 & R1 & R2 & H2 & Hb & Hb').
  destruct (store_ok s2 _ C D b b' n h dn dh (write_log_loop (H := Memide.disk) (seq (S (length pre)) (length hs))) e
    H2 ltac:(done) Hbb Hne Hb Hb' Edn Edh) as (s3 & E3 & H3 & W3 & L3).
  destruct (IH (pre ++ [h]) s3 (<[n := dh]> C)) as (s4 & E4 & H4 & W4 & L4).
  { rewrite <- (assoc (++)). rewrite L3. by rewrite (proj2 (proj2 R2)). }
  { by rewrite <- (assoc (++)). }
  { by rewrite <- (assoc (++)). }
  { by replace D with (D ∖ {[n]}) by set_solver. }
  { apply has_log_insert; [done|lia]. }
  { intros h' Hh'. apply lookup_insert_is_Some'. right. apply Hs. by right. }
  assert (log_writes start (<[n := dh]> C) (length (pre ++ [h])) hs = log_writes start C (S (length pre)) hs) as Ews.
  { rewrite length_app. cbn [length]. rewrite Nat.add_1_r. apply log_writes_ext. intros h' Hh'.
    apply lookup_insert_ne. intros ->. apply (home_out _ h' Htx); [|done]. set_solver. }
  assert (ws = (n, dh) :: log_writes start C (S (length pre)) hs) as -> by (unfold ws; cbn; by rewrite Edh).
  rewrite Ews in *. exists s4. split_and!; [|done| |].
  - cbn [length seq write_log_loop]. unfold log_dev, log_block.
    mgo (reflexivity). mgo (reflexivity). change (k_log (on k s)) with (d_log s).
    rewrite (lg_dev _ _ _ Hlog), (lg_start _ _ _ Hlog). mgo (exact E1). mgo (by eapply home_ok; [exact R1|exact Hlog|exact Eh]). mgo (exact E2). rewrite E3. rewrite length_app, Nat.add_1_r in E4. exact E4.
  - apply (wrote_all_app [(n, dh)] _ s s3); [by eapply wrote_all_rest|done].
  - rewrite L4, L3. apply R2.
Qed.

Lemma install_ok pre hs s C (D : gset Z) e :
  let all := pre ++ hs in
  let ws := install_writes start C (length pre) hs in
  logged start all (d_log s) → txn start size all → D ⊆ list_to_set hs → cache s [] C D →
  has_log start size C → (∀ h, h ∈ hs → is_Some (C !! h)) →
  ∃ s', install_loop (H := Memide.disk) (seq (length pre) (length hs)) e (on k s) = Ret tt e (on k s') ∧
    cache s' [] (apply_writes ws C) ∅ ∧ wrote_all ws s s' ∧ d_log s' = d_log s.
Proof.
  revert pre s C D. induction hs as [|h hs IH]; intros pre s C D all ws Hlog Htx HD H Hhl Hs.
  { exists s. by replace ∅ with D by set_solver. }
  assert (all !! length pre = Some h) as Eh by (by apply list_lookup_middle).
  pose proof (list_elem_of_lookup_2 _ _ _ Eh) as Hin.
  pose proof (tx_log _ _ _ _ _ Htx Eh) as Hn. set (n := start + Z.of_nat (length pre) + 1) in *.
  pose proof (home_out _ _ Htx Hin) as Hout.
  assert (n ≠ h) as Hne by (intros E; apply Hout; by rewrite <- E).
  destruct (proj2 Hhl n Hn) as [dn Edn], (Hs h ltac:(by left)) as [dh Edh].
  pose proof (tx_nodup _ _ _ Htx) as Hnd. apply NoDup_app in Hnd as (_ & _ & Hnd).
  destruct (room D (h :: hs) h HD Hnd) as [Hr1 Hr2].
  { pose proof (txn_nbuf _ Htx) as Hl. unfold all in Hl. rewrite length_app in Hl. lia. }
  { by left. }
  destruct (fetch_ok s C D n h dn dh e H Edn Edh Hne (or_intror Hr1) Hr2)
    as (b & b' & s1 & s2 & Hbb & E1 & E2 & R1 & R2 & H2 & Hb & Hb').
  destruct (store_ok s2 _ C D b' b h n dh dn (install_loop (H := Memide.disk) (seq (S (length pre)) (length hs))) e
    H2 ltac:(apply Permutation_swap) (not_eq_sym Hbb) (not_eq_sym Hne) Hb' Hb Edh Edn) as (s3 & E3 & H3 & W3 & L3).
  destruct (IH (pre ++ [h]) s3 (<[h := dn]> C) (D ∖ {[h]})) as (s4 & E4 & H4 & W4 & L4).
  { rewrite <- (assoc (++)). rewrite L3. by rewrite (proj2 (proj2 R2)). }
  { by rewrite <- (assoc (++)). }
  { intros x [Hx%HD%elem_of_list_to_set%elem_of_cons Hx']%elem_of_difference. apply elem_of_list_to_set.
    destruct Hx as [->|]; [|done]. by destruct Hx'; apply elem_of_singleton. }
  { done. }
  { apply has_log_insert; [done|]. intros ->. apply Hout. unfold in_log in *. lia. }
  { intros h' Hh'. apply lookup_insert_is_Some'. right. apply Hs. by right. }
  assert (install_writes start (<[h := dn]> C) (length (pre ++ [h])) hs =
    install_writes start C (S (length pre)) hs) as Ews.
  { rewrite length_app, Nat.add_1_r. apply install_writes_ext. intros j Hj. apply lookup_insert_ne.
    intros ->. apply Hout. pose proof (tx_len _ _ _ Htx) as Hl. unfold all in Hl.
    rewrite length_app in Hl. cbn [length] in Hl. unfold in_log. lia. }
  rewrite Ews, length_app, Nat.add_1_r in *.
  assert (ws = (h, dn) :: install_writes start C (S (length pre)) hs) as ->.
  { unfold ws. cbn. fold n. by rewrite Edn. }
  exists s4. split_and!; [|done| |].
  - cbn [length seq install_loop]. unfold log_dev, log_block.
    mgo (reflexivity). mgo (reflexivity). change (k_log (on k s)) with (d_log s).
    rewrite (lg_dev _ _ _ Hlog), (lg_start _ _ _ Hlog). mgo (exact E1).
    mgo (by eapply home_ok; [exact R1|exact Hlog|exact Eh]). mgo (exact E2). by rewrite E3.
  - apply (wrote_all_app [(h, dn)] _ s s3); [by eapply wrote_all_rest|done].
  - rewrite L4, L3. apply R2.
Qed.

Lemma head_read s C (D : gset Z) d e :
  cache s [] C D → C !! start = Some d → (base.size D < NBUF)%nat →
  ∃ b s', bread (H := Memide.disk) 1 start e (on k s) = Ret b e (on k s') ∧
    cache s' [b] C D ∧ holds_block s' b start d ∧ same_rest s s'.
Proof.
  intros H Hd Hr.
  destruct (bread_ok k i c p pid Hset Hfree Hproc s [] C D start d e H Hd) as (b & s1 & E1 & _ & H1 & Hb & R1 & _).
  { right. by rewrite Nat.add_0_r. }
  { by intros ? ? ?%elem_of_nil. }
  by exists b, s1.
Qed.

Lemma write_head_ok hs s C (D : gset Z) d e :
  logged start hs (d_log s) → cache s [] C D → C !! start = Some d → (base.size D < NBUF)%nat →
  ∃ s', write_head (H := Memide.disk) e (on k s) = Ret tt e (on k s') ∧
    cache s' [] (<[start := header d hs]> C) (D ∖ {[start]}) ∧
    wrote_all [(start, header d hs)] s s' ∧ d_log s' = d_log s.
Proof.
  intros Hlog H Hd Hr. destruct (head_read s C D d e H Hd Hr) as (b & s1 & E1 & H1 & Hb & R1).
  assert (b ∈ [b]) as Hin by set_solver.
  destruct (upd_data_ok s1 _ C D b start d
    (λ d, put_blocks (put32 d 0 (Z.of_nat (length hs))) 0 hs) e H1 Hin Hb)
    as (s2 & E2 & H2 & Hb2 & R2 & _). fold (header d hs) in Hb2.
  destruct (bwrite_ok k i c p pid Hset Hfree Hproc s2 b _ C D start _ e H2 Hin Hb2 ltac:(by eexists))
    as (s3 & E3 & H3 & Hb3 & Ed & Et & El & _).
  destruct (brelse_ok k i c p pid Hset Hfree Hproc s3 b [] _ _ start (header d hs) e H3) as (s4 & E4 & H4 & R4 & _).
  { set_solver. }
  { done. }
  { apply lookup_insert_eq. }
  exists s4. destruct R1 as (R1 & R1' & R1''), R2 as (R2 & R2' & R2''), R4 as (R4 & R4' & R4'').
  split_and!; [|done| |congruence].
  - unfold write_head. rewrite bind_mget. change (k_log (on k s)) with (d_log s).
    rewrite (lg_dev _ _ _ Hlog), (lg_start _ _ _ Hlog). mgo (exact E1). rewrite bind_mget.
    change (k_log (on k s1)) with (d_log s1). rewrite R1'', (lg_n _ _ _ Hlog), Nat2Z.id, (lg_blocks _ _ _ Hlog).
    mgo (exact E2). by mgo (exact E3).
  - split; [|cbn [rev app]; congruence].
    change (d_disk s4 = <[start := header d hs]> (d_disk s)). congruence.
Qed.

Lemma cache_log s held C D l : cache s held C D → cache (with_log l s) held C D.
Proof. by intros []. Qed.

Lemma log_upd_on f s e : log_upd f e (on k s) = Ret tt e (on k (with_log (f (d_log s)) s)).
Proof. unfold log_upd, modify, on. cbn [d_buf d_proc d_disk d_trace d_log with_log]. by merge_upd. Qed.

Lemma length_head_blocks d j n : length (head_blocks d j n) = n.
Proof. revert j. induction n as [|n IH]; intros j; cbn; [done|]. by rewrite IH. Qed.

Lemma read_head_ok s C d e :
  l_dev (d_log s) = 1 → l_start (d_log s) = start → cache s [] C ∅ → C !! start = Some d →
  0 ≤ sint32 (get32 d 0) ≤ LOGSIZE →
  ∃ s', read_head (H := Memide.disk) e (on k s) = Ret tt e (on k s') ∧
    cache s' [] C ∅ ∧ wrote_all [] s s' ∧ logged start (named d) (d_log s').
Proof.
  intros Hdev Hst H Hd Hn.
  destruct (head_read s C ∅ d e H Hd) as (b & s1 & E1 & H1 & Hb & (R1 & R1' & R1'')).
  { rewrite size_empty. unfold NBUF. lia. }
  set (l := (d_log s) <| lh_n := sint32 (get32 d 0) |> <| lh_block ::= λ bl,
    head_blocks d 0 (Z.to_nat (sint32 (get32 d 0))) ++ drop (Z.to_nat (sint32 (get32 d 0))) bl |>).
  destruct (brelse_ok k i c p pid Hset Hfree Hproc (with_log l s1) b [] C ∅ start d e)
    as (s2 & E2 & H2 & R2 & _).
  { by apply cache_log. }
  { set_solver. }
  { done. }
  { done. }
  exists s2. destruct R2 as (R2 & R2' & R2''). split_and!; [|done|split; cbn in *; congruence|].
  - unfold read_head. rewrite bind_mget. change (k_log (on k s)) with (d_log s). rewrite Hdev, Hst.
    mgo (exact E1). destruct Hb as (x & Ex & _ & Hx). rewrite list_lookup_fmap in Ex.
    destruct (d_buf s1 !! b) as [y|] eqn:Ey; [|done]. injection Ex as <-.
    mgo (by apply buf_get_on). change (b_data y) with (b_data (bare y)). rewrite Hx.
    mgo (apply log_upd_on). replace (_ >? LOGSIZE) with false by lia. mgo (apply log_upd_on).
    cbn [d_log with_log]. rewrite R1''. exact E2.
  - rewrite R2''. split; [exact Hdev|exact Hst|..].
    + change (sint32 (get32 d 0) = Z.of_nat (length (named d))). unfold named. rewrite length_head_blocks. lia.
    + change (take (length (named d))
        (named d ++ drop (Z.to_nat (sint32 (get32 d 0))) (lh_block (d_log s))) = named d).
      apply take_app_length.
Qed.

Lemma logged_clear hs l : logged start hs l → logged start [] (l <| lh_n := 0 |>).
Proof. by intros []. Qed.

(** The log is copied home, and cleared. *)
Lemma install_clear_ok hs s C (D : gset Z) d e :
  let ws := install_writes start C 0 hs ++ [(start, header d [])] in
  logged start hs (d_log s) → txn start size hs → D ⊆ list_to_set hs → cache s [] C D →
  has_log start size C → (∀ h, h ∈ hs → is_Some (C !! h)) → C !! start = Some d →
  ∃ s', (install_trans (H := Memide.disk);; log_upd (λ l, l <| lh_n := 0 |>);;
         write_head (H := Memide.disk)) e (on k s) = Ret tt e (on k s') ∧
    cache s' [] (apply_writes ws C) ∅ ∧ wrote_all ws s s' ∧ d_log s' = (d_log s) <| lh_n := 0 |>.
Proof.
  intros ws Hlog Htx HD H Hhl Hs Hd.
  destruct (install_ok [] hs s C D e Hlog Htx HD H Hhl Hs) as (s1 & E1 & H1 & W1 & L1).
  cbn [length app] in *. set (ws1 := install_writes start C 0 hs) in *.
  assert (apply_writes ws1 C !! start = Some d) as Hd1.
  { rewrite apply_writes_ne; [done|]. unfold ws1. rewrite install_writes_fst. intros Hin.
    apply (home_out _ _ Htx Hin). pose proof (tx_len _ _ _ Htx). unfold in_log. lia. }
  set (s2 := with_log ((d_log s1) <| lh_n := 0 |>) s1).
  assert (logged start [] (d_log s2)) as Hlog2.
  { apply (logged_clear hs). by rewrite L1. }
  destruct (write_head_ok [] s2 _ ∅ d e Hlog2 (cache_log _ _ _ _ _ H1) Hd1) as (s3 & E3 & H3 & W3 & L3).
  { rewrite size_empty. unfold NBUF. lia. }
  exists s3. split_and!.
  - unfold install_trans. rewrite bind_assoc, bind_gets. change (k_log (on k s)) with (d_log s).
    rewrite (lg_n _ _ _ Hlog), Nat2Z.id. mgo (exact E1). by mgo (apply log_upd_on).
  - unfold ws. rewrite apply_writes_app. by assert (∅ ∖ {[start]} =@{gset Z} ∅) as <- by set_solver.
  - eapply wrote_all_app; [exact W1|exact W3].
  - rewrite L3. unfold s2. cbn [d_log with_log]. by rewrite L1.
Qed.

Lemma recover_ok s m d e :
  let ws := install_writes start m 0 (named d) ++ [(start, header d [])] in
  l_dev (d_log s) = 1 → l_start (d_log s) = start → cache s [] m ∅ → m !! start = Some d →
  0 ≤ sint32 (get32 d 0) ≤ LOGSIZE → txn start size (named d) → has_log start size m →
  (∀ h, h ∈ named d → is_Some (m !! h)) →
  ∃ s', recover_from_log (H := Memide.disk) e (on k s) = Ret tt e (on k s') ∧
    cache s' [] (apply_writes ws m) ∅ ∧ wrote_all ws s s' ∧ logged start [] (d_log s').
Proof.
  intros ws Hdev Hst H Hd Hn Htx Hhl Hs.
  destruct (read_head_ok s m d e Hdev Hst H Hd Hn) as (s1 & E1 & H1 & W1 & L1).
  destruct (install_clear_ok (named d) s1 m ∅ d e L1 Htx) as (s2 & E2 & H2 & W2 & L2); [set_solver|done..|].
  exists s2. split_and!; [|done| |rewrite L2; by apply logged_clear in L1].
  - unfold recover_from_log. by mgo (exact E1).
  - by apply (wrote_all_app [] _ s s1).
Qed.

(** The writes of a commit. *)
Definition commit_writes (C : disk) (d : list Z) (hs : list Z) : list write :=
  log_writes start C 0 hs ++ (start, header d hs) :: home_writes C hs ++ [(start, header (header d hs) [])].

Lemma commit_ok hs s C (D : gset Z) d e :
  let ws := commit_writes C d hs in
  logged start hs (d_log s) → hs ≠ [] → txn start size hs → D ⊆ list_to_set hs → cache s [] C D →
  has_log start size C → (∀ h, h ∈ hs → is_Some (C !! h)) → C !! start = Some d →
  ∃ s', commit (H := Memide.disk) e (on k s) = Ret tt e (on k s') ∧
    cache s' [] (apply_writes ws C) ∅ ∧ wrote_all ws s s' ∧ d_log s' = (d_log s) <| lh_n := 0 |>.
Proof.
  intros ws Hlog Hne Htx HD H Hhl Hs Hd.
  destruct (write_log_ok [] hs s C D e Hlog Htx HD H Hhl Hs) as (s1 & E1 & H1 & W1 & L1).
  cbn [length app] in *. set (ws1 := log_writes start C 0 hs) in *. set (C1 := apply_writes ws1 C) in *.
  pose proof (head_not_logged start C hs) as Hns. fold ws1 in Hns.
  assert (C1 !! start = Some d) as Hd1 by (unfold C1; by rewrite apply_writes_ne).
  destruct (room D hs (List.hd 0 hs) HD (tx_nodup _ _ _ Htx) (txn_nbuf _ Htx)) as [Hr _].
  { destruct hs; [done|by left]. }
  destruct (write_head_ok hs s1 C1 D d e ltac:(by rewrite L1) H1 Hd1 Hr) as (s2 & E2 & H2 & W2 & L2).
  assert (in_log start size start) as Hst by (pose proof (tx_len _ _ _ Htx); unfold in_log; lia).
  replace (D ∖ {[start]}) with D in H2.
  2: { assert (start ∉ D); [|set_solver]. intros Hx%HD%elem_of_list_to_set. by apply (home_out _ _ Htx Hx). }
  set (C2 := <[start := header d hs]> C1) in *.
  destruct (install_clear_ok hs s2 C2 D (header d hs) e) as (s3 & E3 & H3 & W3 & L3); try done.
  { by rewrite L2, L1. }
  { apply header_has_log; [by apply has_log_writes|done]. }
  { intros h Hh. apply lookup_insert_is_Some'. right. apply apply_writes_some. by apply Hs. }
  { apply lookup_insert_eq. }
  rewrite (install_home_writes start C) in *.
  2,3: intros j h Ej; unfold C2; rewrite lookup_insert_ne by lia; apply log_written; [done|];
    by eapply Hs, list_elem_of_lookup_2.
  exists s3. split_and!; [| | |by rewrite L3, L2, L1].
  - unfold commit. rewrite bind_gets. change (k_log (on k s)) with (d_log s). rewrite (lg_n _ _ _ Hlog).
    assert (length hs ≠ 0)%nat as Hnz by (by destruct hs).
    replace (Z.of_nat (length hs) >? 0) with true by lia.
    unfold write_log. rewrite bind_assoc, bind_gets. change (k_log (on k s)) with (d_log s).
    rewrite (lg_n _ _ _ Hlog), Nat2Z.id. mgo (exact E1). by mgo (exact E2).
  - unfold ws, commit_writes. rewrite apply_writes_app. exact H3.
  - eapply wrote_all_app; [exact W1|]. by eapply (wrote_all_app [_]).
Qed.

End alone.

(** ** What a crash leaves *)

(** A disk that can be recovered: its log is in order. *)
Record recoverable (start size : Z) (m : disk) (hs : list Z) : Prop := {
  rc_head : ∃ d, m !! start = Some d ∧ sint32 (get32 d 0) = Z.of_nat (length hs) ∧ named d = hs;
  rc_txn : txn start size hs;
  rc_log : has_log start size m;
  rc_homes : ∀ h, h ∈ hs → is_Some (m !! h);
}.

Section crash.
Context (start size : Z).

Lemma count_header d hs :
  Z.of_nat (length hs) ≤ LOGSIZE → length d = Z.to_nat BSIZE →
  sint32 (get32 (header d hs) 0) = Z.of_nat (length hs).
Proof.
  intros Hn Hd. unfold header. change LOGSIZE with 30 in Hn. change BSIZE with 512 in Hd.
  rewrite get32_put_blocks, get32_put32_eq by lia. rewrite sint32_wrap32. apply sint32_small. unfold is_i32. lia.
Qed.

Lemma tx_nil hs : txn start size hs → txn start size [].
Proof. intros []. split; cbn; [lia|done|constructor|constructor]. Qed.

(** A header for [hs] was written, and then some homes. *)
Lemma headed_recoverable m d hs ws :
  txn start size hs → has_log start size m → m !! start = Some d → (∀ h, h ∈ hs → is_Some (m !! h)) →
  start ∉ ws.*1 →
  recoverable start size (apply_writes ws (<[start := header d hs]> m)) hs.
Proof.
  intros Htx Hlog Hd Hs Hns. pose proof Htx as [Hl Hsz _ Hh]. split; [|done| |].
  - exists (header d hs). rewrite apply_writes_ne, lookup_insert_eq by done.
    destruct Hlog as [(d' & E & Hlen) _]. assert (d' = d) as -> by congruence.
    split; [done|]. split; [apply count_header; [lia|done]|].
    apply named_header; [|lia|done]. eapply Forall_impl; [exact Hh|]. by intros ? [].
  - apply has_log_writes; [by apply header_has_log|done].
  - intros h Hin. apply apply_writes_some, lookup_insert_is_Some'. right. by apply Hs.
Qed.

Lemma recoverable_view m : recoverable start size m [] → view start m = m.
Proof. intros [(d & E & _ & Hn) _ _ _]. by eapply view_empty. Qed.

Lemma out_start n hs : txn start size hs → ¬ in_log start size n → n ≠ start.
Proof. intros [] Hn ->. apply Hn. unfold in_log. lia. Qed.

Lemma log_writes_in C hs n : txn start size hs → n ∈ (log_writes start C 0 hs).*1 → in_log start size n.
Proof.
  intros []. rewrite log_writes_fst. intros (j & -> & Hj%elem_of_seq)%list_elem_of_fmap. unfold in_log. lia.
Qed.

Lemma home_writes_fst C hs : (home_writes C hs).*1 = hs.
Proof. unfold home_writes. rewrite <- list_fmap_compose. apply list_fmap_id. Qed.

Lemma home_written C m hs h :
  NoDup hs → h ∈ hs → is_Some (C !! h) → apply_writes (home_writes C hs) m !! h = C !! h.
Proof.
  intros Hnd Hin [x Ex]. rewrite Ex. apply apply_writes_eq; [by rewrite home_writes_fst|].
  apply list_elem_of_fmap. exists h. by rewrite Ex.
Qed.

Context (m C : disk) (d : list Z) (hs : list Z).
Context (Htx : txn start size hs) (Hlog : has_log start size m) (Hd : m !! start = Some d).
Context (Hs : ∀ h, h ∈ hs → is_Some (m !! h)) (HsC : ∀ h, h ∈ hs → is_Some (C !! h)).
Context (HC : ∀ n, n ∉ hs → m !! n = C !! n).

(** A crash before the header is written. *)
Lemma crash_before ws :
  recoverable start size m [] → Forall (λ n, in_log start size n ∧ n ≠ start) ws.*1 →
  let m' := apply_writes ws m in
  recoverable start size m' [] ∧ same_files start size (view start m') m.
Proof.
  intros Hr Hws m'. rewrite Forall_forall in Hws.
  assert (start ∉ ws.*1) as Hns by (by intros [_ ?]%Hws).
  assert (recoverable start size m' []) as Hr'.
  { destruct Hr as [(d' & E & Hh) Ht _ _]. split; [|done|by apply has_log_writes|by intros ? ?%elem_of_nil].
    exists d'. unfold m'. by rewrite apply_writes_ne. }
  split; [done|]. rewrite (recoverable_view _ Hr'). intros n Hn. apply apply_writes_ne. by intros [? _]%Hws.
Qed.

(** A crash between the two writes of the header. *)
Lemma crash_between ws :
  Forall (λ n, n ∈ hs) ws.*1 →
  let m' := apply_writes ws (<[start := header d hs]> (apply_writes (log_writes start C 0 hs) m)) in
  recoverable start size m' hs ∧ same_files start size (view start m') C.
Proof.
  intros Hws m'. rewrite Forall_forall in Hws. set (m1 := apply_writes (log_writes start C 0 hs) m) in *.
  assert (∀ n, in_log start size n → n ∉ ws.*1) as Hin by (intros n ? Hx%Hws; by eapply home_out).
  assert (start ∉ ws.*1) as Hns by (apply Hin; pose proof (tx_len _ _ _ Htx); unfold in_log; lia).
  assert (recoverable start size m' hs) as Hr.
  { apply headed_recoverable; [done|apply has_log_writes; [done|apply head_not_logged]| |
      by intros; apply apply_writes_some, Hs|done].
    unfold m1. by rewrite apply_writes_ne by apply head_not_logged. }
  split; [done|]. destruct (rc_head _ _ _ _ Hr) as (d' & E & _ & Hn).
  apply (view_files start size hs m' d' C); [done..| |done|].
  - intros j h Ej. unfold m'. rewrite apply_writes_ne by (by apply Hin; eapply tx_log).
    rewrite lookup_insert_ne by lia. apply log_written; [done|]. by eapply HsC, list_elem_of_lookup_2.
  - intros n Hn' Hnh. unfold m', m1.
    rewrite apply_writes_ne by (by intros ?%Hws). rewrite lookup_insert_ne by (intros <-; by eapply out_start).
    rewrite apply_writes_ne by (intros Hx; apply Hn'; by eapply log_writes_in). by apply HC.
Qed.

(** The commit is over. *)
Lemma crash_after :
  let m' := apply_writes (commit_writes start C d hs) m in
  recoverable start size m' [] ∧ same_files start size (view start m') C.
Proof.
  intros m'. set (m1 := apply_writes (log_writes start C 0 hs) m).
  set (m2 := apply_writes (home_writes C hs) (<[start := header d hs]> m1)).
  assert (m' = <[start := header (header d hs) []]> m2) as Em.
  { unfold m', commit_writes. by rewrite apply_writes_app, app_comm_cons, apply_writes_app. }
  destruct (crash_between (home_writes C hs)) as [Hr Hv]; [rewrite home_writes_fst; by apply Forall_forall|].
  fold m1 m2 in Hr, Hv. destruct Hr as [_ _ Hl _].
  assert (m2 !! start = Some (header d hs)) as E2.
  { unfold m2. rewrite apply_writes_ne; [apply lookup_insert_eq|]. rewrite home_writes_fst. intros Hx.
    apply (home_out _ _ _ _ Htx Hx). pose proof (tx_len _ _ _ Htx). unfold in_log. lia. }
  assert (recoverable start size m' []) as Hr'.
  { rewrite Em. apply (headed_recoverable m2 (header d hs) [] []); [by eapply tx_nil|done..|by intros ? ?%elem_of_nil|].
    by intros ?%elem_of_nil. }
  split; [done|]. rewrite (recoverable_view _ Hr'). intros n Hn.
  pose proof (out_start n hs Htx Hn) as Hne.
  rewrite Em, lookup_insert_ne by done. unfold m2. destruct (decide (n ∈ hs)) as [Hin|Hnin].
  - apply home_written; [apply Htx|done|by apply HsC].
  - rewrite apply_writes_ne by (by rewrite home_writes_fst). rewrite lookup_insert_ne by done. unfold m1.
    rewrite apply_writes_ne by (intros Hx; apply Hn; by eapply log_writes_in). by apply HC.
Qed.

(** A crash after any number of the writes of the commit. *)
Lemma crash_commit j :
  recoverable start size m [] →
  let m' := apply_writes (take j (commit_writes start C d hs)) m in
  ∃ hs', recoverable start size m' hs' ∧
    same_files start size (view start m') (if decide (j ≤ length hs)%nat then m else C).
Proof.
  intros Hr m'. assert (length (log_writes start C 0 hs) = length hs) as HlA.
  { rewrite <- (length_fmap fst), log_writes_fst, length_fmap. apply length_seq. }
  assert (length (home_writes C hs) = length hs) as HlB by apply length_fmap.
  case_decide as Hj.
  - exists []. unfold m', commit_writes. rewrite take_app_le by lia. apply crash_before; [done|].
    rewrite fmap_take. apply Forall_take, Forall_forall. intros n Hn. split; [by eapply log_writes_in|].
    intros ->. by eapply head_not_logged.
  - destruct (decide (j ≤ length hs + 1 + length hs)%nat) as [Hj'|].
    + exists hs. unfold m', commit_writes. rewrite take_app_ge, HlA by lia.
      destruct (j - length hs)%nat as [|j'] eqn:Ej; [lia|]. rewrite firstn_cons, take_app_le by lia.
      rewrite apply_writes_app. apply crash_between. rewrite fmap_take, home_writes_fst.
      by apply Forall_take, Forall_forall.
    + exists []. unfold m'. rewrite take_ge; [apply crash_after|].
      unfold commit_writes. rewrite length_app. cbn [length]. rewrite length_app, HlA, HlB. cbn [length]. lia.
Qed.

End crash.

(** Recovery, and crashes during it. *)
Section recovery.
Context (start size : Z) (m : disk) (d : list Z) (hs : list Z).
Context (Hr : recoverable start size m hs) (Hd : m !! start = Some d).

Lemma hs_named : named d = hs.
Proof. destruct (rc_head _ _ _ _ Hr) as (d' & E & _ & ?). congruence. Qed.

Lemma view_other n : n ∉ hs → view start m !! n = m !! n.
Proof. intros Hn. unfold view. rewrite Hd, hs_named. by apply replay_ne. Qed.

Lemma view_home j h : hs !! j = Some h → view start m !! h = m !! (start + Z.of_nat j + 1).
Proof.
  intros Ej. pose proof (rc_txn _ _ _ _ Hr) as Htx. pose proof (tx_log _ _ _ _ _ Htx Ej) as Hin.
  destruct (proj2 (rc_log _ _ _ _ Hr) _ Hin) as [x Ex]. rewrite Ex. unfold view. rewrite Hd, hs_named.
  pose proof Htx as [Hl _ Hnd Hout]. eapply (replay_eq start size _ 0 _ j); [done| |lia|done|done].
  eapply Forall_impl; [exact Hout|]. by intros ? [].
Qed.

Lemma view_some h : h ∈ hs → is_Some (view start m !! h).
Proof.
  intros [j Ej]%list_elem_of_lookup. rewrite (view_home j) by done.
  apply (proj2 (rc_log _ _ _ _ Hr)). eapply tx_log; [apply Hr|done].
Qed.

Lemma crash_install ws :
  Forall (λ n, n ∈ hs) ws.*1 →
  let m' := apply_writes ws m in
  recoverable start size m' hs ∧ same_files start size (view start m') (view start m).
Proof.
  intros Hws m'. rewrite Forall_forall in Hws. pose proof (rc_txn _ _ _ _ Hr) as Htx.
  assert (∀ n, in_log start size n → n ∉ ws.*1) as Hin by (intros n ? Hx%Hws; by eapply home_out).
  assert (start ∉ ws.*1) as Hns by (apply Hin; pose proof (tx_len _ _ _ Htx); unfold in_log; lia).
  assert (m' !! start = Some d) as Hd' by (unfold m'; by rewrite apply_writes_ne). split.
  - destruct Hr as [(d' & E & ?) _ ? Hs]. split; [|done|by apply has_log_writes|].
    + exists d'. by rewrite Hd', <- E, Hd.
    + intros h Hh. by apply apply_writes_some, Hs.
  - apply (view_files start size hs m' d _ Htx Hd' hs_named); [|apply view_some|].
    + intros j h Ej. rewrite (view_home j) by done. apply apply_writes_ne, Hin. by eapply tx_log.
    + intros n _ Hn. rewrite view_other by done. apply apply_writes_ne. by intros ?%Hws.
Qed.

Lemma crash_recovered :
  let m' := apply_writes (install_writes start m 0 hs ++ [(start, header d [])]) m in
  recoverable start size m' [] ∧ same_files start size m' (view start m).
Proof.
  intros m'. set (m1 := apply_writes (install_writes start m 0 hs) m).
  assert (m' = <[start := header d []]> m1) as Em by (unfold m'; by rewrite apply_writes_app).
  destruct (crash_install (install_writes start m 0 hs)) as [[(d' & E & _ & Hn) Htx Hl _] _].
  { rewrite install_writes_fst. by apply Forall_forall. }
  fold m1 in E, Hl. assert (m1 !! start = Some d) as Hd1.
  { unfold m1. rewrite apply_writes_ne; [done|]. rewrite install_writes_fst. intros Hx.
    apply (home_out _ _ _ _ Htx Hx). pose proof (tx_len _ _ _ Htx). unfold in_log. lia. }
  split.
  - rewrite Em. apply (headed_recoverable start size m1 d [] []); [by eapply tx_nil|done..| |];
      by intros ? ?%elem_of_nil || intros ?%elem_of_nil.
  - intros n Hout. rewrite Em, lookup_insert_ne by (intros <-; by eapply out_start).
    destruct (decide (n ∈ hs)) as [[j Ej]%list_elem_of_lookup|Hnin].
    + destruct (view_some n) as [x Ex]; [by eapply list_elem_of_lookup_2|]. rewrite Ex.
      rewrite (view_home j) in Ex by done. apply apply_writes_eq; [rewrite install_writes_fst; apply Htx|].
      pose proof (install_writes_elem start m 0 hs j n Ej) as Hin.
      change (0 + j)%nat with j in Hin. by rewrite Ex in Hin.
    + rewrite view_other by done. apply apply_writes_ne. by rewrite install_writes_fst.
Qed.

(** A crash after any number of the writes of the recovery. *)
Lemma crash_recovery j :
  let m' := apply_writes (take j (install_writes start m 0 hs ++ [(start, header d [])])) m in
  ∃ hs', recoverable start size m' hs' ∧ same_files start size (view start m') (view start m).
Proof.
  intros m'. assert (length (install_writes start m 0 hs) = length hs) as Hl.
  { by rewrite <- (length_fmap fst), install_writes_fst. }
  destruct (decide (j ≤ length hs)%nat).
  - exists hs. unfold m'. rewrite take_app_le by lia. apply crash_install.
    rewrite fmap_take, install_writes_fst. by apply Forall_take, Forall_forall.
  - exists []. unfold m'. rewrite take_ge by (rewrite length_app, Hl; cbn; lia).
    destruct crash_recovered as [Hr' Hv]. split; [done|]. by rewrite (recoverable_view start size).
Qed.

End recovery.

(** ** Commit and recovery *)

(** A CPU runs process [p], and the spin locks of the cache are free. *)
Definition alone (k : kernel) (p : nat) : Prop :=
  ∃ i c, settled k i c ∧ locks_free k ∧ c_proc c = Some p.

Lemma cache_clean p pid s held C : cache p pid s held C ∅ → d_disk s = C.
Proof. intros H. apply map_eq. intros n. apply (ca_disk _ _ _ _ _ _ H). set_solver. Qed.

Lemma recover_spec k p pid s start size hs m e :
  alone k p → cache p pid s [] m ∅ → l_dev (d_log s) = 1 → l_start (d_log s) = start →
  recoverable start size m hs →
  ∃ s' ws, recover_from_log (H := Memide.disk) e (on k s) = Ret tt e (on k s') ∧
    wrote_all ws s s' ∧ cache p pid s' [] (d_disk s') ∅ ∧
    recoverable start size (d_disk s') [] ∧ same_files start size (d_disk s') (view start m) ∧
    ∀ j, ∃ hs', let m' := apply_writes (take j ws) m in
      recoverable start size m' hs' ∧ same_files start size (view start m') (view start m).
Proof.
  intros (i & c & Hset & Hfree & Hproc) H Hdev Hst Hr.
  pose proof Hr as [(d & Hd & Hn & Hnm) Htx Hlog Hs]. rewrite <- Hnm in *.
  destruct (recover_ok k i c p pid Hset Hfree Hproc start size s m d e) as (s' & E & H' & W & _); try done.
  { destruct Htx. lia. }
  pose proof (cache_clean _ _ _ _ _ H) as Ed. pose proof (cache_clean _ _ _ _ _ H') as Ed'.
  eexists s', _. split; [exact E|]. split; [exact W|]. rewrite Ed'. split; [done|].
  destruct (crash_recovered start size m d _ Hr Hd) as [Hr' Hv]. split_and!; [done..|].
  intros j. by apply crash_recovery.
Qed.

Lemma commit_nothing k p pid s start size e :
  cache p pid s [] (d_disk s) ∅ → logged start [] (d_log s) → recoverable start size (d_disk s) [] →
  ∃ s' ws, commit (H := Memide.disk) e (on k s) = Ret tt e (on k s') ∧
    wrote_all ws s s' ∧ d_log s' = (d_log s) <| lh_n := 0 |> ∧
    cache p pid s' [] (d_disk s') ∅ ∧
    recoverable start size (d_disk s') [] ∧ same_files start size (d_disk s') (d_disk s) ∧
    ∀ j k2 p2 pid2 s2 e2, alone k2 p2 → l_dev (d_log s2) = 1 → l_start (d_log s2) = start →
      cache p2 pid2 s2 [] (apply_writes (take j ws) (d_disk s)) ∅ →
      ∃ s3, recover_from_log (H := Memide.disk) e2 (on k2 s2) = Ret tt e2 (on k2 s3) ∧
        same_files start size (d_disk s3) (if decide (j ≤ 0)%nat then d_disk s else d_disk s).
Proof.
  intros H [Hdev Hst Hn _] Hr. exists s, []. split_and!; try done.
  - unfold commit. rewrite bind_gets. change (k_log (on k s)) with (d_log s). by rewrite Hn.
  - destruct (d_log s). cbn in Hn. by rewrite Hn.
  - intros j k2 p2 pid2 s2 e2 Ha2 Hdev2 Hst2 H2. rewrite take_nil in H2.
    destruct (recover_spec k2 p2 pid2 s2 start size [] _ e2 Ha2 H2 Hdev2 Hst2 Hr)
      as (s3 & ws & E3 & _ & _ & _ & Hv3 & _).
    exists s3. split; [done|]. rewrite (recoverable_view start size) in Hv3 by done. by case_decide.
Qed.

(** A commit is atomic.  [commit] returns, having written the blocks of the transaction home;
    if instead the machine stops after any number [j] of its disk writes, [recover_from_log] on
    the disk that is left gives all of the old blocks, when the header was not written yet, or all
    of the new ones. *)
Lemma commit_spec k p pid s C (D : gset Z) start size hs e :
  alone k p → cache p pid s [] C D → logged start hs (d_log s) → txn start size hs →
  D ⊆ list_to_set hs → recoverable start size (d_disk s) [] → (∀ h, h ∈ hs → is_Some (C !! h)) →
  ∃ s' ws, commit (H := Memide.disk) e (on k s) = Ret tt e (on k s') ∧
    wrote_all ws s s' ∧ d_log s' = (d_log s) <| lh_n := 0 |> ∧
    cache p pid s' [] (d_disk s') ∅ ∧
    recoverable start size (d_disk s') [] ∧ same_files start size (d_disk s') C ∧
    ∀ j k2 p2 pid2 s2 e2, alone k2 p2 → l_dev (d_log s2) = 1 → l_start (d_log s2) = start →
      cache p2 pid2 s2 [] (apply_writes (take j ws) (d_disk s)) ∅ →
      ∃ s3, recover_from_log (H := Memide.disk) e2 (on k2 s2) = Ret tt e2 (on k2 s3) ∧
        same_files start size (d_disk s3) (if decide (j ≤ length hs)%nat then d_disk s else C).
Proof.
  intros Ha H Hlg Htx HD Hr Hs. destruct (decide (hs = [])) as [->|Hne].
  { replace D with (∅ : gset Z) in H by set_solver. pose proof (cache_clean _ _ _ _ _ H) as <-.
    by eapply commit_nothing. }
  destruct Ha as (i & c & Hset & Hfree & Hproc).
  pose proof Hr as [(d & Hd & _) _ Hlog _].
  assert (∀ n, n ∉ hs → d_disk s !! n = C !! n) as HC.
  { intros n Hn. apply (ca_disk _ _ _ _ _ _ H). intros Hx%HD%elem_of_list_to_set. done. }
  assert (∀ n, in_log start size n → n ∉ hs) as Hout by (intros n Hn Hx; by eapply home_out).
  assert (in_log start size start) as Hst by (destruct Htx; unfold in_log; lia).
  assert (∀ h, h ∈ hs → is_Some (d_disk s !! h)) as Hs' by (intros; by apply (ca_dom _ _ _ _ _ _ H), Hs).
  assert (has_log start size C) as HlogC.
  { destruct Hlog as [(d' & E & ?) Hl]. split; [exists d'; by rewrite <- HC by auto|].
    intros n Hn. rewrite <- HC by auto. by apply Hl. }
  destruct (commit_ok k i c p pid Hset Hfree Hproc start size hs s C D d e) as (s' & E & H' & W & L'); try done.
  { by rewrite <- HC by auto. }
  pose proof (cache_clean _ _ _ _ _ H') as Ed'.
  destruct (crash_after start size (d_disk s) C d hs) as [Hr' Hv]; try done.
  exists s', (commit_writes start C d hs). split_and!; [done..|by rewrite Ed'|by rewrite (proj1 W)| |].
  { rewrite (proj1 W). by rewrite (recoverable_view start size) in Hv. }
  intros j k2 p2 pid2 s2 e2 Ha2 Hdev2 Hst2 H2.
  destruct (crash_commit start size (d_disk s) C d hs Htx Hlog Hd Hs' Hs HC j Hr) as (hs' & Hr2 & Hv2).
  destruct (recover_spec k2 p2 pid2 s2 start size hs' _ e2 Ha2 H2 Hdev2 Hst2 Hr2)
    as (s3 & ws & E3 & _ & _ & _ & Hv3 & _).
  exists s3. split; [done|]. intros n Hn. by rewrite Hv3, Hv2.
Qed.
