(* ===== verification/Txn.v ===== *)
(** * Transactions (log.c)

    The use of the log that log.c documents: between [begin_op] and [end_op],
    read a block, change it, [log_write] it, release it.  Such a transaction is
    atomic under crashes ([transaction_atomic]); recovery can crash and be
    repeated ([recover_correct]). *)

From S2P Require Import Prelude State Spinlock Sched Sleep Sleeplock Bio Bytes Bcache Log Crash.

(** ** The operations on an open log *)

Record log_is (start size : Z) (hs : list Z) (out : Z) (com : bool) (l : log_t) : Prop := {
  li_logged : logged start hs l;
  li_size : l_size l = size;
  li_out : l_outstanding l = out;
  li_com : l_committing l = com;
  li_len : length (lh_block l) = Z.to_nat LOGSIZE;
}.

Lemma absorb_in n hs : n ∈ hs → hs !! absorb n hs = Some n.
Proof.
  induction hs as [|h hs IH]; [by intros ?%elem_of_nil|]. cbn.
  destruct (h =? n) eqn:E; [by apply Z.eqb_eq in E as ->|].
  intros [->|Hin]%elem_of_cons; [by rewrite Z.eqb_refl in E|]. by apply IH.
Qed.

Lemma absorb_out n hs : n ∉ hs → absorb n hs = length hs.
Proof.
  induction hs as [|h hs IH]; [done|]. intros [Hne Hn]%not_elem_of_cons. cbn.
  replace (h =? n) with false by lia. by rewrite IH.
Qed.

(** The blocks of the transaction once [n] is in it. *)
Definition note (n : Z) (hs : list Z) : list Z := if decide (n ∈ hs) then hs else hs ++ [n].

Lemma note_log n start size hs out com l :
  log_is start size hs out com l → (length hs < Z.to_nat LOGSIZE)%nat →
  let i := absorb n (take (Z.to_nat (lh_n l)) (lh_block l)) in
  let l1 := l <| lh_block ::= <[i := n]> |> in
  log_is start size (note n hs) out com
    (if Z.of_nat i =? lh_n l then l1 <| lh_n ::= λ n, n + 1 |> else l1).
Proof.
  intros [Hlg Hsz Hout Hcom Hlen] Hlt. pose proof Hlg as [Hdev Hst Hn Hbl]. rewrite Hn, Nat2Z.id, Hbl. intros i l1. subst i l1. unfold note.
  destruct (decide (n ∈ hs)) as [Hin|Hnin].
  - pose proof (absorb_in n hs Hin) as E. pose proof (lookup_lt_Some _ _ _ E) as Hi.
    replace (_ =? _) with false by lia.
    split; [|done..|exact (eq_trans (length_insert _ _ _) Hlen)]. split; [done..|].
    change (take (length hs) (<[absorb n hs := n]> (lh_block l)) = hs).
    rewrite list_insert_id; [done|]. by eapply logged_at.
  - rewrite absorb_out by done. rewrite Z.eqb_refl.
    split; [|done..|exact (eq_trans (length_insert _ _ _) Hlen)]. split; [done..| |].
    { change (lh_n l + 1 = Z.of_nat (length (hs ++ [n]))). rewrite Hn, length_app. cbn [length]. lia. }
    change (take (length (hs ++ [n])) (<[length hs := n]> (lh_block l)) = hs ++ [n]).
    rewrite length_app. cbn [length]. rewrite Nat.add_1_r.
    rewrite (take_S_r _ _ n) by (apply list_lookup_insert_eq; lia). rewrite take_insert_ge by lia. by rewrite Hbl.
Qed.

Lemma when_log_upd t f k s e :
  when t (log_upd f) e (on k s) =
  Ret tt e (on k (with_log (if t then f (d_log s) else d_log s) s)).
Proof. destruct t; [apply log_upd_on|by destruct s]. Qed.

Lemma note_nodup n hs : NoDup hs → NoDup (note n hs).
Proof.
  intros H. unfold note. case_decide; [done|]. apply NoDup_app. split_and!; [done| |apply NoDup_singleton].
  intros x Hx ->%list_elem_of_singleton. done.
Qed.
Lemma note_elem n hs x : x ∈ note n hs ↔ x = n ∨ x ∈ hs.
Proof. unfold note. case_decide; set_solver. Qed.
Lemma note_length n hs : (length (note n hs) ≤ S (length hs))%nat.
Proof. unfold note. case_decide; [lia|]. rewrite length_app. cbn. lia. Qed.

(** The blocks of a transaction that does the updates [us]. *)
Definition noted (us : list write) (hs : list Z) : list Z := foldl (λ hs u, note u.1 hs) hs us.

Lemma noted_nodup us hs : NoDup hs → NoDup (noted us hs).
Proof. revert hs. induction us as [|u us IH]; intros hs H; [done|]. apply IH. by apply note_nodup. Qed.
Lemma noted_elem us hs x : x ∈ noted us hs ↔ x ∈ us.*1 ∨ x ∈ hs.
Proof.
  revert hs. induction us as [|u us IH]; intros hs; [by set_solver|].
  change (noted (u :: us) hs) with (noted us (note u.1 hs)). rewrite IH, note_elem, fmap_cons, elem_of_cons. tauto.
Qed.
Lemma noted_length us hs : (length (noted us hs) ≤ length us + length hs)%nat.
Proof.
  revert hs. induction us as [|u us IH]; intros hs; [done|].
  change (noted (u :: us) hs) with (noted us (note u.1 hs)). pose proof (note_length u.1 hs).
  specialize (IH (note u.1 hs)). cbn [length]. lia.
Qed.

Lemma noted_txn start size us (m : disk) :
  Z.of_nat (length us) < size → size ≤ LOGSIZE →
  Forall (λ u, is_u32 u.1 ∧ ¬ in_log start size u.1 ∧ is_Some (m !! u.1)) us →
  txn start size (noted us []).
Proof.
  intros Hl Hs Hus. rewrite Forall_forall in Hus. split; [|done|apply noted_nodup; constructor|].
  - pose proof (noted_length us []). cbn [length] in *. lia.
  - apply Forall_forall. intros h [Hh|?%elem_of_nil]%noted_elem; [|done].
    apply list_elem_of_fmap in Hh as (u & -> & Hu). by destruct (Hus u Hu) as (? & ? & _).
Qed.

Section alone.
Context (k : kernel) (i : nat) (c : cpu) (p : nat) (pid : Z).
Context (Hset : settled k i c) (Hfree : locks_free k) (Hproc : c_proc c = Some p).
Context (Hlock : lock_free k LkLog).
Context (start size : Z).

#[local] Abbreviation cache := (cache p pid).

(** A buffer that is pinned by [B_DIRTY]. *)
Definition pinned (b : nat) (s : data) : data :=
  with_buf (alter (λ x, x <| b_flags ::= λ f, Z.lor f B_DIRTY |>) b (d_buf s)) s.

Lemma pinned_ok s held C D b n d :
  cache s held C D → b ∈ held → holds_block s b n d → is_Some (C !! n) →
  cache (pinned b s) held (<[n := d]> C) (D ∪ {[n]}) ∧
    ∀ b' n' d', holds_block s b' n' d' → holds_block (pinned b s) b' n' d'.
Proof.
  intros H Hin (x & Ex & Hn & Hd) HC. pose proof (ca_held _ _ _ _ _ _ H) as Hheld.
  rewrite Forall_forall in Hheld. pose proof (Hheld b Hin) as Hb.
  pose proof (ca_buf _ _ _ _ _ _ H b x Hb Ex) as [Hh Hi Hf]. destruct (ca_ring _ _ _ _ _ _ H) as [order Hr].
  destruct (Hh Hin) as (_ & _ & Hdev). rewrite decide_True in Hf by done.
  set (f := λ x : buf, x <| b_flags ::= λ f, Z.lor f B_DIRTY |>).
  assert (bare <$> alter f b (d_buf s) = <[b := f x]> (bare <$> d_buf s)) as E.
  { rewrite (bare_alter_comm f f) by done. by apply list_alter_insert. }
  unfold pinned. fold f. split.
  - eapply (cache_change _ _ s _ b x (f x)); try done || by apply H.
    + exists order. by apply ring_alter.
    + split; [exact Hh|by intros ?|]. rewrite decide_True by done. rewrite decide_True by set_solver.
      unfold f. rsimpl. rewrite Hf. by case_decide.
    + intros b' y Hne Hb' Ey [Hh' Hi' Hf'].
      assert (b_dev y = 1 → b_blockno y ≠ n) as Hny.
      { intros Hd1 <-. apply Hne. by eapply (ca_uniq _ _ _ _ _ _ H b' b y x). }
      split; [done| |].
      * intros Hnin. destruct (Hi' Hnin) as (? & ? & HCy). split_and!; [done..|]. intros Hd1.
        rewrite lookup_insert_ne; [by apply HCy|]. intros E0. by apply Hny.
      * case_decide as Hd1; [|done]. rewrite Hf'. repeat case_decide; set_solver.
    + intros m [?|Hm%elem_of_singleton]%elem_of_union; [by left|right]. by rewrite Hm.
    + intros m Hm. rewrite lookup_insert_ne by set_solver. apply (ca_disk _ _ _ _ _ _ H). set_solver.
    + intros m. rewrite lookup_insert_is_Some'. rewrite (ca_dom _ _ _ _ _ _ H). naive_solver.
  - intros b' n' d' (y & Ey & Hy). destruct (decide (b' = b)) as [->|].
    + rewrite Ex in Ey. injection Ey as <-. exists (f x). cbn [d_buf with_buf].
      by rewrite E, list_lookup_insert_eq by (by eapply lookup_lt_Some).
    + eapply holds_other; [exact E|done|by exists y].
Qed.

Lemma log_write_ok s held C D b n d hs out com e :
  cache s held C D → b ∈ held → holds_block s b n d → is_Some (C !! n) →
  log_is start size hs out com (d_log s) → Z.of_nat (length hs) < LOGSIZE →
  Z.of_nat (length hs) < size - 1 → 1 ≤ out →
  ∃ s', log_write b e (on k s) = Ret tt e (on k s') ∧
    cache s' held (<[n := d]> C) (D ∪ {[n]}) ∧ d_disk s' = d_disk s ∧ d_trace s' = d_trace s ∧
    log_is start size (note n hs) out com (d_log s') ∧
    ∀ b' n' d', holds_block s b' n' d' → holds_block s' b' n' d'.
Proof.
  intros H Hin Hb HC Hl Hmax Hsz Hout. unfold log_write.
  pose proof (note_log n _ _ _ _ _ _ Hl ltac:(lia)) as Hl'.
  cbv zeta in Hl'. match type of Hl' with log_is _ _ _ _ _ ?l => set (l' := l) in Hl' end.
  destruct (pinned_ok (with_log l' s) held C D b n d (cache_log _ _ _ _ _ _ _ H) Hin Hb HC) as [H1 Ho].
  exists (pinned b (with_log l' s)). split_and!; [|done..].
  destruct Hl as [[_ _ Hn _] Hls Hlo _ _]. rewrite bind_gets. change (k_log (on k s)) with (d_log s).
  rewrite Hn, Hls, Hlo. replace (_ || _) with false by lia. replace (out <? 1) with false by lia.
  mgo (by apply (acquire_on k s i c)). set (k1 := acquired i c _ k).
  destruct Hb as (x & Ex & Hx & _). rewrite list_lookup_fmap in Ex.
  destruct (d_buf s !! b) as [y|] eqn:Ey; [|done]. injection Ex as <-.
  mgo (by apply buf_get_on). change (b_blockno y) with (b_blockno (bare y)). rewrite Hx.
  rewrite bind_gets. change (k_log (on k1 s)) with (d_log s). mgo (apply log_upd_on).
  mgo (apply when_log_upd). cbn [d_log with_log]. mgo (apply buf_upd_on).
  etrans; [by apply release_on|]. cbn [d_buf with_log with_buf]. unfold pinned. do 3 f_equal.
Qed.

(** The use that log.c documents. *)
Definition update (n : Z) (d : list Z) : KM unit :=
  bp ← bread (H := Memide.disk) 1 n;
  buf_upd bp (λ x, x <| b_data := d |>);;
  log_write bp;;
  brelse bp.

Fixpoint updates (us : list write) : KM unit :=
  match us with
  | [] => mret tt
  | u :: us => update u.1 u.2;; updates us
  end.

Lemma update_ok s C n d hs out com e :
  cache s [] C (list_to_set hs) → is_Some (C !! n) → NoDup hs →
  log_is start size hs out com (d_log s) → Z.of_nat (length hs) < LOGSIZE →
  Z.of_nat (length hs) < size - 1 → 1 ≤ out →
  ∃ s', update n d e (on k s) = Ret tt e (on k s') ∧
    cache s' [] (<[n := d]> C) (list_to_set (note n hs)) ∧ d_disk s' = d_disk s ∧ d_trace s' = d_trace s ∧
    log_is start size (note n hs) out com (d_log s').
Proof.
  intros H [d0 HC] Hnd Hl Hmax Hsz Hout.
  destruct (bread_ok k i c p pid Hset Hfree Hproc s [] C _ n d0 e H HC) as (b & s1 & E1 & _ & H1 & Hb1 & R1 & _).
  { right. rewrite (size_list_to_set hs Hnd). change LOGSIZE with 30 in Hmax. change NBUF with 30%nat. cbn. lia. }
  { by intros ? ? ?%elem_of_nil. }
  assert (b ∈ [b]) as Hin by set_solver.
  destruct (upd_data_ok k p pid s1 _ _ _ b n d0 (λ _, d) e H1 Hin Hb1) as (s2 & E2 & H2 & Hb2 & R2 & _).
  destruct R1 as (R1 & R1' & R1''), R2 as (R2 & R2' & R2'').
  destruct (log_write_ok s2 [b] C _ b n d hs out com e H2 Hin Hb2 ltac:(by eexists)) as
    (s3 & E3 & H3 & R3 & R3' & L3 & Ho3); [by rewrite R2'', R1''|done..|].
  destruct (brelse_ok k i c p pid Hset Hfree Hproc s3 b [] _ _ n d e H3) as (s4 & E4 & H4 & (R4 & R4' & R4'') & _).
  { set_solver. }
  { by apply Ho3. }
  { apply lookup_insert_eq. }
  exists s4. split_and!; [| |congruence|congruence|by rewrite R4''].
  - unfold update. mgo (exact E1). mgo (exact E2). by mgo (exact E3).
  - replace (list_to_set (note n hs)) with (list_to_set hs ∪ {[n]} : gset Z); [done|].
    apply set_eq. intros x. rewrite elem_of_list_to_set, note_elem. set_solver.
Qed.

Lemma updates_ok us s C hs out com e :
  cache s [] C (list_to_set hs) → Forall (λ u, is_Some (C !! u.1)) us → NoDup hs →
  log_is start size hs out com (d_log s) → Z.of_nat (length us + length hs) < size → size ≤ LOGSIZE → 1 ≤ out →
  ∃ s', updates us e (on k s) = Ret tt e (on k s') ∧
    cache s' [] (apply_writes us C) (list_to_set (noted us hs)) ∧ d_disk s' = d_disk s ∧ d_trace s' = d_trace s ∧
    log_is start size (noted us hs) out com (d_log s').
Proof.
  revert s C hs. induction us as [|u us IH]; intros s C hs H HC Hnd Hl Hsz Hmax Hout; [by exists s|].
  apply Forall_cons in HC as [Hu HC]. cbn [length] in Hsz.
  destruct (update_ok s C u.1 u.2 hs out com e H Hu Hnd Hl) as (s1 & E1 & H1 & R1 & R1' & L1); [lia..|].
  pose proof (note_length u.1 hs) as Hnl.
  destruct (IH s1 _ _ H1) as (s2 & E2 & H2 & R2 & R2' & L2); [|by apply note_nodup|done|lia|done|done|].
  { eapply Forall_impl; [exact HC|]. intros w Hw. apply lookup_insert_is_Some'. by right. }
  exists s2. split_and!; [|done|congruence|congruence|done]. cbn [updates]. by mgo (exact E1).
Qed.

Lemma begin_op_ok s hs out e :
  log_is start size hs out false (d_log s) →
  Z.of_nat (length hs) + (out + 1) * MAXOPBLOCKS ≤ LOGSIZE →
  ∃ l, begin_op e (on k s) = Ret tt e (on k (with_log l s)) ∧ log_is start size hs (out + 1) false l.
Proof.
  intros Hl Hroom. pose proof Hl as [[Hdev Hst Hn Hbl] Hsz Hout Hcom Hlen]. eexists. split.
  - unfold begin_op. mgo (by apply (acquire_on k s i c)). set (k1 := acquired i c _ k).
    unfold mrepeat. cbn [mloop]. rewrite bind_assoc, bind_gets. change (k_log (on k1 s)) with (d_log s).
    rewrite Hcom, Hn, Hout. replace (_ >? LOGSIZE) with false by lia.
    rewrite bind_assoc. mgo (apply log_upd_on). rewrite bind_assoc. mgo (by apply release_on). reflexivity.
  - split; [|done|exact (f_equal (λ n, n + 1) Hout)|done|done]. done.
Qed.

Lemma cache_wake s held C D chan :
  cache s held C D → cache (with_proc (map (wake chan) (d_proc s)) s) held C D.
Proof. intros []. split; try done. by apply is_me_wake. Qed.

(** [end_op] around the commit. *)
Lemma end_op_ok s hs e :
  log_is start size hs 1 false (d_log s) →
  ∃ l, log_is start size hs 0 true l ∧
  ∀ s', commit (H := Memide.disk) e (on k (with_log l s)) = Ret tt e (on k s') →
    d_log s' = l <| lh_n := 0 |> →
    ∃ l', log_is start size [] 0 false l' ∧
    end_op (H := Memide.disk) e (on k s) =
      Ret tt e (on k (with_proc (map (wake (Some ChLog)) (d_proc s')) (with_log l' s'))).
Proof.
  intros [Hlg Hsz Hout Hcom Hlen].
  set (l0 := (d_log s) <| l_outstanding ::= λ n, n - 1 |>). set (l := l0 <| l_committing := true |>).
  assert (l_outstanding l0 = 0) as H0 by exact (f_equal (λ n, n - 1) Hout).
  exists l. split; [split; [by destruct Hlg|done|exact H0|done|done]|]. intros s' Hc Hl'. set (l' := (d_log s') <| l_committing := false |>).
  exists l'. split.
  { unfold l'. rewrite Hl'. split; [|done|exact H0|done..]. apply logged_clear in Hlg as []. by split. }
  unfold end_op. mgo (by apply (acquire_on k s i c)). set (k1 := acquired i c _ k).
  mgo (apply log_upd_on).
  match goal with |- context [with_log ?x s] => change x with l0 end. rewrite bind_gets. change (k_log (on k1 (with_log l0 s))) with l0.
  assert (l_committing l0 = false) as Hc0 by exact Hcom. rewrite Hc0, H0. cbn [Z.eqb].
  rewrite bind_assoc. mgo (apply log_upd_on). mgo (reflexivity). mgo (by apply release_on).
  change (with_log _ (with_log l0 s)) with (with_log l s). cbn [when]. mgo (exact Hc).
  mgo (by apply (acquire_on k s' i c)). fold k1. mgo (apply log_upd_on). fold l'.
  pose proof Hset as (Hcpu & Hwf & _).
  assert (settled k1 i (push_cpu (k_if k) c)) as Hs1 by (by apply acquired_settled).
  assert (lock_free k1 LkPtable) as Hf1 by (apply acquired_free; [done|apply Hfree]).
  mgo (by eapply wakeup_on).
  by apply release_on.
Qed.

End alone.

(** ** A machine that has just started *)

(** A buffer that holds no block, as after [binit]. *)
Definition idle (x : buf) : bool :=
  (b_dev x =? 0) && (b_flags x =? 0) && (b_refcnt x =? 0) && (sl_locked (b_lock x) =? 0).

Lemma cache_boot p pid s order :
  ring (d_buf s) order → is_me p pid (d_proc s) → forallb idle (take NBUF (d_buf s)) = true →
  cache p pid s [] (d_disk s) ∅.
Proof.
  intros Hr Hme Hi.
  assert (∀ b x, (b < NBUF)%nat → (bare <$> d_buf s) !! b = Some x →
    b_dev x = 0 ∧ b_flags x = 0 ∧ b_refcnt x = 0 ∧ sl_locked (b_lock x) = 0) as Hid.
  { intros b x Hb E. rewrite list_lookup_fmap in E. destruct (d_buf s !! b) as [y|] eqn:Ey; [|done].
    injection E as <-. rewrite forallb_forall in Hi. specialize (Hi y). rewrite <- list_elem_of_In in Hi.
    assert (idle y = true) as Hy.
    { apply Hi, list_elem_of_lookup. exists b. by rewrite lookup_take_lt. }
    unfold idle in Hy. rewrite !andb_true_iff, !Z.eqb_eq in Hy. by destruct_and! Hy. }
  split; try done; [by exists order|..].
  - intros b x Hb Ex. destruct (Hid b x Hb Ex) as (Hd & Hf & Href & Hl).
    split; [by intros ?%elem_of_nil|intros _; split_and!; [done..|congruence]|].
    by rewrite decide_False by congruence.
  - intros b b' x x' Hb Hb' Ex Ex' Hd. destruct (Hid b x Hb Ex) as (Hd0 & _). congruence.
Qed.

(** C36 Recovery makes the disk what its log says, and a crash of recovery does no harm: [recover_from_log]
    returns with every home block as in [view] and the log empty, and after any number of its
    writes the disk still can be recovered, to the same contents. *)
Theorem recover_correct k p pid s start size hs m e :
  alone k p → cache p pid s [] m ∅ → l_dev (d_log s) = 1 → l_start (d_log s) = start →
  recoverable start size m hs →
  ∃ s' ws, recover_from_log (H := Memide.disk) e (on k s) = Ret tt e (on k s') ∧
    wrote_all ws s s' ∧ cache p pid s' [] (d_disk s') ∅ ∧
    recoverable start size (d_disk s') [] ∧ same_files start size (d_disk s') (view start m) ∧
    ∀ j, ∃ hs', let m' := apply_writes (take j ws) m in
      recoverable start size m' hs' ∧ same_files start size (view start m') (view start m).
Proof. apply recover_spec. Qed.


(** C6 A transaction is atomic.  The updates [us], made between [begin_op] and [end_op] as log.c says
    blocks are to be updated, all reach the disk, and the log is empty again and ready for the
    next transaction.  If instead the machine stops after any number [j] of the disk writes, then
    [recover_from_log] leaves the disk as it was before the transaction, or with all the updates
    done: which of them, depends on whether write [t], of the log's header, was done. *)
Theorem transaction_atomic k p pid s start size us e :
  alone k p → lock_free k LkLog → cache p pid s [] (d_disk s) ∅ →
  log_is start size [] 0 false (d_log s) → recoverable start size (d_disk s) [] →
  Z.of_nat (length us) < size → size ≤ LOGSIZE →
  Forall (λ u, is_u32 u.1 ∧ ¬ in_log start size u.1 ∧ is_Some (d_disk s !! u.1)) us →
  ∃ s' ws, (begin_op;; updates us;; end_op (H := Memide.disk)) e (on k s) = Ret tt e (on k s') ∧
    wrote_all ws s s' ∧ cache p pid s' [] (d_disk s') ∅ ∧
    log_is start size [] 0 false (d_log s') ∧ recoverable start size (d_disk s') [] ∧
    same_files start size (d_disk s') (apply_writes us (d_disk s)) ∧
    ∃ t, (t ≤ length us)%nat ∧
    ∀ j k2 p2 pid2 s2 e2, alone k2 p2 → l_dev (d_log s2) = 1 → l_start (d_log s2) = start →
      cache p2 pid2 s2 [] (apply_writes (take j ws) (d_disk s)) ∅ →
      ∃ s3, recover_from_log (H := Memide.disk) e2 (on k2 s2) = Ret tt e2 (on k2 s3) ∧
        same_files start size (d_disk s3)
          (if decide (j ≤ t)%nat then d_disk s else apply_writes us (d_disk s)).
Proof.
  intros Ha Hlock H Hl Hr Hus Hsz Hout. pose proof Ha as (i & c & Hset & Hfree & Hproc).
  destruct (begin_op_ok k i c Hset Hlock start size s [] 0 e Hl) as (l1 & E1 & L1); [done|].
  destruct (updates_ok k i c p pid Hset Hfree Hproc Hlock start size us (with_log l1 s) (d_disk s) [] 1 false e)
    as (s2 & E2 & H2 & R2 & R2' & L2); try done.
  { by apply cache_log. }
  { eapply Forall_impl; [exact Hout|]. by intros u (_ & _ & ?). }
  { constructor. }
  { cbn. lia. }
  destruct (end_op_ok k i c Hset Hfree Hlock start size s2 (noted us []) e L2) as (l3 & L3 & Hend).
  set (hs := noted us []) in *.
  destruct (commit_spec k p pid (with_log l3 s2) (apply_writes us (d_disk s)) (list_to_set hs) start size hs e)
    as (s4 & ws & E4 & W4 & L4 & H4 & Hr4 & Hv4 & Hcrash); try done.
  { by apply cache_log. }
  { apply L3. }
  { by eapply noted_txn. }
  { cbn [d_disk with_log]. by rewrite R2. }
  { intros h [Hh|?%elem_of_nil]%noted_elem; [|done]. apply apply_writes_some.
    apply list_elem_of_fmap in Hh as (u & -> & Hu). rewrite Forall_forall in Hout. by apply Hout. }
  destruct (Hend s4 E4 L4) as (l5 & L5 & E5). cbn [d_disk with_log] in *. rewrite R2 in *.
  eexists _, ws. split_and!.
  - mgo (exact E1). mgo (exact E2). exact E5.
  - destruct W4 as [W4 W4']. cbn [d_trace d_disk with_log] in W4, W4', R2'.
    rewrite R2 in W4. split; [exact W4|]. cbn [d_trace with_log with_proc]. by rewrite W4', R2'.
  - apply (cache_wake _ _ (with_log l5 s4)). by apply cache_log.
  - done.
  - done.
  - done.
  - exists (length hs). split; [|done]. unfold hs. pose proof (noted_length us []). cbn [length] in *. lia.
Qed.

(** A machine with a log of two blocks behind block 2, and block 40. *)
Definition boot_bufs : list buf :=
  match binit [] zero_kernel with Ret _ _ k => k_buf k | _ => [] end.

Definition k_boot : kernel :=
  zero_kernel <| k_cpus := [Cpu 0 0 true 0 false (Some 0%nat)] |>.

Definition s_boot (m : disk) : data :=
  Data boot_bufs [mkproc RUNNING 1 2] m [] (Log 2 3 0 false 1 0 (replicate 30 0)).

Definition m_boot : disk :=
  <[2 := replicate 512 0]> (<[3 := []]> (<[4 := []]> (<[40 := [7]]> ∅))).

Lemma boot_ring : ring boot_bufs (rev (seq 0 NBUF)).
Proof.
  split; [reflexivity|symmetry; apply Permutation_rev|].
  exists 0%nat. vm_compute. by split_and!.
Qed.

Lemma boot_alone : alone k_boot 0.
Proof.
  exists 0%nat, (Cpu 0 0 true 0 false (Some 0%nat)). split_and!; [repeat split; cbn; lia| |done].
  split_and!; [reflexivity|reflexivity|]. intros b Hb. unfold lock_free.
  do 30 (destruct b as [|b]; [reflexivity|]). unfold NBUF in Hb. lia.
Qed.

Lemma boot_cache m : cache 0 1 (s_boot m) [] m ∅.
Proof.
  apply (cache_boot 0 1 (s_boot m) _ boot_ring); [by exists (mkproc RUNNING 1 2)|reflexivity].
Qed.

(** A disk whose log names the blocks [hs], of block 40 at most. *)
Lemma boot_recoverable d hs blk :
  sint32 (get32 d 0) = Z.of_nat (length hs) → named d = hs → length d = 512%nat → hs = [] ∨ hs = [40] →
  recoverable 2 3 (<[2 := d]> (<[3 := blk]> m_boot)) hs.
Proof.
  intros Hn Hnm Hd Hhs. split.
  - exists d. by rewrite lookup_insert_eq.
  - split; [|done|..]; destruct Hhs as [-> | ->]; repeat constructor; unfold in_log; set_solver by lia.
  - split; [exists d; by rewrite lookup_insert_eq|].
    intros n Hin. unfold in_log in Hin. assert (n = 2 ∨ n = 3 ∨ n = 4) as [-> |[-> | ->]] by lia; by eexists.
  - intros h Hh. assert (h = 40) as -> by (destruct Hhs as [-> | ->]; set_solver). by eexists.
Qed.

Lemma recover_correct_witness :
  ∃ s', recover_from_log (H := Memide.disk) [] (on k_boot (s_boot
      (<[2 := header (replicate 512 0) [40]]> (<[3 := [9]]> m_boot)))) = Ret tt [] (on k_boot s') ∧
    d_disk s' !! 40 = Some [9].
Proof.
  destruct (recover_correct k_boot 0 1 (s_boot (<[2 := header (replicate 512 0) [40]]> (<[3 := [9]]> m_boot)))
    2 3 [40] _ [] boot_alone (boot_cache _) eq_refl eq_refl) as (s' & ws & E & _ & _ & _ & Hv & _).
  - apply boot_recoverable; [reflexivity..|by right].
  - exists s'. split; [exact E|]. rewrite Hv by (unfold in_log; lia). reflexivity.
Defined.

Lemma transaction_atomic_witness :
  ∃ s' ws, (begin_op;; updates [(40, [8])];; end_op (H := Memide.disk)) []
      (on k_boot (s_boot (<[2 := replicate 512 0]> (<[3 := []]> m_boot)))) = Ret tt [] (on k_boot s') ∧
    wrote_all ws (s_boot (<[2 := replicate 512 0]> (<[3 := []]> m_boot))) s' ∧
    d_disk s' !! 40 = Some [8] ∧
    ∀ j, ∃ s3, recover_from_log (H := Memide.disk) []
      (on k_boot (s_boot (apply_writes (take j ws) (<[2 := replicate 512 0]> (<[3 := []]> m_boot))))) =
      Ret tt [] (on k_boot s3) ∧ (d_disk s3 !! 40 = Some [7] ∨ d_disk s3 !! 40 = Some [8]).
Proof.
  destruct (transaction_atomic k_boot 0 1 (s_boot (<[2 := replicate 512 0]> (<[3 := []]> m_boot))) 2 3
    [(40, [8])] [] boot_alone eq_refl (boot_cache _)) as (s' & ws & E & W & _ & _ & _ & Hv & t & _ & Hc).
  - by repeat split.
  - apply boot_recoverable; [reflexivity..|by left].
  - cbn. lia.
  - done.
  - repeat constructor; [done|unfold in_log; cbn; lia|by eexists].
  - exists s', ws. split; [exact E|]. split; [exact W|]. split.
    + rewrite Hv by (unfold in_log; lia). reflexivity.
    + intros j. destruct (Hc j k_boot 0%nat 1 (s_boot _) [] boot_alone eq_refl eq_refl (boot_cache _))
        as (s3 & E3 & Hv3).
      exists s3. split; [exact E3|]. rewrite Hv3 by (unfold in_log; lia).
      case_decide; [left|right]; reflexivity.
Defined.
