(* ===== verification/Inode.v ===== *)
(** * Blocks and inodes (the lower layers of fs.c)

    The block allocator over the free map on disk, the inode allocator, the
    inode cache with its reference counts, and the mapping of the blocks of
    a file to blocks of the disk.  (The readers and writers of file contents
    and the directories are in the file of the upper layers.) *)

From S2P Require Import Prelude State Spinlock Consout Sched Sleep Sleeplock Bio Log.

(** [src/xv6-public/fs.h:26] *)
Definition MAXFILE : Z := Z.of_nat NDIRECT + NINDIRECT.
(** [src/xv6-public/fs.h:39] a [struct dinode] has 64 bytes *)
Definition IPB : Z := BSIZE / 64.
(** [src/xv6-public/fs.h:42] *)
Definition IBLOCK (i : Z) (sb : superblock) : Z := i / IPB + sb_inodestart sb.
(** [src/xv6-public/fs.h:45] *)
Definition BPB : Z := BSIZE * 8.
(** [src/xv6-public/fs.h:48] *)
Definition BBLOCK (b : Z) (sb : superblock) : Z := b / BPB + sb_bmapstart sb.

(** [src/xv6-public/stat.h:1] *)
Definition T_DIR : Z := 1.
(** [src/xv6-public/stat.h:2] *)
Definition T_FILE : Z := 2.
(** [src/xv6-public/stat.h:3] *)
Definition T_DEV : Z := 3.

(** The value of a 16-bit pattern read as a [short]. *)
Definition sint16 (z : Z) : Z :=
  let u := z mod 2 ^ 16 in if u <? 2 ^ 15 then u else u - 2 ^ 16.

Definition inode_get {A} (ip : nat) (f : inode → A) : KM A :=
  k ← mget; x ← deref (k_inode k !! ip); mret (f x).
Definition inode_upd (ip : nat) (f : inode → inode) : KM unit :=
  modify (λ k, k <| k_inode ::= alter f ip |>).

(** Bit [bi] of the free map block [d]. *)
Definition bit_of (d : list Z) (bi : Z) : bool :=
  truthy (Z.land (get8 d (bi / 8)) (Z.shiftl 1 (bi mod 8))).
Definition set_bit (d : list Z) (bi : Z) : list Z :=
  put8 d (bi / 8) (Z.lor (get8 d (bi / 8)) (Z.shiftl 1 (bi mod 8))).
Definition clear_bit (d : list Z) (bi : Z) : list Z :=
  put8 d (bi / 8) (Z.land (get8 d (bi / 8)) (Z.lnot (Z.shiftl 1 (bi mod 8)))).

(** The first of the [n] bits from [bi] on that is clear. *)
Fixpoint first_clear (d : list Z) (bi : Z) (n : nat) : option Z :=
  match n with
  | O => None
  | S n => if negb (bit_of d bi) then Some bi else first_clear d (bi + 1) n
  end.

Section blocks.
Context `{Disk}.

(** [src/xv6-public/fs.c:42-51] *)
Definition bzero (dev bno : Z) : KM unit :=
  bp ← bread dev bno;
  buf_upd bp (λ x, x <| b_data := zero_block |>);;
  log_write bp;;
  brelse bp.

(** The loop of [balloc] over the [n] blocks of the free map from that of [b]
    on. *)
Fixpoint balloc_loop (n : nat) (dev b : Z) : KM Z :=
  match n with
  | O => mpanic "balloc: out of blocks"
  | S n =>
    sb ← gets k_sb;
    bp ← bread dev (BBLOCK b sb);
    d ← buf_get bp b_data;
    match first_clear d 0 (Z.to_nat (Z.min BPB (sb_size sb - b))) with
    | Some bi =>
      buf_upd bp (λ x, x <| b_data ::= λ d, set_bit d bi |>);;
      log_write bp;;
      brelse bp;;
      bzero dev (b + bi);;
      mret (b + bi)
    | None =>
      brelse bp;;
      balloc_loop n dev (b + BPB)
    end
  end.

(** [src/xv6-public/fs.c:56-78] *)
Definition balloc (dev : Z) : KM Z :=
  sb ← gets k_sb;
  balloc_loop (Z.to_nat ((sb_size sb + BPB - 1) / BPB)) dev 0.

(** [src/xv6-public/fs.c:81-95] *)
Definition bfree (dev b : Z) : KM unit :=
  sb ← gets k_sb;
  bp ← bread dev (BBLOCK b sb);
  d ← buf_get bp b_data;
  let bi := b mod BPB in
  if negb (bit_of d bi) then mpanic "freeing free block" else
  buf_upd bp (λ x, x <| b_data ::= λ d, clear_bit d bi |>);;
  log_write bp;;
  brelse bp.

Fixpoint iinit_loop (idx : list nat) : KM unit :=
  match idx with
  | [] => mret tt
  | i :: idx => initsleeplock (SlInode i);; iinit_loop idx
  end.

(** [src/xv6-public/fs.c:171-186] *)
Definition iinit (dev : Z) : KM unit :=
  initlock LkIcache;;
  iinit_loop (seq 0 NINODE);;
  sb ← readsb dev;
  modify (λ k, k <| k_sb := sb |>);;
  cprintf "sb: size %d nblocks %d ninodes %d nlog %d logstart %d inodestart %d bmap start %d
" [AInt (sb_size sb); AInt (sb_nblocks sb); AInt (sb_ninodes sb); AInt (sb_nlog sb);
   AInt (sb_logstart sb); AInt (sb_inodestart sb); AInt (sb_bmapstart sb)].

End blocks.

(** ** The inode cache *)

Definition iget_hit (dev inum : Z) (x : inode) : bool :=
  (i_ref x >? 0) && (i_dev x =? dev) && (i_inum x =? inum).

(** [src/xv6-public/fs.c:241-272] the first entry that matches, else the first
    empty one *)
Definition iget (dev inum : Z) : KM nat :=
  acquire LkIcache;;
  tab ← gets k_inode;
  match list_find (iget_hit dev inum) tab with
  | Some (ip, _) =>
    inode_upd ip (λ x, x <| i_ref ::= λ n, n + 1 |>);;
    release LkIcache;;
    mret ip
  | None =>
    match list_find (λ x, i_ref x =? 0) tab with
    | None => mpanic "iget: no inodes"
    | Some (ip, _) =>
      inode_upd ip (λ x, x <| i_dev := dev |>);;
      inode_upd ip (λ x, x <| i_inum := inum |>);;
      inode_upd ip (λ x, x <| i_ref := 1 |>);;
      inode_upd ip (λ x, x <| i_valid := false |>);;
      release LkIcache;;
      mret ip
    end
  end.

(** [src/xv6-public/fs.c:276-283] *)
Definition idup (ip : nat) : KM nat :=
  acquire LkIcache;;
  inode_upd ip (λ x, x <| i_ref ::= λ n, n + 1 |>);;
  release LkIcache;;
  mret ip.

(** The thirteen addresses of an on-disk inode at offset [o] of the block [d],
    and the block with them. *)
Fixpoint get_addrs (d : list Z) (o : Z) (n : nat) : list Z :=
  match n with O => [] | S n => get32 d o :: get_addrs d (o + 4) n end.
Fixpoint put_addrs (d : list Z) (o : Z) (l : list Z) : list Z :=
  match l with [] => d | a :: l => put_addrs (put32 d o a) (o + 4) l end.

(** [src/xv6-public/fs.h:29-36] the fields of the inode at offset [o] of [d] copied
    into an inode of the cache *)
Definition load_dinode (d : list Z) (o : Z) (x : inode) : inode :=
  x <| i_type := sint16 (get16 d o) |>
    <| i_major := sint16 (get16 d (o + 2)) |>
    <| i_minor := sint16 (get16 d (o + 4)) |>
    <| i_nlink := sint16 (get16 d (o + 6)) |>
    <| i_size := get32 d (o + 8) |>
    <| i_addrs := get_addrs d (o + 12) (S NDIRECT) |>.

(** [src/xv6-public/fs.c:228-233] and the other way around *)
Definition store_dinode (x : inode) (o : Z) (d : list Z) : list Z :=
  put_addrs
    (put32 (put16 (put16 (put16 (put16 d o (i_type x)) (o + 2) (i_major x))
       (o + 4) (i_minor x)) (o + 6) (i_nlink x)) (o + 8) (i_size x))
    (o + 12) (i_addrs x).

Section inodes.
Context `{Disk}.

(** The loop of [ialloc], with [n] inodes to look at from [inum] on. *)
Fixpoint ialloc_loop (n : nat) (dev type inum : Z) : KM nat :=
  match n with
  | O => mpanic "ialloc: no inodes"
  | S n =>
    sb ← gets k_sb;
    bp ← bread dev (IBLOCK inum sb);
    d ← buf_get bp b_data;
    let o := 64 * (inum mod IPB) in
    if get16 d o =? 0 then
      buf_upd bp (λ x, x <| b_data ::= λ d, put16 (splice d o (replicate 64 0)) o type |>);;
      log_write bp;;
      brelse bp;;
      iget dev inum
    else
      brelse bp;;
      ialloc_loop n dev type (inum + 1)
  end.

(** [src/xv6-public/fs.c:194-214] *)
Definition ialloc (dev type : Z) : KM nat :=
  sb ← gets k_sb;
  ialloc_loop (Z.to_nat (sb_ninodes sb - 1)) dev type 1.

(** [src/xv6-public/fs.c:220-236] *)
Definition iupdate (ip : nat) : KM unit :=
  x ← inode_get ip id;
  sb ← gets k_sb;
  bp ← bread (i_dev x) (IBLOCK (i_inum x) sb);
  x ← inode_get ip id;
  buf_upd bp (λ b, b <| b_data ::= store_dinode x (64 * (i_inum x mod IPB)) |>);;
  log_write bp;;
  brelse bp.

(** [src/xv6-public/fs.c:287-312] *)
Definition ilock (ip : option nat) : KM unit :=
  match ip with
  | None => mpanic "ilock"
  | Some ip =>
    ref ← inode_get ip i_ref;
    if ref <? 1 then mpanic "ilock" else
    acquiresleep (SlInode ip);;
    x ← inode_get ip id;
    if i_valid x then mret tt else
    sb ← gets k_sb;
    bp ← bread (i_dev x) (IBLOCK (i_inum x) sb);
    d ← buf_get bp b_data;
    inode_upd ip (load_dinode d (64 * (i_inum x mod IPB)));;
    brelse bp;;
    inode_upd ip (λ x, x <| i_valid := true |>);;
    type ← inode_get ip i_type;
    if type =? 0 then mpanic "ilock: no type" else mret tt
  end.

End inodes.

(** [src/xv6-public/fs.c:315-322] *)
Definition iunlock (ip : option nat) : KM unit :=
  match ip with
  | None => mpanic "iunlock"
  | Some ip =>
    h ← holdingsleep (SlInode ip);
    if negb h then mpanic "iunlock" else
    ref ← inode_get ip i_ref;
    if ref <? 1 then mpanic "iunlock" else
    releasesleep (SlInode ip)
  end.

(** ** The blocks of a file *)

Section contents.
Context `{Disk}.

(** [ip->addrs[i]], allocated if it is zero. *)
Definition addr_or_alloc (ip : nat) (i : nat) : KM Z :=
  x ← inode_get ip id;
  addr ← deref (i_addrs x !! i);
  if negb (addr =? 0) then mret addr else
  addr ← balloc (i_dev x);
  inode_upd ip (λ x, x <| i_addrs ::= <[i := addr]> |>);;
  mret addr.

(** [src/xv6-public/fs.c:372-400] *)
Definition bmap (ip : nat) (bn : Z) : KM Z :=
  if bn <? Z.of_nat NDIRECT then addr_or_alloc ip (Z.to_nat bn) else
  let bn := bn - Z.of_nat NDIRECT in
  if bn <? NINDIRECT then
    addr ← addr_or_alloc ip NDIRECT;
    dev ← inode_get ip i_dev;
    bp ← bread dev addr;
    d ← buf_get bp b_data;
    addr ← (if get32 d (4 * bn) =? 0
            then
              addr ← balloc dev;
              buf_upd bp (λ x, x <| b_data ::= λ d, put32 d (4 * bn) addr |>);;
              log_write bp;;
              mret addr
            else mret (get32 d (4 * bn)));
    brelse bp;;
    mret addr
  else mpanic "bmap: out of range".

Fixpoint trunc_direct (ip : nat) (idx : list nat) : KM unit :=
  match idx with
  | [] => mret tt
  | i :: idx =>
    x ← inode_get ip id;
    addr ← deref (i_addrs x !! i);
    (if truthy addr then
       bfree (i_dev x) addr;;
       inode_upd ip (λ x, x <| i_addrs ::= <[i := 0]> |>)
     else mret tt);;
    trunc_direct ip idx
  end.

Fixpoint trunc_indirect (bp : nat) (dev : Z) (idx : list nat) : KM unit :=
  match idx with
  | [] => mret tt
  | j :: idx =>
    d ← buf_get bp b_data;
    let a := get32 d (4 * Z.of_nat j) in
    when (truthy a) (bfree dev a);;
    trunc_indirect bp dev idx
  end.

(** [src/xv6-public/fs.c:407-435] *)
Definition itrunc (ip : nat) : KM unit :=
  trunc_direct ip (seq 0 NDIRECT);;
  x ← inode_get ip id;
  addr ← deref (i_addrs x !! NDIRECT);
  (if truthy addr then
     bp ← bread (i_dev x) addr;
     trunc_indirect bp (i_dev x) (seq 0 (Z.to_nat NINDIRECT));;
     brelse bp;;
     bfree (i_dev x) addr;;
     inode_upd ip (λ x, x <| i_addrs ::= <[NDIRECT := 0]> |>)
   else mret tt);;
  inode_upd ip (λ x, x <| i_size := 0 |>);;
  iupdate ip.

(** [src/xv6-public/fs.c:331-352] *)
Definition iput (ip : nat) : KM unit :=
  acquiresleep (SlInode ip);;
  x ← inode_get ip id;
  (if i_valid x && (i_nlink x =? 0) then
     acquire LkIcache;;
     r ← inode_get ip i_ref;
     release LkIcache;;
     if r =? 1 then
       itrunc ip;;
       inode_upd ip (λ x, x <| i_type := 0 |>);;
       iupdate ip;;
       inode_upd ip (λ x, x <| i_valid := false |>)
     else mret tt
   else mret tt);;
  releasesleep (SlInode ip);;
  acquire LkIcache;;
  inode_upd ip (λ x, x <| i_ref ::= λ n, n - 1 |>);;
  release LkIcache.

(** [src/xv6-public/fs.c:355-360] *)
Definition iunlockput (ip : nat) : KM unit :=
  iunlock (Some ip);;
  iput ip.

End contents.
