(* ===== verification/Alloc.v ===== *)
(** * The block allocator, proved (balloc, bfree of fs.c)

    Inside a transaction, by a process that nothing disturbs, [balloc] and
    [bfree] are operations on the free map: [balloc_ok] gives the first free
    block, marks it and zeroes it; [bfree_ok] clears its mark.
    [balloc_correct] says what that means block by block, and
    [balloc_bfree] that freeing undoes allocating. *)

From S2P Require Import Prelude State Spinlock Sched Sleep Sleeplock Bio Bytes Bcache Log Crash Txn Inode.

(** ** Bits of a block of the free map *)

Lemma get8_range l o : Forall (λ v, 0 ≤ v < 256) l → 0 ≤ get8 l o < 256.
Proof.
  intros H. unfold get8. destruct (l !! _) as [v|] eqn:E; [|cbn; lia].
  rewrite Forall_forall in H. by apply H, list_elem_of_lookup_2 with (Z.to_nat o).
Qed.

Lemma bit_of_testbit d bi : bit_of d bi = Z.testbit (get8 d (bi / 8)) (bi mod 8).
Proof.
  assert (Hi : 0 ≤ bi mod 8 < 8) by (apply Z.mod_pos_bound; lia).
  unfold bit_of, truthy. rewrite Z.shiftl_1_l. set (v := get8 _ _). set (i := bi mod 8) in *.
  destruct (Z.testbit v i) eqn:E.
  - apply negb_true_iff, Z.eqb_neq. intros H0. apply (f_equal (λ z, Z.testbit z i)) in H0.
    rewrite Z.land_spec, Z.pow2_bits_true, E, Z.bits_0 in H0 by lia. done.
  - apply negb_false_iff, Z.eqb_eq, Z.bits_inj_0. intros j. rewrite Z.land_spec.
    destruct (decide (j = i)) as [->|]; [by rewrite E|].
    rewrite Z.pow2_bits_false by lia. apply andb_false_r.
Qed.

Section bits.
Context (d : list Z) (bi : Z) (Hbi : 0 ≤ bi < BPB) (Hlen : length d = Z.to_nat BSIZE).

Lemma bit_index : 0 ≤ bi / 8 < Z.of_nat (length d).
Proof. rewrite Hlen. unfold BPB, BSIZE in *. dlia. Qed.

Lemma testbit_byte v j : 0 ≤ j < 8 → Z.testbit (v mod 256) j = Z.testbit v j.
Proof. intros. change 256 with (2 ^ 8). by rewrite Z.mod_pow2_bits_low by lia. Qed.

Lemma bit_of_set bj : 0 ≤ bj → bit_of (set_bit d bi) bj = bool_decide (bj = bi) || bit_of d bj.
Proof.
  intros Hj. pose proof bit_index as Hx. rewrite !bit_of_testbit. unfold set_bit.
  assert (0 ≤ bj mod 8 < 8 ∧ 0 ≤ bi mod 8 < 8) as [Hm Hm'] by (split; apply Z.mod_pos_bound; lia).
  destruct (decide (bj / 8 = bi / 8)) as [E|E].
  - rewrite E, get8_put8_eq, testbit_byte, Z.lor_spec, Z.shiftl_1_l by lia.
    destruct (decide (bj = bi)) as [->|Hne].
    + rewrite bool_decide_true, Z.pow2_bits_true by (done || lia). apply orb_true_r.
    + rewrite bool_decide_false, Z.pow2_bits_false by (done || dlia). apply orb_false_r.
  - rewrite get8_put8_ne by dlia. rewrite bool_decide_false; [done|]. by intros ->.
Qed.

Lemma bit_of_clear bj : 0 ≤ bj → bit_of (clear_bit d bi) bj = negb (bool_decide (bj = bi)) && bit_of d bj.
Proof.
  intros Hj. pose proof bit_index as Hx. rewrite !bit_of_testbit. unfold clear_bit.
  assert (0 ≤ bj mod 8 < 8 ∧ 0 ≤ bi mod 8 < 8) as [Hm Hm'] by (split; apply Z.mod_pos_bound; lia).
  destruct (decide (bj / 8 = bi / 8)) as [E|E].
  - rewrite E, get8_put8_eq, testbit_byte, Z.land_spec, Z.lnot_spec, Z.shiftl_1_l by lia.
    destruct (decide (bj = bi)) as [->|Hne].
    + rewrite bool_decide_true, Z.pow2_bits_true by (done || lia). apply andb_false_r.
    + rewrite bool_decide_false, Z.pow2_bits_false by (done || dlia). apply andb_true_r.
  - rewrite get8_put8_ne by dlia. rewrite bool_decide_false; [done|]. by intros ->.
Qed.

(** Clearing the bit that was just set restores the block. *)
Lemma clear_set : Forall (λ v, 0 ≤ v < 256) d → bit_of d bi = false → clear_bit (set_bit d bi) bi = d.
Proof.
  intros Hd Hb. pose proof bit_index as Hx. rewrite bit_of_testbit in Hb.
  pose proof (get8_range d (bi / 8) Hd) as Hr.
  assert (0 ≤ bi mod 8 < 8) as Hm by (apply Z.mod_pos_bound; lia).
  unfold clear_bit, set_bit at 2. rewrite get8_put8_eq by done.
  unfold set_bit, put8. rewrite list_insert_insert_eq.
  destruct (lookup_lt_is_Some_2 d (Z.to_nat (bi / 8)) ltac:(lia)) as [v Ev].
  assert (get8 d (bi / 8) = v) as Eg by (unfold get8; by rewrite Ev). rewrite Eg in *.
  rewrite list_insert_id; [done|]. rewrite Ev. f_equal. symmetry.
  rewrite <- (Z.mod_small v 256) at 2 by done. apply Z.bits_inj. intros j.
  destruct (decide (0 ≤ j < 8)).
  - rewrite !testbit_byte, Z.land_spec, Z.lnot_spec, testbit_byte, Z.lor_spec, Z.shiftl_1_l by lia.
    destruct (decide (j = bi mod 8)) as [->|]; [by rewrite Hb, Z.pow2_bits_true by lia|].
    rewrite Z.pow2_bits_false by lia. by rewrite orb_false_r, andb_true_r.
  - change 256 with (2 ^ 8). destruct (decide (j < 0)); [by rewrite !Z.testbit_neg_r by lia|].
    by rewrite !Z.mod_pow2_bits_high by lia.
Qed.

Lemma length_set_bit : length (set_bit d bi) = length d.
Proof. apply length_put8. Qed.
Lemma length_clear_bit : length (clear_bit d bi) = length d.
Proof. apply length_put8. Qed.
End bits.

Lemma first_clear_spec d bi n :
  match first_clear d bi n with
  | Some bj => bi ≤ bj < bi + Z.of_nat n ∧ bit_of d bj = false ∧ ∀ x, bi ≤ x < bj → bit_of d x = true
  | None => ∀ x, bi ≤ x < bi + Z.of_nat n → bit_of d x = true
  end.
Proof.
  revert bi. induction n as [|n IH]; intros bi; cbn [first_clear]; [intros; lia|].
  destruct (bit_of d bi) eqn:E; cbn [negb].
  - specialize (IH (bi + 1)). destruct (first_clear d (bi + 1) n) as [bj|].
    + destruct IH as (H1 & H2 & H3). split; [lia|]. split; [done|]. intros x Hx.
      destruct (decide (x = bi)) as [->|]; [done|]. apply H3. lia.
    + intros x Hx. destruct (decide (x = bi)) as [->|]; [done|]. apply IH. lia.
  - split; [lia|]. split; [done|]. intros. lia.
Qed.

Lemma bind_assoc3 {K A} (a b c : M K unit) (m : M K A) e k :
  (a;; b;; c;; m) e k = ((a;; b;; c);; m) e k.
Proof.
  unfold mbind, M_bind. destruct (a e k) as [? e1 k1|?|?|?|?]; [|done..]. by destruct (b e1 k1).
Qed.

(** ** Blocks inside a transaction

    [tx]: the process is in a transaction that has written the blocks [hs]; it holds the buffers
    [held], and the disk through the cache is [C]; [out] operations are outstanding. *)

Record tx (p : nat) (pid start size out : Z) (s : data) (held : list nat) (C : disk) (hs : list Z) : Prop := {
  tx_cache : cache p pid s held C (list_to_set hs);
  tx_hs : NoDup hs;
  tx_log_is : log_is start size hs out false (d_log s);
  tx_max : size ≤ LOGSIZE }.

Lemma cache_eq_dirty p pid s held C (D D' : gset Z) :
  cache p pid s held C D → (∀ n, n ∈ D' ↔ n ∈ D) → cache p pid s held C D'.
Proof. intros H HD. assert (D' = D) as -> by (apply set_eq; exact HD). done. Qed.

(** There is room in the log for [n] more blocks. *)
Definition room (size n : Z) (hs : list Z) : Prop := Z.of_nat (length hs) + n < size.

Lemma room_less size n m hs : room size n hs → m ≤ n → room size m hs.
Proof. unfold room. lia. Qed.
Lemma room_note size n hs x : room size (n + 1) hs → room size n (note x hs).
Proof. unfold room. pose proof (note_length x hs). lia. Qed.

(** The buffers of [l] hold what they held. *)
Definition keeps (l : list nat) (s s' : data) : Prop :=
  ∀ b n d, b ∈ l → holds_block s b n d → holds_block s' b n d.

Lemma keeps_trans l s1 s2 s3 : keeps l s1 s2 → keeps l s2 s3 → keeps l s1 s3.
Proof. unfold keeps. auto. Qed.
Lemma keeps_less l l' s s' : keeps l s s' → (∀ b, b ∈ l' → b ∈ l) → keeps l' s s'.
Proof. unfold keeps. auto. Qed.

Section alone.
Context (k : kernel) (i : nat) (c : cpu) (p : nat) (pid : Z).
Context (Hset : settled k i c) (Hfree : locks_free k) (Hproc : c_proc c = Some p).
Context (Hlock : lock_free k LkLog).
Context (start size out : Z) (Hout : 1 ≤ out).

#[local] Abbreviation tx := (tx p pid start size out).
#[local] Existing Instance Memide.disk.

Lemma get_data_ok s held C hs b n d e :
  tx s held C hs → b ∈ held → holds_block s b n d →
  buf_get b b_data e (on k s) = Ret d e (on k s).
Proof.
  intros [H _ _ _] Hin (x & Ex & _ & <-). rewrite list_lookup_fmap in Ex.
  destruct (d_buf s !! b) as [y|] eqn:Ey; [|done]. injection Ex as <-. unfold bare. rsimpl. by apply (buf_get_on b_data).
Qed.

Lemma read_block s held C hs n d e :
  tx s held C hs → C !! n = Some d → room size (Z.of_nat (length held)) hs →
  (∀ b d, b ∈ held → ¬ holds_block s b n d) →
  ∃ b s', bread 1 n e (on k s) = Ret b e (on k s') ∧ (b ∉ held) ∧ tx s' (b :: held) C hs ∧
    holds_block s' b n d ∧ keeps held s s'.
Proof.
  intros [H Hnd Hl Hm] HC Hroom Hnh. unfold room in Hroom.
  destruct (bread_ok k i c p pid Hset Hfree Hproc s held C _ n d e H HC) as
    (b & s' & E & Hb & H' & Hh & (_ & _ & R) & Hoth); [|done|].
  { right. rewrite (size_list_to_set hs Hnd). change LOGSIZE with 30 in Hm. change NBUF with 30%nat. lia. }
  exists b, s'. split; [done|]. split; [done|]. split; [split; by rewrite ?R|]. split; [done|].
  intros b' n' d' Hin. apply Hoth. by intros ->.
Qed.

Lemma drop_block s b held C hs n d e :
  tx s (b :: held) C hs → b ∉ held → holds_block s b n d → C !! n = Some d →
  ∃ s', brelse b e (on k s) = Ret tt e (on k s') ∧ tx s' held C hs ∧ keeps held s s'.
Proof.
  intros [H Hnd Hl Hm] Hb Hh HC.
  destruct (brelse_ok k i c p pid Hset Hfree Hproc s b held C _ n d e H Hb Hh HC) as
    (s' & E & H' & (_ & _ & R) & Hoth).
  exists s'. split; [done|]. split; [split; by rewrite ?R|].
  intros b' n' d' Hin. apply Hoth. by intros ->.
Qed.

(** A buffer is changed and put into the log. *)
Lemma log_block s b held C hs n d g e :
  tx s (b :: held) C hs → holds_block s b n d → is_Some (C !! n) → room size 1 hs →
  b ∉ held →
  ∃ s', (buf_upd b (λ x, x <| b_data ::= g |>);; log_write b) e (on k s) = Ret tt e (on k s') ∧
    tx s' (b :: held) (<[n := g d]> C) (note n hs) ∧ holds_block s' b n (g d) ∧ keeps held s s'.
Proof.
  intros [H Hnd Hl Hm] Hh HC Hroom Hb. unfold room in Hroom. assert (b ∈ b :: held) as Hin by (by left).
  destruct (upd_data_ok k p pid s _ C _ b n d g e H Hin Hh) as (s1 & E1 & H1 & Hh1 & (_ & _ & R1) & Ho1).
  destruct (log_write_ok k i c p pid Hset Hfree Hproc Hlock start size s1 _ C _ b n (g d) hs out false e H1 Hin Hh1 HC) as
    (s2 & E2 & H2 & _ & _ & L2 & Ho2); [by rewrite R1|lia..|done|].
  exists s2. split; [by mgo (exact E1)|]. split; [|split; [by apply Ho2|]].
  - split; [|by apply note_nodup|done..]. eapply cache_eq_dirty; [exact H2|].
    intros x. rewrite elem_of_list_to_set, note_elem. set_solver.
  - intros b' n' d' Hin' Hb'. apply Ho2, Ho1; [by intros ->|done].
Qed.

Lemma write_block s b held C hs n d g e :
  tx s (b :: held) C hs → holds_block s b n d → is_Some (C !! n) → room size 1 hs → b ∉ held →
  ∃ s', (buf_upd b (λ x, x <| b_data ::= g |>);; log_write b;; brelse b) e (on k s) = Ret tt e (on k s') ∧
    tx s' held (<[n := g d]> C) (note n hs) ∧ keeps held s s'.
Proof.
  intros H Hh HC Hroom Hb.
  destruct (log_block s b held C hs n d g e H Hh HC Hroom Hb) as (s1 & E1 & H1 & Hh1 & K1).
  destruct (drop_block s1 b held _ _ n (g d) e H1 Hb Hh1) as (s2 & E2 & H2 & K2); [apply lookup_insert_eq|].
  exists s2. rewrite <- bind_assoc. split; [by mgo (exact E1)|]. split; [done|by eapply keeps_trans].
Qed.

(** The buffers held are of blocks with [P]. *)
Definition holding (s : data) (held : list nat) (P : Z → Prop) : Prop :=
  ∀ b, b ∈ held → ∃ n d, holds_block s b n d ∧ P n.

Lemma holding_keeps s s' held P : holding s held P → keeps held s s' → holding s' held P.
Proof. intros H K b Hb. destruct (H b Hb) as (n & d & Hh & HP). exists n, d. eauto. Qed.

Lemma holding_not s held (P : Z → Prop) n : holding s held P → ¬ P n → ∀ b d, b ∈ held → ¬ holds_block s b n d.
Proof.
  intros H Hn b d Hb (x & Ex & <- & _). destruct (H b Hb) as (n' & d' & (x' & Ex' & <- & _) & HP).
  rewrite Ex in Ex'. by injection Ex' as <-.
Qed.

(** ** The free map *)

Context (sb : superblock) (Hsb : k_sb k = sb).

(** The free map is on the disk. *)
Definition map_ok (C : disk) : Prop :=
  ∀ b, 0 ≤ b < sb_size sb → ∃ d, C !! BBLOCK b sb = Some d ∧ length d = Z.to_nat BSIZE.

(** Block [b] is marked in the free map. *)
Definition used (C : disk) (b : Z) : bool :=
  match C !! BBLOCK b sb with Some d => bit_of d (b mod BPB) | None => false end.

Definition map_block (n : Z) : Prop := ∃ x, 0 ≤ x < sb_size sb ∧ n = BBLOCK x sb.

(** [f] applied to the block of the free map for [b]. *)
Definition upd_map (f : list Z → Z → list Z) (b : Z) (C : disk) : disk :=
  match C !! BBLOCK b sb with Some d => <[BBLOCK b sb := f d (b mod BPB)]> C | None => C end.

Definition alloc (b : Z) (C : disk) : disk := <[b := zero_block]> (upd_map set_bit b C).

Lemma upd_map_some f b C n : is_Some (C !! n) → is_Some (upd_map f b C !! n).
Proof. intros H. unfold upd_map. destruct (C !! BBLOCK b sb); [|done]. apply lookup_insert_is_Some'. by right. Qed.

(** Blocks of the same group have their bits in one block. *)
Lemma same_group b x : b mod BPB = 0 → 0 ≤ x < BPB → BBLOCK (b + x) sb = BBLOCK b sb ∧ (b + x) mod BPB = x.
Proof.
  unfold BBLOCK. intros Hb Hx.
  assert (HB : BPB ≠ 0) by done. apply Z.mod_divide in Hb as [q ->]; [|done].
  rewrite Z.div_add_l, Z.div_mul, Z.div_small, Z.add_0_r by done. split; [done|].
  by rewrite Z.add_comm, Z.mod_add, Z.mod_small.
Qed.

Lemma bzero_ok s held C hs n e :
  tx s held C hs → is_Some (C !! n) → room size (1 + Z.of_nat (length held)) hs →
  (∀ b d, b ∈ held → ¬ holds_block s b n d) →
  ∃ s', bzero 1 n e (on k s) = Ret tt e (on k s') ∧ tx s' held (<[n := zero_block]> C) (note n hs) ∧
    keeps held s s'.
Proof.
  intros H [d Hd] Hroom Hnh.
  destruct (read_block s held C hs n d e H Hd) as (b & s1 & E1 & Hb & H1 & Hh1 & K1);
    [eapply room_less; [done|lia]|done|].
  destruct (write_block s1 b held C hs n d (λ _, zero_block) e H1 Hh1) as (s2 & E2 & H2 & K2);
    [by eexists|eapply room_less; [done|lia]|done|].
  exists s2. split; [unfold bzero; by mgo (exact E1)|]. split; [done|by eapply keeps_trans].
Qed.

(** The first free block from [b] on is [f]. *)
Definition first_free (C : disk) (b f : Z) : Prop :=
  b ≤ f < sb_size sb ∧ used C f = false ∧ ∀ x, b ≤ x < f → used C x = true.

Lemma balloc_loop_ok n b s held C hs f e :
  tx s held C hs → map_ok C → 0 ≤ b → b mod BPB = 0 → first_free C b f → f < b + BPB * Z.of_nat n →
  is_Some (C !! f) → holding s held (λ m, m ≠ f ∧ ¬ map_block m) →
  room size (2 + Z.of_nat (length held)) hs →
  ∃ s', balloc_loop n 1 b e (on k s) = Ret f e (on k s') ∧
    tx s' held (alloc f C) (note f (note (BBLOCK f sb) hs)) ∧ keeps held s s'.
Proof.
  revert b s. induction n as [|n IH]; intros b s H Hmap Hb Hb0 Hff Hn HC Hhold Hroom;
    [destruct Hff; lia|].
  destruct Hff as (Hf & Hfree' & Hfirst). cbn [balloc_loop]. rewrite bind_gets.
  change (k_sb (on k s)) with (k_sb k). rewrite Hsb.
  destruct (Hmap b ltac:(lia)) as (d & Hd & Hlen).
  destruct (read_block s held C hs (BBLOCK b sb) d e H Hd) as (bp & s1 & E1 & Hbp & H1 & Hh1 & K1).
  { eapply room_less; [done|lia]. }
  { eapply holding_not; [exact Hhold|]. intros [_ Hm]. apply Hm. exists b. split; [lia|done]. }
  mgo (exact E1). mgo (eapply get_data_ok; [exact H1|by left|exact Hh1]).
  set (w := Z.min BPB (sb_size sb - b)).
  assert (Hw : 0 ≤ w ≤ BPB) by (unfold w, BPB, BSIZE; lia).
  assert (Hbit : ∀ x, 0 ≤ x < w → used C (b + x) = bit_of d x).
  { intros x Hx. unfold used. destruct (same_group b x Hb0) as [-> ->]; [lia|]. by rewrite Hd. }
  pose proof (first_clear_spec d 0 (Z.to_nat w)) as Hs.
  destruct (first_clear d 0 (Z.to_nat w)) as [bi|].
  - destruct Hs as (Hbi & Hclear & Hset').
    assert (f = b + bi) as ->.
    { destruct (Z.lt_trichotomy f (b + bi)) as [Hlt|[?|Hgt]]; [|done|].
      - specialize (Hset' (f - b) ltac:(lia)). rewrite <- Hbit in Hset' by lia.
        replace (b + (f - b)) with f in Hset' by lia. congruence.
      - specialize (Hfirst (b + bi) ltac:(lia)). rewrite Hbit in Hfirst by lia. congruence. }
    destruct (same_group b bi Hb0 ltac:(lia)) as [Eblk Emod].
    destruct (write_block s1 bp held C hs (BBLOCK b sb) d (λ d, set_bit d bi) e H1 Hh1) as (s2 & E2 & H2 & K2);
      [by eexists|eapply room_less; [done|lia]|done|].
    destruct (bzero_ok s2 held _ _ (b + bi) e H2) as (s3 & E3 & H3 & K3).
    { apply lookup_insert_is_Some'. by right. }
    { apply room_note. eapply room_less; [done|lia]. }
    { eapply holding_not; [eapply holding_keeps; [exact Hhold|by eapply keeps_trans]|]. by intros []. }
    exists s3. split; [|split; [|exact (keeps_trans _ _ _ _ K1 (keeps_trans _ _ _ _ K2 K3))]].
    + rewrite bind_assoc3. mgo (exact E2). by mgo (exact E3).
    + unfold alloc, upd_map. rewrite Eblk, Emod, Hd. exact H3.
  - destruct (drop_block s1 bp held C hs _ d e H1 Hbp Hh1 Hd) as (s2 & E2 & H2 & K2). mgo (exact E2).
    assert (b + BPB ≤ f) as Hge.
    { destruct (decide (f < b + w)).
      - specialize (Hs (f - b) ltac:(lia)). rewrite <- Hbit in Hs by lia.
        replace (b + (f - b)) with f in Hs by lia. congruence.
      - unfold w in *. lia. }
    destruct (IH (b + BPB) s2) as (s3 & E3 & H3 & K3); try done.
    + unfold BPB, BSIZE in *. lia.
    + rewrite <- (Z.mul_1_l BPB) at 1. by rewrite Z.mod_add by (unfold BPB, BSIZE; lia).
    + split; [lia|]. split; [done|]. intros x Hx. apply Hfirst. unfold BPB, BSIZE in *. lia.
    + lia.
    + eapply holding_keeps; [exact Hhold|by eapply keeps_trans].
    + exists s3. split; [exact E3|]. split; [done|]. exact (keeps_trans _ _ _ _ K1 (keeps_trans _ _ _ _ K2 K3)).
Qed.

Lemma balloc_ok s held C hs f e :
  tx s held C hs → map_ok C → first_free C 0 f →
  is_Some (C !! f) → holding s held (λ m, m ≠ f ∧ ¬ map_block m) →
  room size (2 + Z.of_nat (length held)) hs →
  ∃ s', balloc 1 e (on k s) = Ret f e (on k s') ∧
    tx s' held (alloc f C) (note f (note (BBLOCK f sb) hs)) ∧ keeps held s s'.
Proof.
  intros H Hmap Hff HC Hhold Hroom. unfold balloc. rewrite bind_gets.
  change (k_sb (on k s)) with (k_sb k). rewrite Hsb.
  apply balloc_loop_ok; try done. destruct Hff as [Hf _]. unfold BPB, BSIZE in *. dlia.
Qed.

(** With every block in use the loop comes to its end. *)
Lemma balloc_full n b s held C hs e :
  tx s held C hs → map_ok C → 0 ≤ b → b mod BPB = 0 → (∀ x, b ≤ x < sb_size sb → used C x = true) →
  b + BPB * (Z.of_nat n - 1) < sb_size sb →
  holding s held (λ m, ¬ map_block m) → room size (Z.of_nat (length held)) hs →
  ∃ s', balloc_loop n 1 b e (on k s) = Panic "balloc: out of blocks" (on k s').
Proof.
  revert b s. induction n as [|n IH]; intros b s H Hmap Hb Hb0 Hall Hn Hhold Hroom; [by eexists|].
  cbn [balloc_loop]. rewrite bind_gets. change (k_sb (on k s)) with (k_sb k). rewrite Hsb.
  destruct (Hmap b ltac:(unfold BPB, BSIZE in *; lia)) as (d & Hd & Hlen).
  destruct (read_block s held C hs (BBLOCK b sb) d e H Hd) as (bp & s1 & E1 & Hbp & H1 & Hh1 & K1).
  { done. }
  { eapply holding_not; [exact Hhold|]. intros Hm. apply Hm. exists b. split; [unfold BPB, BSIZE in *; lia|done]. }
  mgo (exact E1). mgo (eapply get_data_ok; [exact H1|by left|exact Hh1]).
  set (w := Z.min BPB (sb_size sb - b)). pose proof (first_clear_spec d 0 (Z.to_nat w)) as Hs.
  destruct (first_clear d 0 (Z.to_nat w)) as [bi|].
  - destruct Hs as (Hbi & Hclear & _). specialize (Hall (b + bi) ltac:(lia)). unfold used in Hall.
    destruct (same_group b bi Hb0 ltac:(lia)) as [E1' E2']. rewrite E1', E2', Hd in Hall. congruence.
  - destruct (drop_block s1 bp held C hs _ d e H1 Hbp Hh1 Hd) as (s2 & E2 & H2 & K2). mgo (exact E2).
    destruct n as [|n]; [by eexists|]. apply IH; try done.
    + unfold BPB, BSIZE in *. lia.
    + rewrite <- (Z.mul_1_l BPB) at 1. by rewrite Z.mod_add by (unfold BPB, BSIZE; lia).
    + intros x Hx. apply Hall. unfold BPB, BSIZE in *. lia.
    + lia.
    + eapply holding_keeps; [exact Hhold|by eapply keeps_trans].
Qed.

Lemma bfree_ok s held C hs b e :
  tx s held C hs → map_ok C → 0 ≤ b < sb_size sb → used C b = true →
  holding s held (λ m, ¬ map_block m) → room size (1 + Z.of_nat (length held)) hs →
  ∃ s', bfree 1 b e (on k s) = Ret tt e (on k s') ∧
    tx s' held (upd_map clear_bit b C) (note (BBLOCK b sb) hs) ∧ keeps held s s'.
Proof.
  intros H Hmap Hb Hu Hhold Hroom. unfold bfree. rewrite bind_gets.
  change (k_sb (on k s)) with (k_sb k). rewrite Hsb. destruct (Hmap b Hb) as (d & Hd & Hlen).
  unfold used in Hu. unfold upd_map. rewrite Hd in *.
  destruct (read_block s held C hs (BBLOCK b sb) d e H Hd) as (bp & s1 & E1 & Hbp & H1 & Hh1 & K1).
  { eapply room_less; [done|lia]. }
  { eapply holding_not; [exact Hhold|]. intros Hm. apply Hm. by exists b. }
  mgo (exact E1). mgo (eapply get_data_ok; [exact H1|by left|exact Hh1]). rewrite Hu. cbn [negb].
  destruct (write_block s1 bp held C hs (BBLOCK b sb) d (λ d, clear_bit d (b mod BPB)) e H1 Hh1) as
    (s2 & E2 & H2 & K2); [by eexists|eapply room_less; [done|lia]|done|].
  exists s2. split; [exact E2|]. split; [done|by eapply keeps_trans].
Qed.

(** Freeing a free block panics. *)
Lemma bfree_free s held C hs b e :
  tx s held C hs → map_ok C → 0 ≤ b < sb_size sb → used C b = false →
  holding s held (λ m, ¬ map_block m) → room size (Z.of_nat (length held)) hs →
  ∃ s', bfree 1 b e (on k s) = Panic "freeing free block" (on k s').
Proof.
  intros H Hmap Hb Hu Hhold Hroom. unfold bfree. rewrite bind_gets.
  change (k_sb (on k s)) with (k_sb k). rewrite Hsb. destruct (Hmap b Hb) as (d & Hd & Hlen).
  unfold used in Hu. rewrite Hd in *.
  destruct (read_block s held C hs (BBLOCK b sb) d e H Hd) as (bp & s1 & E1 & Hbp & H1 & Hh1 & K1).
  { done. }
  { eapply holding_not; [exact Hhold|]. intros Hm. apply Hm. by exists b. }
  mgo (exact E1). mgo (eapply get_data_ok; [exact H1|by left|exact Hh1]). rewrite Hu. by eexists.
Qed.

End alone.

(** ** What the operations do to the free map *)

Lemma same_bit sb x b : BBLOCK x sb = BBLOCK b sb → x mod BPB = b mod BPB → x = b.
Proof.
  unfold BBLOCK. intros H1 H2. rewrite (Z.div_mod x BPB), (Z.div_mod b BPB) by done. rewrite H2.
  f_equal. f_equal. lia.
Qed.

Section map.
Context (sb : superblock) (C : disk) (Hmap : map_ok sb C).

Lemma bit_range x : 0 ≤ x mod BPB < BPB.
Proof. by apply Z.mod_pos_bound. Qed.

Lemma used_set b x : 0 ≤ b < sb_size sb → 0 ≤ x < sb_size sb →
  used sb (upd_map sb set_bit b C) x = bool_decide (x = b) || used sb C x.
Proof.
  intros Hb Hx. unfold used, upd_map. destruct (Hmap b Hb) as (d & Hd & Hlen). rewrite Hd.
  destruct (decide (BBLOCK x sb = BBLOCK b sb)) as [E|E].
  - rewrite E, lookup_insert_eq, Hd, bit_of_set by (done || apply bit_range). f_equal.
    apply bool_decide_ext. split; [|by intros ->]. intros Em; by apply (same_bit sb).
  - rewrite lookup_insert_ne by done. rewrite bool_decide_false; [done|]. by intros ->.
Qed.

Lemma map_ok_upd f b : (∀ d y, length (f d y) = length d) → map_ok sb (upd_map sb f b C).
Proof.
  intros Hf x Hx. unfold upd_map. destruct (C !! BBLOCK b sb) as [d|] eqn:Hd; [|by apply Hmap].
  destruct (Hmap x Hx) as (d' & Hd' & Hlen). destruct (decide (BBLOCK x sb = BBLOCK b sb)) as [E|E].
  - rewrite E in *. rewrite lookup_insert_eq. eexists. split; [done|]. rewrite Hf. congruence.
  - rewrite lookup_insert_ne by done. eauto.
Qed.

Lemma upd_map_ne f b n : n ≠ BBLOCK b sb → upd_map sb f b C !! n = C !! n.
Proof. intros. unfold upd_map. destruct (C !! _); [|done]. by rewrite lookup_insert_ne. Qed.

Lemma map_ok_alloc b : ¬ map_block sb b → map_ok sb (alloc sb b C).
Proof.
  intros Hb x Hx. unfold alloc. rewrite lookup_insert_ne.
  - apply map_ok_upd; [|done]. intros d y. apply length_set_bit.
  - intros ->. apply Hb. by exists x.
Qed.

Lemma used_alloc b x : 0 ≤ b < sb_size sb → ¬ map_block sb b → 0 ≤ x < sb_size sb →
  used sb (alloc sb b C) x = bool_decide (x = b) || used sb C x.
Proof.
  intros Hb Hnb Hx. rewrite <- used_set by done. unfold used, alloc. rewrite lookup_insert_ne; [done|].
  intros ->. apply Hnb. by exists x.
Qed.

Lemma alloc_ne b n : n ≠ b → n ≠ BBLOCK b sb → alloc sb b C !! n = C !! n.
Proof. intros. unfold alloc. rewrite lookup_insert_ne by done. by apply upd_map_ne. Qed.

(** Freeing what was just allocated. *)
Lemma free_alloc b n : 0 ≤ b < sb_size sb → ¬ map_block sb b → used sb C b = false →
  (∀ d, C !! BBLOCK b sb = Some d → Forall (λ v, 0 ≤ v < 256) d) → n ≠ b →
  upd_map sb clear_bit b (alloc sb b C) !! n = C !! n.
Proof.
  intros Hb Hnb Hu Hbytes Hn. destruct (Hmap b Hb) as (d & Hd & Hlen).
  assert (b ≠ BBLOCK b sb) as Hne by (intros E; apply Hnb; rewrite E at 1; by exists b).
  unfold used in Hu. unfold upd_map, alloc. unfold upd_map. rewrite Hd in *.
  rewrite lookup_insert_ne, lookup_insert_eq by done.
  rewrite clear_set by (done || apply bit_range || by apply Hbytes).
  destruct (decide (n = BBLOCK b sb)) as [->|]; [by rewrite lookup_insert_eq, Hd|].
  by rewrite !lookup_insert_ne by done.
Qed.
End map.

Lemma first_free_exists sb C f : 0 ≤ f < sb_size sb → used sb C f = false → ∃ g, first_free sb C 0 g.
Proof.
  intros Hf Hu.
  cut (∀ n : nat, (∃ g, first_free sb C 0 g) ∨ ∀ x, 0 ≤ x < Z.min (Z.of_nat n) (sb_size sb) → used sb C x = true).
  { intros H. destruct (H (Z.to_nat (sb_size sb))) as [?|Hall]; [done|]. rewrite Hall in Hu by lia. done. }
  induction n as [|n [?|IH]]; [right; intros; lia|by left|].
  destruct (decide (Z.of_nat n < sb_size sb)); [|right; intros; apply IH; lia].
  destruct (used sb C (Z.of_nat n)) eqn:E.
  - right. intros x Hx. destruct (decide (x = Z.of_nat n)) as [->|]; [done|]. apply IH. lia.
  - left. exists (Z.of_nat n). split; [lia|]. split; [done|]. intros x Hx. apply IH. lia.
Qed.

(** The free map marks itself and the boot block, and the blocks that it says are free are on
    the disk. *)
Record free_map (sb : superblock) (C : disk) : Prop := {
  fm_map : map_ok sb C;
  fm_boot : used sb C 0 = true;
  fm_bytes : ∀ n d, map_block sb n → C !! n = Some d → Forall (λ v, 0 ≤ v < 256) d;
  fm_free : ∀ b, 0 ≤ b < sb_size sb → used sb C b = false → is_Some (C !! b) ∧ ¬ map_block sb b }.

(** C12 The block allocator.  In a transaction on a disk with a block free, [balloc] returns a
    block that was free, zeroed; just its mark in the free map is added, and every other block is
    as before.  [bfree] of the block then removes the mark again, and leaves every block but
    that one as it was before [balloc]. *)
Theorem balloc_correct k p pid start size out s C hs e :
  alone k p → lock_free k LkLog → 1 ≤ out → tx p pid start size out s [] C hs → room size 3 hs →
  let sb := k_sb k in
  free_map sb C → (∃ f, 0 ≤ f < sb_size sb ∧ used sb C f = false) →
  ∃ b s1 C1 hs1, balloc (H := Memide.disk) 1 e (on k s) = Ret b e (on k s1) ∧
    tx p pid start size out s1 [] C1 hs1 ∧ 0 ≤ b < sb_size sb ∧ used sb C b = false ∧
    C1 !! b = Some zero_block ∧
    (∀ x, 0 ≤ x < sb_size sb → used sb C1 x = bool_decide (x = b) || used sb C x) ∧
    (∀ n, n ≠ b → ¬ map_block sb n → C1 !! n = C !! n) ∧
  ∃ s2 C2 hs2, bfree (H := Memide.disk) 1 b e (on k s1) = Ret tt e (on k s2) ∧
    tx p pid start size out s2 [] C2 hs2 ∧ ∀ n, n ≠ b → C2 !! n = C !! n.
Proof.
  intros (i & c & Hset & Hfree & Hproc) Hlock Hout H Hroom sb [Hmap _ Hbytes Hdisk] (f0 & Hf0 & Hu0).
  destruct (first_free_exists sb C f0 Hf0 Hu0) as (b & Hff). pose proof Hff as (Hb & Hu & _).
  destruct (Hdisk b Hb Hu) as [HC Hnb].
  destruct (balloc_ok k i c p pid Hset Hfree Hproc Hlock start size out Hout sb eq_refl s [] C hs b e H Hmap Hff HC)
    as (s1 & E1 & H1 & _); [by intros ? ?%elem_of_nil|eapply room_less; [done|cbn; lia]|].
  pose proof (used_alloc sb C Hmap b b Hb Hnb Hb) as Hub. rewrite bool_decide_true in Hub by done.
  destruct (bfree_ok k i c p pid Hset Hfree Hproc Hlock start size out Hout sb eq_refl s1 [] _ _ b e H1) as
    (s2 & E2 & H2 & _); [by apply map_ok_alloc|done|done|by intros ? ?%elem_of_nil|by repeat apply room_note|].
  exists b, s1, (alloc sb b C), (note b (note (BBLOCK b sb) hs)). split_and!; try done || lia.
  - apply lookup_insert_eq.
  - intros x Hx. by apply used_alloc.
  - intros n Hn Hnm. apply alloc_ne; [done|]. intros ->. apply Hnm. by exists b.
  - eexists s2, _, _. split; [exact E2|]. split; [exact H2|]. intros n Hn.
    apply free_alloc; try done. intros d. apply Hbytes. by exists b.
Qed.

(** A disk of 50 blocks, with its free map in block 45, and blocks 46 and 48 free. *)
Definition sb_small : superblock := Superblock 50 4 8 30 2 44 45.
Definition k_small : kernel := k_boot <| k_sb := sb_small |>.
Definition map_small : list Z := replicate 5 255 ++ [191; 2] ++ replicate 505 0.
Definition m_small : disk := <[45 := map_small]> (list_to_map ((λ n, (n, zero_block)) <$> seqZ 0 50)).
Definition s_small : data := Data boot_bufs [mkproc RUNNING 1 2] m_small [] (Log 2 30 1 false 1 0 (replicate 30 0)).

Lemma small_tx : tx 0 1 2 30 1 s_small [] m_small [].
Proof.
  split; [|constructor|by repeat split|done].
  apply (cache_boot 0 1 s_small _ boot_ring); [by exists (mkproc RUNNING 1 2)|reflexivity].
Qed.

Lemma small_map : free_map sb_small m_small.
Proof.
  assert (Hblk : ∀ b, 0 ≤ b < 50 → BBLOCK b sb_small = 45).
  { intros b Hb. unfold BBLOCK. by rewrite Z.div_small by (unfold BPB, BSIZE; lia). }
  split.
  - intros b Hb. rewrite Hblk by done. exists map_small. by split; [apply lookup_insert_eq|].
  - by vm_compute.
  - intros n d (x & Hx & ->). rewrite Hblk by done. unfold m_small. rewrite lookup_insert_eq. intros [= <-].
    apply (bool_decide_unpack _). by vm_compute.
  - intros b Hb Hu. split.
    + unfold m_small. apply lookup_insert_is_Some'. right. apply elem_of_dom.
      rewrite dom_list_to_map_L, elem_of_list_to_set, <- list_fmap_compose, list_elem_of_fmap.
      exists b. split; [done|]. apply elem_of_seqZ. cbn in Hb. lia.
    + intros (x & Hx & ->). rewrite Hblk in Hu by done. by vm_compute in Hu.
Qed.

Lemma balloc_correct_witness :
  ∃ b s1, balloc (H := Memide.disk) 1 [] (on k_small s_small) = Ret b [] (on k_small s1) ∧
    used sb_small m_small b = false.
Proof.
  destruct (balloc_correct k_small 0 1 2 30 1 s_small m_small [] []) as (b & s1 & C1 & hs1 & E & H & Hb & Hu & _).
  - exact boot_alone.
  - reflexivity.
  - done.
  - apply small_tx.
  - unfold room. cbn. lia.
  - apply small_map.
  - exists 46. split; [change (0 ≤ 46 < 50); lia|by vm_compute].
  - exists b, s1. split; [exact E|exact Hu].
Defined.
