(* ===== verification/Bmap.v ===== *)
(** * The blocks of a file, proved (bmap of fs.c)

    An inode has 141 slots for block addresses: the 12 direct ones, the one of
    the indirect block, and the 128 entries of that block.  [file_ok] says that
    the slots in use name different blocks of the disk, all marked in the free
    map.  [bmap_ok]: [bmap] returns the address of a block of the file,
    allocating it and the indirect block where they are missing; the contents
    of the file, the other blocks of the disk and the invariant stay. *)

From S2P Require Import Prelude State Spinlock Sched Sleep Sleeplock Bio Bytes Bcache Log Crash Txn Inode Alloc.

(** ** Slots *)

Definition NSLOT : Z := 1 + MAXFILE.

(** The slot of block [bn] of a file. *)
Definition dslot (bn : Z) : Z := if bn <? 12 then bn else bn + 1.

Definition addr_at (x : inode) (j : Z) : Z := default 0 (i_addrs x !! Z.to_nat j).

(** The address in slot [j], or 0. *)
Definition slot (C : disk) (x : inode) (j : Z) : Z :=
  if j <=? 12 then addr_at x j
  else if addr_at x 12 =? 0 then 0
  else match C !! addr_at x 12 with Some d => get32 d (4 * (j - 13)) | None => 0 end.

(** Byte [o] of the file; a block that is missing reads as zeroes. *)
Definition fbyte (C : disk) (x : inode) (o : Z) : Z :=
  let a := slot C x (dslot (o / BSIZE)) in
  if a =? 0 then 0 else match C !! a with Some d => get8 d (o mod BSIZE) | None => 0 end.

Lemma get32_zero o : get32 zero_block o = 0.
Proof.
  assert (H : ∀ o, get8 zero_block o = 0); [|unfold get32, get16; by rewrite !H].
  intros o'. unfold get8, zero_block. destruct (replicate _ 0 !! _) as [v|] eqn:Ev; [|done].
  by apply lookup_replicate in Ev as [-> _].
Qed.

Section file.
Context (sb : superblock).

(** A block in use that is not one of the free map. *)
Record good (C : disk) (n : Z) : Prop := {
  gd_range : 0 ≤ n < sb_size sb;
  gd_used : used sb C n = true;
  gd_map : ¬ map_block sb n;
  gd_data : ∃ d, C !! n = Some d ∧ length d = Z.to_nat BSIZE }.

Definition iblock (x : inode) : Z := IBLOCK (i_inum x) sb.

Record file_ok (C : disk) (x : inode) : Prop := {
  fo_dev : i_dev x = 1;
  fo_len : length (i_addrs x) = S NDIRECT;
  fo_good : ∀ j, 0 ≤ j < NSLOT → slot C x j ≠ 0 → good C (slot C x j);
  fo_inj : ∀ j j', 0 ≤ j < NSLOT → 0 ≤ j' < NSLOT → slot C x j ≠ 0 → slot C x j = slot C x j' → j = j';
  fo_ino : good C (iblock x);
  fo_ino_ne : ∀ j, 0 ≤ j < NSLOT → slot C x j ≠ iblock x }.

(** A block in use that is not one of the file's. *)
Definition elsewhere (C : disk) (x : inode) (n : Z) : Prop :=
  good C n ∧ ∀ j, 0 ≤ j < NSLOT → slot C x j ≠ n.

(** The inodes differ in their addresses only. *)
Definition same_but_addrs (x x' : inode) : Prop := x' = x <| i_addrs := i_addrs x' |>.

(** The file has got new blocks, and nothing else has happened to it or around it. *)
Record grown (C : disk) (x : inode) (C' : disk) (x' : inode) : Prop := {
  gr_ok : file_ok C' x';
  gr_map : free_map sb C';
  gr_inode : same_but_addrs x x';
  gr_byte : ∀ o, 0 ≤ o < MAXFILE * BSIZE → fbyte C' x' o = fbyte C x o;
  gr_slot : ∀ j, 0 ≤ j < NSLOT → slot C x j ≠ 0 → slot C' x' j = slot C x j;
  gr_frame : ∀ n, elsewhere C x n → C' !! n = C !! n ∧ elsewhere C' x' n }.

Lemma grown_refl C x : file_ok C x → free_map sb C → grown C x C x.
Proof. intros. split; try done. unfold same_but_addrs. by destruct x. Qed.

Lemma grown_trans C1 x1 C2 x2 C3 x3 : grown C1 x1 C2 x2 → grown C2 x2 C3 x3 → grown C1 x1 C3 x3.
Proof.
  intros H H'. split; try apply H'.
  - unfold same_but_addrs. rewrite (gr_inode _ _ _ _ H'), (gr_inode _ _ _ _ H). reflexivity.
  - intros o Ho. by rewrite (gr_byte _ _ _ _ H'), (gr_byte _ _ _ _ H).
  - intros j Hj Hne. rewrite (gr_slot _ _ _ _ H'); rewrite ?(gr_slot _ _ _ _ H); done.
  - intros n Hn. destruct (gr_frame _ _ _ _ H n Hn) as [E1 Hn']. rewrite <- E1. by apply (gr_frame _ _ _ _ H').
Qed.

Lemma ino_elsewhere C x : file_ok C x → elsewhere C x (iblock x).
Proof. intros H. split; [apply H|]. apply (fo_ino_ne _ _ H). Qed.

Lemma dslot_range bn : 0 ≤ bn < MAXFILE → 0 ≤ dslot bn < NSLOT ∧ dslot bn ≠ 12.
Proof. unfold dslot, NSLOT. intros. destruct (Z.ltb_spec bn 12); lia. Qed.

Lemma block_range o : 0 ≤ o < MAXFILE * BSIZE → 0 ≤ o / BSIZE < MAXFILE.
Proof. intros. split; [apply Z.div_pos; unfold BSIZE in *; lia|]. apply Z.div_lt_upper_bound; unfold BSIZE in *; lia. Qed.

(** ** A new block *)

(** [f] is taken from the free map. *)
Section alloc.
Context (C : disk) (f : Z) (Hfm : free_map sb C) (Hf : 0 ≤ f < sb_size sb) (Hu : used sb C f = false).

#[local] Abbreviation C1 := (alloc sb f C).

Lemma free_not_map : ¬ map_block sb f.
Proof. by apply (fm_free _ _ Hfm). Qed.

Lemma good_keeps n : good C n → C1 !! n = C !! n ∧ n ≠ f ∧ good C1 n.
Proof.
  intros [Hr Hun Hm Hd]. assert (n ≠ f) as Hne by congruence.
  assert (C1 !! n = C !! n) as E.
  { apply alloc_ne; [done|]. intros ->. apply Hm. by exists f. }
  split; [done|]. split; [done|]. split; [done|..|done|by rewrite E].
  rewrite used_alloc; [by rewrite Hun, orb_true_r|apply Hfm|done|apply free_not_map|done].
Qed.

Lemma good_new : good C1 f.
Proof.
  split; [done|..|apply free_not_map|].
  - rewrite used_alloc; [by rewrite bool_decide_true|apply Hfm|done|apply free_not_map|done].
  - exists zero_block. split; [apply lookup_insert_eq|done].
Qed.

Lemma free_map_alloc : free_map sb C1.
Proof.
  split.
  - apply map_ok_alloc; [apply Hfm|apply free_not_map].
  - rewrite used_alloc by (done || apply free_not_map || apply Hfm || lia).
    by rewrite (fm_boot _ _ Hfm), orb_true_r.
  - intros n d Hn. unfold alloc. rewrite lookup_insert_ne by (intros <-; by apply free_not_map).
    unfold upd_map. destruct (C !! BBLOCK f sb) as [d0|] eqn:E0; [|by apply (fm_bytes _ _ Hfm)].
    destruct (decide (n = BBLOCK f sb)) as [->|].
    + rewrite lookup_insert_eq. intros [= <-]. unfold set_bit, put8. apply Forall_insert.
      * by apply (fm_bytes _ _ Hfm (BBLOCK f sb)).
      * apply Z.mod_pos_bound. lia.
    + rewrite lookup_insert_ne by done. by apply (fm_bytes _ _ Hfm).
  - intros b Hb. rewrite used_alloc by (done || apply free_not_map || apply Hfm).
    intros [Hne Hub]%orb_false_iff. apply bool_decide_eq_false in Hne.
    destruct (fm_free _ _ Hfm b Hb Hub) as [HC Hm]. split; [|done].
    unfold alloc. apply lookup_insert_is_Some'. right. by apply upd_map_some.
Qed.

Context (x : inode) (Hok : file_ok C x).

Lemma slot_alloc j : 0 ≤ j < NSLOT → slot C1 x j = slot C x j.
Proof.
  intros Hj. unfold slot. destruct (j <=? 12); [done|]. destruct (addr_at x 12 =? 0) eqn:E; [done|].
  assert (Hs : slot C x 12 = addr_at x 12) by done.
  destruct (good_keeps (addr_at x 12)) as (-> & _ & _); [|done].
  rewrite <- Hs. apply (fo_good _ _ Hok); [by split|]. rewrite Hs. lia.
Qed.

Lemma file_ok_alloc : file_ok C1 x.
Proof.
  split; try apply Hok.
  - intros j Hj. rewrite slot_alloc by done. intros Hne. by apply good_keeps, (fo_good _ _ Hok).
  - intros j j' Hj Hj'. rewrite !slot_alloc by done. by apply (fo_inj _ _ Hok).
  - apply good_keeps, Hok.
  - intros j Hj. rewrite slot_alloc by done. by apply (fo_ino_ne _ _ Hok).
Qed.

Lemma fbyte_alloc o : 0 ≤ o < MAXFILE * BSIZE → fbyte C1 x o = fbyte C x o.
Proof.
  intros Ho. destruct (dslot_range (o / BSIZE) (block_range _ Ho)) as [Hj _].
  unfold fbyte. rewrite slot_alloc by done. destruct (_ =? 0) eqn:E; [done|].
  destruct (good_keeps (slot C x (dslot (o / BSIZE)))) as (-> & _); [|done].
  apply (fo_good _ _ Hok); [done|lia].
Qed.

Lemma grown_alloc : grown C x C1 x.
Proof.
  split; [apply file_ok_alloc|apply free_map_alloc|by unfold same_but_addrs; destruct x|apply fbyte_alloc|..].
  - intros j Hj _. by apply slot_alloc.
  - intros n [Hg Hn]. destruct (good_keeps n Hg) as (E & _ & Hg'). split; [done|]. split; [done|].
    intros j Hj. rewrite slot_alloc by done. by apply Hn.
Qed.

Lemma new_elsewhere : f ≠ 0 → elsewhere C1 x f.
Proof.
  intros H0. split; [apply good_new|]. intros j Hj. rewrite slot_alloc by done. intros E.
  destruct (good_keeps (slot C x j)) as (_ & Hne & _); [|done].
  apply (fo_good _ _ Hok); [done|]. by rewrite E.
Qed.

(** The block [f] put into the empty slot [j]: only the inode has changed, or the indirect
    block. *)
Section attach.
Context (H0 : f ≠ 0) (j : Z) (Hj : 0 ≤ j < NSLOT) (Hempty : slot C x j = 0).
Context (C2 : disk) (x2 : inode) (Hx2 : same_but_addrs x x2) (Hlen2 : length (i_addrs x2) = S NDIRECT).
Context (Hslot : ∀ j', 0 ≤ j' < NSLOT → slot C2 x2 j' = if decide (j' = j) then f else slot C x j').
Context (Hdata : ∀ n, C2 !! n = C1 !! n ∨
  n = slot C x 12 ∧ n ≠ 0 ∧ ∃ d, C2 !! n = Some d ∧ length d = Z.to_nat BSIZE).

Lemma attach_map n : map_block sb n → C2 !! n = C1 !! n.
Proof.
  intros Hm. destruct (Hdata n) as [|(-> & Hne & _)]; [done|]. exfalso.
  by apply (gd_map _ _ (fo_good _ _ Hok 12 ltac:(by split) Hne)).
Qed.

Lemma attach_used n : 0 ≤ n < sb_size sb → used sb C2 n = used sb C1 n.
Proof. intros Hn. unfold used. rewrite attach_map; [done|]. by exists n. Qed.

Lemma attach_good n : good C1 n → good C2 n.
Proof.
  intros [Hr Hun Hm Hd]. split; [done|by rewrite attach_used|done|].
  destruct (Hdata n) as [-> |(_ & _ & ?)]; done.
Qed.

Lemma attach_free_map : free_map sb C2.
Proof.
  pose proof free_map_alloc as [Hm H0' Hb Hfr]. split.
  - intros b Hb'. rewrite attach_map; [by apply Hm|]. by exists b.
  - by rewrite attach_used by lia.
  - intros n d Hn. rewrite attach_map by done. by apply Hb.
  - intros b Hb'. rewrite attach_used by done. intros Hub. destruct (Hfr b Hb' Hub) as [HC Hnm].
    split; [|done]. destruct (Hdata b) as [-> |(_ & _ & d & -> & _)]; [done|by eexists].
Qed.

Lemma inum_attach : iblock x2 = iblock x.
Proof. unfold iblock. by rewrite Hx2. Qed.

Lemma attach_file_ok : file_ok C2 x2.
Proof.
  pose proof file_ok_alloc as [Hdev _ Hgood Hinj Hino Hino_ne].
  destruct (new_elsewhere H0) as [Hgf Hnf].
  split; [by rewrite Hx2|done|..].
  - intros j' Hj'. rewrite Hslot by done. case_decide; [intros _; by apply attach_good|].
    rewrite <- slot_alloc by done. intros Hne. by apply attach_good, Hgood.
  - intros j1 j2 Hj1 Hj2. rewrite !Hslot by done.
    repeat case_decide; subst; try done; rewrite <- ?(slot_alloc j1), <- ?(slot_alloc j2) by done.
    + intros _ E. by destruct (Hnf j2 Hj2).
    + intros _ E. by destruct (Hnf j1 Hj1).
    + intros Hne E. by apply Hinj.
  - rewrite inum_attach. by apply attach_good.
  - intros j' Hj'. rewrite inum_attach, Hslot by done. case_decide.
    + apply not_eq_sym. apply good_keeps, Hok.
    + rewrite <- slot_alloc by done. by apply Hino_ne.
Qed.

Lemma attach_data n : n ≠ slot C x 12 ∨ n = 0 → C2 !! n = C1 !! n.
Proof. intros Hn. destruct (Hdata n) as [|(-> & Hne & _)]; [done|]. by destruct Hn. Qed.

Lemma attach_byte o : 0 ≤ o < MAXFILE * BSIZE → fbyte C2 x2 o = fbyte C x o.
Proof.
  intros Ho. destruct (dslot_range (o / BSIZE) (block_range _ Ho)) as [Hd Hd12].
  set (js := dslot (o / BSIZE)) in *. rewrite <- (fbyte_alloc o) by done. unfold fbyte. fold js.
  rewrite Hslot, slot_alloc by done. case_decide as E.
  - rewrite E, Hempty. cbn [Z.eqb]. replace (f =? 0) with false by lia.
    rewrite attach_data.
    + unfold alloc. rewrite lookup_insert_eq. unfold get8, zero_block. destruct (replicate _ 0 !! _) as [v|] eqn:Ev; [|done].
      by apply lookup_replicate in Ev as [-> _].
    + left. intros Ef. destruct (new_elsewhere H0) as [_ Hnf]. apply (Hnf 12 ltac:(by split)).
      by rewrite slot_alloc by (by split).
  - destruct (slot C x js =? 0) eqn:E0; [done|]. rewrite attach_data; [done|]. left. intros E12.
    apply Hd12. apply (fo_inj _ _ Hok); [done|by split|lia|done].
Qed.

Lemma grown_attach : grown C x C2 x2 ∧ slot C2 x2 j = f.
Proof.
  split; [|by rewrite Hslot, decide_True].
  split; [apply attach_file_ok|apply attach_free_map|done|apply attach_byte|..].
  - intros j' Hj' Hne. rewrite Hslot by done. case_decide; [by subst|done].
  - intros n [Hg Hn]. destruct (good_keeps n Hg) as (E & Hnf & Hg'). split; [|split].
    + rewrite attach_data; [done|]. left. intros E12. by apply (Hn 12 ltac:(by split)).
    + by apply attach_good.
    + intros j' Hj'. rewrite Hslot by done. case_decide; [done|]. by apply Hn.
Qed.
End attach.

(** The two ways to put a block into a slot. *)

Lemma grown_direct j :
  f ≠ 0 → 0 ≤ j ≤ 12 → slot C x j = 0 →
  let x2 := x <| i_addrs ::= <[Z.to_nat j := f]> |> in
  grown C x C1 x2 ∧ ∀ j', 0 ≤ j' < NSLOT → slot C1 x2 j' = if decide (j' = j) then f else slot C x j'.
Proof.
  intros H0 Hj Hempty x2. pose proof (fo_len _ _ Hok) as Hlen.
  assert (HN : NSLOT = 141) by done.
  assert (Haddr : ∀ j', 0 ≤ j' → addr_at x2 j' = if decide (j' = j) then f else addr_at x j').
  { intros j' Hj'. unfold addr_at, x2. rsimpl. case_decide as E.
    - subst j'. rewrite list_lookup_insert_eq; [done|]. rewrite Hlen. unfold NDIRECT. lia.
    - by rewrite list_lookup_insert_ne by lia. }
  assert (Hslot : ∀ j', 0 ≤ j' < NSLOT → slot C1 x2 j' = if decide (j' = j) then f else slot C x j').
  { intros j' Hj'. rewrite <- (slot_alloc j') by done. unfold slot. rewrite !Haddr by lia.
    destruct (Z.leb_spec j' 12) as [Hle|Hgt]; [done|].
    rewrite (decide_False (P := j' = j)) by lia. case_decide as E12; [|done].
    subst j. unfold slot in Hempty. cbn in Hempty. rewrite Hempty. replace (f =? 0) with false by lia.
    unfold alloc. rewrite lookup_insert_eq. apply get32_zero. }
  split; [|done]. eapply (grown_attach H0 j); try done; [lia|..|by left].
  unfold x2. rsimpl. by rewrite length_insert.
Qed.

Lemma grown_indirect j d :
  f ≠ 0 → 13 ≤ j < NSLOT → slot C x j = 0 → is_u32 f →
  slot C x 12 ≠ 0 → C !! slot C x 12 = Some d →
  let C2 := <[slot C x 12 := put32 d (4 * (j - 13)) f]> C1 in
  grown C x C2 x ∧ slot C2 x j = f.
Proof.
  intros H0 Hj Hempty H32 H12 Hd C2. assert (HN : NSLOT = 141) by done.
  assert (H12' : slot C x 12 = addr_at x 12) by done.
  destruct (gd_data _ _ (fo_good _ _ Hok 12 ltac:(by split) H12)) as (d' & Hd' & Hlen).
  rewrite Hd in Hd'. injection Hd' as <-. unfold BSIZE in Hlen.
  apply grown_attach; try done; [lia|by unfold same_but_addrs; destruct x|apply Hok|..].
  - intros j' Hj'. unfold slot at 1 2. destruct (Z.leb_spec j' 12) as [Hle|Hgt].
    { by rewrite decide_False by lia. }
    rewrite <- H12'. replace (slot C x 12 =? 0) with false by lia. unfold C2. rewrite lookup_insert_eq, Hd.
    case_decide as E.
    + subst j'. rewrite get32_put32_eq by lia. by apply wrap32_small.
    + rewrite get32_put32_ne by lia. done.
  - intros n. destruct (decide (n = slot C x 12)) as [->|]; [right|left; by apply lookup_insert_ne].
    split; [done|]. split; [done|]. eexists. split; [apply lookup_insert_eq|]. by rewrite length_put32.
Qed.
End alloc.

(** ** Free blocks *)

Definition frees (C : disk) : list Z := filter (λ b, used sb C b = false) (seqZ 0 (sb_size sb)).

(** At most [m] blocks fewer are free. *)
Definition fewer (m : nat) (C C' : disk) : Prop := (length (frees C) ≤ m + length (frees C'))%nat.

Lemma fewer_trans m m' C1 C2 C3 : fewer m C1 C2 → fewer m' C2 C3 → fewer (m + m') C1 C3.
Proof. unfold fewer. lia. Qed.
Lemma fewer_weaken m m' C C' : fewer m C C' → (m ≤ m')%nat → fewer m' C C'.
Proof. unfold fewer. lia. Qed.

Lemma frees_some C : (0 < length (frees C))%nat → ∃ f, 0 ≤ f < sb_size sb ∧ used sb C f = false.
Proof.
  destruct (frees C) as [|f l] eqn:E; [cbn; lia|]. intros _. exists f.
  assert (f ∈ frees C) as Hf by (rewrite E; by left).
  apply list_elem_of_filter in Hf as [Hu Hin]. split; [|done]. apply elem_of_seqZ in Hin. lia.
Qed.

Lemma fewer_alloc C C2 f :
  map_ok sb C → 0 ≤ f < sb_size sb → ¬ map_block sb f →
  (∀ n, 0 ≤ n < sb_size sb → used sb C2 n = used sb (alloc sb f C) n) → fewer 1 C C2.
Proof.
  intros Hm Hf Hnm Hu. unfold fewer.
  change (length (frees C) ≤ length (f :: frees C2))%nat.
  apply submseteq_length, NoDup_submseteq; [apply NoDup_filter, NoDup_seqZ|].
  intros b [Hb Hin]%list_elem_of_filter. destruct (decide (b = f)) as [->|Hne]; [by left|right].
  apply list_elem_of_filter. split; [|done]. apply elem_of_seqZ in Hin.
  rewrite Hu, used_alloc by (done || lia). by rewrite bool_decide_false, Hb.
Qed.

Lemma used_other C n d b : ¬ map_block sb n → 0 ≤ b < sb_size sb → used sb (<[n := d]> C) b = used sb C b.
Proof.
  intros Hn Hb. unfold used. rewrite lookup_insert_ne; [done|]. intros ->. apply Hn. by exists b.
Qed.
End file.

(** ** The code *)

(** The inode [x] in entry [ip] of the cache. *)
Definition at_ino (ip : nat) (x : inode) (k : kernel) : kernel := k <| k_inode ::= <[ip := x]> |>.

(** A kernel in which process [p] runs undisturbed, with the log's lock free. *)
Record solo (k : kernel) (p : nat) (sb : superblock) : Prop := {
  so_alone : alone k p;
  so_log : lock_free k LkLog;
  so_sb : k_sb k = sb }.

Lemma solo_ino k p sb ip x : solo k p sb → solo (at_ino ip x k) p sb.
Proof.
  assert (Hs : same_sync (at_ino ip x k) k) by done.
  intros [(i & c & H1 & (H2 & H3 & H4) & H5) H6 H7]. split; [|by eapply same_sync_free|done].
  exists i, c. split; [by eapply same_sync_settled|]. split; [|done].
  split_and!; [by eapply same_sync_free..|]. intros b Hb. eapply same_sync_free; [exact Hs|by apply H4].
Qed.

Lemma at_ino_at_ino ip x y k : at_ino ip y (at_ino ip x k) = at_ino ip y k.
Proof. unfold at_ino. merge_upd. upd_ext. apply list_insert_insert_eq. Qed.

Lemma at_ino_id ip x k : k_inode k !! ip = Some x → at_ino ip x k = k.
Proof.
  intros E. unfold at_ino. transitivity (k <| k_inode ::= id |>); [|by destruct k].
  upd_ext. by apply list_insert_id.
Qed.

Lemma at_ino_lookup ip x y k : k_inode k !! ip = Some x → k_inode (at_ino ip y k) !! ip = Some y.
Proof. intros E. unfold at_ino. rsimpl. apply list_lookup_insert_eq. by eapply lookup_lt_Some. Qed.

Lemma inode_get_on {A} (f : inode → A) k s ip x e :
  k_inode k !! ip = Some x → inode_get ip f e (on k s) = Ret (f x) e (on k s).
Proof. intros E. unfold inode_get. msteps. change (k_inode (on k s)) with (k_inode k). by rewrite E. Qed.

Lemma inode_upd_on f k s ip x e :
  k_inode k !! ip = Some x → inode_upd ip f e (on k s) = Ret tt e (on (at_ino ip (f x) k) s).
Proof.
  intros E. unfold inode_upd, modify. f_equal. unfold at_ino.
  change (on (k <| k_inode ::= <[ip := f x]> |>) s) with ((on k s) <| k_inode ::= <[ip := f x]> |>).
  upd_ext. by apply list_alter_insert.
Qed.

Lemma bind_assoc3' {K A B} (a b : M K unit) (m : M K A) (f : A → M K B) e k :
  ((a;; b;; m) ≫= f) e k = (((a;; b);; m) ≫= f) e k.
Proof.
  unfold mbind, M_bind. by destruct (a e k).
Qed.

Section run.
Context (k : kernel) (p : nat) (pid : Z) (sb : superblock) (Hsolo : solo k p sb).
Context (start size out : Z).
Context (ip : nat) (x : inode) (Hx : k_inode k !! ip = Some x).

#[local] Abbreviation tx := (tx p pid start size out).
#[local] Existing Instance Memide.disk.

Lemma addr_mapped s j e :
  length (i_addrs x) = S NDIRECT → 0 ≤ j ≤ 12 → addr_at x j ≠ 0 →
  addr_or_alloc ip (Z.to_nat j) e (on k s) = Ret (addr_at x j) e (on k s).
Proof.
  intros Hlen Hj Hn. unfold NDIRECT in Hlen. unfold addr_or_alloc. mgo (by apply inode_get_on). unfold id.
  destruct (lookup_lt_is_Some_2 (i_addrs x) (Z.to_nat j)) as [a Ea]; [lia|].
  assert (addr_at x j = a) as E by (unfold addr_at; by rewrite Ea).
  rewrite Ea, bind_deref. rewrite E in *. by replace (a =? 0) with false by lia.
Qed.

(** [bmap] of a block that the file has. *)
Lemma bmap_mapped s C hs bn e :
  tx s [] C hs → file_ok sb C x → 0 ≤ bn < MAXFILE → slot C x (dslot bn) ≠ 0 → room size 0 hs →
  ∃ s', bmap ip bn e (on k s) = Ret (slot C x (dslot bn)) e (on k s') ∧ tx s' [] C hs.
Proof.
  intros H Hok Hbn Hne Hroom. destruct Hsolo as [(i & c & Hset & Hfree & Hproc) Hlog Hsb].
  pose proof (λ j, addr_mapped s j e (fo_len _ _ _ Hok)) as Haddr.
  unfold bmap. unfold dslot in *. change (Z.of_nat NDIRECT) with 12. destruct (Z.ltb_spec bn 12) as [Hd|Hd].
  { exists s. split; [|done]. unfold slot in *. replace (bn <=? 12) with true in * by lia. apply Haddr; [lia|done]. }
  replace (bn - 12 <? NINDIRECT) with true by (unfold MAXFILE, NDIRECT in *; lia).
  unfold slot in *. replace (bn + 1 <=? 12) with false in * by lia.
  destruct (addr_at x 12 =? 0) eqn:E12; [done|]. change NDIRECT with (Z.to_nat 12).
  mgo (apply Haddr; lia). mgo (by apply inode_get_on). rewrite (fo_dev _ _ _ Hok).
  destruct (C !! addr_at x 12) as [d|] eqn:Hd12; [|done].
  destruct (read_block k i c p pid Hset Hfree Hproc start size out s [] C hs _ d e H Hd12) as
    (bp & s1 & E1 & Hbp & H1 & Hh1 & _); [done|by intros ? ? ?%elem_of_nil|].
  mgo (exact E1). mgo (eapply get_data_ok; [exact H1|by left|exact Hh1]).
  replace (bn + 1 - 13) with (bn - 12) in * by lia.
  replace (get32 d (4 * (bn - 12)) =? 0) with false by lia. rewrite bind_ret_l.
  destruct (drop_block k i c p pid Hset Hfree Hproc start size out s1 bp [] C hs _ d e H1 Hbp Hh1 Hd12) as
    (s2 & E2 & H2 & _).
  exists s2. split; [by mgo (exact E2)|done].
Qed.

(** [addr_or_alloc] of an empty slot. *)
Lemma addr_alloc s C hs j e :
  1 ≤ out → tx s [] C hs → file_ok sb C x → free_map sb C → (0 < length (frees sb C))%nat → room size 2 hs →
  0 ≤ j ≤ 12 → slot C x j = 0 →
  ∃ a s' C' x' hs', addr_or_alloc ip (Z.to_nat j) e (on k s) = Ret a e (on (at_ino ip x' k) s') ∧
    tx s' [] C' hs' ∧ grown sb C x C' x' ∧
    (∀ j', 0 ≤ j' < NSLOT → slot C' x' j' = if decide (j' = j) then a else slot C x j') ∧ a ≠ 0 ∧
    (length hs' ≤ 2 + length hs)%nat ∧ fewer sb 1 C C'.
Proof.
  intros Hout H Hok Hfm Hfrees Hroom Hj Hempty.
  destruct Hsolo as [(i & c & Hset & Hfree & Hproc) Hlog Hsb].
  destruct (frees_some sb C Hfrees) as (f0 & Hf0 & Hu0).
  destruct (first_free_exists sb C f0 Hf0 Hu0) as (f & Hff). pose proof Hff as (Hf & Hu & _).
  destruct (fm_free _ _ Hfm f Hf Hu) as [HCf Hnm].
  assert (f ≠ 0) as Hf00 by (intros ->; by rewrite (fm_boot _ _ Hfm) in Hu).
  destruct (balloc_ok k i c p pid Hset Hfree Hproc Hlog start size out Hout sb Hsb s [] C hs f e H) as
    (s1 & E1 & H1 & _); [apply Hfm|done|done|by intros ? ?%elem_of_nil|done|].
  destruct (grown_direct sb C f Hfm Hf Hu x Hok j Hf00 Hj Hempty) as [Hg Hs].
  eexists f, s1, _, _, _. split_and!; [|exact H1|exact Hg|exact Hs|done|..].
  - unfold addr_or_alloc. mgo (by apply inode_get_on). unfold id.
    pose proof (fo_len _ _ _ Hok) as Hlen. unfold NDIRECT in Hlen.
    destruct (lookup_lt_is_Some_2 (i_addrs x) (Z.to_nat j)) as [a Ea]; [lia|].
    assert (a = 0) as ->.
    { unfold slot, addr_at in Hempty. replace (j <=? 12) with true in Hempty by lia. by rewrite Ea in Hempty. }
    rewrite Ea, bind_deref. cbn [Z.eqb negb]. rewrite (fo_dev _ _ _ Hok). mgo (exact E1).
    by mgo (by apply inode_upd_on).
  - pose proof (note_length (BBLOCK f sb) hs). pose proof (note_length f (note (BBLOCK f sb) hs)). lia.
  - apply (fewer_alloc sb C _ f); [apply Hfm|done..].
Qed.

(** The part of [bmap] behind the address of the indirect block. *)
#[local] Abbreviation bmap_entry bn ind := (
  dev ← inode_get ip i_dev;
  bp ← bread dev ind;
  d ← buf_get bp b_data;
  addr ← (if get32 d (4 * bn) =? 0
          then
            addr ← balloc dev;
            buf_upd bp (λ x, x <| b_data ::= λ d, put32 d (4 * bn) addr |>);;
            log_write bp;;
            mret addr
          else mret (get32 d (4 * bn)));
  brelse bp;;
  mret addr).

Lemma entry_alloc s C hs bn e :
  1 ≤ out → sb_size sb ≤ 2 ^ 32 → tx s [] C hs → file_ok sb C x → free_map sb C →
  (0 < length (frees sb C))%nat → room size 4 hs → 0 ≤ bn < NINDIRECT →
  slot C x 12 ≠ 0 → slot C x (bn + 13) = 0 →
  ∃ a s' C' hs', bmap_entry bn (slot C x 12) e (on k s) = Ret a e (on k s') ∧
    tx s' [] C' hs' ∧ grown sb C x C' x ∧ slot C' x (bn + 13) = a ∧ a ≠ 0 ∧
    (length hs' ≤ 3 + length hs)%nat ∧ fewer sb 1 C C'.
Proof.
  intros Hout Hsz H Hok Hfm Hfrees Hroom Hbn H12 Hempty.
  destruct Hsolo as [(i & c & Hset & Hfree & Hproc) Hlog Hsb].
  destruct (frees_some sb C Hfrees) as (f0 & Hf0 & Hu0).
  destruct (first_free_exists sb C f0 Hf0 Hu0) as (f & Hff). pose proof Hff as (Hf & Hu & _).
  destruct (fm_free _ _ Hfm f Hf Hu) as [HCf Hnm].
  assert (f ≠ 0) as Hf00 by (intros ->; by rewrite (fm_boot _ _ Hfm) in Hu).
  pose proof (fo_good _ _ _ Hok 12 ltac:(by split) H12) as Hg12.
  set (ind := slot C x 12) in *. destruct (gd_data _ _ _ Hg12) as (d & Hd & _).
  assert (Hslot : slot C x (bn + 13) = get32 d (4 * bn)).
  { unfold slot. replace (bn + 13 <=? 12) with false by lia. change (addr_at x 12) with ind.
    replace (ind =? 0) with false by lia. rewrite Hd. do 2 f_equal. lia. }
  destruct (good_keeps sb C f Hfm Hf Hu ind Hg12) as (Eind & Hneind & _).
  destruct (read_block k i c p pid Hset Hfree Hproc start size out s [] C hs ind d e H Hd) as
    (bp & s1 & E1 & Hbp & H1 & Hh1 & _); [eapply room_less; [done|cbn; lia]|by intros ? ? ?%elem_of_nil|].
  assert (Hhold : holding s1 [bp] (λ m, m ≠ f ∧ ¬ map_block sb m)).
  { intros b ->%list_elem_of_singleton. exists ind, d. split; [done|]. split; [done|apply Hg12]. }
  destruct (balloc_ok k i c p pid Hset Hfree Hproc Hlog start size out Hout sb Hsb s1 [bp] C hs f e H1) as
    (s2 & E2 & H2 & K2); [apply Hfm|done|done|done|eapply room_less; [done|cbn; lia]|].
  assert (Hh2 : holds_block s2 bp ind d) by (by apply K2; [left|]).
  destruct (log_block k i c p pid Hset Hfree Hproc Hlog start size out Hout s2 bp [] _ _ ind d
    (λ d, put32 d (4 * bn) f) e H2 Hh2) as (s3 & E3 & H3 & Hh3 & _).
  { rewrite Eind, Hd. by eexists. }
  { apply room_note, room_note. eapply room_less; [done|lia]. }
  { done. }
  destruct (drop_block k i c p pid Hset Hfree Hproc start size out s3 bp [] _ _ ind _ e H3 Hbp Hh3) as
    (s4 & E4 & H4 & _); [apply lookup_insert_eq|].
  destruct (grown_indirect sb C f Hfm Hf Hu x Hok (bn + 13) d Hf00) as [Hg Hs];
    [change NSLOT with 141; change NINDIRECT with 128 in Hbn; lia|done|unfold is_u32; lia|done|done|].
  replace (4 * (bn + 13 - 13)) with (4 * bn) in * by lia.
  eexists f, s4, _, _. split_and!; [|exact H4|exact Hg|exact Hs|done|..].
  - mgo (by apply inode_get_on). rewrite (fo_dev _ _ _ Hok). mgo (exact E1).
    mgo (eapply get_data_ok; [exact H1|by left|exact Hh1]). rewrite <- Hslot, Hempty. cbn [Z.eqb].
    rewrite bind_assoc. mgo (exact E2). rewrite bind_assoc3', bind_assoc. mgo (exact E3). rewrite bind_ret_l.
    by mgo (exact E4).
  - pose proof (note_length (BBLOCK f sb) hs). pose proof (note_length f (note (BBLOCK f sb) hs)).
    pose proof (note_length ind (note f (note (BBLOCK f sb) hs))). lia.
  - apply (fewer_alloc sb C _ f); [apply Hfm|done..|]. intros n Hn. apply used_other; [apply Hg12|done].
Qed.
End run.

(** [bmap] on a file that may lack the block. *)
Lemma bmap_ok k p pid sb start size out ip x s C hs bn e :
  solo k p sb → 1 ≤ out → sb_size sb ≤ 2 ^ 32 → k_inode k !! ip = Some x →
  tx p pid start size out s [] C hs → file_ok sb C x → free_map sb C →
  (1 < length (frees sb C))%nat → room size 6 hs → 0 ≤ bn < MAXFILE →
  ∃ a s' C' x' hs', bmap (H := Memide.disk) ip bn e (on k s) = Ret a e (on (at_ino ip x' k) s') ∧
    tx p pid start size out s' [] C' hs' ∧ grown sb C x C' x' ∧ slot C' x' (dslot bn) = a ∧ a ≠ 0 ∧
    (length hs' ≤ 5 + length hs)%nat ∧ fewer sb 2 C C'.
Proof.
  intros Hsolo Hout Hsz Hx H Hok Hfm Hfrees Hroom Hbn. destruct (dslot_range bn Hbn) as [Hds _].
  destruct (decide (slot C x (dslot bn) = 0)) as [Hempty|Hne].
  2: { destruct (bmap_mapped k p pid sb Hsolo start size out ip x Hx s C hs bn e H Hok Hbn Hne) as
         (s' & E & H'); [eapply room_less; [done|lia]|].
       exists (slot C x (dslot bn)), s', C, x, hs. rewrite (at_ino_id _ _ _ Hx).
       split_and!; [done|done|by apply grown_refl|done|done|lia|unfold fewer; lia]. }
  unfold bmap. unfold dslot in *. change (Z.of_nat NDIRECT) with 12. destruct (Z.ltb_spec bn 12) as [Hd|Hd].
  { destruct (addr_alloc k p pid sb Hsolo start size out ip x Hx s C hs bn e Hout H Hok Hfm) as
      (a & s' & C' & x' & hs' & E & H' & Hg & Hs & Ha & Hl & Hfw);
      [lia|eapply room_less; [done|lia]|lia|done|].
    exists a, s', C', x', hs'. split_and!; [done..|by rewrite Hs, decide_True|done|lia|].
    eapply fewer_weaken; [exact Hfw|lia]. }
  replace (bn - 12 <? NINDIRECT) with true by (unfold MAXFILE, NDIRECT in *; lia).
  replace (bn + 1) with (bn - 12 + 13) in * by lia.
  assert (Hbn' : 0 ≤ bn - 12 < NINDIRECT) by (unfold MAXFILE, NDIRECT in *; lia).
  change NDIRECT with (Z.to_nat 12). destruct (decide (slot C x 12 = 0)) as [H12|H12].
  - destruct (addr_alloc k p pid sb Hsolo start size out ip x Hx s C hs 12 e Hout H Hok Hfm) as
      (a & s1 & C1 & x1 & hs1 & E1 & H1 & Hg1 & Hs1 & Ha1 & Hl1 & Hfw1);
      [lia|eapply room_less; [done|lia]|lia|done|].
    pose proof (at_ino_lookup ip x x1 k Hx) as Hx1.
    pose proof (Hs1 12 ltac:(by split)) as Hs12. rewrite decide_True in Hs12 by done.
    destruct (entry_alloc _ p pid sb (solo_ino k p sb ip x1 Hsolo) start size out ip x1 Hx1 s1 C1 hs1 (bn - 12) e
      Hout Hsz H1 (gr_ok _ _ _ _ _ Hg1) (gr_map _ _ _ _ _ Hg1)) as
      (a' & s2 & C2 & hs2 & E2 & H2 & Hg2 & Hs2 & Ha2 & Hl2 & Hfw2).
    { unfold fewer in Hfw1. lia. }
    { unfold room in *. lia. }
    { done. }
    { by rewrite Hs12. }
    { rewrite Hs1, decide_False by (done || lia). done. }
    exists a', s2, C2, x1, hs2. split_and!; [|done|by eapply grown_trans|done|done|lia|].
    + rewrite Hs12 in E2. mgo (exact E1). exact E2.
    + exact (fewer_trans sb 1 1 _ _ _ Hfw1 Hfw2).
  - destruct (entry_alloc k p pid sb Hsolo start size out ip x Hx s C hs (bn - 12) e Hout Hsz H Hok Hfm) as
      (a' & s2 & C2 & hs2 & E2 & H2 & Hg2 & Hs2 & Ha2 & Hl2 & Hfw2);
      [lia|eapply room_less; [done|lia]|done|done|done|].
    exists a', s2, C2, x, hs2. rewrite (at_ino_id _ _ _ Hx).
    split_and!; [|done|done|done|done|lia|eapply fewer_weaken; [exact Hfw2|lia]].
    mgo (eapply addr_mapped; [exact Hx|apply Hok|lia|exact H12]). exact E2.
Qed.
