(* ===== verification/Console.v ===== *)
(** * Console input and the console device (the input half of console.c, and
    procdump of proc.c)

    The interrupt handler [consoleintr] edits a line in the ring [input] and
    hands it over at a newline; [consoleread] takes bytes out of the lines
    handed over. *)

From S2P Require Import Prelude State Spinlock Mem Kalloc Consout Sched Sleep Sleeplock.
From S2P Require Import Vm Pipe Bio Log Inode.

(** [src/xv6-public/console.c:181] *)
Definition INPUT_BUF : Z := 128.
(** [src/xv6-public/console.c:189] *)
Definition C (x : Z) : Z := x - 64.

Definition input_upd (f : input_t → input_t) : KM unit := modify (λ k, k <| k_input ::= f |>).

(** [input.buf[i % INPUT_BUF]] *)
Definition in_at (x : input_t) (i : Z) : Z :=
  default 0 (in_buf x !! Z.to_nat (i mod INPUT_BUF)).

(** [src/xv6-public/proc.c:564-566] *)
Definition state_name (s : procstate) : string :=
  match s with
  | UNUSED => "unused" | EMBRYO => "embryo" | SLEEPING => "sleep "
  | RUNNABLE => "runble" | RUNNING => "run   " | ZOMBIE => "zombie"
  end.

Fixpoint print_pcs (pcs : list Z) : KM unit :=
  match pcs with
  | [] => mret tt
  | pc :: pcs => if pc =? 0 then mret tt else cprintf " %p" [AInt pc];; print_pcs pcs
  end.

(** The bytes of a buffer before its first NUL. *)
Fixpoint c_str (l : list Z) : list Z :=
  match l with [] => [] | c :: l => if c =? 0 then [] else c :: c_str l end.

Fixpoint procdump_loop (ps : list nat) : KM unit :=
  match ps with
  | [] => mret tt
  | p :: ps =>
    q ← proc_get p id;
    if bool_decide (p_state q = UNUSED) then procdump_loop ps else
    cprintf "%d %s %s" [AInt (p_pid q); AStr (Some (codes (state_name (p_state q))));
                        AStr (Some (c_str (p_name q)))];;
    (if bool_decide (p_state q = SLEEPING) then
       k ← mget;
       print_pcs (getcallerpcs (kld32 k) (kld32 k (p_context q + 12) + 8))
     else mret tt);;
    cprintf "
" [];;
    procdump_loop ps
  end.

(** [src/xv6-public/proc.c:563-587] *)
Definition procdump : KM unit := procdump_loop (seq 0 NPROC).

(** ** The line editor *)

(** [src/xv6-public/console.c:204-208] erase back to the end of the previous line;
    the ring holds no more than [INPUT_BUF] characters *)
Fixpoint kill_line (fuel : nat) : KM unit :=
  match fuel with
  | O => λ _ k, NoFuel k
  | S fuel =>
    x ← gets k_input;
    if negb (in_e x =? in_w x) && negb (in_at x (wrap32 (in_e x - 1)) =? 10) then
      input_upd (λ x, x <| in_e ::= λ e, wrap32 (e - 1) |>);;
      consputc BACKSPACE;;
      kill_line fuel
    else mret tt
  end.

(** [src/xv6-public/console.c:198-227] one character; tells whether a process
    listing was asked for *)
Definition console_char (c : Z) : KM bool :=
  if c =? C 80 then mret true else
  if c =? C 85 then kill_line (S (Z.to_nat INPUT_BUF));; mret false else
  if (c =? C 72) || (c =? 127) then
    x ← gets k_input;
    (if negb (in_e x =? in_w x) then
       input_upd (λ x, x <| in_e ::= λ e, wrap32 (e - 1) |>);;
       consputc BACKSPACE
     else mret tt);;
    mret false
  else
    x ← gets k_input;
    if negb (c =? 0) && (wrap32 (in_e x - in_r x) <? INPUT_BUF) then
      let c := if c =? 13 then 10 else c in
      input_upd (λ x, x <| in_buf ::= <[Z.to_nat (in_e x mod INPUT_BUF) := c]> |>);;
      input_upd (λ x, x <| in_e ::= λ e, wrap32 (e + 1) |>);;
      consputc c;;
      x ← gets k_input;
      (if (c =? 10) || (c =? C 68) || (in_e x =? wrap32 (in_r x + INPUT_BUF)) then
         input_upd (λ x, x <| in_w := in_e x |>);;
         wakeup ChInput
       else mret tt);;
      mret false
    else mret false.

Fixpoint console_chars (cs : list Z) (doprocdump : bool) : KM bool :=
  match cs with
  | [] => mret doprocdump
  | c :: cs =>
    if c <? 0 then mret doprocdump else
    d ← console_char c;
    console_chars cs (doprocdump || d)
  end.

(** [src/xv6-public/console.c:191-233] [cs] are the characters that [getc] gives
    before it returns -1 *)
Definition consoleintr (cs : list Z) : KM unit :=
  acquire LkCons;;
  doprocdump ← console_chars cs false;
  release LkCons;;
  when doprocdump procdump.

(** ** The device *)

Section device.
Context `{Disk}.

(** What [consoleread] does after it took a byte. *)
Inductive got := Killed | Stop | Byte (c : Z) (last : bool).

(** [src/xv6-public/console.c:245-261] wait for a byte and take it; [fresh] says
    that nothing has been read yet *)
Definition console_byte (ip : nat) (fresh : bool) : KM got :=
  mrepeat (
    x ← gets k_input;
    if in_r x =? in_w x then
      killed ← my_killed;
      if killed : bool then
        release LkCons;;
        ilock (Some ip);;
        mret (inr Killed)
      else sleep ChInput LkCons;; mret (inl tt)
    else
      let c := in_at x (in_r x) in
      input_upd (λ x, x <| in_r ::= λ r, wrap32 (r + 1) |>);;
      if c =? C 68 then
        when (negb fresh) (input_upd (λ x, x <| in_r ::= λ r, wrap32 (r - 1) |>));;
        mret (inr Stop)
      else mret (inr (Byte c (c =? 10)))).

(** The loop of [consoleread]: [togo] bytes to go, [done] already copied; [None]
    when the process was killed. *)
Fixpoint consoleread_loop (ip : nat) (put : Z → list Z → KM unit) (togo : nat)
    (done : Z) : KM (option Z) :=
  match togo with
  | O => mret (Some done)
  | S togo =>
    r ← console_byte ip (done =? 0);
    match r with
    | Killed => mret None
    | Stop => mret (Some done)
    | Byte c last =>
      put done [c];;
      if last : bool then mret (Some (done + 1))
      else consoleread_loop ip put togo (done + 1)
    end
  end.

(** [src/xv6-public/console.c:235-271] [put] copies bytes to an offset of [dst] *)
Definition consoleread (ip : nat) (put : Z → list Z → KM unit) (n : Z) : KM Z :=
  iunlock (Some ip);;
  acquire LkCons;;
  r ← consoleread_loop ip put (Z.to_nat n) 0;
  match r with
  | None => mret (-1)
  | Some r =>
    release LkCons;;
    ilock (Some ip);;
    mret r
  end.

(** [src/xv6-public/console.c:273-286] [get] fetches bytes from an offset of [buf] *)
Fixpoint consolewrite_loop (get : Z → nat → KM (list Z)) (i : Z) (n : nat) : KM unit :=
  match n with
  | O => mret tt
  | S n =>
    bs ← get i 1%nat;
    consputc (Z.land (default 0 (bs !! 0%nat)) 0xff);;
    consolewrite_loop get (i + 1) n
  end.
Definition consolewrite (ip : nat) (get : Z → nat → KM (list Z)) (n : Z) : KM Z :=
  iunlock (Some ip);;
  acquire LkCons;;
  consolewrite_loop get 0 (Z.to_nat n);;
  release LkCons;;
  ilock (Some ip);;
  mret n.

End device.

(** [src/xv6-public/console.c:288-298] the table [devsw] is the class below; the
    interrupt controller is not modelled *)
Definition consoleinit : KM unit :=
  initlock LkCons;;
  modify (λ k, k <| k_cons_locking := true |>).

(** [src/xv6-public/file.h:30-33] the device functions, by major number *)
Class Devsw := {
  dev_read : Z → option (nat → (Z → list Z → KM unit) → Z → KM Z);
  dev_write : Z → option (nat → (Z → nat → KM (list Z)) → Z → KM Z)
}.

(** [src/xv6-public/file.h:37] *)
Definition CONSOLE : Z := 1.

#[export] Instance console_devsw `{Disk} : Devsw := {
  dev_read major := if major =? CONSOLE then Some consoleread else None;
  dev_write major := if major =? CONSOLE then Some consolewrite else None
}.
