(* ===== verification/Kbd.v ===== *)
(** * The keyboard (kbd.c, kbd.h)

    [kbdgetc] turns the scan codes that the keyboard controller delivers into
    characters; between calls it keeps the modifier keys and locks in [shift].
    The function is given what its two [inb] return.  [kbdgetc_typed] says that
    its state stays a set of the seven flags and its result a character;
    [kbdgetc_letters] what typing a letter gives in every state. *)

From S2P Require Import Prelude State Consout Console.

(** [src/xv6-public/kbd.h:4] *)
Definition KBS_DIB : Z := 0x01.
(** [src/xv6-public/kbd.h:9] *)
Definition SHIFT : Z := 0x01.
(** [src/xv6-public/kbd.h:10] *)
Definition CTL : Z := 0x02.
(** [src/xv6-public/kbd.h:11] *)
Definition ALT : Z := 0x04.
(** [src/xv6-public/kbd.h:13] *)
Definition CAPSLOCK : Z := 0x08.
(** [src/xv6-public/kbd.h:14] *)
Definition NUMLOCK : Z := 0x10.
(** [src/xv6-public/kbd.h:15] *)
Definition SCROLLLOCK : Z := 0x20.
(** [src/xv6-public/kbd.h:17] *)
Definition E0ESC : Z := 0x40.

(** An array of 256 bytes, from its first elements and those given by index. *)
Definition table (l : list Z) (at_ : list (nat * Z)) : list Z :=
  foldl (λ t x, <[x.1 := x.2]> t) (l ++ replicate (256 - length l) 0) at_.

(** [src/xv6-public/kbd.h:34-42] *)
Definition shiftcode : list Z :=
  table [] [(0x1D%nat, CTL); (0x2A%nat, SHIFT); (0x36%nat, SHIFT); (0x38%nat, ALT); (0x9D%nat, CTL); (0xB8%nat, ALT)].

(** [src/xv6-public/kbd.h:44-49] *)
Definition togglecode : list Z :=
  table [] [(0x3A%nat, CAPSLOCK); (0x45%nat, NUMLOCK); (0x46%nat, SCROLLLOCK)].

(** [src/xv6-public/kbd.h:20-29] the special keys, and where all three maps have them *)
Definition special : list (nat * Z) :=
  [(0xC8%nat, 0xE2); (0xD0%nat, 0xE3); (0xC9%nat, 0xE6); (0xD1%nat, 0xE7); (0xCB%nat, 0xE4);
   (0xCD%nat, 0xE5); (0x97%nat, 0xE0); (0xCF%nat, 0xE1); (0xD2%nat, 0xE8); (0xD3%nat, 0xE9)].

(** The keypad, on the codes from [0x47] on. *)
Definition keypad : list Z := codes "789-456+1230.".

(** [src/xv6-public/kbd.h:51-71] *)
Definition normalmap : list Z :=
  table ([0; 27] ++ codes "1234567890-=" ++ [8; 9] ++ codes "qwertyuiop[]" ++ [10; 0] ++
         codes "asdfghjkl;'`" ++ [0] ++ codes "\zxcvbnm,./" ++ [0] ++ codes "*" ++ [0] ++
         codes " " ++ replicate 13 0 ++ keypad)
        ([(0x9C%nat, 10); (0xB5%nat, 47)] ++ special).

(** [src/xv6-public/kbd.h:73-93] *)
Definition shiftmap : list Z :=
  table ([0; 27] ++ codes "!@#$%^&*()_+" ++ [8; 9] ++ codes "QWERTYUIOP{}" ++ [10; 0] ++
         codes "ASDFGHJKL:" ++ [34] ++ codes "~" ++ [0] ++ codes "|ZXCVBNM<>?" ++ [0] ++
         codes "*" ++ [0] ++ codes " " ++ replicate 13 0 ++ keypad)
        ([(0x9C%nat, 10); (0xB5%nat, 47)] ++ special).

(** [src/xv6-public/kbd.h:32] *)
Definition C (x : Z) : Z := x - 64.

(** [src/xv6-public/kbd.h:95-112] the elements are bytes: [C('/')] is [0xEF] *)
Definition ctlmap : list Z :=
  table (replicate 16 0 ++ (C <$> codes "QWERTYUIOP") ++ [0; 0; 13; 0] ++
         (C <$> codes "ASDFGHJKL") ++ replicate 4 0 ++ (C <$> codes "\ZXCVBNM") ++
         [0; 0; C 47 mod 256])
        ([(0x9C%nat, 13); (0xB5%nat, C 47 mod 256)] ++ special).

(** [src/xv6-public/kbd.c:10-12] *)
Definition charcode : list (list Z) := [normalmap; shiftmap; ctlmap; ctlmap].

(** [src/xv6-public/kbd.c:34-43] what is typed with the key [data], in the state [shift] *)
Definition typed (shift data : Z) : option Z :=
  map ← charcode !! Z.to_nat (Z.land shift (Z.lor CTL SHIFT));
  c ← map !! Z.to_nat data;
  Some (if truthy (Z.land shift CAPSLOCK) then
          if (97 <=? c) && (c <=? 122) then c + (65 - 97)
          else if (65 <=? c) && (c <=? 90) then c + (97 - 65) else c
        else c).

(** [src/xv6-public/kbd.c:6-44] the result and the new [shift], from what the status and the
    data port deliver; none if an index is out of range *)
Definition kbdgetc (shift st data : Z) : option (Z * Z) :=
  if Z.land st KBS_DIB =? 0 then Some (-1, shift) else
  if data =? 0xE0 then Some (0, Z.lor shift E0ESC) else
  if truthy (Z.land data 0x80) then
    let data := if truthy (Z.land shift E0ESC) then data else Z.land data 0x7F in
    code ← shiftcode !! Z.to_nat data;
    Some (0, Z.land shift (Z.lnot (Z.lor code E0ESC)))
  else
    let '(data, shift) :=
      if truthy (Z.land shift E0ESC) then (Z.lor data 0x80, Z.land shift (Z.lnot E0ESC)) else (data, shift) in
    code ← shiftcode !! Z.to_nat data;
    toggle ← togglecode !! Z.to_nat data;
    let shift := Z.lxor (Z.lor shift code) toggle in
    c ← typed shift data;
    Some (c, shift).

(** The characters until [kbdgetc] returns -1, and the new [shift]; [ports] is what the ports
    deliver at the successive calls. *)
Fixpoint kbd_drain (shift : Z) (ports : list (Z * Z)) : option (list Z * Z) :=
  match ports with
  | [] => Some ([], shift)
  | (st, data) :: ports =>
    '(c, shift) ← kbdgetc shift st data;
    if c <? 0 then Some ([], shift) else
    '(cs, shift) ← kbd_drain shift ports; Some (c :: cs, shift)
  end.

(** [src/xv6-public/kbd.c:46-50] *)
Definition kbdintr (shift : Z) (ports : list (Z * Z)) : KM Z :=
  '(cs, shift) ← deref (kbd_drain shift ports);
  consoleintr cs;;
  mret shift.

(** ** Properties *)

Definition flags : Z := 128.

(** What is checked of one call: it is defined, its state is a set of flags, its result is a byte. *)
Definition good (r : option (Z * Z)) : bool :=
  match r with
  | Some (c, shift) => (-1 <=? c) && (c <? 256) && (0 <=? shift) && (shift <? flags)
  | None => false
  end.

Lemma good_all shift data :
  0 ≤ shift < flags → 0 ≤ data < 256 → good (kbdgetc shift KBS_DIB data) = true.
Proof.
  intros Hs Hd. revert data Hd. apply (range_forallb 256). revert shift Hs.
  apply (range_forallb flags). vm_compute. reflexivity.
Qed.

(** C40 The keyboard's state is a set of the seven flags.  Whatever the two ports deliver, no table of
    [kbdgetc] is indexed out of range, [shift] stays a combination of the flags of kbd.h, and the
    result is -1, for no data, or a character. *)
Theorem kbdgetc_typed shift st data :
  0 ≤ shift < 128 → 0 ≤ data < 256 →
  ∃ c shift', kbdgetc shift st data = Some (c, shift') ∧ -1 ≤ c < 256 ∧ 0 ≤ shift' < 128.
Proof.
  intros Hs Hd. destruct (Z.land st KBS_DIB =? 0) eqn:E.
  - exists (-1), shift. unfold kbdgetc. rewrite E. split_and!; (done || lia).
  - pose proof (good_all shift data Hs Hd) as Hg.
    assert (kbdgetc shift st data = kbdgetc shift KBS_DIB data) as -> by (unfold kbdgetc; by rewrite E).
    destruct (kbdgetc shift KBS_DIB data) as [[c shift']|]; [|done]. exists c, shift'. unfold good, flags in Hg.
    split; [done|]. lia.
Qed.

Lemma kbdgetc_typed_witness :
  ∃ c shift', kbdgetc SHIFT KBS_DIB 0x1E = Some (c, shift') ∧ -1 ≤ c < 256 ∧ 0 ≤ shift' < 128.
Proof. apply (kbdgetc_typed SHIFT KBS_DIB 0x1E); unfold SHIFT; lia. Defined.

(** The scan code of the [i]th letter. *)
Definition letter_key (i : Z) : Z :=
  match list_find (.= 97 + i) normalmap with Some (n, _) => Z.of_nat n | None => 0 end.

(** The character for it in the state [shift]. *)
Definition letter (shift i : Z) : Z :=
  if truthy (Z.land shift CTL) then i + 1
  else if xorb (truthy (Z.land shift SHIFT)) (truthy (Z.land shift CAPSLOCK)) then 65 + i else 97 + i.

(** Typing letters.  The key of the [i]th letter gives a control character while the control key is
    down, and otherwise the capital exactly if one of shift and caps lock is on; the state does
    not change, and releasing the key gives nothing and changes nothing. *)
Theorem kbdgetc_letters shift i :
  0 ≤ shift < E0ESC → 0 ≤ i < 26 →
  kbdgetc shift KBS_DIB (letter_key i) = Some (letter shift i, shift) ∧
  kbdgetc shift KBS_DIB (letter_key i + 128) = Some (0, shift).
Proof.
  intros Hs Hi.
  set (P := λ shift i, bool_decide (kbdgetc shift KBS_DIB (letter_key i) = Some (letter shift i, shift) ∧
    kbdgetc shift KBS_DIB (letter_key i + 128) = Some (0, shift))).
  assert (P shift i = true) as HP; [|by apply bool_decide_eq_true in HP].
  revert i Hi. apply (range_forallb 26). revert shift Hs. apply (range_forallb E0ESC).
  vm_compute. reflexivity.
Qed.

Lemma kbdgetc_letters_witness :
  kbdgetc CAPSLOCK KBS_DIB (letter_key 0) = Some (65, CAPSLOCK) ∧
  kbdgetc CAPSLOCK KBS_DIB (letter_key 0 + 128) = Some (0, CAPSLOCK).
Proof. apply (kbdgetc_letters CAPSLOCK 0); unfold CAPSLOCK, E0ESC; lia. Defined.
