(* ===== verification/Fs.v ===== *)
(** * Files and directories (the upper layers of fs.c)

    Reading and writing the contents of an inode, directories as files of
    fixed-size entries, and path names.  A path is the list of its bytes
    before the NUL: it lies in the memory of the calling process, which does
    not change while the kernel works on it. *)

From S2P Require Import Prelude State Spinlock Consout Sched Sleep Sleeplock Vm Bio Log.
From S2P Require Import Inode Console.

(** [src/xv6-public/fs.h:51] *)
Definition DIRSIZ : nat := 14%nat.

Definition ust16 (va v : Z) : KM unit := ust8 va v;; ust8 (va + 1) (v / 256).

(** [src/xv6-public/fs.c:439-447] to the user address [st] of a [struct stat] *)
Definition stati (ip : nat) (st : Z) : KM unit :=
  x ← inode_get ip id;
  ust32 (st + 4) (i_dev x);;
  ust32 (st + 8) (i_inum x);;
  ust16 st (i_type x);;
  ust16 (st + 12) (i_nlink x);;
  ust32 (st + 16) (i_size x).

Section fs.
Context `{Disk} `{Devsw}.

(** The loop of [readi]; [put] copies bytes to an offset of [dst].  Returns the
    bytes read. *)
Fixpoint readi_loop (fuel : nat) (ip : nat) (put : Z → list Z → KM unit)
    (tot off n : Z) : KM (list Z) :=
  match fuel with
  | O => λ _ k, NoFuel k
  | S fuel =>
    if negb (tot <? n) then mret [] else
    dev ← inode_get ip i_dev;
    addr ← bmap ip (off / BSIZE);
    bp ← bread dev addr;
    d ← buf_get bp b_data;
    let m := Z.min (n - tot) (BSIZE - off mod BSIZE) in
    let bs := slice d (off mod BSIZE) m in
    put tot bs;;
    brelse bp;;
    rest ← readi_loop fuel ip put (tot + m) (off + m) n;
    mret (bs ++ rest)
  end.

(** The turns of the copy loops for [n] bytes: the first may be short, the
    others are whole blocks. *)
Definition blocks_fuel (n : Z) : nat := S (S (S (Z.to_nat (n / BSIZE)))).

(** [src/xv6-public/fs.c:452-476] the count and the bytes *)
Definition readi (ip : nat) (put : Z → list Z → KM unit) (off n : Z) : KM (Z * list Z) :=
  x ← inode_get ip id;
  if i_type x =? T_DEV then
    if (i_major x <? 0) || (i_major x >=? NDEV) then mret (-1, []) else
    match dev_read (i_major x) with
    | None => mret (-1, [])
    | Some read => r ← read ip put (sint32 n); mret (r, [])
    end
  else
  if (off >? i_size x) || (wrap32 (off + n) <? off) then mret (-1, []) else
  let n := if wrap32 (off + n) >? i_size x then wrap32 (i_size x - off) else n in
  bs ← readi_loop (blocks_fuel n) ip put 0 off n;
  mret (n, bs).

(** The loop of [writei]; [get] fetches bytes from an offset of [src].  Returns
    the offset reached. *)
Fixpoint writei_loop (fuel : nat) (ip : nat) (get : Z → nat → KM (list Z))
    (tot off n : Z) : KM Z :=
  match fuel with
  | O => λ _ k, NoFuel k
  | S fuel =>
    if negb (tot <? n) then mret off else
    dev ← inode_get ip i_dev;
    addr ← bmap ip (off / BSIZE);
    bp ← bread dev addr;
    let m := Z.min (n - tot) (BSIZE - off mod BSIZE) in
    bs ← get tot (Z.to_nat m);
    buf_upd bp (λ x, x <| b_data ::= λ d, splice d (off mod BSIZE) bs |>);;
    log_write bp;;
    brelse bp;;
    writei_loop fuel ip get (tot + m) (off + m) n
  end.

(** [src/xv6-public/fs.c:481-511] *)
Definition writei (ip : nat) (get : Z → nat → KM (list Z)) (off n : Z) : KM Z :=
  x ← inode_get ip id;
  if i_type x =? T_DEV then
    if (i_major x <? 0) || (i_major x >=? NDEV) then mret (-1) else
    match dev_write (i_major x) with
    | None => mret (-1)
    | Some write => write ip get (sint32 n)
    end
  else
  if (off >? i_size x) || (wrap32 (off + n) <? off) then mret (-1) else
  if wrap32 (off + n) >? MAXFILE * BSIZE then mret (-1) else
  off ← writei_loop (blocks_fuel n) ip get 0 off n;
  size ← inode_get ip i_size;
  (if (n >? 0) && (off >? size) then
     inode_upd ip (λ x, x <| i_size := off |>);;
     iupdate ip
   else mret tt);;
  mret n.

(** Buffers of the kernel's own: nothing to copy out, bytes to copy in. *)
Definition nowhere (_ : Z) (_ : list Z) : KM unit := mret tt.
Definition local (bs : list Z) (o : Z) (n : nat) : KM (list Z) :=
  mret (take n (drop (Z.to_nat o) bs)).
(** Buffers of the user. *)
Definition to_user (va o : Z) (bs : list Z) : KM unit := uwrite (va + o) bs.
Definition from_user (va o : Z) (n : nat) : KM (list Z) := uread (va + o) n.

(** ** Directories *)

Fixpoint namecmp_n (s t : list Z) (n : nat) : Z :=
  match n with
  | O => 0
  | S n =>
    let a := default 0 (s !! 0%nat) in
    let b := default 0 (t !! 0%nat) in
    if truthy a && (a =? b) then namecmp_n (tail s) (tail t) n else a - b
  end.

(** [src/xv6-public/fs.c:516-520] *)
Definition namecmp (s t : list Z) : Z := namecmp_n s t DIRSIZ.

(** [src/xv6-public/fs.h:53-56] the entry with number [inum] and name [name] *)
Definition dirent (inum : Z) (name : list Z) : list Z :=
  [inum mod 256; inum / 256 mod 256] ++ take DIRSIZ (name ++ replicate DIRSIZ 0).
Definition de_inum (d : list Z) : Z := get16 d 0.
Definition de_name (d : list Z) : list Z := drop 2 d.

(** [src/xv6-public/fs.c:533-545] *)
Fixpoint dirlookup_loop (fuel : nat) (dp : nat) (name : list Z) (off : Z) :
    KM (option (nat * Z)) :=
  match fuel with
  | O => λ _ k, NoFuel k
  | S fuel =>
    size ← inode_get dp i_size;
    if negb (off <? size) then mret None else
    r ← readi dp nowhere off 16;
    if negb (fst r =? 16) then mpanic "dirlookup read" else
    let de := snd r in
    if negb (de_inum de =? 0) && (namecmp name (de_name de) =? 0) then
      dev ← inode_get dp i_dev;
      ip ← iget dev (de_inum de);
      mret (Some (ip, off))
    else dirlookup_loop fuel dp name (off + 16)
  end.

(** The turns of a loop over the entries of a directory. *)
Definition entries_fuel (size : Z) : nat := S (S (Z.to_nat (size / 16))).

(** [src/xv6-public/fs.c:524-548] *)
Definition dirlookup (dp : nat) (name : list Z) : KM (option (nat * Z)) :=
  x ← inode_get dp id;
  if negb (i_type x =? T_DIR) then mpanic "dirlookup not DIR" else
  dirlookup_loop (entries_fuel (i_size x)) dp name 0.

(** [src/xv6-public/fs.c:565-570] *)
Fixpoint empty_dirent (fuel : nat) (dp : nat) (off : Z) : KM Z :=
  match fuel with
  | O => λ _ k, NoFuel k
  | S fuel =>
    size ← inode_get dp i_size;
    if negb (off <? size) then mret off else
    r ← readi dp nowhere off 16;
    if negb (fst r =? 16) then mpanic "dirlink read" else
    if de_inum (snd r) =? 0 then mret off
    else empty_dirent fuel dp (off + 16)
  end.

(** [src/xv6-public/fs.c:551-578] *)
Definition dirlink (dp : nat) (name : list Z) (inum : Z) : KM Z :=
  ip ← dirlookup dp name;
  match ip with
  | Some (ip, _) => iput ip;; mret (-1)
  | None =>
    size ← inode_get dp i_size;
    off ← empty_dirent (entries_fuel size) dp 0;
    r ← writei dp (local (dirent inum name)) off 16;
    if negb (r =? 16) then mpanic "dirlink" else mret 0
  end.

End fs.

(** ** Paths *)

Fixpoint skip_slashes (path : list Z) : list Z :=
  match path with
  | c :: p => if c =? 47 then skip_slashes p else path
  | [] => []
  end.
Fixpoint element (path : list Z) : list Z * list Z :=
  match path with
  | c :: p => if c =? 47 then ([], path) else let '(s, r) := element p in (c :: s, r)
  | [] => ([], [])
  end.

(** [src/xv6-public/fs.c:595-618] the next element, cut to [DIRSIZ] bytes, and the
    rest of the path *)
Definition skipelem (path : list Z) : option (list Z * list Z) :=
  match skip_slashes path with
  | [] => None
  | path => let '(s, rest) := element path in Some (take DIRSIZ s, skip_slashes rest)
  end.

Section names.
Context `{Disk} `{Devsw}.

(** [src/xv6-public/fs.c:634-656] *)
Fixpoint namex_loop (fuel : nat) (ip : nat) (path : list Z) (nameiparent : bool)
    (name : list Z) : KM (option (nat * list Z)) :=
  match fuel with
  | O => λ _ k, NoFuel k
  | S fuel =>
    match skipelem path with
    | None =>
      if nameiparent then iput ip;; mret None else mret (Some (ip, name))
    | Some (name, path) =>
      ilock (Some ip);;
      type ← inode_get ip i_type;
      if negb (type =? T_DIR) then iunlockput ip;; mret None else
      if nameiparent && bool_decide (path = []) then
        iunlock (Some ip);;
        mret (Some (ip, name))
      else
      next ← dirlookup ip name;
      match next with
      | None => iunlockput ip;; mret None
      | Some (next, _) =>
        iunlockput ip;;
        namex_loop fuel next path nameiparent name
      end
    end
  end.

(** [src/xv6-public/fs.c:624-657] every turn takes an element off the path *)
Definition namex (path : list Z) (nameiparent : bool) : KM (option (nat * list Z)) :=
  ip ← (if default 0 (path !! 0%nat) =? 47 then iget ROOTDEV ROOTINO
        else
          p ← myproc; p ← deref p;
          cwd ← proc_get p p_cwd; cwd ← deref cwd;
          idup cwd);
  namex_loop (S (length path)) ip path nameiparent [].

(** [src/xv6-public/fs.c:659-664] *)
Definition namei (path : list Z) : KM (option nat) :=
  r ← namex path false; mret (fst <$> r).

(** [src/xv6-public/fs.c:666-670] the parent and the last element *)
Definition nameiparent (path : list Z) : KM (option (nat * list Z)) := namex path true.

End names.
