(* ===== verification/Rw.v ===== *)
(** * Reading and writing files, proved (readi, writei, iupdate of fs.c)

    Inside a transaction, by a process that nothing disturbs.  [writei] changes
    just the bytes of the file that it is told to, extends the file where they
    lie behind its end, and leaves every other block of the disk alone, but
    for the free map and the block of the inode; [readi] returns the bytes of
    the file.  [writei_readi] puts the two together; the inode that [iupdate]
    writes to the disk is the one that [ilock] reads ([dinode_load_store]). *)

From S2P Require Import Prelude State Spinlock Sched Sleep Sleeplock Bio Bytes Bcache Log Crash Txn Inode Alloc Bmap Console Fs.

Lemma length_splice d o bs :
  0 ≤ o → o + Z.of_nat (length bs) ≤ Z.of_nat (length d) → length (splice d o bs) = length d.
Proof. intros. unfold splice. rewrite !length_app, length_take, length_drop. lia. Qed.

Lemma get8_splice d o bs i :
  0 ≤ o → o + Z.of_nat (length bs) ≤ Z.of_nat (length d) → 0 ≤ i →
  get8 (splice d o bs) i =
    if decide (o ≤ i < o + Z.of_nat (length bs)) then default 0 (bs !! Z.to_nat (i - o)) else get8 d i.
Proof.
  intros Ho Hl Hi. unfold get8, splice. case_decide.
  - rewrite lookup_app_r by (rewrite length_take; lia). rewrite length_take.
    rewrite lookup_app_l by lia. do 2 f_equal. lia.
  - destruct (decide (i < o)).
    + rewrite lookup_app_l by (rewrite length_take; lia). by rewrite lookup_take_lt by lia.
    + rewrite lookup_app_r by (rewrite length_take; lia). rewrite length_take.
      rewrite lookup_app_r by lia. rewrite lookup_drop. do 2 f_equal. lia.
Qed.

Lemma filter_ext_in {A} (P Q : A → Prop) `{∀ x, Decision (P x), ∀ x, Decision (Q x)} (l : list A) :
  (∀ x, x ∈ l → P x ↔ Q x) → filter P l = filter Q l.
Proof.
  induction l as [|y l IH]; intros Hl; [done|]. rewrite !filter_cons.
  rewrite IH by (intros; apply Hl; by right). specialize (Hl y ltac:(by left)).
  repeat case_decide; tauto.
Qed.

(** ** Writing a block that is in use *)

Section put.
Context (sb : superblock) (C : disk) (x : inode) (Hok : file_ok sb C x) (Hfm : free_map sb C).
Context (n : Z) (d : list Z) (Hgood : good sb C n) (Hn12 : n ≠ slot C x 12) (Hlen : length d = Z.to_nat BSIZE).

#[local] Abbreviation C' := (<[n := d]> C).

Lemma put_slot j : 0 ≤ j < NSLOT → slot C' x j = slot C x j.
Proof.
  intros Hj. unfold slot. destruct (j <=? 12); [done|]. destruct (_ =? 0); [done|].
  by rewrite lookup_insert_ne.
Qed.

Lemma put_good m : good sb C m → good sb C' m.
Proof.
  intros [Hr Hu Hm Hd]. split; [done|by rewrite used_other by (done || apply Hgood)|done|].
  destruct (decide (m = n)) as [->|]; [rewrite lookup_insert_eq; eauto|by rewrite lookup_insert_ne].
Qed.

Lemma put_file_ok : file_ok sb C' x.
Proof.
  split; try apply Hok.
  - intros j Hj. rewrite put_slot by done. intros Hne. by apply put_good, (fo_good _ _ _ Hok).
  - intros j j' Hj Hj'. rewrite !put_slot by done. by apply (fo_inj _ _ _ Hok).
  - by apply put_good, Hok.
  - intros j Hj. rewrite put_slot by done. by apply (fo_ino_ne _ _ _ Hok).
Qed.

Lemma put_free_map : free_map sb C'.
Proof.
  pose proof Hfm as [Hm H0 Hb Hf]. assert (Hne : ∀ m, map_block sb m → n ≠ m).
  { intros m Hmb ->. by apply (gd_map _ _ _ Hgood). }
  split.
  - intros b Hb'. rewrite lookup_insert_ne; [by apply Hm|]. apply Hne. by exists b.
  - rewrite used_other; [done|apply Hgood|]. pose proof (gd_range _ _ _ Hgood). lia.
  - intros m d' Hmb. rewrite lookup_insert_ne by (by apply Hne). by apply Hb.
  - intros b Hb'. rewrite used_other by (done || apply Hgood). intros Hub.
    destruct (Hf b Hb' Hub) as [HC Hnm]. split; [|done]. apply lookup_insert_is_Some'. by right.
Qed.

Lemma put_frees : frees sb C' = frees sb C.
Proof.
  unfold frees. apply filter_ext_in. intros b Hb%elem_of_seqZ.
  rewrite used_other by (apply Hgood || lia). done.
Qed.

Lemma put_elsewhere m : elsewhere sb C x m → elsewhere sb C' x m.
Proof. intros [Hg Hm]. split; [by apply put_good|]. intros j Hj. rewrite put_slot by done. by apply Hm. Qed.

Lemma put_fbyte o : 0 ≤ o < MAXFILE * BSIZE →
  fbyte C' x o =
    let a := slot C x (dslot (o / BSIZE)) in
    if a =? 0 then 0 else if decide (a = n) then get8 d (o mod BSIZE) else fbyte C x o.
Proof.
  intros Ho. destruct (dslot_range (o / BSIZE) (block_range _ Ho)) as [Hj _].
  unfold fbyte. rewrite put_slot by done. cbv zeta. destruct (_ =? 0) eqn:E; [done|].
  case_decide as Ea; [by rewrite Ea, lookup_insert_eq|]. by rewrite lookup_insert_ne.
Qed.
End put.

(** ** Writing *)

(** [bs] has been written to the file at [off]. *)
Record written (sb : superblock) (off : Z) (bs : list Z) (C : disk) (x : inode) (C' : disk) (x' : inode) : Prop := {
  wr_ok : file_ok sb C' x';
  wr_map : free_map sb C';
  wr_inode : same_but_addrs x x';
  wr_byte : ∀ o, 0 ≤ o < MAXFILE * BSIZE → fbyte C' x' o =
    if decide (off ≤ o < off + Z.of_nat (length bs)) then default 0 (bs !! Z.to_nat (o - off)) else fbyte C x o;
  wr_slot : ∀ j, 0 ≤ j < NSLOT → slot C x j ≠ 0 → slot C' x' j = slot C x j;
  wr_mapped : ∀ o, off ≤ o < off + Z.of_nat (length bs) → slot C' x' (dslot (o / BSIZE)) ≠ 0;
  wr_frame : ∀ n, elsewhere sb C x n → C' !! n = C !! n ∧ elsewhere sb C' x' n }.

Lemma written_nil sb off C x : file_ok sb C x → free_map sb C → written sb off [] C x C x.
Proof.
  intros. split; try done.
  - unfold same_but_addrs. by destruct x.
  - intros o Ho. rewrite decide_False by (cbn; lia). done.
  - cbn. intros. lia.
Qed.

Lemma written_app sb off bs1 bs2 C1 x1 C2 x2 C3 x3 :
  0 ≤ off → off + Z.of_nat (length (bs1 ++ bs2)) ≤ MAXFILE * BSIZE →
  written sb off bs1 C1 x1 C2 x2 → written sb (off + Z.of_nat (length bs1)) bs2 C2 x2 C3 x3 →
  written sb off (bs1 ++ bs2) C1 x1 C3 x3.
Proof.
  intros Hoff Hmax H H'. rewrite length_app in Hmax. split; try apply H'.
  - unfold same_but_addrs. rewrite (wr_inode _ _ _ _ _ _ _ H'), (wr_inode _ _ _ _ _ _ _ H). reflexivity.
  - intros o Ho. rewrite (wr_byte _ _ _ _ _ _ _ H'), (wr_byte _ _ _ _ _ _ _ H), length_app by done.
    repeat case_decide; try lia; try done.
    + rewrite lookup_app_r by lia. do 2 f_equal. lia.
    + by rewrite lookup_app_l by lia.
  - intros j Hj Hne. rewrite (wr_slot _ _ _ _ _ _ _ H'); rewrite ?(wr_slot _ _ _ _ _ _ _ H); done.
  - intros o Ho. rewrite length_app in Ho.
    assert (Hd : 0 ≤ o / BSIZE < MAXFILE) by (apply block_range; lia).
    destruct (decide (o < off + Z.of_nat (length bs1))).
    + rewrite (wr_slot _ _ _ _ _ _ _ H'); [|by apply dslot_range|]; apply (wr_mapped _ _ _ _ _ _ _ H); lia.
    + apply (wr_mapped _ _ _ _ _ _ _ H'). lia.
  - intros n Hn. destruct (wr_frame _ _ _ _ _ _ _ H n Hn) as [E1 Hn']. rewrite <- E1.
    by apply (wr_frame _ _ _ _ _ _ _ H').
Qed.

(** One block of the file, mapped to [a], gets [chunk]. *)
Lemma written_block sb off chunk C0 x0 C x a d :
  0 ≤ off → let m := Z.of_nat (length chunk) in 0 < m → off mod BSIZE + m ≤ BSIZE →
  off / BSIZE < MAXFILE →
  grown sb C0 x0 C x → slot C x (dslot (off / BSIZE)) = a → a ≠ 0 → C !! a = Some d →
  written sb off chunk C0 x0 (<[a := splice d (off mod BSIZE) chunk]> C) x.
Proof.
  intros Hoff m Hm Hfit Hmax Hg Ha Hne Hd. pose proof (gr_ok _ _ _ _ _ Hg) as Hok.
  assert (Hbn : 0 ≤ off / BSIZE < MAXFILE) by (split; [apply Z.div_pos; unfold BSIZE; lia|done]).
  destruct (dslot_range _ Hbn) as [Hj Hj12]. set (j := dslot (off / BSIZE)) in *.
  pose proof (fo_good _ _ _ Hok j Hj ltac:(by rewrite Ha)) as Hgood. rewrite Ha in Hgood.
  destruct (gd_data _ _ _ Hgood) as (d' & Hd' & Hlen). rewrite Hd in Hd'. injection Hd' as <-.
  assert (H12 : a ≠ slot C x 12).
  { intros E. apply Hj12. apply (fo_inj _ _ _ Hok); [done|by split|congruence|congruence]. }
  assert (Hmod : 0 ≤ off mod BSIZE < BSIZE) by (by apply Z.mod_pos_bound).
  assert (Hlen' : Z.of_nat (length d) = BSIZE) by (rewrite Hlen; done).
  set (d2 := splice d (off mod BSIZE) chunk).
  assert (Hlen2 : length d2 = Z.to_nat BSIZE) by (unfold d2; rewrite length_splice by lia; done).
  assert (Hsame : ∀ o, off ≤ o < off + m → o / BSIZE = off / BSIZE ∧ o mod BSIZE = off mod BSIZE + (o - off)).
  { intros o Ho. assert (E : o = BSIZE * (off / BSIZE) + (off mod BSIZE + (o - off))).
    { pose proof (Z.div_mod off BSIZE ltac:(done)). lia. }
    split; symmetry.
    - apply (Z.div_unique_pos _ _ _ (off mod BSIZE + (o - off))); [lia|exact E].
    - apply (Z.mod_unique_pos _ _ (off / BSIZE)); [lia|exact E]. }
  split.
  - by apply put_file_ok.
  - eapply (put_free_map sb C x); [apply Hg|done..].
  - apply Hg.
  - intros o Ho. erewrite put_fbyte by done. cbv zeta.
    destruct (dslot_range _ (block_range _ Ho)) as [Hjo _].
    rewrite <- (gr_byte _ _ _ _ _ Hg o Ho).
    assert (Hiff : slot C x (dslot (o / BSIZE)) = a ↔ o / BSIZE = off / BSIZE).
    { split; [|intros ->; done]. intros E. assert (dslot (o / BSIZE) = j) as Ed.
      { apply (fo_inj _ _ _ Hok); [done..| |]; congruence. }
      unfold j, dslot in Ed. destruct (Z.ltb_spec (o / BSIZE) 12), (Z.ltb_spec (off / BSIZE) 12); lia. }
    destruct (slot C x (dslot (o / BSIZE)) =? 0) eqn:E0.
    + rewrite decide_False; [unfold fbyte; by rewrite E0|]. intros Hr%Hsame. apply Z.eqb_eq in E0.
      apply Hne. rewrite <- E0 at 1. symmetry. apply Hiff, Hr.
    + case_decide as Ea.
      * apply Hiff in Ea. unfold d2. rewrite get8_splice by (lia || (apply Z.mod_pos_bound; done)).
        fold m. case_decide as Hin.
        -- assert (off ≤ o < off + m) as Hr.
           { pose proof (Z.div_mod o BSIZE ltac:(done)). pose proof (Z.div_mod off BSIZE ltac:(done)). rewrite Ea in *. lia. }
           rewrite decide_True by done. do 3 f_equal. destruct (Hsame o Hr). lia.
        -- rewrite decide_False; [|intros Hr; destruct (Hsame o Hr); lia].
           unfold fbyte. rewrite E0. by rewrite Ea; fold j; rewrite Ha, Hd.
      * rewrite decide_False; [done|]. intros Hr%Hsame. apply Ea, Hiff. apply Hr.
  - intros j' Hj' Hne'. rewrite put_slot by done. by apply (gr_slot _ _ _ _ _ Hg).
  - intros o Ho. destruct (Hsame o Ho) as [-> _]. rewrite put_slot by done. fold j. by rewrite Ha.
  - intros n Hn. destruct (gr_frame _ _ _ _ _ Hg n Hn) as [E Hn']. split.
    + rewrite lookup_insert_ne; [done|]. intros ->. by destruct Hn' as [_ Hn'%(λ H, H j Hj)].
    + by apply put_elsewhere.
Qed.

(** The turn that starts at [off] with [r] bytes to go copies [chunk_len off r] of them. *)
Definition chunk_len (off r : Z) : Z := Z.min r (BSIZE - off mod BSIZE).

(** [m] more blocks are enough for [r] bytes from [off] on. *)
Definition spans (off r : Z) (m : nat) : Prop := 0 < r → off + r ≤ BSIZE * (off / BSIZE + Z.of_nat m).

Lemma chunk_bounds off r : 0 ≤ off → 0 < r → 0 < chunk_len off r ≤ r ∧ off mod BSIZE + chunk_len off r ≤ BSIZE.
Proof. intros. unfold chunk_len. pose proof (Z.mod_pos_bound off BSIZE ltac:(done)). lia. Qed.

Lemma spans_next off r m : 0 ≤ off → 0 < r → spans off r m →
  ∃ m', m = S m' ∧ spans (off + chunk_len off r) (r - chunk_len off r) m'.
Proof.
  intros Hoff Hr Hs. specialize (Hs Hr). pose proof (Z.mod_pos_bound off BSIZE ltac:(done)).
  pose proof (Z.div_mod off BSIZE ltac:(done)) as Hdm.
  destruct m as [|m]; [rewrite Z.add_0_r in Hs; lia|]. exists m. split; [done|]. intros Hr'.
  unfold chunk_len in *. rewrite Z.min_r in * by lia.
  replace (off + (BSIZE - off mod BSIZE)) with ((off / BSIZE + 1) * BSIZE) by lia.
  rewrite Z.div_mul by done. lia.
Qed.

Section rw.
Context (p : nat) (pid : Z) (sb : superblock) (start size out : Z) (Hout : 1 ≤ out) (Hsz : sb_size sb ≤ 2 ^ 32).
Context (ip : nat).

#[local] Abbreviation tx := (tx p pid start size out).
#[local] Existing Instance Memide.disk.

Lemma writei_loop_ok fuel m k x s C hs bs tot off n e :
  solo k p sb → k_inode k !! ip = Some x → tx s [] C hs → file_ok sb C x → free_map sb C →
  n = Z.of_nat (length bs) → 0 ≤ tot ≤ n → 0 ≤ off → off + (n - tot) ≤ MAXFILE * BSIZE →
  spans off (n - tot) m → (m < fuel)%nat →
  (2 * m ≤ length (frees sb C))%nat → room size (6 * Z.of_nat m + 1) hs →
  ∃ s' C' x' hs', writei_loop fuel ip (local bs) tot off n e (on k s) =
      Ret (off + (n - tot)) e (on (at_ino ip x' k) s') ∧
    tx s' [] C' hs' ∧ written sb off (drop (Z.to_nat tot) bs) C x C' x' ∧
    (length hs' ≤ 6 * m + length hs)%nat.
Proof.
  revert m k x s C hs tot off. induction fuel as [|fuel IH];
    intros m k x s C hs tot off Hsolo Hx H Hok Hfm Hn Htot Hoff Hmax Hsp Hf Hfr Hroom; [lia|].
  cbn [writei_loop]. destruct (Z.ltb_spec tot n) as [Hlt|Hge]; cbn [negb].
  2: { exists s, C, x, hs. rewrite (at_ino_id _ _ _ Hx). replace (n - tot) with 0 by lia. rewrite Z.add_0_r.
       split_and!; [done|done| |lia]. rewrite drop_ge by lia. by apply written_nil. }
  destruct (spans_next off (n - tot) m Hoff ltac:(lia) Hsp) as (m' & -> & Hsp').
  destruct (chunk_bounds off (n - tot) Hoff ltac:(lia)) as [Hc Hfit].
  assert (Hbn : 0 ≤ off / BSIZE < MAXFILE) by (apply block_range; lia).
  destruct (bmap_ok k p pid sb start size out ip x s C hs (off / BSIZE) e Hsolo Hout Hsz Hx H Hok Hfm) as
    (a & s1 & C1 & x1 & hs1 & E1 & H1 & Hg & Ha & Hne & Hl1 & Hfw);
    [lia|eapply room_less; [done|lia]|done|].
  pose proof (at_ino_lookup ip x x1 k Hx) as Hx1. pose proof (solo_ino k p sb ip x1 Hsolo) as Hsolo1.
  pose proof (gr_ok _ _ _ _ _ Hg) as Hok1.
  pose proof (fo_good _ _ _ Hok1 _ (proj1 (dslot_range _ Hbn)) ltac:(by rewrite Ha)) as Hgood. rewrite Ha in Hgood.
  destruct (gd_data _ _ _ Hgood) as (d & Hd & Hlend).
  pose proof Hsolo1 as [(i & c & Hset & Hfree & Hproc) Hlog Hsb].
  destruct (read_block _ i c p pid Hset Hfree Hproc start size out s1 [] C1 hs1 a d e H1 Hd) as
    (bp & s2 & E2 & Hbp & H2 & Hh2 & _); [unfold room in *; cbn; lia|by intros ? ? ?%elem_of_nil|].
  fold (chunk_len off (n - tot)). set (cl := chunk_len off (n - tot)) in *.
  set (chunk := take (Z.to_nat cl) (drop (Z.to_nat tot) bs)).
  assert (Hlc : Z.of_nat (length chunk) = cl) by (unfold chunk; rewrite length_take, length_drop; lia).
  destruct (write_block _ i c p pid Hset Hfree Hproc Hlog start size out Hout s2 bp [] C1 hs1 a d
    (λ d, splice d (off mod BSIZE) chunk) e H2 Hh2) as (s3 & E3 & H3 & _);
    [by eexists|unfold room in *; lia|done|].
  pose proof (written_block sb off chunk C x C1 x1 a d Hoff ltac:(lia) ltac:(lia) ltac:(lia) Hg Ha Hne Hd) as Hw.
  pose proof (note_length a hs1) as Hnl.
  destruct (IH m' (at_ino ip x1 k) x1 s3 _ _ (tot + cl) (off + cl) Hsolo1 Hx1 H3 (wr_ok _ _ _ _ _ _ _ Hw)
    (wr_map _ _ _ _ _ _ _ Hw) Hn) as (s4 & C4 & x4 & hs4 & E4 & H4 & Hw4 & Hl4); [lia..| |lia| | |].
  { by replace (n - (tot + cl)) with (n - tot - cl) by lia. }
  { rewrite put_frees; [unfold fewer in Hfw; lia|done|]. pose proof (Z.mod_pos_bound off BSIZE ltac:(done)).
    rewrite length_splice; [done|lia|]. rewrite Hlend. change (Z.of_nat (Z.to_nat BSIZE)) with BSIZE. lia. }
  { unfold room in *. lia. }
  exists s4, C4, x4, hs4. split_and!; [|done| |lia].
  - mgo (by apply inode_get_on). rewrite (fo_dev _ _ _ Hok). mgo (exact E1). mgo (exact E2).
    mgo (reflexivity). fold chunk. rewrite bind_assoc3. mgo (exact E3).
    rewrite at_ino_at_ino in E4. replace (off + cl + (n - (tot + cl))) with (off + (n - tot)) in E4 by lia. exact E4.
  - assert (Hsplit : drop (Z.to_nat tot) bs = chunk ++ drop (Z.to_nat (tot + cl)) bs).
    { unfold chunk. rewrite Z2Nat.inj_add, <- drop_drop by lia. by rewrite take_drop. }
    rewrite Hsplit. eapply written_app; [done|..|exact Hw|by rewrite Hlc].
    rewrite <- Hsplit, length_drop. lia.
Qed.

(** ** Reading *)

Lemma slice_bytes C x off m a d :
  0 ≤ off → 0 ≤ m → off mod BSIZE + m ≤ BSIZE → slot C x (dslot (off / BSIZE)) = a → a ≠ 0 →
  C !! a = Some d → length d = Z.to_nat BSIZE →
  slice d (off mod BSIZE) m = fbyte C x <$> seqZ off m.
Proof.
  intros Hoff Hm Hfit Ha Hne Hd Hlen. pose proof (Z.mod_pos_bound off BSIZE ltac:(done)) as Hmod.
  assert (Hlen' : Z.of_nat (length d) = BSIZE) by (rewrite Hlen; done).
  apply list_eq. intros i. unfold slice. rewrite list_lookup_fmap.
  destruct (decide (Z.of_nat i < m)) as [Hi|Hi].
  - rewrite lookup_take_lt, lookup_drop by lia. rewrite lookup_seqZ_lt by lia. cbn [fmap option_fmap option_map].
    assert (E : off + Z.of_nat i = BSIZE * (off / BSIZE) + (off mod BSIZE + Z.of_nat i)).
    { pose proof (Z.div_mod off BSIZE ltac:(done)). lia. }
    unfold fbyte.
    rewrite <- (Z.div_unique_pos (off + Z.of_nat i) BSIZE (off / BSIZE) (off mod BSIZE + Z.of_nat i)) by (lia || exact E).
    rewrite <- (Z.mod_unique_pos (off + Z.of_nat i) BSIZE (off / BSIZE) (off mod BSIZE + Z.of_nat i)) by (lia || exact E).
    rewrite Ha. replace (a =? 0) with false by lia. rewrite Hd. unfold get8.
    destruct (lookup_lt_is_Some_2 d (Z.to_nat (off mod BSIZE) + i)) as [v Ev]; [lia|]. rewrite Ev.
    replace (Z.to_nat (off mod BSIZE + Z.of_nat i)) with (Z.to_nat (off mod BSIZE) + i)%nat by lia. by rewrite Ev.
  - rewrite lookup_take_ge by lia. rewrite lookup_seqZ_ge by lia. done.
Qed.

Lemma readi_loop_ok fuel m k x s C hs tot off n e :
  solo k p sb → k_inode k !! ip = Some x → tx s [] C hs → file_ok sb C x →
  0 ≤ tot ≤ n → 0 ≤ off → off + (n - tot) ≤ MAXFILE * BSIZE →
  (∀ o, off ≤ o < off + (n - tot) → slot C x (dslot (o / BSIZE)) ≠ 0) →
  spans off (n - tot) m → (m < fuel)%nat → room size 0 hs →
  ∃ s', readi_loop fuel ip nowhere tot off n e (on k s) =
      Ret (fbyte C x <$> seqZ off (n - tot)) e (on k s') ∧ tx s' [] C hs.
Proof.
  revert m s tot off. induction fuel as [|fuel IH];
    intros m s tot off Hsolo Hx H Hok Htot Hoff Hmax Hmap Hsp Hf Hroom; [lia|].
  cbn [readi_loop]. destruct (Z.ltb_spec tot n) as [Hlt|Hge]; cbn [negb].
  2: { exists s. split; [|done]. replace (n - tot) with 0 by lia. done. }
  destruct (spans_next off (n - tot) m Hoff ltac:(lia) Hsp) as (m' & -> & Hsp').
  destruct (chunk_bounds off (n - tot) Hoff ltac:(lia)) as [Hc Hfit].
  assert (Hbn : 0 ≤ off / BSIZE < MAXFILE) by (apply block_range; lia).
  assert (Hne : slot C x (dslot (off / BSIZE)) ≠ 0) by (apply Hmap; lia).
  destruct (bmap_mapped k p pid sb Hsolo start size out ip x Hx s C hs (off / BSIZE) e H Hok Hbn Hne Hroom) as
    (s1 & E1 & H1).
  pose proof (fo_good _ _ _ Hok _ (proj1 (dslot_range _ Hbn)) Hne) as Hgood. set (a := slot _ _ _) in *.
  destruct (gd_data _ _ _ Hgood) as (d & Hd & Hlend).
  pose proof Hsolo as [(i & c & Hset & Hfree & Hproc) Hlog Hsb].
  destruct (read_block _ i c p pid Hset Hfree Hproc start size out s1 [] C hs a d e H1 Hd) as
    (bp & s2 & E2 & Hbp & H2 & Hh2 & _); [done|by intros ? ? ?%elem_of_nil|].
  destruct (drop_block _ i c p pid Hset Hfree Hproc start size out s2 bp [] C hs a d e H2 Hbp Hh2 Hd) as (s3 & E3 & H3 & _).
  fold (chunk_len off (n - tot)). set (cl := chunk_len off (n - tot)) in *.
  destruct (IH m' s3 (tot + cl) (off + cl) Hsolo Hx H3 Hok) as (s4 & E4 & H4); [lia..| | |lia|done|].
  { intros o Ho. apply Hmap. lia. }
  { by replace (n - (tot + cl)) with (n - tot - cl) by lia. }
  exists s4. split; [|done].
  mgo (by apply inode_get_on). rewrite (fo_dev _ _ _ Hok). mgo (exact E1). mgo (exact E2).
  mgo (eapply get_data_ok; [exact H2|by left|exact Hh2]). mgo (reflexivity). mgo (exact E3). mgo (exact E4).
  rewrite (slice_bytes C x off cl a d) by (done || lia).
  unfold mret, M_ret. f_equal. rewrite <- fmap_app. f_equal.
  replace (n - (tot + cl)) with (n - tot - cl) by lia. rewrite <- seqZ_app by lia. f_equal. lia.
Qed.
End rw.

(** ** The inode on the disk *)

Lemma length_put_addrs l d o : length (put_addrs d o l) = length d.
Proof. revert d o. induction l as [|a l IH]; intros d o; cbn; [done|]. by rewrite IH, length_put32. Qed.

Lemma length_store_dinode x o d : length (store_dinode x o d) = length d.
Proof. unfold store_dinode. by rewrite length_put_addrs, length_put32, !length_put16. Qed.

Lemma get16_put_addrs l d o o' : 0 ≤ o' → o' + 2 ≤ o → get16 (put_addrs d o l) o' = get16 d o'.
Proof.
  revert d o. induction l as [|a l IH]; intros d o H0 Ho; cbn; [done|].
  rewrite IH by lia. apply get16_put32_ne; lia.
Qed.
Lemma get32_put_addrs l d o o' : 0 ≤ o' → o' + 4 ≤ o → get32 (put_addrs d o l) o' = get32 d o'.
Proof.
  revert d o. induction l as [|a l IH]; intros d o H0 Ho; cbn; [done|].
  rewrite IH by lia. apply get32_put32_ne; lia.
Qed.

Lemma get_put_addrs l d o :
  0 ≤ o → o + 4 * Z.of_nat (length l) ≤ Z.of_nat (length d) → Forall is_u32 l →
  get_addrs (put_addrs d o l) o (length l) = l.
Proof.
  revert d o. induction l as [|a l IH]; intros d o H0 Hl; [done|]. rewrite Forall_cons. intros [Ha Hls].
  cbn [put_addrs get_addrs length] in *. f_equal.
  - rewrite get32_put_addrs, get32_put32_eq by lia. by apply wrap32_small.
  - apply IH; [lia| |done]. rewrite length_put32. lia.
Qed.

Definition is_short (z : Z) : Prop := - 2 ^ 15 ≤ z < 2 ^ 15.

Lemma sint16_mod z : is_short z → sint16 (z mod 65536) = z.
Proof.
  unfold is_short, sint16. intros H. change (2 ^ 16) with 65536. rewrite Z.mod_mod by done.
  destruct (decide (0 ≤ z)).
  - rewrite Z.mod_small by lia. destruct (Z.ltb_spec z (2 ^ 15)); lia.
  - assert (E : z mod 65536 = z + 65536) by (symmetry; apply (Z.mod_unique_pos _ _ (-1)); lia).
    rewrite E. destruct (Z.ltb_spec (z + 65536) (2 ^ 15)); lia.
Qed.

(** The fields of an inode have the types of fs.h. *)
Record inode_typed (x : inode) : Prop := {
  it_type : is_short (i_type x);
  it_major : is_short (i_major x);
  it_minor : is_short (i_minor x);
  it_nlink : is_short (i_nlink x);
  it_size : is_u32 (i_size x);
  it_len : length (i_addrs x) = S NDIRECT;
  it_addrs : Forall is_u32 (i_addrs x) }.

(** What [iupdate] stores in the block of an inode, [ilock] loads again. *)
Lemma dinode_load_store x y o d :
  inode_typed x → 0 ≤ o → o + 64 ≤ Z.of_nat (length d) →
  let z := load_dinode (store_dinode x o d) o y in
  z = y <| i_type := i_type x |> <| i_major := i_major x |> <| i_minor := i_minor x |>
        <| i_nlink := i_nlink x |> <| i_size := i_size x |> <| i_addrs := i_addrs x |>.
Proof.
  intros [Ht Hmj Hmn Hnl Hsz Hlen Had] Ho Hl z. subst z. unfold load_dinode, store_dinode.
  rewrite !get16_put_addrs, get32_put_addrs by lia. rewrite !get16_put32_ne by lia.
  rewrite get32_put32_eq by (rewrite ?length_put16; lia). rewrite wrap32_small by done.
  replace (get16 _ o) with (i_type x mod 65536)
    by (rewrite !(get16_put16_ne _ _ o), get16_put16_eq by (rewrite ?length_put16; lia); done).
  replace (get16 _ (o + 2)) with (i_major x mod 65536)
    by (rewrite !(get16_put16_ne _ _ (o + 2)), get16_put16_eq by (rewrite ?length_put16; lia); done).
  replace (get16 _ (o + 4)) with (i_minor x mod 65536)
    by (rewrite !(get16_put16_ne _ _ (o + 4)), get16_put16_eq by (rewrite ?length_put16; lia); done).
  rewrite get16_put16_eq by (rewrite ?length_put16; lia).
  rewrite <- Hlen, get_put_addrs; [|lia| |done].
  - by rewrite !sint16_mod.
  - rewrite length_put32, !length_put16, Hlen. change (Z.of_nat (S NDIRECT)) with 13. lia.
Qed.

(** ** The system calls' entry points *)

(** The file has no holes. *)
Definition filled (C : disk) (x : inode) : Prop :=
  ∀ o, 0 ≤ o < i_size x → slot C x (dslot (o / BSIZE)) ≠ 0.

(** Only the addresses and the number of an inode count for its blocks. *)
Lemma slot_size C x v j : slot C (x <| i_size := v |>) j = slot C x j.
Proof. reflexivity. Qed.
Lemma fbyte_size C x v o : fbyte C (x <| i_size := v |>) o = fbyte C x o.
Proof. reflexivity. Qed.
Lemma file_ok_size sb C x v : file_ok sb C x → file_ok sb C (x <| i_size := v |>).
Proof. intros []. by split. Qed.

(** The number of blocks that [n] bytes from [off] on lie in. *)
Definition nblocks (off n : Z) : nat := Z.to_nat ((off + n + BSIZE - 1) / BSIZE - off / BSIZE).

Lemma nblocks_spans off n : 0 ≤ off → 0 ≤ n → spans off n (nblocks off n) ∧ (nblocks off n < blocks_fuel n)%nat.
Proof.
  intros Hoff Hn. unfold spans, nblocks, blocks_fuel, BSIZE. split; [intros|]; dlia.
Qed.

Section run.
Context (p : nat) (pid : Z) (sb : superblock) (start size out : Z) (Hout : 1 ≤ out) (Hsz : sb_size sb ≤ 2 ^ 32).
Context (ip : nat).
Context `{Devsw}.

#[local] Abbreviation tx := (tx p pid start size out).
#[local] Existing Instance Memide.disk.

Lemma iupdate_ok k x s C hs e :
  solo k p sb → k_inode k !! ip = Some x → tx s [] C hs → file_ok sb C x → room size 1 hs →
  ∃ s' d, C !! iblock sb x = Some d ∧ length d = Z.to_nat BSIZE ∧
    iupdate ip e (on k s) = Ret tt e (on k s') ∧
    tx s' [] (<[iblock sb x := store_dinode x (64 * (i_inum x mod IPB)) d]> C) (note (iblock sb x) hs).
Proof.
  intros Hsolo Hx Ht Hok Hroom. destruct (gd_data _ _ _ (fo_ino _ _ _ Hok)) as (d & Hd & Hlen).
  pose proof Hsolo as [(i & c & Hset & Hfree & Hproc) Hlog Hsb].
  destruct (read_block _ i c p pid Hset Hfree Hproc start size out s [] C hs (iblock sb x) d e Ht Hd) as
    (bp & s1 & E1 & Hbp & H1 & Hh1 & _); [eapply room_less; [done|cbn; lia]|by intros ? ? ?%elem_of_nil|].
  destruct (write_block _ i c p pid Hset Hfree Hproc Hlog start size out Hout s1 bp [] C hs (iblock sb x) d
    (store_dinode x (64 * (i_inum x mod IPB))) e H1 Hh1) as (s2 & E2 & H2 & _); [by eexists|done|done|].
  exists s2, d. split; [done|]. split; [done|]. split; [|done].
  unfold iupdate. mgo (by apply inode_get_on). unfold id. rewrite bind_gets.
  change (k_sb (on k s)) with (k_sb k). rewrite Hsb, (fo_dev _ _ _ Hok). fold (iblock sb x).
  mgo (exact E1). mgo (by apply inode_get_on). exact E2.
Qed.

(** The inode after [n] bytes were written at [off]. *)
Definition sized (off n : Z) (x : inode) : inode := x <| i_size := Z.max (i_size x) (off + n) |>.

(** What a write leaves behind: the file has the bytes, and nothing else has changed but the
    free map and the block of the inode. *)
Record wrote_file (off : Z) (bs : list Z) (C : disk) (x : inode) (C' : disk) (x' : inode) : Prop := {
  wf_ok : file_ok sb C' x';
  wf_map : free_map sb C';
  wf_filled : filled C' x';
  wf_size : i_size x' = Z.max (i_size x) (off + Z.of_nat (length bs));
  wf_inode : x' = x <| i_size := i_size x' |> <| i_addrs := i_addrs x' |>;
  wf_byte : ∀ o, 0 ≤ o < MAXFILE * BSIZE → fbyte C' x' o =
    if decide (off ≤ o < off + Z.of_nat (length bs)) then default 0 (bs !! Z.to_nat (o - off)) else fbyte C x o;
  wf_frame : ∀ n, elsewhere sb C x n → n ≠ iblock sb x → C' !! n = C !! n;
  wf_disk : i_size x < i_size x' → ∃ d, C !! iblock sb x = Some d ∧
    C' !! iblock sb x = Some (store_dinode x' (64 * (i_inum x mod IPB)) d) }.

Lemma written_filled off bs C x C' x' :
  written sb off bs C x C' x' → filled C x → 0 ≤ off ≤ i_size x → off + Z.of_nat (length bs) ≤ MAXFILE * BSIZE →
  i_size x ≤ MAXFILE * BSIZE →
  ∀ o, 0 ≤ o < Z.max (i_size x) (off + Z.of_nat (length bs)) → slot C' x' (dslot (o / BSIZE)) ≠ 0.
Proof.
  intros Hw Hfill Hoff Hmax Hmax' o Ho. destruct (decide (off ≤ o < off + Z.of_nat (length bs))).
  - by apply (wr_mapped _ _ _ _ _ _ _ Hw).
  - assert (Hs : slot C x (dslot (o / BSIZE)) ≠ 0) by (apply Hfill; lia).
    rewrite (wr_slot _ _ _ _ _ _ _ Hw); [done| |done]. apply dslot_range, block_range. lia.
Qed.

(** What a write of [bs] at [off] needs: two free blocks for each block touched, and log space. *)
Record can_write (off : Z) (bs : list Z) (C : disk) (x : inode) (hs : list Z) : Prop := {
  cw_type : i_type x ≠ T_DEV;
  cw_off : 0 ≤ off ≤ i_size x;
  cw_max : i_size x ≤ MAXFILE * BSIZE;
  cw_end : off + Z.of_nat (length bs) ≤ MAXFILE * BSIZE;
  cw_free : (2 * nblocks off (Z.of_nat (length bs)) ≤ length (frees sb C))%nat;
  cw_room : room size (6 * Z.of_nat (nblocks off (Z.of_nat (length bs))) + 2) hs }.

Lemma wrote_same off bs C x C' x' :
  written sb off bs C x C' x' → filled C x → 0 ≤ off ≤ i_size x → off + Z.of_nat (length bs) ≤ MAXFILE * BSIZE →
  i_size x ≤ MAXFILE * BSIZE → off + Z.of_nat (length bs) ≤ i_size x → wrote_file off bs C x C' x'.
Proof.
  intros Hw Hfill Hoff Hend Hmax Hle. pose proof (wr_inode _ _ _ _ _ _ _ Hw) as Hx'.
  assert (i_size x' = i_size x) as Es by (by rewrite Hx').
  pose proof (written_filled off bs C x C' x' Hw Hfill Hoff Hend Hmax) as Hf.
  split; [apply Hw|apply Hw|..].
  - intros o Ho. apply Hf. lia.
  - lia.
  - rewrite Es. etrans; [exact Hx'|]. by destruct x.
  - apply Hw.
  - intros n Hn _. by apply (wr_frame _ _ _ _ _ _ _ Hw).
  - lia.
Qed.

Lemma wrote_longer off bs C x C1 x1 d :
  written sb off bs C x C1 x1 → filled C x → 0 ≤ off ≤ i_size x → off + Z.of_nat (length bs) ≤ MAXFILE * BSIZE →
  i_size x ≤ MAXFILE * BSIZE → i_size x < off + Z.of_nat (length bs) → file_ok sb C x →
  let x2 := x1 <| i_size := off + Z.of_nat (length bs) |> in
  C1 !! iblock sb x = Some d → length d = Z.to_nat BSIZE →
  wrote_file off bs C x (<[iblock sb x := store_dinode x2 (64 * (i_inum x mod IPB)) d]> C1) x2.
Proof.
  intros Hw Hfill Hoff Hend Hmax Hlt Hok x2 Hd Hlen. pose proof (wr_inode _ _ _ _ _ _ _ Hw) as Hx1.
  assert (iblock sb x1 = iblock sb x) as Eib by (unfold iblock; by rewrite Hx1).
  set (d2 := store_dinode _ _ _). assert (Hlen2 : length d2 = Z.to_nat BSIZE) by (by unfold d2; rewrite length_store_dinode).
  pose proof (file_ok_size sb C1 x1 (off + Z.of_nat (length bs)) (wr_ok _ _ _ _ _ _ _ Hw)) as Hok2. fold x2 in Hok2.
  pose proof (fo_ino _ _ _ Hok2) as Hgi. pose proof (fo_ino_ne _ _ _ Hok2) as Hne.
  change (iblock sb x2) with (iblock sb x1) in Hgi, Hne. rewrite Eib in Hgi, Hne.
  assert (H12 : iblock sb x ≠ slot C1 x2 12) by (apply not_eq_sym, Hne; by split).
  pose proof (written_filled off bs C x C1 x1 Hw Hfill Hoff Hend Hmax) as Hf.
  split.
  - by apply put_file_ok.
  - eapply (put_free_map sb C1 x2); [apply Hw|done..].
  - intros o Ho. change (i_size x2) with (off + Z.of_nat (length bs)) in Ho. rewrite put_slot.
    + apply Hf. lia.
    + done.
    + apply dslot_range, block_range. lia.
  - change (i_size x2) with (off + Z.of_nat (length bs)). lia.
  - unfold x2. unfold same_but_addrs in Hx1. rewrite Hx1. by destruct x.
  - intros o Ho. erewrite put_fbyte by done. cbv zeta. destruct (dslot_range _ (block_range _ Ho)) as [Hj _].
    rewrite (decide_False (P := slot C1 x2 _ = iblock sb x)) by (by apply Hne).
    rewrite <- (wr_byte _ _ _ _ _ _ _ Hw o Ho). change (fbyte C1 x2 o) with (fbyte C1 x1 o).
    unfold fbyte. change (slot C1 x2) with (slot C1 x1). by destruct (_ =? 0).
  - intros n Hn Hni. rewrite lookup_insert_ne by done. by apply (wr_frame _ _ _ _ _ _ _ Hw).
  - intros _. exists d. split; [|by rewrite lookup_insert_eq].
    rewrite <- Hd. symmetry. apply (wr_frame _ _ _ _ _ _ _ Hw). by apply ino_elsewhere.
Qed.

Lemma writei_ok k x s C hs bs off e :
  solo k p sb → k_inode k !! ip = Some x → tx s [] C hs → file_ok sb C x → free_map sb C → filled C x →
  can_write off bs C x hs →
  ∃ s' C' x' hs', writei ip (local bs) off (Z.of_nat (length bs)) e (on k s) =
      Ret (Z.of_nat (length bs)) e (on (at_ino ip x' k) s') ∧
    tx s' [] C' hs' ∧ room size 0 hs' ∧ wrote_file off bs C x C' x'.
Proof.
  intros Hsolo Hx Ht Hok Hfm Hfill [Hty Hoff Hmax Hend Hfr Hroom]. set (n := Z.of_nat (length bs)) in *.
  destruct (nblocks_spans off n ltac:(lia) ltac:(lia)) as [Hsp Hfuel].
  destruct (writei_loop_ok p pid sb start size out Hout Hsz ip (blocks_fuel n) (nblocks off n) k x s C hs bs 0 off n e
    Hsolo Hx Ht Hok Hfm) as (s1 & C1 & x1 & hs1 & E1 & H1 & Hw & Hl);
    [done|lia|lia|lia|by rewrite Z.sub_0_r|done|done|eapply room_less; [done|lia]|].
  rewrite Z.sub_0_r in E1. change (drop (Z.to_nat 0) bs) with bs in Hw.
  pose proof (wr_inode _ _ _ _ _ _ _ Hw) as Hx1. assert (i_size x1 = i_size x) as Es by (by rewrite Hx1).
  pose proof (at_ino_lookup ip x x1 k Hx) as Hk1.
  assert (Hpre : ∀ Q, writei ip (local bs) off n e (on k s) = Q ↔
    ((if (n >? 0) && (off + n >? i_size x) then
        inode_upd ip (λ x, x <| i_size := off + n |>);; iupdate ip
      else mret tt);; mret n) e (on (at_ino ip x1 k) s1) = Q).
  { intros Q. unfold writei. mgo (by apply inode_get_on). unfold id.
    replace (i_type x =? T_DEV) with false by lia.
    rewrite wrap32_small by (unfold is_u32; change MAXFILE with 140 in *; change BSIZE with 512 in *; lia).
    replace (_ || _) with false by lia. replace (off + n >? MAXFILE * BSIZE) with false by lia.
    mgo (exact E1). mgo (by apply inode_get_on). by rewrite Es. }
  destruct (decide (off + n ≤ i_size x)) as [Hle|Hgt].
  - exists s1, C1, x1, hs1. split_and!; [|done|unfold room in *; lia|by apply wrote_same].
    apply Hpre. by replace (_ && _) with false by lia.
  - set (x2 := x1 <| i_size := off + n |>).
    pose proof (solo_ino k p sb ip x2 Hsolo) as Hsolo2. pose proof (at_ino_lookup ip x x2 k Hx) as Hk2.
    destruct (iupdate_ok _ x2 s1 C1 hs1 e Hsolo2 Hk2 H1) as (s2 & d & Hd & Hlen & E2 & H2).
    { apply file_ok_size, Hw. }
    { unfold room in *. lia. }
    assert (iblock sb x2 = iblock sb x) as Eib by (unfold iblock, x2; rsimpl; by rewrite Hx1).
    assert (i_inum x2 = i_inum x) as Ein by (unfold x2; rsimpl; by rewrite Hx1).
    rewrite Eib in Hd, H2. rewrite Ein in H2. eexists s2, _, x2, _. split_and!; [|exact H2|..].
    + apply Hpre. replace (_ && _) with true by lia. rewrite bind_assoc.
      mgo (by apply inode_upd_on). fold x2. rewrite at_ino_at_ino. by mgo (exact E2).
    + pose proof (note_length (iblock sb x) hs1). unfold room in *. lia.
    + apply wrote_longer; try done. unfold n in Hgt. lia.
Qed.

Lemma readi_ok k x s C hs off n e :
  solo k p sb → k_inode k !! ip = Some x → tx s [] C hs → file_ok sb C x → filled C x → room size 0 hs →
  i_type x ≠ T_DEV → 0 ≤ off ≤ i_size x → i_size x ≤ MAXFILE * BSIZE → 0 ≤ n < 2 ^ 31 →
  ∃ s', let r := Z.min n (i_size x - off) in
    readi ip nowhere off n e (on k s) = Ret (r, fbyte C x <$> seqZ off r) e (on k s') ∧ tx s' [] C hs.
Proof.
  intros Hsolo Hx Ht Hok Hfill Hroom Hty Hoff Hmax Hn. cbv zeta. set (r := Z.min n (i_size x - off)).
  destruct (nblocks_spans off r ltac:(lia) ltac:(lia)) as [Hsp Hfuel].
  destruct (readi_loop_ok p pid sb start size out ip (blocks_fuel r) (nblocks off r) k x s C hs 0 off r e
    Hsolo Hx Ht Hok) as (s1 & E1 & H1); [lia..| | |done|done|].
  { intros o Ho. apply Hfill. lia. }
  { by rewrite Z.sub_0_r. }
  exists s1. split; [|done]. rewrite Z.sub_0_r in E1.
  unfold readi. mgo (by apply inode_get_on). unfold id. replace (i_type x =? T_DEV) with false by lia.
  change MAXFILE with 140 in *. change BSIZE with 512 in Hmax.
  rewrite wrap32_small by (unfold is_u32; lia). replace (_ || _) with false by lia.
  assert (E : (if off + n >? i_size x then wrap32 (i_size x - off) else n) = r).
  { rewrite wrap32_small by (unfold is_u32; lia). unfold r. destruct (Z.gtb_spec (off + n) (i_size x)); lia. }
  rewrite E. by mgo (exact E1).
Qed.
End run.

(** ** Properties *)

(** C7 Files hold what is written to them.  In a transaction, on a file whose blocks are in
    order, [writei] of [bs] at an offset not behind the end returns the number of bytes, and
    [readi] of the same place then returns [bs]: within the file, across blocks, into the
    indirect block, or past the end, where blocks are allocated and the file grows to its new
    size; the inode on the disk is then the one in memory.  Every other byte of the file, and every other
    block in use but that of the inode, is as before, and the file is in order again. *)
Theorem writei_readi `{Devsw} p pid sb start size out ip k x s C hs bs off e :
  1 ≤ out → sb_size sb ≤ 2 ^ 32 → solo k p sb → k_inode k !! ip = Some x →
  tx p pid start size out s [] C hs → file_ok sb C x → free_map sb C → filled C x →
  can_write sb size off bs C x hs →
  let n := Z.of_nat (length bs) in
  ∃ s1 C1 x1 hs1, let k1 := at_ino ip x1 k in
    writei (H := Memide.disk) ip (local bs) off n e (on k s) = Ret n e (on k1 s1) ∧
    (∃ s2, readi (H := Memide.disk) ip nowhere off n e (on k1 s1) = Ret (n, bs) e (on k1 s2) ∧
       tx p pid start size out s2 [] C1 hs1) ∧
    i_size x1 = Z.max (i_size x) (off + n) ∧
    (∀ o, 0 ≤ o < i_size x → ¬ (off ≤ o < off + n) → fbyte C1 x1 o = fbyte C x o) ∧
    (∀ m, elsewhere sb C x m → m ≠ iblock sb x → C1 !! m = C !! m) ∧
    (inode_typed x1 → i_size x < i_size x1 → ∃ d, C1 !! iblock sb x = Some d ∧
       load_dinode d (64 * (i_inum x mod IPB)) x1 = x1) ∧
    file_ok sb C1 x1 ∧ free_map sb C1 ∧ filled C1 x1.
Proof.
  intros Hout Hsz Hsolo Hx Ht Hok Hfm Hfill Hcan n. pose proof Hcan as [Hty Hoff Hmax Hend _ _].
  destruct (writei_ok p pid sb start size out Hout Hsz ip k x s C hs bs off e Hsolo Hx Ht Hok Hfm Hfill Hcan) as
    (s1 & C1 & x1 & hs1 & E1 & H1 & Hr1 & Hw).
  pose proof (wf_size _ _ _ _ _ _ _ Hw) as Hs1. fold n in E1, Hs1, Hend.
  assert (i_type x1 = i_type x) as Et by (by rewrite (wf_inode _ _ _ _ _ _ _ Hw)).
  destruct (readi_ok p pid sb start size out ip (at_ino ip x1 k) x1 s1 C1 hs1 off n e) as (s2 & E2 & H2).
  { by apply solo_ino. }
  { by eapply at_ino_lookup. }
  { done. }
  { apply Hw. }
  { apply Hw. }
  { done. }
  { by rewrite Et. }
  { lia. }
  { lia. }
  { change MAXFILE with 140 in Hend. change BSIZE with 512 in Hend. lia. }
  cbv zeta in E2. replace (Z.min n (i_size x1 - off)) with n in E2 by lia.
  assert (Ebs : fbyte C1 x1 <$> seqZ off n = bs).
  { apply list_eq. intros i. rewrite list_lookup_fmap. destruct (decide (i < length bs)%nat) as [Hi|Hi].
    - rewrite lookup_seqZ_lt by lia. cbn [fmap option_fmap option_map].
      rewrite (wf_byte _ _ _ _ _ _ _ Hw) by lia. rewrite decide_True by lia.
      replace (Z.to_nat (off + Z.of_nat i - off)) with i by lia.
      by destruct (lookup_lt_is_Some_2 bs i Hi) as [v ->].
    - rewrite lookup_seqZ_ge by lia. by rewrite lookup_ge_None_2 by lia. }
  rewrite Ebs in E2. exists s1, C1, x1, hs1. cbv zeta.
  split_and!; [done|by exists s2|done| |apply (wf_frame _ _ _ _ _ _ _ Hw)| |apply Hw|apply Hw|apply Hw].
  - intros o Ho Hout'. rewrite (wf_byte _ _ _ _ _ _ _ Hw) by lia. by rewrite decide_False.
  - intros Htyp Hlt. destruct (wf_disk _ _ _ _ _ _ _ Hw Hlt) as (d & Hd & Hd').
    pose proof (Z.mod_pos_bound (i_inum x) IPB ltac:(done)).
    eexists. split; [exact Hd'|]. rewrite dinode_load_store; [by destruct x1|done|lia|].
    destruct (gd_data _ _ _ (fo_ino _ _ _ Hok)) as (d' & Hd2 & Hlen). rewrite Hd in Hd2. injection Hd2 as <-.
    rewrite Hlen. change (Z.of_nat (Z.to_nat BSIZE)) with 512. change IPB with 8 in *. lia.
Qed.

(** A file of three bytes in block 47 of the small disk, inode 1. *)
Definition x_small : inode :=
  zero_inode <| i_dev := 1 |> <| i_inum := 1 |> <| i_type := T_FILE |> <| i_nlink := 1 |>
    <| i_size := 3 |> <| i_addrs := 47 :: replicate 12 0 |>.

Definition k_file : kernel := k_small <| k_inode := [x_small] |>.

Lemma small_good b : b = 44 ∨ b = 47 → good sb_small m_small b.
Proof.
  intros Hb. split; try (destruct Hb as [-> | ->]; by vm_compute).
  - intros (y & Hy & E). unfold BBLOCK in E. change (sb_size sb_small) with 50 in Hy.
    rewrite Z.div_small in E by (unfold BPB, BSIZE; lia). cbn in E. lia.
  - exists zero_block. destruct Hb as [-> | ->]; by vm_compute.
Qed.

Lemma small_slot j : 0 ≤ j < NSLOT → slot m_small x_small j = if j =? 0 then 47 else 0.
Proof. intros Hj. apply Z.eqb_eq. revert j Hj. apply range_forallb. by vm_compute. Qed.

Lemma small_file : file_ok sb_small m_small x_small.
Proof.
  split; [done|done|..].
  - intros j Hj. rewrite small_slot by done. destruct (j =? 0); [|done]. intros _. apply small_good. by right.
  - intros j j' Hj Hj'. rewrite !small_slot by done. destruct (Z.eqb_spec j 0), (Z.eqb_spec j' 0); lia.
  - apply small_good. by left.
  - intros j Hj. rewrite small_slot by done. by destruct (j =? 0).
Qed.

#[local] Existing Instance Memide.disk.

Lemma writei_readi_witness :
  ∃ s1 x1 s2, let k1 := at_ino 0 x1 k_file in
    writei (H := Memide.disk) 0 (local [5; 6]) 3 2 [] (on k_file s_small) = Ret 2 [] (on k1 s1) ∧
    readi (H := Memide.disk) 0 nowhere 3 2 [] (on k1 s1) = Ret (2, [5; 6]) [] (on k1 s2) ∧ i_size x1 = 5.
Proof.
  destruct (writei_readi 0 1 sb_small 2 30 1 0 k_file x_small s_small m_small [] [5; 6] 3 []) as
    (s1 & C1 & x1 & hs1 & E1 & (s2 & E2 & _) & Hs & _).
  - lia.
  - by vm_compute.
  - split; [exact boot_alone|reflexivity|reflexivity].
  - reflexivity.
  - apply small_tx.
  - apply small_file.
  - apply small_map.
  - intros o Ho. change (i_size x_small) with 3 in Ho. rewrite Z.div_small by (unfold BSIZE; lia). by vm_compute.
  - split; by vm_compute.
  - exists s1, x1, s2. cbv zeta. split; [exact E1|]. split; [exact E2|exact Hs].
Defined.
