(* ===== verification/Icache.v ===== *)
(** * The inode cache, proved (iget, idup, ilock, iunlock, iput of fs.c)

    Inside a transaction, by a process that nothing disturbs.  [cached] says what
    the table of inodes in memory stands for: a reference count for every inode
    number in use, and copies of the inodes on the disk.  [iget] and [idup] count
    a reference up, [iput] counts it down, and [ilock] leaves the entry with the
    inode of the disk. *)

From S2P Require Import Prelude State Spinlock Sched Sleep Sleeplock Bio Bytes Bcache Log Crash Txn Inode Alloc Bmap Rw.

(** ** The table *)

(** The spin locks of the inode cache and of its inodes are free. *)
Definition inodes_free (k : kernel) : Prop :=
  lock_free k LkIcache ∧ ∀ i, (i < length (k_inode k))%nat → lock_free k (LkSleep (SlInode i)).

Lemma inodes_free_ino k ip x : inodes_free k → inodes_free (at_ino ip x k).
Proof.
  intros [H1 H2]. split; [done|]. intros i Hi. apply H2.
  change (i < length (<[ip := x]> (k_inode k)))%nat in Hi. by rewrite length_insert in Hi.
Qed.

(** The entry of the cache that [iget] gives out, and what it makes of it. *)
Definition iget_entry (dev inum : Z) (tab : list inode) : option (nat * inode) :=
  match list_find (iget_hit dev inum) tab with
  | Some (i, y) => Some (i, y <| i_ref ::= λ n, n + 1 |>)
  | None =>
    match list_find (λ x, i_ref x =? 0) tab with
    | Some (i, y) => Some (i, y <| i_dev := dev |> <| i_inum := inum |> <| i_ref := 1 |> <| i_valid := false |>)
    | None => None
    end
  end.

Section icache.
Context (p : nat) (sb : superblock) (k : kernel) (Hsolo : solo k p sb) (Hfree : inodes_free k).

Lemma iget_ok dev inum i y s e :
  iget_entry dev inum (k_inode k) = Some (i, y) →
  iget dev inum e (on k s) = Ret i e (on (at_ino i y k) s).
Proof.
  intros Hi. destruct (so_alone _ _ _ Hsolo) as (i0 & c & Hset & _ & _). pose proof (proj1 Hfree) as Hlk.
  assert (Hrel : ∀ z, release LkIcache e (on (at_ino i z (acquired i0 c LkIcache k)) s) =
    Ret tt e (on (at_ino i z k) s)).
  { intros z. change (at_ino i z (acquired i0 c LkIcache k)) with (acquired i0 c LkIcache (at_ino i z k)).
    apply release_on; [by eapply same_sync_settled|done]. }
  unfold iget. mgo (by apply acquire_on). msteps.
  change (k_inode (on (acquired i0 c LkIcache k) s)) with (k_inode k).
  unfold iget_entry in Hi. destruct (list_find (iget_hit dev inum) (k_inode k)) as [[j z]|] eqn:E1.
  - injection Hi as -> <-. apply list_find_Some in E1 as (Hj & _ & _).
    mgo (apply (inode_upd_on _ (acquired i0 c LkIcache k) s i z); exact Hj). by mgo (apply Hrel).
  - destruct (list_find (λ x, i_ref x =? 0) (k_inode k)) as [[j z]|] eqn:E2; [|done].
    injection Hi as -> <-. apply list_find_Some in E2 as (Hj & _ & _).
    assert (Hl : ∀ w, k_inode (at_ino i w (acquired i0 c LkIcache k)) !! i = Some w).
    { intros w. by apply (at_ino_lookup i z). }
    mgo (apply (inode_upd_on _ (acquired i0 c LkIcache k) s i z); exact Hj).
    do 3 (mgo (by apply inode_upd_on; apply Hl); rewrite at_ino_at_ino).
    by mgo (apply Hrel).
Qed.

Lemma iget_none dev inum s e :
  iget_entry dev inum (k_inode k) = None → ∃ k', iget dev inum e (on k s) = Panic "iget: no inodes" k'.
Proof.
  intros Hi. destruct (so_alone _ _ _ Hsolo) as (i0 & c & Hset & _ & _). pose proof (proj1 Hfree) as Hlk.
  unfold iget. mgo (by apply acquire_on). msteps.
  change (k_inode (on (acquired i0 c LkIcache k) s)) with (k_inode k).
  unfold iget_entry in Hi. destruct (list_find (iget_hit dev inum) (k_inode k)) as [[j z]|]; [done|].
  destruct (list_find (λ x, i_ref x =? 0) (k_inode k)) as [[j z]|]; [done|]. eexists. reflexivity.
Qed.
End icache.

(** ** Sleep locks of inodes *)

Section ilocks.
Context (p : nat) (pid : Z) (sb : superblock) (k : kernel) (Hsolo : solo k p sb) (Hfree : inodes_free k).
Context (i : nat) (y : inode) (Hy : k_inode k !! i = Some y).

#[local] Abbreviation lockit l := (λ y, y <| i_lock := l |>).

Lemma ino_lock_free : lock_free k (LkSleep (SlInode i)).
Proof. apply Hfree. by eapply lookup_lt_Some. Qed.

Lemma sl_upd_ino k1 y1 f s e :
  k_inode k1 !! i = Some y1 →
  sl_upd (SlInode i) f e (on k1 s) = Ret tt e (on (at_ino i (y1 <| i_lock ::= f |>) k1) s).
Proof. intros E. by apply (inode_upd_on (λ y, y <| i_lock ::= f |>)). Qed.

Lemma sl_get_ino {A} (f : sleeplock → A) k1 y1 s e :
  k_inode k1 !! i = Some y1 → sl_get (SlInode i) f e (on k1 s) = Ret (f (i_lock y1)) e (on k1 s).
Proof. intros E. unfold sl_get, sl_of. msteps. change (k_inode (on k1 s)) with (k_inode k1). by rewrite E. Qed.

Lemma acquiresleep_ino s e :
  is_me p pid (d_proc s) → sl_locked (i_lock y) = 0 →
  acquiresleep (SlInode i) e (on k s) = Ret tt e (on (at_ino i (lockit (Sleeplock 1 pid) y) k) s).
Proof.
  intros (pr & Ep & Hpid) Hl. unfold acquiresleep. pose proof ino_lock_free as Hlk.
  destruct (so_alone _ _ _ Hsolo) as (i0 & c & Hset & _ & Hproc). pose proof Hset as (Hc & Hw & _).
  mgo (by apply (acquire_on k s i0 c)). set (k1 := acquired i0 c _ k).
  assert (settled k1 i0 (push_cpu (k_if k) c)) as Hs1 by (by apply acquired_settled).
  mgo (apply mwait_done; rewrite (sl_get_ino _ k1 y) by exact Hy; by rewrite Hl).
  mgo (by apply sl_upd_ino).
  mgo (eapply myproc_settled, on_settled; exact Hs1).
  rewrite push_cpu_proc, Hproc. asteps. mgo (apply (proc_get_ok _ p pr); exact Ep). rewrite Hpid.
  mgo (apply sl_upd_ino; eapply at_ino_lookup; exact Hy). rewrite at_ino_at_ino.
  match goal with |- release _ _ (on (at_ino _ ?z _) _) = _ =>
    change (on (at_ino i z k1) s) with (on (acquired i0 c (LkSleep (SlInode i)) (at_ino i z k)) s) end.
  rewrite release_on by (done || by eapply same_sync_settled). by destruct y as [? ? ? []].
Qed.

(** The lock is taken, and nobody runs who could free it. *)
Lemma acquiresleep_taken s :
  is_me p pid (d_proc s) → sl_locked (i_lock y) ≠ 0 → (∀ i0 c, oncpu k i0 c → c_ncli c = 0) →
  ∃ k', acquiresleep (SlInode i) [] (on k s) = Blocked k' ∧ k_inode k' = k_inode k ∧
    k_proc k' = doze p (ChSleep (SlInode i)) (d_proc s).
Proof.
  intros (pr & Ep & Hpid) Hl Hn. unfold acquiresleep. pose proof ino_lock_free as Hlk.
  destruct (so_alone _ _ _ Hsolo) as (i0 & c & Hset & Hlf & Hproc). pose proof Hset as (Hc & Hw & _).
  assert (Sleep.holds (acquired i0 c (LkSleep (SlInode i)) (on k s)) i0 (push_cpu (k_if k) c) (LkSleep (SlInode i)) p) as Hh.
  { apply (acquired_holds i0 c _ (on k s)); [done|by eapply Hn|done]. }
  mgo (by apply (acquire_on k s i0 c)). set (k1 := acquired i0 c _ k). eexists. split.
  - unfold mwait. rewrite bind_eq. cbn [length mwhile].
    mgo (rewrite (sl_get_ino _ k1 y) by exact Hy; reflexivity). unfold truthy. replace (sl_locked (i_lock y) =? 0) with false by lia.
    cbn [negb]. rewrite bind_eq. erewrite (sleep_blocked _ _ (on k1 s)); [reflexivity|exact Hh| |exact Ep].
    intros _. apply (acquired_free i0 c); [done|apply Hlf].
  - done.
Qed.

Lemma releasesleep_ino s e :
  releasesleep (SlInode i) e (on k s) =
  Ret tt e (on (at_ino i (lockit (Sleeplock 0 0) y) k)
    (with_proc (map (wake (Some (ChSleep (SlInode i)))) (d_proc s)) s)).
Proof.
  unfold releasesleep. pose proof ino_lock_free as Hlk.
  destruct (so_alone _ _ _ Hsolo) as (i0 & c & Hset & Hlf & Hproc). pose proof Hset as (Hc & Hw & _).
  mgo (by apply (acquire_on k s i0 c)). set (k1 := acquired i0 c _ k).
  assert (settled k1 i0 (push_cpu (k_if k) c)) as Hs1 by (by apply acquired_settled).
  mgo (by apply sl_upd_ino). mgo (apply sl_upd_ino; eapply at_ino_lookup; exact Hy). rewrite at_ino_at_ino.
  mgo (eapply wakeup_on; [eapply same_sync_settled; [|exact Hs1]; done|apply (acquired_free i0 c); [done|apply Hlf]]).
  match goal with |- release _ _ (on (at_ino _ ?z _) ?t) = _ =>
    change (on (at_ino i z k1) t) with (on (acquired i0 c (LkSleep (SlInode i)) (at_ino i z k)) t) end.
  rewrite release_on by (done || by eapply same_sync_settled). by destruct y as [? ? ? []].
Qed.

Lemma holdingsleep_ino s e :
  is_me p pid (d_proc s) → i_lock y = Sleeplock 1 pid →
  holdingsleep (SlInode i) e (on k s) = Ret true e (on k s).
Proof.
  intros (pr & Ep & Hpid) Hl. unfold holdingsleep. pose proof ino_lock_free as Hlk.
  destruct (so_alone _ _ _ Hsolo) as (i0 & c & Hset & _ & Hproc). pose proof Hset as (Hc & Hw & _).
  mgo (by apply (acquire_on k s i0 c)). set (k1 := acquired i0 c _ k).
  assert (settled k1 i0 (push_cpu (k_if k) c)) as Hs1 by (by apply acquired_settled).
  mgo (by apply (sl_get_ino id k1 y)). rewrite Hl.
  change (truthy (sl_locked (id (Sleeplock 1 pid)))) with true. cbv iota. rewrite !bind_assoc.
  mgo (eapply myproc_settled, on_settled; exact Hs1).
  rewrite push_cpu_proc, Hproc. asteps. mgo (apply (proc_get_ok _ p pr); exact Ep). rewrite Hpid.
  asteps. mgo (by apply release_on). cbn [sl_pid]. by rewrite Z.eqb_refl.
Qed.

(** A change of one entry under the lock of the table. *)
Lemma icache_upd f s e :
  (acquire LkIcache;; inode_upd i f;; release LkIcache) e (on k s) = Ret tt e (on (at_ino i (f y) k) s).
Proof.
  destruct (so_alone _ _ _ Hsolo) as (i0 & c & Hset & _ & _). pose proof (proj1 Hfree) as Hlk.
  mgo (by apply acquire_on). mgo (apply (inode_upd_on _ (acquired i0 c LkIcache k) s i y); exact Hy).
  change (at_ino i (f y) (acquired i0 c LkIcache k)) with (acquired i0 c LkIcache (at_ino i (f y) k)).
  apply release_on; [by eapply same_sync_settled|done].
Qed.
End ilocks.

(** ** What the table stands for *)

(** The block of inode [n]; an entry with the inode of the disk read into it; that inode. *)
Definition dblock (sb : superblock) (C : disk) (n : Z) : list Z := default zero_block (C !! IBLOCK n sb).
Definition loaded (sb : superblock) (C : disk) (y : inode) : inode :=
  load_dinode (dblock sb C (i_inum y)) (64 * (i_inum y mod IPB)) y.
Definition disk_inode (sb : superblock) (C : disk) (n : Z) : inode :=
  loaded sb C (zero_inode <| i_dev := 1 |> <| i_inum := n |>).

(** One more reference to inode [n]. *)
Definition incr (n : Z) (R : gmap Z Z) : gmap Z Z := <[n := default 0 (R !! n) + 1]> R.

Lemma incr_comm n m R : incr n (incr m R) = incr m (incr n R).
Proof.
  unfold incr. destruct (decide (n = m)) as [->|Hne]; [done|].
  rewrite !lookup_insert_ne by done. by apply insert_insert_ne.
Qed.

Lemma size_incr n R : (size (incr n R) ≤ S (size R))%nat.
Proof.
  unfold incr. destruct (R !! n) as [r|] eqn:E; [rewrite map_size_insert_Some by eauto; lia|].
  by rewrite map_size_insert_None.
Qed.

Section cached.
Context (pid : Z) (sb : superblock) (C : disk).

(** The entry [y] in place [i], the inode in place [L] being locked by the process. *)
Record entry_ok (R : gmap Z Z) (L : option nat) (i : nat) (y : inode) : Prop := {
  en_ref : 0 ≤ i_ref y;
  en_lock : if decide (L = Some i) then i_lock y = Sleeplock 1 pid ∧ 0 < i_ref y else sl_locked (i_lock y) = 0;
  en_used : 0 < i_ref y → i_dev y = 1 ∧ R !! i_inum y = Some (i_ref y) ∧ (i_valid y = true → loaded sb C y = y) }.

(** The table counts the references [R], and holds the inodes of the disk. *)
Record cached (R : gmap Z Z) (L : option nat) (tab : list inode) : Prop := {
  ic_len : length tab = NINODE;
  ic_entry : ∀ i y, tab !! i = Some y → entry_ok R L i y;
  ic_uniq : ∀ i j y z, tab !! i = Some y → tab !! j = Some z → 0 < i_ref y → 0 < i_ref z →
    i_inum y = i_inum z → i = j;
  ic_dom : ∀ n r, R !! n = Some r → ∃ i y, tab !! i = Some y ∧ 0 < i_ref y ∧ i_inum y = n }.

Lemma cached_pos R L tab n r : cached R L tab → R !! n = Some r → 0 < r.
Proof.
  intros H Hn. destruct (ic_dom _ _ _ H n r Hn) as (i & y & Hy & Hr & <-).
  destruct (en_used _ _ _ _ (ic_entry _ _ _ H i y Hy) Hr) as (_ & E & _). rewrite Hn in E. by injection E as ->.
Qed.

Lemma cached_upd R L tab R' L' i y y' :
  cached R L tab → tab !! i = Some y → entry_ok R' L' i y' →
  (∀ j z, j ≠ i → tab !! j = Some z → entry_ok R L j z → entry_ok R' L' j z) →
  (∀ j z, j ≠ i → tab !! j = Some z → 0 < i_ref z → 0 < i_ref y' → i_inum z ≠ i_inum y') →
  (∀ n r, R' !! n = Some r → (n = i_inum y' ∧ 0 < i_ref y') ∨ (n ≠ i_inum y ∨ i_ref y = 0) ∧ is_Some (R !! n)) →
  cached R' L' (<[i := y']> tab).
Proof.
  intros [Hlen He Hu Hd] Hy He' Hoth Hne Hd'.
  assert (Hl : ∀ j z, <[i := y']> tab !! j = Some z → (j = i ∧ z = y') ∨ (j ≠ i ∧ tab !! j = Some z)).
  { intros j z Hz. apply list_lookup_insert_Some in Hz as [(<- & <- & _)|[Hji Hz]]; [by left|right]. split; [congruence|done]. }
  split.
  - by rewrite length_insert.
  - intros j z [[-> ->]|[Hji Hz]]%Hl; [done|]. apply Hoth; [done..|]. by apply He.
  - intros j j' z z' [[-> ->]|[Hji Hz]]%Hl [[-> ->]|[Hji' Hz']]%Hl Hr Hr' E; [done|..].
    + by destruct (Hne j' z').
    + by destruct (Hne j z).
    + by eapply Hu.
  - intros n r Hn. destruct (Hd' n r Hn) as [[-> Hr]|[Hny [r' Hn']]].
    + exists i, y'. rewrite list_lookup_insert_eq by (by eapply lookup_lt_Some). done.
    + destruct (Hd n r' Hn') as (j & z & Hz & Hr & <-). exists j, z. split; [|done].
      rewrite list_lookup_insert_ne; [done|]. intros ->. rewrite Hy in Hz. injection Hz as ->.
      destruct Hny; [done|lia].
Qed.

(** There is an entry not in use while fewer than [NINODE] inodes are referenced. *)
Lemma cached_spare R L tab :
  cached R L tab → (size R < NINODE)%nat → ∃ i y, list_find (λ x, i_ref x =? 0) tab = Some (i, y).
Proof.
  intros H Hs. destruct (list_find _ tab) as [[i y]|] eqn:E; [eauto|exfalso]. apply list_find_None in E.
  assert (Hp : ∀ i y, tab !! i = Some y → 0 < i_ref y).
  { intros i y Hy. rewrite Forall_forall in E. pose proof (E y (list_elem_of_lookup_2 _ _ _ Hy)) as H0. cbn beta in H0.
    pose proof (en_ref _ _ _ _ (ic_entry _ _ _ H i y Hy)). destruct (Z.eqb_spec (i_ref y) 0); [by destruct H0|lia]. }
  assert (NoDup (i_inum <$> tab)) as Hnd.
  { apply NoDup_alt. intros i j n. rewrite !list_lookup_fmap, !fmap_Some. intros (y & Hy & ->) (z & Hz & Ez).
    eapply (ic_uniq _ _ _ H); eauto. }
  assert (list_to_set (i_inum <$> tab) ⊆ dom R) as Hsub.
  { intros n. rewrite elem_of_list_to_set, elem_of_dom, list_elem_of_fmap. intros (y & -> & [i Hy]%list_elem_of_lookup_1).
    destruct (en_used _ _ _ _ (ic_entry _ _ _ H i y Hy) (Hp i y Hy)) as (_ & -> & _). eauto. }
  apply subseteq_size in Hsub. rewrite size_dom, size_list_to_set, length_fmap, (ic_len _ _ _ H) in Hsub by done. lia.
Qed.
End cached.

(** ** The operations *)

Section ops.
Context (p : nat) (pid : Z) (sb : superblock) (start size out : Z) (C : disk).

#[local] Abbreviation tx := (tx p pid start size out).
#[local] Abbreviation cached := (cached pid sb C).
#[local] Abbreviation entry_ok := (entry_ok pid sb C).

Lemma entry_incr n R L i y : 0 < i_ref y → i_inum y ≠ n → entry_ok R L i y → entry_ok (incr n R) L i y.
Proof.
  intros Hr Hne [H1 H2 H3]. split; [done..|]. intros _. destruct (H3 Hr) as (? & ? & ?).
  unfold incr. by rewrite lookup_insert_ne.
Qed.

Lemma entry_unused R R' L i y : i_ref y = 0 → entry_ok R L i y → entry_ok R' L i y.
Proof. intros Hr [H1 H2 H3]. split; [done..|]. lia. Qed.

(** Entry [i] with one more reference. *)
Lemma cached_more R L tab i y :
  cached R L tab → tab !! i = Some y → 0 < i_ref y →
  cached (incr (i_inum y) R) L (<[i := y <| i_ref ::= λ n, n + 1 |>]> tab).
Proof.
  intros H Hy Hr. pose proof (ic_entry _ _ _ _ _ _ H i y Hy) as [H1 H2 H3]. destruct (H3 Hr) as (Hd & HR & Hv).
  eapply cached_upd; [exact H|exact Hy|..].
  - split; rsimpl; [lia| |].
    + case_decide; [|done]. split; [apply H2|lia].
    + intros _. unfold incr. rewrite HR, lookup_insert_eq. split; [done|]. split; [done|].
      intros E. rewrite <- (Hv E) at 2. reflexivity.
  - intros j z Hj Hz He. destruct (decide (i_ref z = 0)); [by eapply entry_unused|].
    pose proof (en_ref _ _ _ _ _ _ _ He). apply entry_incr; [lia| |done]. intros E.
    apply Hj. eapply (ic_uniq _ _ _ _ _ _ H); [done..|lia|done|done].
  - intros j z Hj Hz Hrz _ E. apply Hj. eapply (ic_uniq _ _ _ _ _ _ H); [done..|]. by rsimpl.
  - intros n r Hn. rsimpl. destruct (decide (n = i_inum y)) as [->|Hne]; [left; lia|right].
    split; [by left|]. unfold incr in Hn. rewrite lookup_insert_ne in Hn by done. eauto.
Qed.

(** Entry [i] taken for inode [n]. *)
Lemma cached_new R L tab i y n :
  cached R L tab → tab !! i = Some y → i_ref y = 0 → R !! n = None →
  cached (incr n R) L (<[i := y <| i_dev := 1 |> <| i_inum := n |> <| i_ref := 1 |> <| i_valid := false |>]> tab).
Proof.
  intros H Hy Hr Hn. pose proof (ic_entry _ _ _ _ _ _ H i y Hy) as [H1 H2 H3].
  assert (Hno : ∀ j z, tab !! j = Some z → 0 < i_ref z → i_inum z ≠ n).
  { intros j z Hz Hrz <-. destruct (en_used _ _ _ _ _ _ _ (ic_entry _ _ _ _ _ _ H j z Hz) Hrz) as (_ & E & _). congruence. }
  eapply cached_upd; [exact H|exact Hy|..].
  - split; rsimpl; [lia| |].
    + case_decide; [lia|done].
    + intros _. unfold incr. by rewrite Hn, lookup_insert_eq.
  - intros j z Hj Hz He. destruct (decide (i_ref z = 0)); [by eapply entry_unused|].
    pose proof (en_ref _ _ _ _ _ _ _ He). apply entry_incr; [lia| |done]. apply (Hno j z); [done|lia].
  - intros j z Hj Hz Hrz _. rsimpl. by apply (Hno j z).
  - intros m r Hm. rsimpl. destruct (decide (m = n)) as [->|Hne]; [left; lia|right].
    unfold incr in Hm. rewrite lookup_insert_ne in Hm by done. split; [by right|eauto].
Qed.

(** Entry [i] with one reference less. *)
Lemma cached_less n R L tab i y :
  cached (incr n R) L tab → tab !! i = Some y → i_inum y = n → 0 < i_ref y → L ≠ Some i →
  (∀ m r, R !! m = Some r → 0 < r) → cached R L (<[i := y <| i_ref ::= λ n, n - 1 |>]> tab).
Proof.
  intros H Hy <- Hr HL Hpos. pose proof (ic_entry _ _ _ _ _ _ H i y Hy) as [H1 H2 H3]. destruct (H3 Hr) as (Hd & HR & Hv).
  unfold incr in HR. rewrite lookup_insert_eq in HR. injection HR as HR.
  eapply cached_upd; [exact H|exact Hy|..].
  - split; rsimpl; [lia|by rewrite decide_False in *|].
    intros Hr1. split; [done|]. destruct (R !! i_inum y) as [r|] eqn:E; cbn in HR; [|lia].
    split; [f_equal; lia|]. intros E'. rewrite <- (Hv E') at 2. reflexivity.
  - intros j z Hj Hz [G1 G2 G3]. split; [done..|]. intros Hrz. destruct (G3 Hrz) as (? & E & ?). split; [done|].
    unfold incr in E. rewrite lookup_insert_ne in E; [done|]. intros En. apply Hj.
    by eapply (ic_uniq _ _ _ _ _ _ H).
  - intros j z Hj Hz Hrz _ E. apply Hj. by eapply (ic_uniq _ _ _ _ _ _ H).
  - intros n r Hn. rsimpl. destruct (decide (n = i_inum y)) as [->|Hne].
    + left. split; [done|]. rewrite Hn in HR. cbn in HR. apply Hpos in Hn. lia.
    + right. split; [by left|]. unfold incr. rewrite lookup_insert_ne; eauto.
Qed.

(** Locking, unlocking and reading entry [i]. *)
Lemma cached_touch R L L' tab i y y' :
  cached R L tab → tab !! i = Some y → i_ref y' = i_ref y → i_inum y' = i_inum y → i_dev y' = i_dev y →
  (i_valid y' = true → loaded sb C y' = y') →
  (if decide (L' = Some i) then i_lock y' = Sleeplock 1 pid ∧ 0 < i_ref y' else sl_locked (i_lock y') = 0) →
  (∀ j, j ≠ i → L' = Some j ↔ L = Some j) → cached R L' (<[i := y']> tab).
Proof.
  intros H Hy Er En Ed Hv Hl HL. pose proof (ic_entry _ _ _ _ _ _ H i y Hy) as [H1 H2 H3].
  eapply cached_upd; [exact H|exact Hy|..].
  - split; [lia|done|]. rewrite Er, En, Ed. intros Hr. destruct (H3 Hr) as (? & ? & ?). done.
  - intros j z Hj Hz [G1 G2 G3]. split; [done| |done]. specialize (HL j Hj). repeat case_decide; tauto.
  - intros j z Hj Hz Hrz Hry E. apply Hj. eapply (ic_uniq _ _ _ _ _ _ H); [done..|lia|congruence].
  - intros n r Hn. rewrite En, Er. destruct (decide (n = i_inum y)) as [->|Hne]; [|right; eauto].
    destruct (decide (i_ref y = 0)); [right; eauto|left; lia].
Qed.

(** Entry [i] is a reference to inode [n]. *)
Definition refers (k : kernel) (i : nat) (n : Z) : Prop :=
  ∃ y, k_inode k !! i = Some y ∧ i_inum y = n ∧ 0 < i_ref y.

Lemma at_ino_lookup_ne i j y k : i ≠ j → k_inode (at_ino i y k) !! j = k_inode k !! j.
Proof. intros. unfold at_ino. rsimpl. by apply list_lookup_insert_ne. Qed.

Lemma refers_at i j n y k :
  refers k j n → (i = j → i_inum y = n ∧ 0 < i_ref y) → refers (at_ino i y k) j n.
Proof.
  intros (z & Hz & En & Hr) H. destruct (decide (i = j)) as [->|Hne].
  - exists y. destruct (H eq_refl). split; [by eapply at_ino_lookup|done].
  - exists z. by rewrite at_ino_lookup_ne.
Qed.

(** Giving entry [i] back does not end the last reference to an inode that has been read. *)
Definition not_last (k : kernel) (i : nat) : Prop :=
  ∀ y, k_inode k !! i = Some y → i_valid y = true → i_ref y ≠ 1.

Section code.
Context (k : kernel) (Hsolo : solo k p sb) (Hfree : inodes_free k).

Lemma iget_cached R L n s e :
  cached R L (k_inode k) → (base.size R < NINODE)%nat →
  ∃ i y, let k' := at_ino i y k in
    iget 1 n e (on k s) = Ret i e (on k' s) ∧ cached (incr n R) L (k_inode k') ∧ refers k' i n ∧ not_last k' i ∧
    (∀ j m, refers k j m → refers k' j m) ∧
    (∀ j z, L = Some j → k_inode k !! j = Some z → ∃ r, k_inode k' !! j = Some (z <| i_ref := r |>)).
Proof.
  intros H Hs. assert (Hgo : ∃ i y z, iget_entry 1 n (k_inode k) = Some (i, y) ∧ k_inode k !! i = Some z ∧
    cached (incr n R) L (<[i := y]> (k_inode k)) ∧ i_inum y = n ∧ 0 < i_ref y ∧
    (0 < i_ref z → y = z <| i_ref ::= λ n, n + 1 |>) ∧ (i_valid y = true → i_ref y ≠ 1)).
  { unfold iget_entry. destruct (list_find (iget_hit 1 n) (k_inode k)) as [[i z]|] eqn:E1.
    - apply list_find_Some in E1 as (Hz & Hh & _). unfold iget_hit in Hh. 
      assert (0 < i_ref z ∧ i_inum z = n) as [Hr <-].
      { apply Is_true_true_1, andb_true_iff in Hh as [[? ?]%andb_true_iff ?]. lia. }
      eexists i, _, z. split; [done|]. split; [done|]. split; [by apply cached_more|]. rsimpl. split; [done|]. split; [lia|]. split; [done|lia].
    - destruct (cached_spare _ _ _ _ _ _ H Hs) as (i & z & E2). rewrite E2.
      apply list_find_Some in E2 as (Hz & H0 & _). apply Is_true_true_1 in H0. eexists i, _, z. split; [done|]. split; [done|].
      rsimpl. split; [|split; [done|split; [lia|split; [lia|done]]]]. apply cached_new; [done..|lia|].
      destruct (R !! n) as [r|] eqn:E; [exfalso|done]. destruct (ic_dom _ _ _ _ _ _ H n r E) as (j & w & Hw & Hr & En).
      apply list_find_None in E1. rewrite Forall_forall in E1. apply (E1 w); [by eapply list_elem_of_lookup_2|].
      destruct (en_used _ _ _ _ _ _ _ (ic_entry _ _ _ _ _ _ H j w Hw) Hr) as (Ed & _). unfold iget_hit.
      apply Is_true_true_2. rewrite Ed, En, Z.eqb_refl. lia. }
  destruct Hgo as (i & y & z & E & Hz & Hc & En & Hr & Hold & Hlast). exists i, y. cbv zeta.
  split; [by eapply iget_ok|]. split; [done|]. split; [exists y; split; [by eapply at_ino_lookup|done]|].
  split; [by intros w; rewrite (at_ino_lookup i z y k Hz); intros [= <-]|]. split.
  - intros j m Hj. apply refers_at; [done|]. intros ->. destruct Hj as (w & Hw & Em & Hrw).
    rewrite Hz in Hw. injection Hw as <-. specialize (Hold Hrw). rewrite Hold. rsimpl. split; [done|lia].
  - intros j w HL Hw. destruct (decide (i = j)) as [->|Hne].
    + rewrite (at_ino_lookup j z y k Hz). rewrite Hz in Hw. injection Hw as <-.
      pose proof (en_lock _ _ _ _ _ _ _ (ic_entry _ _ _ _ _ _ H j z Hz)) as Hl. rewrite decide_True in Hl by done.
      rewrite (Hold (proj2 Hl)). by eexists.
    + rewrite at_ino_lookup_ne by done. exists (i_ref w). rewrite Hw. by destruct w.
Qed.

Lemma idup_cached R L i n s e :
  cached R L (k_inode k) → refers k i n →
  ∃ y, let k' := at_ino i y k in
    idup i e (on k s) = Ret i e (on k' s) ∧ cached (incr n R) L (k_inode k') ∧ refers k' i n.
Proof.
  intros H (y & Hy & <- & Hr). eexists. cbv zeta. split_and!; [| |].
  - unfold idup. rewrite bind_assoc3. by mgo (by eapply icache_upd).
  - by apply cached_more.
  - eexists. split; [by eapply at_ino_lookup|]. rsimpl. split; [done|lia].
Qed.

Lemma tx_wake s hs chan : tx s [] C hs → tx (with_proc (map (wake chan) (d_proc s)) s) [] C hs.
Proof. intros []. split; [by apply cache_wake|done..]. Qed.

(** The inode that [ilock] reads is on the disk, and in use. *)
Definition live (n : Z) : Prop := is_Some (C !! IBLOCK n sb) ∧ i_type (disk_inode sb C n) ≠ 0.

#[local] Existing Instance Memide.disk.

Lemma ilock_ok R i n s hs e :
  cached R None (k_inode k) → refers k i n → tx s [] C hs → room size 0 hs → live n →
  ∃ s' y, let k' := at_ino i y k in
    ilock (Some i) e (on k s) = Ret tt e (on k' s') ∧ tx s' [] C hs ∧ cached R (Some i) (k_inode k') ∧
    i_inum y = n ∧ i_dev y = 1 ∧ 0 < i_ref y ∧ i_valid y = true ∧ loaded sb C y = y.
Proof.
  intros H (y & Hy & <- & Hr) Ht Hroom [[d Hd] Hty].
  pose proof (ic_entry _ _ _ _ _ _ H i y Hy) as [H1 H2 H3]. rewrite decide_False in H2 by done.
  destruct (H3 Hr) as (Hdev & HR & Hv).
  set (y1 := y <| i_lock := Sleeplock 1 pid |>).
  assert (Eacq : acquiresleep (SlInode i) e (on k s) = Ret tt e (on (at_ino i y1 k) s)).
  { eapply acquiresleep_ino; [done..|apply (ca_me _ _ _ _ _ _ (tx_cache _ _ _ _ _ _ _ _ _ Ht))|done]. }
  assert (Hpost : ∀ y', i_ref y' = i_ref y → i_inum y' = i_inum y → i_dev y' = i_dev y → i_lock y' = Sleeplock 1 pid →
    loaded sb C y' = y' → cached R (Some i) (k_inode (at_ino i y' k))).
  { intros y' Er En Ed El Hl. eapply cached_touch; [exact H|exact Hy|done..| |].
    - rewrite decide_True by done. split; [done|lia].
    - intros j Hj. split; [|done]. congruence. }
  destruct (i_valid y) eqn:Ev.
  - exists s, y1. cbv zeta. assert (loaded sb C y1 = y1) as Hl1.
    { unfold y1. rewrite <- (Hv eq_refl) at 2. reflexivity. }
    split_and!; try done.
    + unfold ilock. mgo (by apply inode_get_on). replace (i_ref y <? 1) with false by lia. mgo (exact Eacq).
      mgo (apply inode_get_on; by eapply at_ino_lookup). unfold id, y1. rsimpl. by rewrite Ev.
    + by apply Hpost.
  - pose proof (solo_ino k p sb i y1 Hsolo) as Hsolo1. destruct (so_alone _ _ _ Hsolo1) as (i0 & c & Hset & Hlf & Hproc).
    destruct (read_block _ i0 c p pid Hset Hlf Hproc start size out s [] C hs _ d e Ht Hd) as
      (b & s1 & E1 & Hb & Ht1 & Hh & _); [done|by intros ? ? []%elem_of_nil|].
    set (y2 := loaded sb C y1). set (y3 := y2 <| i_valid := true |>).
    pose proof (solo_ino k p sb i y2 Hsolo) as Hsolo2. destruct (so_alone _ _ _ Hsolo2) as (i2 & c2 & Hset2 & Hlf2 & Hproc2).
    destruct (drop_block _ i2 c2 p pid Hset2 Hlf2 Hproc2 start size out s1 b [] C hs _ d e Ht1 Hb Hh Hd) as (s2 & E2 & Ht2 & _).
    assert (Eld : load_dinode d (64 * (i_inum y mod IPB)) y1 = y2) by (unfold y2, loaded, dblock, y1; rsimpl; by rewrite Hd).
    exists s2, y3. cbv zeta. split_and!; [|exact Ht2| |reflexivity|exact Hdev|exact Hr|reflexivity|reflexivity].
    + unfold ilock. mgo (by apply inode_get_on). replace (i_ref y <? 1) with false by lia. mgo (exact Eacq).
      mgo (apply inode_get_on; by eapply at_ino_lookup). unfold id, y1 at 1. rsimpl. rewrite Ev. msteps.
      change (k_sb (on (at_ino i y1 k) s)) with (k_sb k). rewrite (so_sb _ _ _ Hsolo).
      change (i_dev y1) with (i_dev y). rewrite Hdev. change (i_inum y1) with (i_inum y). mgo (exact E1).
      mgo (by eapply get_data_ok; [exact Ht1|by left|exact Hh]).
      mgo (apply inode_upd_on; by eapply at_ino_lookup). rewrite Eld, at_ino_at_ino. mgo (exact E2).
      mgo (apply inode_upd_on; by eapply at_ino_lookup). rewrite at_ino_at_ino. fold y3.
      mgo (apply inode_get_on; by eapply at_ino_lookup). change (i_type y3) with (i_type (disk_inode sb C (i_inum y))).
      rewrite (proj2 (Z.eqb_neq _ _) Hty). reflexivity.
    + apply Hpost; reflexivity.
Qed.

Lemma iunlock_ok R i n s hs e :
  cached R (Some i) (k_inode k) → refers k i n → tx s [] C hs →
  ∃ s' y, let k' := at_ino i y k in
    iunlock (Some i) e (on k s) = Ret tt e (on k' s') ∧ tx s' [] C hs ∧ cached R None (k_inode k') ∧ refers k' i n.
Proof.
  intros H (y & Hy & <- & Hr) Ht.
  pose proof (ic_entry _ _ _ _ _ _ H i y Hy) as [H1 H2 H3]. rewrite decide_True in H2 by done.
  destruct (H3 Hr) as (Hdev & HR & Hv).
  eexists _, _. cbv zeta. split_and!; [|by apply tx_wake| |].
  - unfold iunlock. mgo (by eapply holdingsleep_ino; [..|apply (ca_me _ _ _ _ _ _ (tx_cache _ _ _ _ _ _ _ _ _ Ht))|apply H2]).
    cbn [negb]. mgo (by apply inode_get_on). replace (i_ref y <? 1) with false by lia. by eapply releasesleep_ino.
  - eapply cached_touch; [exact H|exact Hy|done..| | |].
    + rsimpl. intros E. rewrite <- (Hv E) at 2. reflexivity.
    + by rewrite decide_False.
    + intros j Hj. split; [done|]. congruence.
  - eexists. split; [by eapply at_ino_lookup|]. done.
Qed.

(** The part of [iput] that may free the inode. *)
Lemma iput_part y1 k1 i s e :
  solo k1 p sb → inodes_free k1 → k_inode k1 !! i = Some y1 →
  (i_valid y1 = true → i_nlink y1 = 0 → i_ref y1 ≠ 1) →
  (if i_valid y1 && (i_nlink y1 =? 0) then
     acquire LkIcache;;
     r ← inode_get i i_ref;
     release LkIcache;;
     if r =? 1 then
       itrunc i;;
       inode_upd i (λ x, x <| i_type := 0 |>);;
       iupdate i;;
       inode_upd i (λ x, x <| i_valid := false |>)
     else mret tt
   else mret tt) e (on k1 s) = Ret tt e (on k1 s).
Proof.
  intros Hs1 Hf1 Hy H. destruct (i_valid y1) eqn:Ev; [|done]. cbn [andb].
  destruct (Z.eqb_spec (i_nlink y1) 0) as [En|]; [|done]. specialize (H eq_refl En).
  destruct (so_alone _ _ _ Hs1) as (i0 & c & Hset & _ & _). pose proof (proj1 Hf1) as Hlk.
  mgo (by apply acquire_on). mgo (apply (inode_get_on _ (acquired i0 c LkIcache k1) s i y1); exact Hy).
  mgo (apply release_on; [done|done]). by rewrite (proj2 (Z.eqb_neq _ _) H).
Qed.

(** Nothing is freed: the inode has links, or other references. *)
Lemma iput_ok n R L i s hs e :
  cached (incr n R) L (k_inode k) → L ≠ Some i → (∀ m r, R !! m = Some r → 0 < r) → refers k i n →
  tx s [] C hs → i_nlink (disk_inode sb C n) ≠ 0 ∨ not_last k i →
  ∃ s' y, let k' := at_ino i y k in
    iput i e (on k s) = Ret tt e (on k' s') ∧ tx s' [] C hs ∧ cached R L (k_inode k') ∧
    (∀ j m, j ≠ i → refers k j m → refers k' j m) ∧ (is_Some (R !! n) → refers k' i n).
Proof.
  intros H HL Hpos (y & Hy & <- & Hr) Ht Hlink.
  pose proof (ic_entry _ _ _ _ _ _ H i y Hy) as [H1 H2 H3]. rewrite decide_False in H2 by done.
  destruct (H3 Hr) as (Hdev & HR & Hv).
  set (y1 := y <| i_lock := Sleeplock 1 pid |>). set (y2 := y <| i_lock := Sleeplock 0 0 |>).
  pose proof (solo_ino k p sb i y1 Hsolo) as Hsolo1. pose proof (inodes_free_ino k i y1 Hfree) as Hfree1.
  pose proof (solo_ino k p sb i y2 Hsolo) as Hsolo2. pose proof (inodes_free_ino k i y2 Hfree) as Hfree2.
  eexists _, (y2 <| i_ref ::= λ n, n - 1 |>). cbv zeta. split_and!; [|by apply tx_wake| | |].
  - unfold iput.
    mgo (by eapply acquiresleep_ino; [..|apply (ca_me _ _ _ _ _ _ (tx_cache _ _ _ _ _ _ _ _ _ Ht))|]). fold y1.
    mgo (apply inode_get_on; by eapply at_ino_lookup). unfold id.
    assert (i_valid y1 = true → i_nlink y1 = 0 → i_ref y1 ≠ 1) as Hkeep.
    { unfold y1. rsimpl. intros Ev En0. destruct Hlink as [Hlink|Hlast]; [|by apply (Hlast y)].
      rewrite <- (Hv Ev) in En0. done. }
    mgo (apply iput_part; [exact Hsolo1|exact Hfree1|by eapply at_ino_lookup|exact Hkeep]).
    mgo (eapply (releasesleep_ino p sb _ Hsolo1 Hfree1); by eapply at_ino_lookup). rewrite at_ino_at_ino.
    change (y1 <| i_lock := Sleeplock 0 0 |>) with y2.
    rewrite (icache_upd p sb _ Hsolo2 Hfree2 i y2) by (by eapply at_ino_lookup). by rewrite at_ino_at_ino.
  - assert (cached (incr (i_inum y) R) L (<[i := y2]> (k_inode k))) as Hc.
    { eapply cached_touch; [exact H|exact Hy|done..| | |done].
      - unfold y2. rsimpl. intros E. rewrite <- (Hv E) at 2. reflexivity.
      - by rewrite decide_False. }
    eapply (cached_less (i_inum y) R L _ i y2) in Hc; [|apply list_lookup_insert_eq; by eapply lookup_lt_Some|done..].
    by rewrite list_insert_insert_eq in Hc.
  - intros j m Hj Hm. apply refers_at; [done|]. congruence.
  - intros [r HRn]. eexists. split; [by eapply at_ino_lookup|]. unfold y2. rsimpl. split; [done|].
    unfold incr in HR. rewrite lookup_insert_eq, HRn in HR. injection HR as HR. apply Hpos in HRn. cbn in HR. lia.
Qed.

End code.

#[local] Existing Instance Memide.disk.

Lemma iunlockput_ok k n R i s hs e :
  solo k p sb → inodes_free k → cached (incr n R) (Some i) (k_inode k) → (∀ m r, R !! m = Some r → 0 < r) →
  refers k i n → tx s [] C hs → i_nlink (disk_inode sb C n) ≠ 0 →
  ∃ s' y, let k' := at_ino i y k in
    iunlockput i e (on k s) = Ret tt e (on k' s') ∧ tx s' [] C hs ∧ cached R None (k_inode k') ∧
    (∀ j m, j ≠ i → refers k j m → refers k' j m) ∧ (is_Some (R !! n) → refers k' i n).
Proof.
  intros Hsolo Hfree H Hpos Href Ht Hlink.
  destruct (iunlock_ok k Hsolo Hfree _ _ _ _ _ e H Href Ht) as (s1 & y1 & E1 & Ht1 & H1 & Href1). cbv zeta in *.
  destruct (iput_ok (at_ino i y1 k) (solo_ino _ _ _ _ _ Hsolo) (inodes_free_ino _ _ _ Hfree) n R None i s1 hs e) as
    (s2 & y2 & E2 & Ht2 & H2 & Hoth & Hself); [done..|by left|]. cbv zeta in *.
  rewrite at_ino_at_ino in E2, H2, Hoth, Hself.
  exists s2, y2. split_and!; [|done|done| |done].
  - unfold iunlockput. by mgo (exact E1).
  - intros j m Hj Hm. apply Hoth; [done|]. apply refers_at; [done|]. congruence.
Qed.
End ops.
