(* ===== verification/Dir.v ===== *)
(** * Directories, proved (dirlookup, dirlink, iget of fs.c)

    A directory is a file of entries, and stands for a map from names to inode
    numbers ([dir_map]).  Inside a transaction, by a process that nothing
    disturbs, [dirlookup] looks a name up in that map, and [dirlink] inserts one
    ([dirlink_correct]): the code that scans entries, skips the empty ones and
    compares padded names implements the operations of a finite map. *)

From S2P Require Import Prelude State Spinlock Sched Sleep Sleeplock Bio Bytes Bcache Log Crash Txn Inode Alloc Bmap Console Fs Rw Icache.

(** ** Names *)

(** What a name of [n] bytes at most says: the bytes before a NUL. *)
Fixpoint cname_n (s : list Z) (n : nat) : list Z :=
  match n, s with
  | S n, c :: s => if c =? 0 then [] else c :: cname_n s n
  | _, _ => []
  end.
Definition cname (s : list Z) : list Z := cname_n s DIRSIZ.

Lemma namecmp_n_spec s t n : namecmp_n s t n = 0 ↔ cname_n s n = cname_n t n.
Proof.
  revert s t. induction n as [|n IH]; intros s t; cbn [namecmp_n cname_n]; [by destruct s, t|].
  unfold truthy. destruct s as [|a s], t as [|b t]; cbn.
  - done.
  - destruct (Z.eqb_spec b 0) as [->|]; [done|]. split; [lia|done].
  - destruct (Z.eqb_spec a 0) as [->|]; [done|]. cbn.
    destruct (Z.eqb_spec a 0); [done|]. split; [lia|done].
  - destruct (Z.eqb_spec a 0) as [->|Ha]; cbn.
    + destruct (Z.eqb_spec b 0) as [->|]; [done|]. split; [lia|done].
    + destruct (Z.eqb_spec a b) as [->|Hab]; cbn.
      * replace (b =? 0) with false by lia. rewrite IH. split; congruence.
      * destruct (b =? 0); [split; [lia|done]|]. split; [lia|congruence].
Qed.

Lemma namecmp_spec s t : namecmp s t = 0 ↔ cname s = cname t.
Proof. apply namecmp_n_spec. Qed.

(** Padding and cutting do not change what a name says. *)
Lemma cname_n_pad s n m : cname_n (take n (s ++ replicate m 0)) n = cname_n s n.
Proof.
  revert s. induction n as [|n IH]; intros s; [by destruct s|]. destruct s as [|c s]; cbn [app take cname_n].
  - destruct m; [done|]. by cbn.
  - destruct (c =? 0); [done|]. by rewrite IH.
Qed.

Lemma cname_dirent inum name : cname (de_name (dirent inum name)) = cname name.
Proof. unfold de_name, dirent. rewrite drop_app_ge by done. apply cname_n_pad. Qed.

Lemma inum_dirent inum name : 0 ≤ inum < 65536 → de_inum (dirent inum name) = inum.
Proof. intros. change (inum mod 256 + 256 * (inum / 256 mod 256) = inum). dlia. Qed.

Lemma length_dirent inum name : length (dirent inum name) = 16%nat.
Proof. unfold dirent, DIRSIZ. rewrite length_app, length_take, length_app, length_replicate. cbn [length]. lia. Qed.

(** ** Directories as maps *)

(** The entry number [j] of a directory, and what it says. *)
Definition dent (C : disk) (x : inode) (j : nat) : list Z := fbyte C x <$> seqZ (16 * Z.of_nat j) 16.
Definition said (de : list Z) : Z * list Z := (de_inum de, cname (de_name de)).

(** The entries of a directory. *)
Definition dir (C : disk) (x : inode) : list (Z * list Z) :=
  (λ j, said (dent C x j)) <$> seq 0 (Z.to_nat (i_size x / 16)).

(** The names in use, the first entry with a name counting. *)
Fixpoint dir_map (es : list (Z * list Z)) : gmap (list Z) Z :=
  match es with
  | [] => ∅
  | (inum, nm) :: es => if inum =? 0 then dir_map es else <[nm := inum]> (dir_map es)
  end.

Definition hit (nm : list Z) (e : Z * list Z) : Prop := e.1 ≠ 0 ∧ e.2 = nm.
#[export] Instance hit_dec nm e : Decision (hit nm e).
Proof. unfold hit. apply _. Defined.

Lemma dir_map_find es nm : dir_map es !! nm = (λ r, r.2.1) <$> list_find (hit nm) es.
Proof.
  induction es as [|[inum n] es IH]; [done|]. cbn [dir_map list_find]. unfold hit at 1. cbn [fst snd].
  destruct (Z.eqb_spec inum 0) as [->|Hi].
  - rewrite decide_False by (by intros []). rewrite IH. destruct (list_find _ es) as [[? ?]|]; done.
  - destruct (decide (n = nm)) as [->|Hn].
    + rewrite decide_True by done. by rewrite lookup_insert_eq.
    + rewrite decide_False by (by intros []). rewrite lookup_insert_ne by done. rewrite IH.
      destruct (list_find _ es) as [[? ?]|]; done.
Qed.

(** Filling an entry that is not in use adds a name that is not there. *)
Lemma dir_map_fill es j inum nm nm0 :
  es !! j = Some (0, nm0) → inum ≠ 0 → dir_map es !! nm = None →
  dir_map (<[j := (inum, nm)]> es) = <[nm := inum]> (dir_map es).
Proof.
  revert j. induction es as [|[i n] es IH]; intros j Hj Hi Hnm; [done|].
  destruct j as [|j]; cbn in Hj.
  - injection Hj as -> ->. change (dir_map ((inum, nm) :: es) = <[nm := inum]> (dir_map es)). cbn [dir_map].
    by replace (inum =? 0) with false by lia.
  - change (<[S j := (inum, nm)]> ((i, n) :: es)) with ((i, n) :: <[j := (inum, nm)]> es).
    cbn [dir_map] in *. destruct (i =? 0); [by apply IH|].
    apply lookup_insert_None in Hnm as [Hnm Hne]. rewrite (IH j) by done.
    by apply insert_insert_ne.
Qed.

Lemma dir_map_app es inum nm :
  inum ≠ 0 → dir_map es !! nm = None → dir_map (es ++ [(inum, nm)]) = <[nm := inum]> (dir_map es).
Proof.
  intros Hi. induction es as [|[i n] es IH]; intros Hnm; cbn [app dir_map] in *.
  - by replace (inum =? 0) with false by lia.
  - destruct (i =? 0); [by apply IH|]. apply lookup_insert_None in Hnm as [Hnm Hne].
    rewrite IH by done. by apply insert_insert_ne.
Qed.

(** ** Looking up *)

(** A directory whose blocks are in order. *)
Record dir_ok (sb : superblock) (C : disk) (x : inode) : Prop := {
  do_file : file_ok sb C x;
  do_filled : filled C x;
  do_type : i_type x = T_DIR;
  do_size : i_size x mod 16 = 0;
  do_max : 0 ≤ i_size x ≤ MAXFILE * BSIZE }.

(** The number of entries. *)
Definition ndents (x : inode) : nat := Z.to_nat (i_size x / 16).

Lemma ndents_size sb C x : dir_ok sb C x → i_size x = 16 * Z.of_nat (ndents x).
Proof. intros [_ _ _ H1 H2]. unfold ndents. dlia. Qed.

Lemma length_dir C x : length (dir C x) = ndents x.
Proof. unfold dir. by rewrite length_fmap, length_seq. Qed.

Lemma dir_lookup C x j : (j < ndents x)%nat → dir C x !! j = Some (said (dent C x j)).
Proof. intros Hj. unfold dir. by rewrite list_lookup_fmap, lookup_seq_lt. Qed.

Lemma dir_drop C x j : (j < ndents x)%nat → drop j (dir C x) = said (dent C x j) :: drop (S j) (dir C x).
Proof. intros Hj. by apply drop_S, dir_lookup. Qed.

Section lookup.
Context `{Devsw} (p : nat) (pid : Z) (sb : superblock) (start size out : Z) (ip : nat).
Context (k : kernel) (x : inode) (Hsolo : solo k p sb) (Hx : k_inode k !! ip = Some x).

#[local] Abbreviation tx := (tx p pid start size out).
#[local] Existing Instance Memide.disk.

Lemma read_dent s C hs j e :
  tx s [] C hs → dir_ok sb C x → room size 0 hs → (j < ndents x)%nat →
  ∃ s', readi ip nowhere (16 * Z.of_nat j) 16 e (on k s) = Ret (16, dent C x j) e (on k s') ∧ tx s' [] C hs.
Proof.
  intros Ht Hd Hroom Hj. pose proof (ndents_size _ _ _ Hd) as Hs.
  destruct (readi_ok p pid sb start size out ip k x s C hs (16 * Z.of_nat j) 16 e) as (s' & E & Ht'); try done.
  - apply Hd.
  - apply Hd.
  - by rewrite (do_type _ _ _ Hd).
  - lia.
  - apply Hd.
  - exists s'. split; [|done]. cbv zeta in E. by replace (Z.min 16 _) with 16 in E by lia.
Qed.

(** What [dirlookup] does with the entry it has found. *)
Definition looked (r : option (nat * (Z * list Z))) : KM (option (nat * Z)) :=
  match r with
  | None => mret None
  | Some (j, (inum, _)) => ip' ← iget (i_dev x) inum; mret (Some (ip', 16 * Z.of_nat j))
  end.

Lemma dirlookup_loop_ok fuel s C hs name j e :
  tx s [] C hs → dir_ok sb C x → room size 0 hs → (j ≤ ndents x < fuel + j)%nat →
  ∃ s', tx s' [] C hs ∧ dirlookup_loop fuel ip name (16 * Z.of_nat j) e (on k s) =
    looked (prod_map (Nat.add j) id <$> list_find (hit (cname name)) (drop j (dir C x))) e (on k s').
Proof.
  intros Ht Hd Hroom. revert s j Ht. induction fuel as [|fuel IH]; intros s j Ht Hj; [lia|].
  pose proof (ndents_size _ _ _ Hd) as Hs. cbn [dirlookup_loop].
  mgo (by apply inode_get_on). destruct (decide (j = ndents x)) as [->|Hne].
  - exists s. split; [done|]. replace (_ <? i_size x) with false by lia. cbn [negb].
    rewrite drop_ge by (rewrite length_dir; lia). done.
  - replace (_ <? i_size x) with true by lia. cbn [negb].
    destruct (read_dent s C hs j e Ht Hd Hroom ltac:(lia)) as (s1 & E1 & Ht1).
    mgo (exact E1). cbn [fst snd]. cbn [negb Z.eqb Pos.eqb]. rewrite dir_drop by lia. cbn [list_find].
    assert (Hb : negb (de_inum (dent C x j) =? 0) && (namecmp name (de_name (dent C x j)) =? 0) =
      bool_decide (hit (cname name) (said (dent C x j)))).
    { unfold hit, said. cbn [fst snd]. pose proof (namecmp_spec name (de_name (dent C x j))) as Hn.
      destruct (Z.eqb_spec (de_inum (dent C x j)) 0), (Z.eqb_spec (namecmp name (de_name (dent C x j))) 0);
        symmetry; (apply bool_decide_eq_true_2 || apply bool_decide_eq_false_2); naive_solver. }
    rewrite Hb. case_decide as Hh.
    + rewrite bool_decide_true by done. exists s1. split; [done|].
      mgo (by apply inode_get_on). unfold said. cbn [fmap option_fmap option_map prod_map looked id fst snd].
      by rewrite Nat.add_0_r.
    + rewrite bool_decide_false by done. replace (16 * Z.of_nat j + 16) with (16 * Z.of_nat (S j)) by lia.
      destruct (IH s1 (S j) Ht1 ltac:(lia)) as (s2 & Ht2 & E2). exists s2. split; [done|]. rewrite E2.
      destruct (list_find _ _) as [[i [n nm]]|]; [|done].
      unfold prod_map. cbn [fmap option_fmap option_map looked id fst snd].
      replace (S j + i)%nat with (j + S i)%nat by lia. reflexivity.
Qed.

Lemma dirlookup_ok s C hs name e :
  tx s [] C hs → dir_ok sb C x → room size 0 hs →
  ∃ s', tx s' [] C hs ∧ dirlookup ip name e (on k s) =
    looked (list_find (hit (cname name)) (dir C x)) e (on k s').
Proof.
  intros Ht Hd Hroom. destruct (dirlookup_loop_ok (entries_fuel (i_size x)) s C hs name 0 e) as (s' & Ht' & E); try done.
  { unfold entries_fuel, ndents. lia. }
  exists s'. split; [done|]. unfold dirlookup. mgo (by apply inode_get_on). unfold id.
  rewrite (do_type _ _ _ Hd). change (negb (T_DIR =? T_DIR)) with false. cbv iota. change (16 * Z.of_nat 0) with 0 in E. rewrite E.
  rewrite drop_0. destruct (list_find _ _) as [[i [n nm]]|]; reflexivity.
Qed.

(** The first entry not in use. *)
Lemma empty_dirent_ok fuel s C hs j e :
  tx s [] C hs → dir_ok sb C x → room size 0 hs → (j ≤ ndents x < fuel + j)%nat →
  ∃ s' i, tx s' [] C hs ∧ empty_dirent fuel ip (16 * Z.of_nat j) e (on k s) = Ret (16 * Z.of_nat i) e (on k s') ∧
    (i ≤ ndents x)%nat ∧ ((i < ndents x)%nat → ∃ nm, dir C x !! i = Some (0, nm)) ∧
    ∀ m en, (j ≤ m < i)%nat → dir C x !! m = Some en → en.1 ≠ 0.
Proof.
  intros Ht Hd Hroom. revert s j Ht. induction fuel as [|fuel IH]; intros s j Ht Hj; [lia|].
  pose proof (ndents_size _ _ _ Hd) as Hs. cbn [empty_dirent].
  mgo (by apply inode_get_on). destruct (decide (j = ndents x)) as [->|Hne].
  - exists s, (ndents x). replace (_ <? i_size x) with false by lia. split_and!; [done|done|lia|lia|lia].
  - replace (_ <? i_size x) with true by lia. cbn [negb].
    destruct (read_dent s C hs j e Ht Hd Hroom ltac:(lia)) as (s1 & E1 & Ht1).
    mgo (exact E1). cbn [fst snd]. cbn [negb Z.eqb Pos.eqb].
    destruct (Z.eqb_spec (de_inum (dent C x j)) 0) as [E0|E0].
    + exists s1, j. split_and!; [done|done|lia| |lia]. intros _. rewrite dir_lookup by lia. unfold said. rewrite E0. eauto.
    + replace (16 * Z.of_nat j + 16) with (16 * Z.of_nat (S j)) by lia.
      destruct (IH s1 (S j) Ht1 ltac:(lia)) as (s2 & i & Ht2 & E2 & Hi & H0 & Hb). exists s2, i. split_and!; [done..|].
      intros m en Hm Hen. destruct (decide (m = j)) as [->|]; [|apply (Hb m); [lia|done]].
      rewrite dir_lookup in Hen by lia. by injection Hen as <-.
Qed.
End lookup.

(** ** Linking *)

(** One block is written, wherever the entry is. *)
Lemma nblocks_dent j : nblocks (16 * Z.of_nat j) 16 = 1%nat.
Proof. unfold nblocks, BSIZE. dlia. Qed.

(** The directory with the entry [inum], [name] in place [j], which may be just behind the end. *)
Definition put_dent (j : nat) (en : Z * list Z) (es : list (Z * list Z)) : list (Z * list Z) :=
  if decide (j < length es)%nat then <[j := en]> es else es ++ [en].

Section link.
Context (sb : superblock) (C C' : disk) (x x' : inode) (j : nat) (de : list Z).
Context (Hd : dir_ok sb C x) (Hde : length de = 16%nat) (Hj : (j ≤ ndents x)%nat).
Context (Hmax : i_size x + 16 ≤ MAXFILE * BSIZE) (Hw : wrote_file sb (16 * Z.of_nat j) de C x C' x').

Lemma dent_put i : (i ≤ ndents x)%nat → dent C' x' i = if decide (i = j) then de else dent C x i.
Proof.
  intros Hi. pose proof (ndents_size _ _ _ Hd) as Hs. unfold dent.
  assert (E : ∀ o, 16 * Z.of_nat i ≤ o < 16 * Z.of_nat i + 16 → fbyte C' x' o =
    if decide (i = j) then default 0 (de !! Z.to_nat (o - 16 * Z.of_nat i)) else fbyte C x o).
  { intros o Ho. rewrite (wf_byte _ _ _ _ _ _ _ Hw) by lia. rewrite Hde. repeat case_decide; subst; try lia; done. }
  apply list_eq. intros m. rewrite list_lookup_fmap. destruct (decide (m < 16)%nat) as [Hm|Hm].
  - rewrite lookup_seqZ_lt by lia. cbn [fmap option_fmap option_map]. rewrite E by lia. case_decide.
    + replace (Z.to_nat _) with m by lia. by destruct (lookup_lt_is_Some_2 de m ltac:(lia)) as [v ->].
    + rewrite list_lookup_fmap, lookup_seqZ_lt by lia. done.
  - rewrite lookup_seqZ_ge by lia. case_decide; [by rewrite lookup_ge_None_2 by lia|].
    by rewrite list_lookup_fmap, lookup_seqZ_ge by lia.
Qed.

Lemma ndents_put : ndents x' = if decide (j < ndents x)%nat then ndents x else S (ndents x).
Proof.
  pose proof (ndents_size _ _ _ Hd) as Hs. unfold ndents at 1. rewrite (wf_size _ _ _ _ _ _ _ Hw), Hde.
  case_decide; dlia.
Qed.

Lemma dir_put : dir C' x' = put_dent j (said de) (dir C x).
Proof.
  unfold put_dent. rewrite length_dir. apply list_eq. intros i.
  destruct (decide (i < ndents x')%nat) as [Hi|Hi].
  - rewrite (dir_lookup C' x') by done. rewrite ndents_put in Hi. case_decide.
    + rewrite dent_put by lia. destruct (decide (i = j)) as [->|Hne].
      * rewrite list_lookup_insert_eq by (rewrite length_dir; lia). done.
      * rewrite list_lookup_insert_ne by done. rewrite dir_lookup by lia. done.
    + assert (j = ndents x) as Ej by lia. rewrite dent_put by lia. destruct (decide (i = j)) as [->|Hne].
      * rewrite lookup_app_r by (rewrite length_dir; lia). by rewrite length_dir, Ej, Nat.sub_diag.
      * rewrite lookup_app_l by (rewrite length_dir; lia). rewrite dir_lookup by lia. done.
  - rewrite lookup_ge_None_2 by (rewrite length_dir; lia). symmetry. apply lookup_ge_None_2. rewrite ndents_put in Hi.
    case_decide; rewrite ?length_insert, ?length_app, length_dir; cbn [length]; lia.
Qed.

Lemma dir_ok_put : dir_ok sb C' x'.
Proof.
  pose proof (ndents_size _ _ _ Hd) as Hs. destruct Hd. split.
  - apply Hw.
  - apply Hw.
  - by rewrite (wf_inode _ _ _ _ _ _ _ Hw).
  - rewrite (wf_size _ _ _ _ _ _ _ Hw), Hde. dlia.
  - rewrite (wf_size _ _ _ _ _ _ _ Hw), Hde. lia.
Qed.
End link.

Lemma dir_map_put es j inum nm :
  (j ≤ length es)%nat → ((j < length es)%nat → ∃ nm0, es !! j = Some (0, nm0)) → inum ≠ 0 → dir_map es !! nm = None →
  dir_map (put_dent j (inum, nm) es) = <[nm := inum]> (dir_map es).
Proof.
  intros Hj H0 Hi Hn. unfold put_dent. case_decide; [|by apply dir_map_app].
  destruct H0 as [nm0 H0]; [done|]. by eapply dir_map_fill.
Qed.

Section dirlink.
Context `{Devsw} (p : nat) (pid : Z) (sb : superblock) (start size out : Z) (dp : nat).
Context (k : kernel) (x : inode) (Hsolo : solo k p sb) (Hx : k_inode k !! dp = Some x).

#[local] Abbreviation tx := (tx p pid start size out).
#[local] Existing Instance Memide.disk.

(** What the new entry needs. *)
Record can_link (C : disk) (hs : list Z) (inum : Z) : Prop := {
  cl_out : 1 ≤ out;
  cl_sb : sb_size sb ≤ 2 ^ 32;
  cl_free : (2 ≤ length (frees sb C))%nat;
  cl_room : room size 8 hs;
  cl_size : i_size x + 16 ≤ MAXFILE * BSIZE;
  cl_inum : 0 < inum < 65536 }.

(** Entry [j] of [es] is the one to use: the first that is not in use, or just behind the end. *)
Definition first_unused (es : list (Z * list Z)) (j : nat) : Prop :=
  (j = length es ∨ ∃ nm, es !! j = Some (0, nm)) ∧ ∀ m en, (m < j)%nat → es !! m = Some en → en.1 ≠ 0.

(** The directory [C], [x] with [name] in it as inode [inum]. *)
Record linked (C : disk) (name : list Z) (inum : Z) (C' : disk) (x' : inode) : Prop := {
  ln_dir : dir_ok sb C' x';
  ln_map : free_map sb C';
  ln_entry : ∃ j, first_unused (dir C x) j ∧ dir C' x' = put_dent j (inum, cname name) (dir C x);
  ln_names : dir_map (dir C' x') = <[cname name := inum]> (dir_map (dir C x));
  ln_inode : x' = x <| i_size := i_size x' |> <| i_addrs := i_addrs x' |>;
  ln_frame : ∀ n, elsewhere sb C x n → n ≠ iblock sb x → C' !! n = C !! n }.

Lemma dirlink_new s C hs name inum e :
  tx s [] C hs → dir_ok sb C x → free_map sb C → can_link C hs inum → dir_map (dir C x) !! cname name = None →
  ∃ s' C' x' hs', dirlink dp name inum e (on k s) = Ret 0 e (on (at_ino dp x' k) s') ∧
    tx s' [] C' hs' ∧ linked C name inum C' x'.
Proof.
  intros Ht Hd Hfm [Hout Hsz Hfr Hroom Hmax Hi] Hn. rewrite dir_map_find in Hn. pose proof (ndents_size _ _ _ Hd) as Hs.
  destruct (dirlookup_ok p pid sb start size out dp k x Hsolo Hx s C hs name e Ht Hd) as (s1 & Ht1 & E1).
  { eapply room_less; [done|lia]. }
  destruct (list_find _ _) eqn:Ef; [done|]. cbn [looked] in E1.
  destruct (empty_dirent_ok p pid sb start size out dp k x Hsolo Hx (entries_fuel (i_size x)) s1 C hs 0 e Ht1 Hd) as
    (s2 & j & Ht2 & E2 & Hj & Hj0 & Hjm); [eapply room_less; [done|lia]|unfold entries_fuel, ndents; lia|].
  pose proof (length_dirent inum name) as Hlen.
  destruct (writei_ok p pid sb start size out Hout Hsz dp k x s2 C hs (dirent inum name) (16 * Z.of_nat j) e Hsolo Hx Ht2) as
    (s3 & C3 & x3 & hs3 & E3 & Ht3 & _ & Hw); [apply Hd|done|apply Hd| |].
  { split; rewrite ?Hlen; try lia.
    - by rewrite (do_type _ _ _ Hd).
    - change (Z.of_nat 16) with 16. rewrite nblocks_dent. lia.
    - change (Z.of_nat 16) with 16. rewrite nblocks_dent. done. }
  rewrite Hlen in E3. exists s3, C3, x3, hs3. split; [|split; [done|]].
  - unfold dirlink. mgo (exact E1). cbv iota. mgo (by apply inode_get_on). mgo (exact E2). mgo (exact E3). done.
  - assert (Hmax' : i_size x + 16 ≤ MAXFILE * BSIZE) by done. pose proof (dir_put sb C C3 x x3 j _ Hd Hlen Hj Hmax' Hw) as Hput.
    unfold said in Hput. rewrite cname_dirent, inum_dirent in Hput by lia.
    split; [by eapply dir_ok_put|apply Hw| | |apply Hw|apply Hw].
    { exists j. split; [|exact Hput]. split; [|intros m en Hm; apply Hjm; lia]. rewrite length_dir.
      destruct (decide (j < ndents x)%nat) as [Hlt|]; [by right; apply Hj0|left; lia]. }
    rewrite Hput. apply dir_map_put; rewrite ?length_dir; [done..|lia|]. by rewrite dir_map_find, Ef.
Qed.

Lemma dirlookup_hit R s C hs name n e :
  inodes_free k → cached pid sb C R (Some dp) (k_inode k) → (base.size R < NINODE)%nat →
  tx s [] C hs → dir_ok sb C x → room size 0 hs → dir_map (dir C x) !! cname name = Some n →
  ∃ s' i y off, let k' := at_ino i y k in
    dirlookup dp name e (on k s) = Ret (Some (i, off)) e (on k' s') ∧ tx s' [] C hs ∧
    cached pid sb C (incr n R) (Some dp) (k_inode k') ∧ refers k' i n ∧ not_last k' i ∧
    (∀ j m, refers k j m → refers k' j m).
Proof.
  intros Hfree Hc Hsz Ht Hd Hroom Hn. rewrite dir_map_find in Hn.
  destruct (dirlookup_ok p pid sb start size out dp k x Hsolo Hx s C hs name e Ht Hd Hroom) as (s1 & Ht1 & E1).
  destruct (list_find _ _) as [[j [n' nm]]|] eqn:Ef; [|done]. injection Hn as ->.
  destruct (iget_cached p pid sb C k Hsolo Hfree R (Some dp) n s1 e Hc Hsz) as (i & y & E2 & Hc2 & Href & Hlast & Hrefs & _).
  exists s1, i, y, (16 * Z.of_nat j). cbv zeta. split; [|done].
  rewrite E1. unfold looked. rewrite (fo_dev _ _ _ (do_file _ _ _ Hd)). by mgo (exact E2).
Qed.

Lemma dirlink_old R s C hs name inum n e :
  inodes_free k → cached pid sb C R (Some dp) (k_inode k) → (base.size R < NINODE)%nat →
  tx s [] C hs → dir_ok sb C x → room size 0 hs → dir_map (dir C x) !! cname name = Some n →
  n ≠ i_inum x →
  ∃ s' k', dirlink dp name inum e (on k s) = Ret (-1) e (on k' s') ∧ tx s' [] C hs ∧
    cached pid sb C R (Some dp) (k_inode k').
Proof.
  intros Hfree Hc Hsz Ht Hd Hroom Hn Hne.
  destruct (dirlookup_hit R s C hs name n e Hfree Hc Hsz Ht Hd Hroom Hn) as (s1 & i & y & off & E1 & Ht1 & Hc1 & Href & Hlast & Hrefs).
  cbv zeta in *. assert (refers k dp (i_inum x)) as Hdp.
  { exists x. split; [done|]. split; [done|].
    pose proof (en_lock _ _ _ _ _ _ _ (ic_entry _ _ _ _ _ _ Hc dp x Hx)) as Hl. rewrite decide_True in Hl by done. apply Hl. }
  assert (i ≠ dp) as Hi.
  { intros ->. apply Hrefs in Hdp as (z & Hz & Ez & _). destruct Href as (z' & Hz' & Ez' & _).
    rewrite Hz in Hz'. injection Hz' as <-. congruence. }
  destruct (iput_ok p pid sb start size out C (at_ino i y k) (solo_ino _ _ _ _ _ Hsolo) (inodes_free_ino _ _ _ Hfree)
    n R (Some dp) i s1 hs e Hc1) as (s2 & y2 & E2 & Ht2 & Hc2 & _); [congruence| |done..|by right|].
  { intros m r. by apply (cached_pos _ _ _ _ _ _ _ _ Hc). }
  eexists s2, _. split; [|split; [exact Ht2|exact Hc2]]. unfold dirlink. mgo (exact E1). cbv iota. by mgo (exact E2).
Qed.
End dirlink.

(** ** Properties *)

(** C11 [dirlink] inserts a name into the map that a directory stands for.  In a transaction, on
    a directory whose blocks are in order: if the directory has no entry for the name (its first
    14 bytes, up to a NUL), the call returns 0, and the list of entries is the old one with the
    name and its inode number in the first entry not in use, or at the end, where the directory
    grows ([put_dent]); so the names of the directory are those it had and the new one.
    The directory is in order again, and so is the free map; blocks of other files are
    as they were.  If it has the name already, for an inode other than the directory itself (with links
    or without), the call returns -1: the disk is as before, and so are the reference counts of
    all inodes, the reference that the search took being given back.  A name for the directory
    itself is the case of [dirlink_self]. *)
Theorem dirlink_correct `{Devsw} p pid sb start size out dp k x s C hs R name inum e :
  solo k p sb → inodes_free k → k_inode k !! dp = Some x → cached pid sb C R (Some dp) (k_inode k) →
  (base.size R < NINODE)%nat → tx p pid start size out s [] C hs → dir_ok sb C x → free_map sb C →
  can_link sb size out x C hs inum →
  match dir_map (dir C x) !! cname name with
  | None => ∃ s' C' x' hs',
      dirlink (H := Memide.disk) dp name inum e (on k s) = Ret 0 e (on (at_ino dp x' k) s') ∧
      tx p pid start size out s' [] C' hs' ∧ linked sb x C name inum C' x'
  | Some n => n ≠ i_inum x → ∃ s' k',
      dirlink (H := Memide.disk) dp name inum e (on k s) = Ret (-1) e (on k' s') ∧
      tx p pid start size out s' [] C hs ∧ cached pid sb C R (Some dp) (k_inode k')
  end.
Proof.
  intros Hsolo Hfree Hx Hc Hsz Ht Hd Hfm Hcan. destruct (dir_map (dir C x) !! cname name) as [n|] eqn:E.
  - intros. eapply dirlink_old; try done. eapply room_less; [apply Hcan|lia].
  - by eapply dirlink_new.
Qed.

(** C23 Linking a name that stands for the directory itself, like [.], never returns.  The
    search gives [dirlink] a second reference to the directory, which the caller has locked, and
    [iput] waits for that lock: the process sleeps until itself would wake it, inside its
    transaction. *)
Theorem dirlink_self `{Devsw} p pid sb start size out dp k x s C hs R name inum :
  solo k p sb → inodes_free k → k_inode k !! dp = Some x → cached pid sb C R (Some dp) (k_inode k) →
  (base.size R < NINODE)%nat → tx p pid start size out s [] C hs → dir_ok sb C x → room size 0 hs →
  (∀ i c, oncpu k i c → c_ncli c = 0) → dir_map (dir C x) !! cname name = Some (i_inum x) →
  ∃ k' q y, dirlink (H := Memide.disk) dp name inum [] (on k s) = Blocked k' ∧
    k_proc k' !! p = Some q ∧ p_state q = SLEEPING ∧ p_chan q = Some (ChSleep (SlInode dp)) ∧
    k_inode k' !! dp = Some y ∧ i_lock y = Sleeplock 1 (p_pid q).
Proof.
  intros Hsolo Hfree Hx Hc Hsz Ht Hd Hroom Hn E.
  destruct (dirlookup_hit p pid sb start size out dp k x Hsolo Hx R s C hs name _ [] Hfree Hc Hsz Ht Hd Hroom E) as
    (s1 & i & y & off & E1 & Ht1 & Hc1 & (z & Hz & En & Hr) & _ & Hrefs). cbv zeta in *.
  pose proof (en_lock _ _ _ _ _ _ _ (ic_entry _ _ _ _ _ _ Hc dp x Hx)) as Hl. rewrite decide_True in Hl by done.
  destruct (Hrefs dp (i_inum x)) as (w & Hw & Ew & Hrw); [exists x; split_and!; [done..|apply Hl]|].
  assert (i = dp) as -> by (eapply (ic_uniq _ _ _ _ _ _ Hc1); [done..|congruence]).
  rewrite Hz in Hw. injection Hw as <-.
  pose proof (en_lock _ _ _ _ _ _ _ (ic_entry _ _ _ _ _ _ Hc1 dp z Hz)) as Hlz. rewrite decide_True in Hlz by done.
  pose proof (ca_me _ _ _ _ _ _ (tx_cache _ _ _ _ _ _ _ _ _ Ht1)) as Hme. pose proof Hme as (pr & Ep & Hpid).
  destruct (acquiresleep_taken p pid sb (at_ino dp y k) (solo_ino _ _ _ _ _ Hsolo) (inodes_free_ino _ _ _ Hfree) dp z Hz s1) as
    (k' & E2 & Ei & Eq); [done|by rewrite (proj1 Hlz)|done|].
  eexists k', _, z. split_and!; [|rewrite Eq; by apply doze_lookup|done|done|by rewrite Ei|].
  - unfold dirlink. mgo (exact E1). cbv iota. rewrite bind_eq. unfold iput. by rewrite bind_eq, E2.
  - rewrite (proj1 Hlz). rsimpl. by rewrite Hpid.
Qed.

(** A small tree: the root directory is inode 1, in block 47 of the small disk; it has two
    entries, [.] and [a], a file with inode 2. *)
Definition x_root (l : sleeplock) : inode := Inode 1 1 1 l true T_DIR 0 0 1 32 (47 :: replicate 12 0).
Definition x_a : inode := Inode 1 2 0 (Sleeplock 0 0) true T_FILE 0 0 1 0 (replicate 13 0).
Definition ino_tree : list Z := store_dinode (x_root (Sleeplock 0 0)) 64 (store_dinode x_a 128 zero_block).
Definition root_tree : list Z := dirent 1 [46] ++ dirent 2 [97] ++ replicate 480 0.
Definition m_tree : disk := <[44 := ino_tree]> (<[47 := root_tree]> m_small).
Definition s_tree : data := Data boot_bufs [mkproc RUNNING 1 2] m_tree [] (Log 2 30 1 false 1 0 (replicate 30 0)).
Definition k_tree (l : sleeplock) : kernel := k_small <| k_inode := x_root l :: replicate 49 zero_inode |>.

Lemma tree_tx : tx 0 1 2 30 1 s_tree [] m_tree [].
Proof.
  split; [|constructor|by repeat split|done].
  apply (cache_boot 0 1 s_tree _ boot_ring); [by exists (mkproc RUNNING 1 2)|reflexivity].
Qed.

Lemma tree_solo l : solo (k_tree l) 0 sb_small.
Proof. split; [exact boot_alone|reflexivity|reflexivity]. Qed.

Lemma tree_free l : inodes_free (k_tree l).
Proof.
  split; [reflexivity|]. intros i Hi. cbn [k_tree] in Hi.
  do 50 (destruct i as [|i]; [reflexivity|]). vm_compute in Hi. lia.
Qed.

Lemma tree_file l : file_ok sb_small m_tree (x_root l) ∧ free_map sb_small m_tree.
Proof.
  assert (file_ok sb_small m_small (x_root l)) as H0 by (destruct small_file; by split).
  assert (file_ok sb_small (<[47 := root_tree]> m_small) (x_root l)) as H1.
  { apply put_file_ok; [done|apply small_good; by right|by vm_compute|by vm_compute]. }
  assert (free_map sb_small (<[47 := root_tree]> m_small)) as Hm1.
  { eapply (put_free_map sb_small m_small (x_root l)); [apply small_map|apply small_good; by right|by vm_compute..]. }
  assert (good sb_small (<[47 := root_tree]> m_small) 44) as Hg.
  { apply put_good; [apply small_good; by right|by vm_compute|apply small_good; by left]. }
  split.
  - apply put_file_ok; [done..|by vm_compute|by vm_compute].
  - eapply (put_free_map sb_small _ (x_root l)); [exact Hm1|exact Hg|by vm_compute..].
Qed.

Lemma tree_dir l : dir_ok sb_small m_tree (x_root l).
Proof.
  split; [apply tree_file| |done|done|by split].
  intros o Ho. change (i_size (x_root l)) with 32 in Ho. rewrite Z.div_small by (unfold BSIZE; lia). by vm_compute.
Qed.

Lemma tree_cached (L : option nat) l :
  l = (if decide (L = Some 0%nat) then Sleeplock 1 1 else Sleeplock 0 0) → L = Some 0%nat ∨ L = None →
  cached 1 sb_small m_tree {[1 := 1]} L (k_inode (k_tree l)).
Proof.
  intros -> HL. set (l := if decide _ then _ else _). change (k_inode (k_tree l)) with (x_root l :: replicate 49 zero_inode).
  assert (Hl : ∀ i y, (x_root l :: replicate 49 zero_inode) !! i = Some y → (i = 0%nat ∧ y = x_root l) ∨ (i ≠ 0%nat ∧ y = zero_inode)).
  { intros [|i] y; [intros [= <-]; by left|]. intros [-> _]%lookup_replicate. by right. }
  split.
  - done.
  - intros i y [[-> ->]|[Hi ->]]%Hl; split.
    + done.
    + subst l. by destruct (decide (L = Some 0%nat)).
    + intros _. split; [done|]. split; [by vm_compute|]. intros _. subst l. destruct (decide _); by vm_compute.
    + done.
    + rewrite decide_False; [done|]. intros ->. destruct HL; congruence.
    + intros Hr. vm_compute in Hr. done.
  - intros i j y z [[-> ->]|[Hi ->]]%Hl [[-> ->]|[Hj ->]]%Hl Hr Hr'; [done|done|done|]. by vm_compute in Hr.
  - intros n r [<- <-]%lookup_singleton_Some. exists 0%nat, (x_root l). done.
Qed.

#[local] Existing Instance Memide.disk.

Lemma tree_can_link : can_link sb_small 30 1 (x_root (Sleeplock 1 1)) m_tree [] 2.
Proof. split; by vm_compute. Qed.

Definition tree_map : gmap (list Z) Z := <[[46] := 1]> {[ [97] := 2 ]}.

Lemma tree_names l : dir_map (dir m_tree (x_root l)) = tree_map.
Proof. by vm_compute. Qed.
Lemma tree_a : tree_map !! cname [97] = Some 2.
Proof. by vm_compute. Qed.
Lemma tree_b : tree_map !! cname [98; 0] = None.
Proof. by vm_compute. Qed.
Lemma tree_dot : tree_map !! cname [46] = Some 1.
Proof. by vm_compute. Qed.

Lemma tree_entries l : dir m_tree (x_root l) = [(1, [46]); (2, [97])].
Proof. by vm_compute. Qed.

(** Both entries of the directory are in use. *)
Lemma tree_append l es en :
  (∃ j, first_unused (dir m_tree (x_root l)) j ∧ es = put_dent j en (dir m_tree (x_root l))) → es = dir m_tree (x_root l) ++ [en].
Proof.
  rewrite tree_entries. intros (j & [[->|[nm Hj]] _] & ->); [done|].
  destruct j as [|[|j]]; cbn in Hj; [injection Hj as ?; lia..|done].
Qed.

Lemma dirlink_correct_witness :
  (∃ s' C' x', let k := k_tree (Sleeplock 1 1) in
     dirlink (H := Memide.disk) 0 [98; 0] 2 [] (on k s_tree) = Ret 0 [] (on (at_ino 0 x' k) s') ∧
     dir_map (dir C' x') = <[[98] := 2]> tree_map ∧ dir C' x' = dir m_tree (x_root (Sleeplock 1 1)) ++ [(2, [98])]) ∧
  ∃ s' k', dirlink (H := Memide.disk) 0 [97] 3 [] (on (k_tree (Sleeplock 1 1)) s_tree) = Ret (-1) [] (on k' s').
Proof.
  pose proof (dirlink_correct 0 1 sb_small 2 30 1 0 (k_tree (Sleeplock 1 1)) (x_root (Sleeplock 1 1)) s_tree m_tree []
    {[1 := 1]}) as H. rewrite tree_names in H. split.
  - specialize (H [98; 0] 2 []). rewrite tree_b in H. destruct H as (s' & C' & x' & hs' & E & _ & Hl).
    + apply tree_solo.
    + apply tree_free.
    + done.
    + apply tree_cached; [done|by left].
    + change (1 < 50)%nat. lia.
    + apply tree_tx.
    + apply tree_dir.
    + apply (tree_file (Sleeplock 0 0)).
    + apply tree_can_link.
    + exists s', C', x'. cbv zeta. split; [exact E|]. split; [rewrite (ln_names _ _ _ _ _ _ _ Hl), tree_names; done|].
      apply tree_append, Hl.
  - specialize (H [97] 3 []). rewrite tree_a in H. destruct H as (s' & k' & E & _).
    + apply tree_solo.
    + apply tree_free.
    + done.
    + apply tree_cached; [done|by left].
    + change (1 < 50)%nat. lia.
    + apply tree_tx.
    + apply tree_dir.
    + apply (tree_file (Sleeplock 0 0)).
    + destruct tree_can_link. by split.
    + done.
    + exists s', k'. exact E.
Defined.

Lemma dirlink_self_witness :
  ∃ k' q, dirlink (H := Memide.disk) 0 [46] 2 [] (on (k_tree (Sleeplock 1 1)) s_tree) = Blocked k' ∧
    k_proc k' !! 0%nat = Some q ∧ p_chan q = Some (ChSleep (SlInode 0)).
Proof.
  destruct (dirlink_self 0 1 sb_small 2 30 1 0 (k_tree (Sleeplock 1 1)) (x_root (Sleeplock 1 1)) s_tree m_tree []
    {[1 := 1]} [46] 2) as (k' & q & y & E & Eq & _ & Ec & _).
  - apply tree_solo.
  - apply tree_free.
  - done.
  - apply tree_cached; [done|by left].
  - change (1 < 50)%nat. lia.
  - apply tree_tx.
  - apply tree_dir.
  - by vm_compute.
  - intros i c Hc%oncpu_lookup. destruct i as [|i]; [|done]. by injection Hc as <-.
  - rewrite tree_names. apply tree_dot.
  - exists k', q. split; [exact E|]. split; [exact Eq|exact Ec].
Defined.
