(* ===== verification/Path.v ===== *)
(** * Path names, proved (skipelem, namex of fs.c)

    A path is the list of its elements ([elems], a split at the slashes), and
    the directories of the disk make a graph of inode numbers ([names]); a
    lookup walks that graph ([walk]).  [namex], which takes the path apart byte by
    byte, and locks, reads and puts back the inodes on the way, returns what the
    walk finds ([namex_correct]), and leaves no reference behind but the one it
    returns. *)

From S2P Require Import Prelude State Spinlock Sched Sleep Sleeplock Bio Bytes Bcache Log Crash Txn Inode Alloc Bmap Console Fs Rw Icache Dir.

(** ** Elements *)

(** What lies between the slashes. *)
Fixpoint pieces (path : list Z) : list (list Z) :=
  match path with
  | [] => [[]]
  | c :: p =>
    if c =? 47 then [] :: pieces p
    else match pieces p with s :: ss => (c :: s) :: ss | [] => [[c]] end
  end.

(** The elements of a path, cut to [DIRSIZ] bytes. *)
Definition elems (path : list Z) : list (list Z) := take DIRSIZ <$> filter (λ s, s ≠ []) (pieces path).

Lemma pieces_cons path : ∃ s ss, pieces path = s :: ss.
Proof. destruct path as [|c p]; cbn; [eauto|]. destruct (c =? 47); [eauto|]. destruct (pieces p); eauto. Qed.

Lemma elems_slash p : elems (47 :: p) = elems p.
Proof. done. Qed.

Lemma elems_skip p : elems (skip_slashes p) = elems p.
Proof.
  induction p as [|c p IH]; [done|]. cbn [skip_slashes]. destruct (Z.eqb_spec c 47) as [->|]; [|done].
  by rewrite IH, elems_slash.
Qed.

Lemma skip_slashes_head p c q : skip_slashes p = c :: q → c ≠ 47.
Proof.
  induction p as [|d p IH]; [done|]. cbn [skip_slashes]. destruct (Z.eqb_spec d 47); [done|]. by intros [= -> ->].
Qed.

Lemma pieces_element p : ∃ ss, pieces p = fst (element p) :: ss ∧
  filter (λ s, s ≠ []) ss = filter (λ s, s ≠ []) (pieces (snd (element p))).
Proof.
  induction p as [|c p IH]; [by exists []|]. cbn [pieces element]. destruct (Z.eqb_spec c 47) as [->|].
  - by eexists.
  - destruct IH as (ss & E & Hf). destruct (element p) as [s r]. cbn [fst snd] in *. rewrite E. by exists ss.
Qed.

Lemma elems_element c p : c ≠ 47 →
  elems (c :: p) = take DIRSIZ (fst (element (c :: p))) :: elems (snd (element (c :: p))).
Proof.
  intros Hc. unfold elems. destruct (pieces_element (c :: p)) as (ss & -> & Hf). rewrite <- Hf.
  rewrite filter_cons_True; [done|]. cbn [element]. replace (c =? 47) with false by lia. by destruct (element p).
Qed.

(** [skipelem] takes the first element off a path. *)
Lemma skipelem_elems path :
  match skipelem path with
  | None => elems path = []
  | Some (nm, rest) => elems path = nm :: elems rest ∧ (rest = [] ↔ elems rest = [])
  end.
Proof.
  unfold skipelem. rewrite <- (elems_skip path). destruct (skip_slashes path) as [|c q] eqn:E; [done|].
  apply skip_slashes_head in E as Hc. pose proof (elems_element c q Hc) as He.
  destruct (element (c :: q)) as [s r]. cbn [fst snd] in He. rewrite elems_skip. split; [done|].
  rewrite <- (elems_skip r). destruct (skip_slashes r) as [|d t] eqn:Er; [done|]. split; [done|].
  apply skip_slashes_head in Er. by rewrite elems_element.
Qed.

Lemma length_elems path : (length (elems path) ≤ length path)%nat.
Proof.
  unfold elems. rewrite length_fmap. induction path as [|c p IH]; cbn [pieces]; [done|].
  destruct (c =? 47).
  - rewrite filter_cons_False by (intros H; by apply H). cbn [length]. lia.
  - destruct (pieces_cons p) as (s & ss & E). rewrite E in *. rewrite filter_cons_True by done.
    rewrite filter_cons in IH. cbn [length]. case_decide; cbn [length] in *; lia.
Qed.

(** ** Walking *)

Section walk.
Context (sb : superblock) (C : disk).

(** The names in the directory [n]. *)
Definition names (n : Z) : gmap (list Z) Z := dir_map (dir C (disk_inode sb C n)).

(** The inode that the path [es] from [n] leads to, with the last element of the path; or, for
    the parent, the directory that the last element is to be looked up in. *)
Fixpoint walk (parent : bool) (n : Z) (name : list Z) (es : list (list Z)) : option (Z * list Z) :=
  match es with
  | [] => if parent then None else Some (n, name)
  | nm :: es =>
    if negb (i_type (disk_inode sb C n) =? T_DIR) then None else
    if parent && bool_decide (es = []) then Some (n, nm) else
    match names n !! cname nm with
    | None => None
    | Some n' => walk parent n' nm es
    end
  end.

(** The inodes [T] can be walked: they are on the disk and have links, and the directories among
    them are in order and name inodes of [T] only. *)
Record tree_ok (T : Z → Prop) : Prop := {
  tr_live : ∀ n, T n → live sb C n;
  tr_nlink : ∀ n, T n → i_nlink (disk_inode sb C n) ≠ 0;
  tr_dir : ∀ n, T n → i_type (disk_inode sb C n) = T_DIR → dir_ok sb C (disk_inode sb C n);
  tr_names : ∀ n nm n', T n → i_type (disk_inode sb C n) = T_DIR → names n !! nm = Some n' → T n' }.

(** An entry of the table that has been read is the inode of the disk. *)
Lemma loaded_disk y : i_dev y = 1 → loaded sb C y = y →
  y = (disk_inode sb C (i_inum y)) <| i_ref := i_ref y |> <| i_lock := i_lock y |> <| i_valid := i_valid y |>.
Proof. intros Hd Hl. rewrite <- Hl at 1. unfold disk_inode, loaded, load_dinode. rsimpl. by destruct y; cbn in *; subst. Qed.

Lemma dir_ok_entry D r l v : dir_ok sb C D → dir_ok sb C (D <| i_ref := r |> <| i_lock := l |> <| i_valid := v |>).
Proof. intros [[] ? ? ? ?]. split; [split|..]; assumption. Qed.

Lemma dir_ok_disk y : i_dev y = 1 → loaded sb C y = y → dir_ok sb C (disk_inode sb C (i_inum y)) → dir_ok sb C y.
Proof. intros Hd Hl H. rewrite (loaded_disk y Hd Hl). by apply dir_ok_entry. Qed.

Lemma dir_entry D r l v : dir C (D <| i_ref := r |> <| i_lock := l |> <| i_valid := v |>) = dir C D.
Proof. reflexivity. Qed.

Lemma type_entry D r l v : i_type (D <| i_ref := r |> <| i_lock := l |> <| i_valid := v |>) = i_type D.
Proof. reflexivity. Qed.

Lemma type_disk y : i_dev y = 1 → loaded sb C y = y → i_type y = i_type (disk_inode sb C (i_inum y)).
Proof.
  intros Hd Hl. pose proof (f_equal i_type (loaded_disk y Hd Hl)) as E. rewrite type_entry in E. exact E.
Qed.

Lemma dir_disk y : i_dev y = 1 → loaded sb C y = y → dir_map (dir C y) = names (i_inum y).
Proof.
  intros Hd Hl. pose proof (f_equal (λ z, dir_map (dir C z)) (loaded_disk y Hd Hl)) as E. cbv beta in E.
  rewrite dir_entry in E. exact E.
Qed.
End walk.

(** ** The code *)

Definition with_ino (tab : list inode) (k : kernel) : kernel := k <| k_inode := tab |>.

Section namex.
Context `{Devsw} (p : nat) (pid : Z) (sb : superblock) (start size out : Z) (C : disk) (hs : list Z).
Context (T : Z → Prop) (Htree : tree_ok sb C T) (R : gmap Z Z) (Hpos : ∀ m r, R !! m = Some r → 0 < r).
Context (HR : (S (base.size R) < NINODE)%nat) (Hroom : room size 0 hs).

#[local] Abbreviation tx := (tx p pid start size out).
#[local] Abbreviation cached := (cached pid sb C).
#[local] Existing Instance Memide.disk.

(** The walk has ended with [r]: a reference is held to the inode found, and no other. *)
Definition arrived (k : kernel) (r : option (Z * list Z)) (m : KM (option (nat * list Z))) (e : env kernel) (k0 : kernel) : Prop :=
  ∃ tab s', let k' := with_ino tab k in tx s' [] C hs ∧
  match r with
  | Some (n, nm) => ∃ i, m e k0 = Ret (Some (i, nm)) e (on k' s') ∧ cached (incr n R) None tab ∧ refers k' i n
  | None => m e k0 = Ret None e (on k' s') ∧ cached R None tab
  end.

Lemma arrived_eq k r m m' e k0 k1 : arrived k r m' e k1 → m e k0 = m' e k1 → arrived k r m e k0.
Proof.
  intros (tab & s' & Ht & Hr) E. exists tab, s'. split; [done|]. destruct r as [[n nm]|]; rewrite E; done.
Qed.

Lemma arrived_at k i y r m e k0 : arrived (at_ino i y k) r m e k0 → arrived k r m e k0.
Proof. done. Qed.

(** The search ends: the directory is given back. *)
Lemma leave k i n s e :
  solo k p sb → inodes_free k → cached (incr n R) (Some i) (k_inode k) → refers k i n → T n → tx s [] C hs →
  arrived k None (iunlockput i;; mret None) e (on k s).
Proof.
  intros Hsolo Hfree Hc Href HT Ht.
  destruct (iunlockput_ok p pid sb start size out C k n R i s hs e Hsolo Hfree Hc Hpos Href Ht) as
    (s1 & y & E & Ht1 & Hc1 & _); [by apply (tr_nlink _ _ _ Htree)|]. cbv zeta in *.
  exists (<[i := y]> (k_inode k)), s1. split; [done|]. split; [|done]. by mgo (exact E).
Qed.

(** One step down: the directory is given back, the inode found is kept. *)
Lemma descend k i n s e x nm n' :
  solo k p sb → inodes_free k → cached (incr n R) (Some i) (k_inode k) → k_inode k !! i = Some x → i_inum x = n →
  dir_ok sb C x → dir_map (dir C x) !! cname nm = Some n' → T n → tx s [] C hs →
  ∃ s1 s2 i' off y1 y2, let k1 := at_ino i' y1 k in let k2 := at_ino i y2 k1 in
    dirlookup i nm e (on k s) = Ret (Some (i', off)) e (on k1 s1) ∧
    iunlockput i e (on k1 s1) = Ret tt e (on k2 s2) ∧ tx s2 [] C hs ∧ cached (incr n' R) None (k_inode k2) ∧
    refers k2 i' n'.
Proof.
  intros Hsolo Hfree Hc Hx <- Hd Hn HT Ht.
  destruct (dirlookup_hit p pid sb start size out i k x Hsolo Hx _ s C hs nm n' e Hfree Hc) as
    (s1 & i' & y1 & off & E1 & Ht1 & Hc1 & Href & _ & Hrefs); try done.
  { pose proof (size_incr (i_inum x) R). lia. }
  cbv zeta in *. rewrite incr_comm in Hc1.
  assert (refers k i (i_inum x)) as Hi.
  { pose proof (en_lock _ _ _ _ _ _ _ (ic_entry _ _ _ _ _ _ Hc i x Hx)) as Hl. rewrite decide_True in Hl by done.
    exists x. split_and!; [done..|apply Hl]. }
  apply Hrefs in Hi.
  destruct (iunlockput_ok p pid sb start size out C (at_ino i' y1 k) (i_inum x) (incr n' R) i s1 hs e
    (solo_ino _ _ _ _ _ Hsolo) (inodes_free_ino _ _ _ Hfree) Hc1) as (s2 & y2 & E2 & Ht2 & Hc2 & Hoth & Hself); try done.
  { intros m r. unfold incr. intros [[<- <-]|[_ Hm]]%lookup_insert_Some; [|by eapply Hpos].
    destruct (R !! n') as [r'|] eqn:E; cbn; [apply Hpos in E|]; lia. }
  { by apply (tr_nlink _ _ _ Htree). }
  exists s1, s2, i', off, y1, y2. cbv zeta in *. split_and!; [done..|].
  destruct (decide (i' = i)) as [->|Hne]; [|by apply Hoth].
  destruct Hi as (z & Hz & Ez & _), Href as (z' & Hz' & Ez' & _). rewrite Hz in Hz'. injection Hz' as <-.
  rewrite Ez in Ez'. subst n'. apply Hself. unfold incr. rewrite lookup_insert_eq. eauto.
Qed.

Lemma namex_loop_ok fuel k i n path parent name s e :
  solo k p sb → inodes_free k → cached (incr n R) None (k_inode k) → refers k i n → T n → tx s [] C hs →
  (length (elems path) < fuel)%nat →
  arrived k (walk sb C parent n name (elems path)) (namex_loop fuel i path parent name) e (on k s).
Proof.
  revert k i n path name s. induction fuel as [|fuel IH]; intros k i n path name s Hsolo Hfree Hc Href HT Ht Hl; [lia|].
  pose proof (skipelem_elems path) as Hsk. cbn [namex_loop]. destruct (skipelem path) as [[nm rest]|].
  2:{ rewrite Hsk. cbn [walk]. destruct parent.
      - destruct (iput_ok p pid sb start size out C k Hsolo Hfree n R None i s hs e Hc) as
          (s1 & y & E & Ht1 & Hc1 & _); [done..|by left; apply (tr_nlink _ _ _ Htree)|]. cbv zeta in *.
        exists (<[i := y]> (k_inode k)), s1. split; [done|]. split; [|done]. by mgo (exact E).
      - exists (k_inode k), s. split; [done|]. exists i. replace (with_ino (k_inode k) k) with k by (by destruct k). done. }
  destruct Hsk as [He Hr]. rewrite He in *. cbn [walk length] in *.
  destruct (ilock_ok p pid sb start size out C k Hsolo Hfree _ i n s hs e Hc Href Ht Hroom (tr_live _ _ _ Htree n HT)) as
    (s1 & y & E1 & Ht1 & Hc1 & En & Hdev & Hry & Hv & Hld). cbv zeta in *.
  set (k1 := at_ino i y k) in *. pose proof (solo_ino k p sb i y Hsolo : solo k1 p sb) as Hsolo1.
  pose proof (inodes_free_ino k i y Hfree : inodes_free k1) as Hfree1.
  assert (k_inode k1 !! i = Some y) as Hy by (destruct Href as (z & Hz & _); by eapply at_ino_lookup).
  assert (refers k1 i n) as Href1 by (by exists y).
  assert (i_type y = i_type (disk_inode sb C n)) as Hty by (rewrite <- En; by apply type_disk).
  assert (Hpre : ∀ r m, arrived k1 r m e (on k1 s1) → arrived k r (ilock (Some i);; m) e (on k s)).
  { intros r m Hm. apply (arrived_at k i y). eapply arrived_eq; [exact Hm|]. by mgo (exact E1). }
  apply Hpre. eapply arrived_eq; [|by mgo (by apply (inode_get_on i_type k1))]. rewrite Hty.
  destruct (Z.eqb_spec (i_type (disk_inode sb C n)) T_DIR) as [Hdir|Hdir]; cbn [negb]; [|by eapply leave].
  replace (bool_decide (elems rest = [])) with (bool_decide (rest = [])) by (by apply bool_decide_ext).
  destruct (parent && bool_decide (rest = [])) eqn:Eb.
  { destruct (iunlock_ok p pid sb start size out C k1 Hsolo1 Hfree1 _ _ _ _ _ e Hc1 Href1 Ht1) as (s2 & y2 & E2 & Ht2 & Hc2 & Href2).
    cbv zeta in *. exists (<[i := y2]> (k_inode k1)), s2. split; [done|]. exists i. split; [|done]. by mgo (exact E2). }
  assert (dir_ok sb C y) as Hd by (apply dir_ok_disk; [done..|rewrite En; by apply (tr_dir _ _ _ Htree)]).
  pose proof (dir_disk sb C y Hdev Hld) as Hnames. rewrite En in Hnames. rewrite <- Hnames.
  destruct (dir_map (dir C y) !! cname nm) as [n'|] eqn:Elk.
  - destruct (descend k1 i n s1 e y nm n') as (s2 & s3 & i' & off & y1 & y2 & E2 & E3 & Ht3 & Hc3 & Href3); try done.
    cbv zeta in *. apply (arrived_at k1 i' y1), (arrived_at _ i y2).
    eapply arrived_eq; [apply (IH (at_ino i y2 (at_ino i' y1 k1)) i' n' rest nm s3)|].
    + by do 2 apply solo_ino.
    + by do 2 apply inodes_free_ino.
    + done.
    + done.
    + rewrite Hnames in Elk. by eapply (tr_names _ _ _ Htree).
    + done.
    + lia.
    + mgo (exact E2). cbv iota. by mgo (exact E3).
  - rewrite dir_map_find in Elk.
    destruct (dirlookup_ok p pid sb start size out i k1 y Hsolo1 Hy s1 C hs nm e Ht1 Hd Hroom) as (s2 & Ht2 & E2).
    destruct (list_find _ _) eqn:Ef; [done|]. cbn [looked] in E2.
    eapply arrived_eq; [by eapply (leave k1 i n s2)|]. mgo (exact E2). reflexivity.
Qed.
End namex.

(** ** Properties *)

(** A lookup of [path] starts at inode [n]: at the root, or at the current directory of the
    process. *)
Definition starts (p : nat) (k : kernel) (s : data) (path : list Z) (n : Z) : Prop :=
  if default 0 (path !! 0%nat) =? 47 then n = ROOTINO
  else ∃ q cwd, d_proc s !! p = Some q ∧ p_cwd q = Some cwd ∧ refers k cwd n.

(** C10 Paths are resolved as the directories say.  In a transaction, with [R] the references
    to inodes that are held, and all directories that can be reached in order: [namex] of any path, from the
    root or from the current directory, returns just what walking the names of the directories
    from there gives, element by element: the inode, with a reference to it, or its parent
    and the last element; or nothing, where an element is missing or is not a directory.
    It returns, the disk is as before, and the references held afterwards are those held before and
    the one returned: every inode on the way has been unlocked and given back. *)
Theorem namex_correct `{Devsw} p pid sb start size out C hs T R k s path parent n e :
  tree_ok sb C T → T n → starts p k s path n → solo k p sb → inodes_free k →
  cached pid sb C R None (k_inode k) → (S (base.size R) < NINODE)%nat → tx p pid start size out s [] C hs → room size 0 hs →
  ∃ tab s', let k' := with_ino tab k in tx p pid start size out s' [] C hs ∧
    match walk sb C parent n [] (elems path) with
    | Some (n', nm) => ∃ i, namex (H := Memide.disk) path parent e (on k s) = Ret (Some (i, nm)) e (on k' s') ∧
        cached pid sb C (incr n' R) None tab ∧ refers k' i n'
    | None => namex (H := Memide.disk) path parent e (on k s) = Ret None e (on k' s') ∧ cached pid sb C R None tab
    end.
Proof.
  intros Htree HT Hst Hsolo Hfree Hc HR Ht Hroom.
  assert (Hpos : ∀ m r, R !! m = Some r → 0 < r) by (intros m r; by apply (cached_pos _ _ _ _ _ _ _ _ Hc)).
  assert (Hgo : ∀ i y, let k1 := at_ino i y k in
    (if default 0 (path !! 0%nat) =? 47 then iget ROOTDEV ROOTINO
     else p ← myproc; p ← deref p; cwd ← proc_get p p_cwd; cwd ← deref cwd; idup cwd) e (on k s) = Ret i e (on k1 s) →
    cached pid sb C (incr n R) None (k_inode k1) → refers k1 i n →
    arrived p pid sb start size out C hs R k (walk sb C parent n [] (elems path)) (namex (H := Memide.disk) path parent) e (on k s)).
  { intros i y k1 E Hc1 Href. apply (arrived_at p pid sb start size out C hs R k i y). fold k1.
    eapply arrived_eq; [eapply (namex_loop_ok p pid sb start size out C hs T Htree R Hpos HR Hroom (S (length path)) k1)|].
    - by apply solo_ino.
    - by apply inodes_free_ino.
    - exact Hc1.
    - exact Href.
    - done.
    - done.
    - pose proof (length_elems path). lia.
    - unfold namex. by mgo (exact E). }
  unfold starts in Hst. destruct (default 0 (path !! 0%nat) =? 47).
  - subst n. destruct (iget_cached p pid sb C k Hsolo Hfree R None ROOTINO s e Hc) as (i & y & E & Hc1 & Href & _); [lia|].
    by apply (Hgo i y).
  - destruct Hst as (q & cwd & Eq & Ecwd & Href).
    destruct (idup_cached p pid sb C k Hsolo Hfree R None cwd n s e Hc Href) as (y & E & Hc1 & Href1). cbv zeta in *.
    apply (Hgo cwd y); [|done..]. destruct (so_alone _ _ _ Hsolo) as (i0 & c & Hset & _ & Hproc).
    mgo (eapply myproc_settled, on_settled; exact Hset). rewrite Hproc. asteps.
    mgo (apply (proc_get_ok _ p q); exact Eq). rewrite Ecwd. by asteps.
Qed.

Lemma disk_root : disk_inode sb_small m_tree 1 =
  (x_root (Sleeplock 0 0)) <| i_ref := 0 |> <| i_lock := Sleeplock 0 0 |> <| i_valid := false |>.
Proof. by vm_compute. Qed.

Lemma disk_a : disk_inode sb_small m_tree 2 = x_a <| i_valid := false |>.
Proof. by vm_compute. Qed.

Lemma tree_walkable : tree_ok sb_small m_tree (λ n, n = 1 ∨ n = 2).
Proof.
  split.
  - intros n [-> | ->]; split; [exists ino_tree; by vm_compute|by rewrite disk_root|exists ino_tree; by vm_compute|by rewrite disk_a].
  - intros n [-> | ->]; [by rewrite disk_root|by rewrite disk_a].
  - intros n [-> | ->]; [|by rewrite disk_a]. intros _. rewrite disk_root. apply dir_ok_entry, tree_dir.
  - intros n nm n' [-> | ->]; [|by rewrite disk_a]. intros _. unfold names. rewrite disk_root, dir_entry, tree_names.
    unfold tree_map. intros [[_ <-]|[_ [_ <-]%lookup_singleton_Some]]%lookup_insert_Some; [by left|by right].
Qed.

#[local] Existing Instance Memide.disk.

(** [/a] is inode 2, its parent is the root, and there is nothing under it. *)
Lemma namex_correct_witness :
  let k := k_tree (Sleeplock 0 0) in
  (∃ i k' s', namex [47; 97] false [] (on k s_tree) = Ret (Some (i, [97])) [] (on k' s') ∧ refers k' i 2) ∧
  (∃ i k' s', namex [47; 97] true [] (on k s_tree) = Ret (Some (i, [97])) [] (on k' s') ∧ refers k' i 1) ∧
  ∃ k' s', namex [47; 97; 47; 98] false [] (on k s_tree) = Ret None [] (on k' s').
Proof.
  intros k.
  assert (H : ∀ path parent, default 0 (path !! 0%nat) = 47 → _) by
    (intros path parent Hp; refine (namex_correct 0 1 sb_small 2 30 1 m_tree [] (λ n, n = 1 ∨ n = 2) {[1 := 1]} k s_tree
       path parent 1 [] tree_walkable (or_introl eq_refl) _ (tree_solo _) (tree_free _)
       (tree_cached None _ eq_refl (or_intror eq_refl)) _ tree_tx _);
     [unfold starts; by rewrite Hp|change (2 < 50)%nat; lia|by vm_compute]).
  split_and!.
  - destruct (H [47; 97] false eq_refl) as (tab & s' & _ & Hw).
    assert (walk sb_small m_tree false 1 [] (elems [47; 97]) = Some (2, [97])) as E by (by vm_compute).
    rewrite E in Hw. destruct Hw as (i & E1 & _ & Href). eexists i, _, s'. split; [exact E1|exact Href].
  - destruct (H [47; 97] true eq_refl) as (tab & s' & _ & Hw).
    assert (walk sb_small m_tree true 1 [] (elems [47; 97]) = Some (1, [97])) as E by (by vm_compute).
    rewrite E in Hw. destruct Hw as (i & E1 & _ & Href). eexists i, _, s'. split; [exact E1|exact Href].
  - destruct (H [47; 97; 47; 98] false eq_refl) as (tab & s' & _ & Hw).
    assert (walk sb_small m_tree false 1 [] (elems [47; 97; 47; 98]) = None) as E by (by vm_compute).
    rewrite E in Hw. destruct Hw as [E1 _]. eexists _, s'. exact E1.
Defined.
