(* ===== verification/Mkfs.v ===== *)
(** * The first file system (mkfs.c)

    [mkfs] lays out an empty disk, copies files into its root directory and
    writes the free map.  It runs on the build machine, where the image is a
    file, here a map from sectors to their bytes, which it extends by writing.
    [exit(1)] and a failed [assert] are panics.  [xint] and [xshort] make the
    bytes of a number little endian on any machine: a field that is written and
    read through them is a little-endian number in the bytes of a block.

    [mkfs_marks]: the disk it leaves satisfies what the kernel's allocator
    relies on ([free_map] of Alloc.v), with just the blocks below [freeblock]
    marked.  That those are the blocks of its files is in Mkimage.v. *)

From S2P Require Import Prelude State Consout Bio Bytes Crash Inode Alloc Bmap Console Fs Rw.

(** [src/xv6-public/mkfs.c:18] *)
Definition NINODES : Z := 200.
(** [src/xv6-public/mkfs.c:23] *)
Definition nbitmap : Z := FSSIZE / (BSIZE * 8) + 1.
(** [src/xv6-public/mkfs.c:24] *)
Definition ninodeblocks : Z := NINODES / IPB + 1.
(** [src/xv6-public/mkfs.c:25] *)
Definition nlog : Z := LOGSIZE.

(** [src/xv6-public/mkfs.c:94] *)
Definition nmeta : Z := 2 + nlog + ninodeblocks + nbitmap.
(** [src/xv6-public/mkfs.c:95-103] *)
Definition mk_sb : superblock :=
  Superblock FSSIZE (FSSIZE - nmeta) NINODES nlog 2 (2 + nlog) (2 + nlog + ninodeblocks).

(** [src/xv6-public/mkfs.c:29-33] the image behind [fsfd] and the two counters *)
Record image := Image { im_disk : disk; im_freeinode : Z; im_freeblock : Z }.

#[export] Instance image_eta : Settable image := λ i, Image (im_disk i) (im_freeinode i) (im_freeblock i).
#[export] Instance set_im_disk : Setter im_disk.
Proof. solve_setter. Defined.
#[export] Instance set_im_freeinode : Setter im_freeinode.
Proof. solve_setter. Defined.
#[export] Instance set_im_freeblock : Setter im_freeblock.
Proof. solve_setter. Defined.

Abbreviation IM := (M image).

Definition massert (b : bool) : IM unit := if b then mret tt else mpanic "assert".

(** [src/xv6-public/mkfs.c:170-181] an image in memory can always be written: the exits for a failed
    [lseek] or [write] of the host are not taken *)
Definition wsect (sec : Z) (buf : list Z) : IM unit :=
  modify (λ i, i <| im_disk ::= <[sec := buf]> |>).

(** [src/xv6-public/mkfs.c:210-221] a sector behind the end of the image cannot be read *)
Definition rsect (sec : Z) : IM (list Z) :=
  d ← gets im_disk;
  match d !! sec with Some buf => mret buf | None => mpanic "read" end.

(** The offset of inode [inum] in its block; a [struct dinode] has 64 bytes. *)
Definition dip (inum : Z) : Z := 64 * (inum mod IPB).

(** [src/xv6-public/mkfs.c:183-195] *)
Definition winode (inum : Z) (ip : list Z) : IM unit :=
  let bn := IBLOCK inum mk_sb in
  buf ← rsect bn;
  wsect bn (splice buf (dip inum) ip).

(** [src/xv6-public/mkfs.c:197-208] *)
Definition rinode (inum : Z) : IM (list Z) :=
  let bn := IBLOCK inum mk_sb in
  buf ← rsect bn;
  mret (slice buf (dip inum) 64).

(** [src/xv6-public/mkfs.c:226] [freeinode++] *)
Definition next_inode : IM Z :=
  n ← gets im_freeinode; modify (λ i, i <| im_freeinode := wrap32 (n + 1) |>);; mret n.
(** [src/xv6-public/mkfs.c:273] [freeblock++], also in lines 278 and 282 *)
Definition next_block : IM Z :=
  n ← gets im_freeblock; modify (λ i, i <| im_freeblock := wrap32 (n + 1) |>);; mret n.

(** Offsets of the fields of a [struct dinode]. *)
Definition o_type : Z := 0.
Definition o_nlink : Z := 6.
Definition o_size : Z := 8.
Definition o_addr (i : Z) : Z := 12 + 4 * i.

(** [src/xv6-public/mkfs.c:223-235] *)
Definition ialloc (type : Z) : IM Z :=
  inum ← next_inode;
  let din := replicate 64 0 in
  let din := put16 din o_type type in
  let din := put16 din o_nlink 1 in
  let din := put32 din o_size 0 in
  winode inum din;;
  mret inum.

(** [src/xv6-public/mkfs.c:246-248] the loop, for the bits from [i] on *)
Fixpoint mark (n : nat) (i : Z) (buf : list Z) : list Z :=
  match n with
  | O => buf
  | S n => mark n (i + 1) (put8 buf (i / 8) (Z.lor (get8 buf (i / 8)) (Z.shiftl 1 (i mod 8))))
  end.

(** [src/xv6-public/mkfs.c:237-251] *)
Definition balloc (used : Z) : IM unit :=
  massert (used <? BSIZE * 8);;
  wsect (sb_bmapstart mk_sb) (mark (Z.to_nat used) 0 zero_block).

(** [src/xv6-public/mkfs.c:269-286] the block of the file at [fbn], and the inode with it *)
Definition file_block (fbn : Z) (din : list Z) : IM (Z * list Z) :=
  massert (fbn <? MAXFILE);;
  if fbn <? Z.of_nat NDIRECT then
    din ← (if get32 din (o_addr fbn) =? 0 then b ← next_block; mret (put32 din (o_addr fbn) b) else mret din);
    mret (get32 din (o_addr fbn), din)
  else
    let ind := o_addr (Z.of_nat NDIRECT) in
    din ← (if get32 din ind =? 0 then b ← next_block; mret (put32 din ind b) else mret din);
    indirect ← rsect (get32 din ind);
    let o := 4 * (fbn - Z.of_nat NDIRECT) in
    indirect ← (if get32 indirect o =? 0 then
                  b ← next_block;
                  let indirect := put32 indirect o b in
                  wsect (get32 din ind) indirect;;
                  mret indirect
                else mret indirect);
    mret (get32 indirect o, din).

(** [src/xv6-public/mkfs.c:268-294] the loop of [iappend] over the bytes [p]; returns [off]
    and the inode *)
Fixpoint iappend_loop (fuel : nat) (p : list Z) (off : Z) (din : list Z) : IM (Z * list Z) :=
  match fuel with
  | O => λ _ i, NoFuel i
  | S fuel =>
    if Z.of_nat (length p) <=? 0 then mret (off, din) else
    let fbn := off / BSIZE in
    '(x, din) ← file_block fbn din;
    let n1 := Z.min (Z.of_nat (length p)) ((fbn + 1) * BSIZE - off) in
    buf ← rsect x;
    wsect x (splice buf (off - fbn * BSIZE) (take (Z.to_nat n1) p));;
    iappend_loop fuel (drop (Z.to_nat n1) p) (off + n1) din
  end.

(** [src/xv6-public/mkfs.c:255-297] a turn of the loop takes at least a byte *)
Definition iappend (inum : Z) (p : list Z) : IM unit :=
  din ← rinode inum;
  let off := wrap32 (get32 din o_size) in
  '(off, din) ← iappend_loop (S (length p)) p off din;
  winode inum (put32 din o_size off).

(** A file to copy: its name on the command line, and what [read] returns, if it can be opened. *)
Record infile := Infile { if_name : list Z; if_reads : option (list (list Z)) }.

(** [src/xv6-public/mkfs.c:152-153] *)
Fixpoint copy (inum : Z) (reads : list (list Z)) : IM unit :=
  match reads with
  | [] => mret tt
  | buf :: reads => if Z.of_nat (length buf) >? 0 then iappend inum buf;; copy inum reads else mret tt
  end.

(** [src/xv6-public/mkfs.c:131-155] the body of the loop over the files *)
Definition add_file (rootino : Z) (f : infile) : IM unit :=
  massert (bool_decide (47 ∉ if_name f));;
  match if_reads f with
  | None => mpanic "open"
  | Some reads =>
    let name := match if_name f with 95 :: name => name | name => name end in
    inum ← ialloc T_FILE;
    iappend rootino (dirent inum name);;
    copy inum reads
  end.

(** [src/xv6-public/mkfs.c:130-156] *)
Fixpoint add_files (rootino : Z) (fs : list infile) : IM unit :=
  match fs with [] => mret tt | f :: fs => add_file rootino f;; add_files rootino fs end.

(** [src/xv6-public/mkfs.c:110-111] *)
Fixpoint wipe (n : nat) (i : Z) : IM unit :=
  match n with O => mret tt | S n => wsect i zero_block;; wipe n (i + 1) end.

(** [src/xv6-public/mkfs.c:113-114] the fields of [sb] in the first bytes of its sector *)
Definition sb_bytes (sb : superblock) : list Z :=
  let l := put32 zero_block 0 (sb_size sb) in
  let l := put32 l 4 (sb_nblocks sb) in
  let l := put32 l 8 (sb_ninodes sb) in
  let l := put32 l 12 (sb_nlog sb) in
  let l := put32 l 16 (sb_logstart sb) in
  let l := put32 l 20 (sb_inodestart sb) in
  put32 l 24 (sb_bmapstart sb).

(** [src/xv6-public/mkfs.c:158-163] *)
Definition fix_root (rootino : Z) : IM unit :=
  din ← rinode rootino;
  let off := get32 din o_size in
  winode rootino (put32 din o_size ((off / BSIZE + 1) * BSIZE)).

(** [src/xv6-public/mkfs.c:67-168] from the layout on *)
Definition mkfs (files : list infile) : IM unit :=
  modify (λ i, i <| im_freeblock := nmeta |>);;
  wipe (Z.to_nat FSSIZE) 0;;
  wsect 1 (sb_bytes mk_sb);;
  rootino ← ialloc T_DIR;
  massert (rootino =? ROOTINO);;
  iappend rootino (dirent rootino (codes "."));;
  iappend rootino (dirent rootino (codes ".."));;
  add_files rootino files;;
  fix_root rootino;;
  used ← gets im_freeblock;
  balloc used.

(** The image before: an empty file, [freeinode] is 1. *)
Definition new_image : image := Image ∅ 1 0.

(** ** The loops end, and the image stays a disk

    [ready]: the image has the sectors of the disk and no others, and [freeblock] is behind the
    metadata and not behind the end. *)

Record sectors (i : image) : Prop := {
  se_range : ∀ b d, im_disk i !! b = Some d → 0 ≤ b < FSSIZE ∧ length d = Z.to_nat BSIZE;
  se_all : ∀ b, 0 ≤ b < FSSIZE → is_Some (im_disk i !! b) }.

Definition ready (i : image) : Prop := sectors i ∧ nmeta ≤ im_freeblock i ≤ FSSIZE.

(** The same but for a block [x] that has just been taken and may be behind the end. *)
Definition taken (x : Z) (i : image) : Prop :=
  sectors i ∧ nmeta ≤ im_freeblock i ≤ FSSIZE + 1 ∧ (x < FSSIZE → im_freeblock i ≤ FSSIZE).

(** From a state with [P], [m] returns in a state with [Q], or exits. *)
Definition ends {A} (P : image → Prop) (Q : A → image → Prop) (m : IM A) : Prop :=
  ∀ e i, P i → match m e i with
               | Ret a e' i' => e' = e ∧ Q a i'
               | Panic _ _ => True
               | _ => False
               end.

Lemma ends_bind {A B} P (Q : A → image → Prop) (R : B → image → Prop) (m : IM A) (f : A → IM B) :
  ends P Q m → (∀ a, ends (Q a) R (f a)) → ends P R (m ≫= f).
Proof.
  intros Hm Hf e i Hi. rewrite bind_eq. specialize (Hm e i Hi). destruct (m e i); try done.
  destruct Hm as [-> Hq]. by apply Hf.
Qed.
Lemma ends_ret {A} P (a : A) (Q : A → image → Prop) : (∀ i, P i → Q a i) → ends P Q (mret a).
Proof. intros H e i Hi. split; [done|by apply H]. Qed.
Lemma ends_pre {A} (P P' : image → Prop) (Q : A → image → Prop) m : (∀ i, P' i → P i) → ends P Q m → ends P' Q m.
Proof. intros H Hm e i Hi. by apply Hm, H. Qed.
Lemma ends_pure {A} (φ : Prop) P (Q : A → image → Prop) m : (φ → ends P Q m) → ends (λ i, P i ∧ φ) Q m.
Proof. intros H e i [Hi Hφ]. by apply H. Qed.
Lemma ends_seq {A} P P' (Q : A → image → Prop) (m : IM unit) (m' : IM A) :
  ends P (λ _, P') m → ends P' Q m' → ends P Q (m;; m').
Proof. intros. eapply ends_bind; [done|]. by intros []. Qed.

(** A sector that can be read is one of the disk. *)
Lemma ends_rsect x :
  ends (taken x) (λ d i, ready i ∧ length d = Z.to_nat BSIZE ∧ 0 ≤ x < FSSIZE) (rsect x).
Proof.
  intros e i (Hs & Hf & Hx). unfold rsect. msteps. destruct (im_disk i !! x) as [d|] eqn:E; [|done].
  destruct (se_range _ Hs x d E). split; [done|]. split; [|done]. split; [done|]. lia.
Qed.
Lemma ready_taken x i : ready i → taken x i.
Proof. intros [Hs Hf]. split; [done|]. lia. Qed.
Lemma ends_rsect_ready x :
  ends ready (λ d i, ready i ∧ length d = Z.to_nat BSIZE ∧ 0 ≤ x < FSSIZE) (rsect x).
Proof. eapply ends_pre; [apply (ready_taken x)|apply ends_rsect]. Qed.

Lemma ends_wsect x buf :
  0 ≤ x < FSSIZE → length buf = Z.to_nat BSIZE → ends ready (λ _, ready) (wsect x buf).
Proof.
  intros Hx Hl e i [[Hr Ha] Hf]. split; [done|]. split; [|done]. split; rsimpl.
  - intros b d [[<- <-]|[_ Hd]]%lookup_insert_Some; [done|by apply Hr].
  - intros b Hb. apply lookup_insert_is_Some'. right. by apply Ha.
Qed.

Lemma ends_next_inode : ends ready (λ _, ready) next_inode.
Proof. intros e i Hi. split; [done|]. destruct Hi as [[] ?]. by split. Qed.
Lemma ends_next_block : ends ready (λ b i, taken b i ∧ is_u32 b) next_block.
Proof.
  intros e i [Hs Hf]. unfold next_block. msteps. split; [done|].
  assert (Hm : 0 ≤ nmeta) by done. assert (HF : FSSIZE = 1000) by done.
  split; [|unfold is_u32; lia]. split; [by destruct Hs|]. rsimpl. rewrite wrap32_small by (unfold is_u32; lia). lia.
Qed.
Lemma ends_massert b : ends ready (λ _ i, ready i ∧ b = true) (massert b).
Proof. by destruct b. Qed.

(** The inode [inum] in its block. *)
Lemma dip_range inum : 0 ≤ dip inum ∧ dip inum + 64 ≤ BSIZE.
Proof. unfold dip. pose proof (Z.mod_pos_bound inum IPB ltac:(done)). change IPB with 8 in *. unfold BSIZE. lia. Qed.

Lemma length_splice_block d o bs :
  0 ≤ o → o + Z.of_nat (length bs) ≤ BSIZE → length d = Z.to_nat BSIZE → length (splice d o bs) = Z.to_nat BSIZE.
Proof.
  intros Ho Hb Hd. assert (Z.of_nat (length d) = BSIZE) by (rewrite Hd; done). rewrite length_splice by lia. done.
Qed.

Lemma ends_winode inum ip : length ip = 64%nat → ends ready (λ _, ready) (winode inum ip).
Proof.
  intros Hip. unfold winode. eapply ends_bind; [apply ends_rsect_ready|]. intros buf. apply ends_pure. intros [Hl Hx].
  apply ends_wsect; [done|]. destruct (dip_range inum). apply length_splice_block; [done|rewrite Hip; lia|done].
Qed.
Lemma ends_rinode inum : ends ready (λ d i, ready i ∧ length d = 64%nat) (rinode inum).
Proof.
  unfold rinode. eapply ends_bind; [apply ends_rsect_ready|]. intros buf. apply ends_pure. intros [Hl _].
  apply ends_ret. intros i Hi. split; [done|]. unfold slice. destruct (dip_range inum).
  rewrite length_take, length_drop, Hl. unfold BSIZE in *. lia.
Qed.
Lemma ends_ialloc type : ends ready (λ _, ready) (ialloc type).
Proof.
  unfold ialloc. eapply ends_bind; [apply ends_next_inode|]. intros inum.
  eapply ends_seq; [apply ends_winode; by rewrite length_put32, !length_put16|]. by apply ends_ret.
Qed.

(** A slot of the inode or of the indirect block that is filled if it is empty. *)
Lemma ends_slot (l : list Z) o : 0 ≤ o → o + 4 ≤ Z.of_nat (length l) →
  ends ready (λ l' i, taken (get32 l' o) i ∧ length l' = length l)
    (if get32 l o =? 0 then b ← next_block; mret (put32 l o b) else mret l).
Proof.
  intros Ho Hl. destruct (_ =? 0).
  - eapply ends_bind; [apply ends_next_block|]. intros b. apply ends_pure. intros Hb. apply ends_ret.
    intros i Hi. rewrite get32_put32_eq, length_put32 by done. by rewrite wrap32_small.
  - apply ends_ret. intros i Hi. split; [by apply ready_taken|done].
Qed.

Lemma ends_file_block fbn din : 0 ≤ fbn → length din = 64%nat →
  ends ready (λ r i, taken r.1 i ∧ length r.2 = 64%nat ∧ fbn < MAXFILE) (file_block fbn din).
Proof.
  intros Hfbn Hl. unfold file_block. eapply ends_bind; [apply ends_massert|]. intros []. apply ends_pure.
  intros Hmax%Z.ltb_lt. change (Z.of_nat NDIRECT) with 12. destruct (Z.ltb_spec fbn 12).
  - eapply ends_bind; [apply ends_slot; unfold o_addr; lia|]. intros din'. apply ends_pure. intros Hl'.
    apply ends_ret. intros i Hi. split; [done|]. cbn [fst snd]. by rewrite Hl', Hl.
  - eapply ends_bind; [apply ends_slot; unfold o_addr; lia|]. intros din'. apply ends_pure. intros Hl'.
    eapply ends_bind; [apply ends_rsect|]. intros ind. apply ends_pure. intros [Hli Hx].
    set (o := 4 * (fbn - 12)). assert (Ho : 0 ≤ o ∧ o + 4 ≤ Z.of_nat (length ind)).
    { rewrite Hli. unfold o. change MAXFILE with 140 in Hmax. change (Z.of_nat (Z.to_nat BSIZE)) with 512. lia. }
    eapply (ends_bind _ (λ l i, taken (get32 l o) i)).
    { destruct (_ =? 0); [|apply ends_ret; intros; by apply ready_taken].
      eapply ends_bind; [apply ends_next_block|]. intros b. apply ends_pure. intros Hb.
      intros e i (Hs & Hf & Hlt). split; [done|]. split; [|split].
      - destruct Hs as [Hr Ha]. split; rsimpl.
        + intros b' d [[<- <-]|[_ Hd]]%lookup_insert_Some; [by rewrite length_put32|by apply Hr].
        + intros b' Hb'. apply lookup_insert_is_Some'. right. by apply Ha.
      - done.
      - rewrite get32_put32_eq by apply Ho. by rewrite wrap32_small. }
    intros l. apply ends_ret. intros i Hi. split; [done|]. cbn [fst snd]. by rewrite Hl', Hl.
Qed.

(** Every turn of [iappend] copies at least a byte. *)
Lemma ends_iappend_loop fuel p off din :
  (length p < fuel)%nat → 0 ≤ off → length din = 64%nat →
  ends ready (λ r i, ready i ∧ length r.2 = 64%nat) (iappend_loop fuel p off din).
Proof.
  revert p off din. induction fuel as [|fuel IH]; intros p off din Hf Hoff Hl; [lia|]. cbn [iappend_loop].
  destruct (Z.leb_spec (Z.of_nat (length p)) 0); [by apply ends_ret|].
  eapply ends_bind; [apply ends_file_block; [apply Z.div_pos; unfold BSIZE; lia|done]|]. intros [x din'].
  apply ends_pure. intros [Hl' _]. cbn [fst snd] in *.
  eapply ends_bind; [apply ends_rsect|]. intros buf. apply ends_pure. intros [Hlb Hx].
  set (n1 := Z.min _ _). assert (Hn1 : 0 < n1 ∧ n1 ≤ Z.of_nat (length p) ∧
    0 ≤ off - off / BSIZE * BSIZE ∧ off - off / BSIZE * BSIZE + n1 ≤ BSIZE) by (unfold n1, BSIZE; dlia).
  eapply ends_seq.
  - apply ends_wsect; [done|]. apply length_splice_block; [lia| |done]. rewrite length_take. lia.
  - apply IH; [rewrite length_drop; lia|lia|done].
Qed.

Lemma ends_iappend inum p : ends ready (λ _, ready) (iappend inum p).
Proof.
  unfold iappend. eapply ends_bind; [apply ends_rinode|]. intros din. apply ends_pure. intros Hl.
  pose proof (wrap32_range (get32 din o_size)) as [Hoff _].
  eapply ends_bind; [apply ends_iappend_loop; [lia|done|done]|]. intros [off din']. apply ends_pure. intros Hl'.
  apply ends_winode. by rewrite length_put32.
Qed.

Lemma ends_copy inum reads : ends ready (λ _, ready) (copy inum reads).
Proof.
  induction reads as [|buf reads IH]; cbn [copy]; [by apply ends_ret|]. destruct (_ >? 0); [|by apply ends_ret].
  eapply ends_seq; [apply ends_iappend|exact IH].
Qed.

Lemma ends_add_files rootino fs : ends ready (λ _, ready) (add_files rootino fs).
Proof.
  induction fs as [|f fs IH]; cbn [add_files]; [by apply ends_ret|]. eapply ends_seq; [|exact IH].
  unfold add_file. eapply ends_bind; [apply ends_massert|]. intros []. apply ends_pure. intros _.
  destruct (if_reads f) as [reads|]; [|done].
  eapply ends_bind; [apply ends_ialloc|]. intros inum. eapply ends_seq; [apply ends_iappend|apply ends_copy].
Qed.

Lemma ends_fix_root rootino : ends ready (λ _, ready) (fix_root rootino).
Proof.
  unfold fix_root. eapply ends_bind; [apply ends_rinode|]. intros din. apply ends_pure. intros Hl.
  apply ends_winode. by rewrite length_put32.
Qed.

(** The image while it is filled. *)
Definition filling (n : Z) (i : image) : Prop :=
  (∀ b d, im_disk i !! b = Some d → 0 ≤ b < n ∧ length d = Z.to_nat BSIZE) ∧
  (∀ b, 0 ≤ b < n → is_Some (im_disk i !! b)) ∧ im_freeblock i = nmeta.

Lemma ends_wipe n i : 0 ≤ i → ends (filling i) (λ _, filling (i + Z.of_nat n)) (wipe n i).
Proof.
  revert i. induction n as [|n IH]; intros i Hi; cbn [wipe].
  - apply ends_ret. intros im. by rewrite Z.add_0_r.
  - replace (i + Z.of_nat (S n)) with (i + 1 + Z.of_nat n) by lia. eapply ends_seq; [|apply IH; lia].
    intros e im (Hr & Ha & Hf). split; [done|]. split_and!; rsimpl; [..|done].
    + intros b d [[<- <-]|[_ Hd%Hr]]%lookup_insert_Some; [split; [lia|done]|]. split; [lia|apply Hd].
    + intros b Hb. apply lookup_insert_is_Some'. destruct (decide (b = i)); [by left|right]. apply Ha. lia.
Qed.

(** ** The free map *)

Lemma mark_spec n i buf b :
  length buf = Z.to_nat BSIZE → 0 ≤ i → i + Z.of_nat n ≤ BPB → 0 ≤ b →
  length (mark n i buf) = Z.to_nat BSIZE ∧
  bit_of (mark n i buf) b = bool_decide (i ≤ b < i + Z.of_nat n) || bit_of buf b.
Proof.
  revert i buf. induction n as [|n IH]; intros i buf Hl Hi Hn Hb.
  { split; [done|]. by rewrite bool_decide_false by lia. }
  change (mark (S n) i buf) with (mark n (i + 1) (set_bit buf i)).
  destruct (IH (i + 1) (set_bit buf i)) as [H1 H2]; [by rewrite length_set_bit|lia..|].
  split; [done|]. rewrite H2, bit_of_set by (done || lia). rewrite orb_assoc. f_equal.
  repeat case_bool_decide; done || lia.
Qed.

Lemma mark_bytes n i buf : Forall (λ v, 0 ≤ v < 256) buf → Forall (λ v, 0 ≤ v < 256) (mark n i buf).
Proof.
  revert i buf. induction n as [|n IH]; intros i buf Hb; [done|]. apply IH, Forall_insert; [done|].
  apply Z.mod_pos_bound. lia.
Qed.

Lemma bit_zero b : bit_of zero_block b = false.
Proof.
  unfold bit_of, get8, zero_block. destruct (replicate _ 0 !! _) as [v|] eqn:Ev; [|done].
  by apply lookup_replicate in Ev as [-> _].
Qed.

(** All blocks of the disk have their bits in one block. *)
Lemma one_map_block b : 0 ≤ b < FSSIZE → BBLOCK b mk_sb = sb_bmapstart mk_sb ∧ b mod BPB = b.
Proof. intros. unfold BBLOCK, FSSIZE, BPB, BSIZE in *. rewrite Z.div_small, Z.mod_small by lia. done. Qed.

(** The blocks below [n] marked. *)
Lemma marked_used C n b :
  0 ≤ n ≤ FSSIZE → 0 ≤ b < FSSIZE →
  C !! sb_bmapstart mk_sb = Some (mark (Z.to_nat n) 0 zero_block) →
  used mk_sb C b = (b <? n).
Proof.
  intros Hn Hb E. unfold used. destruct (one_map_block b Hb) as [-> ->]. rewrite E.
  destruct (mark_spec (Z.to_nat n) 0 zero_block b) as [_ ->]; [done|done| |lia|].
  { unfold FSSIZE, BPB, BSIZE in *. lia. }
  rewrite bit_zero, orb_false_r. case_bool_decide; lia.
Qed.

Lemma marked_free_map i n :
  sectors i → nmeta ≤ n ≤ FSSIZE →
  im_disk i !! sb_bmapstart mk_sb = Some (mark (Z.to_nat n) 0 zero_block) → free_map mk_sb (im_disk i).
Proof.
  intros [Hr Ha] Hn E. assert (Hmeta : nmeta = 59) by done. assert (HF : FSSIZE = 1000) by done.
  assert (Hbm : sb_bmapstart mk_sb = 58) by done.
  assert (Hmb : ∀ m, map_block mk_sb m → m = 58).
  { intros m (b & Hb & ->). destruct (one_map_block b Hb) as [-> _]. done. }
  assert (Hu : ∀ b, 0 ≤ b < FSSIZE → used mk_sb (im_disk i) b = (b <? n)).
  { intros b Hb. apply marked_used; [lia|done|done]. }
  split.
  - intros b Hb. destruct (one_map_block b Hb) as [-> _]. rewrite E. eexists. split; [done|].
    apply (mark_spec _ _ _ 0); [done|done| |done]. unfold BPB, BSIZE. lia.
  - rewrite Hu by lia. lia.
  - intros m d ->%Hmb. rewrite Hbm in E. rewrite E. intros [= <-]. apply mark_bytes.
    unfold zero_block. by apply Forall_replicate.
  - intros b Hb. rewrite Hu by done. intros Hlt%Z.ltb_ge. split; [by apply Ha|]. intros ->%Hmb. lia.
Qed.

(** The bits of the free map are written last. *)
Lemma ends_balloc n :
  nmeta ≤ n ≤ FSSIZE →
  ends (λ i, ready i ∧ im_freeblock i = n)
       (λ _ i, sectors i ∧ free_map mk_sb (im_disk i) ∧ im_freeblock i = n ∧
          ∀ b, 0 ≤ b < FSSIZE → used mk_sb (im_disk i) b = (b <? n)) (balloc n).
Proof.
  intros Hn e i [Hi Hf]. unfold balloc.
  assert (Hmeta : nmeta = 59) by done. assert (HF : FSSIZE = 1000) by done.
  replace (n <? BSIZE * 8) with true by (unfold BSIZE; lia). unfold massert. msteps.
  pose proof (ends_wsect (sb_bmapstart mk_sb) (mark (Z.to_nat n) 0 zero_block)) as Hw.
  unshelve epose proof (Hw _ _ e i Hi) as [_ [Hs _]].
  { done. }
  { apply (mark_spec _ _ _ 0); [done|done| |done]. unfold BPB, BSIZE. lia. }
  split; [done|]. rsimpl. split; [done|]. split; [|split; [done|]].
  - by apply (marked_free_map _ n) in Hs; [|done|rsimpl; apply lookup_insert_eq].
  - intros b Hb. apply marked_used; [lia|done|apply lookup_insert_eq].
Qed.

Lemma ends_layout :
  ends (λ i, im_disk i = ∅) (λ _, ready)
    (modify (λ i, i <| im_freeblock := nmeta |>);; wipe (Z.to_nat FSSIZE) 0;; wsect 1 (sb_bytes mk_sb)).
Proof.
  eapply ends_seq with (P' := filling 0).
  { intros e i Hi. split; [done|]. split_and!; rsimpl; rewrite ?Hi; [by intros ? ? ?%lookup_empty_Some|lia|done]. }
  eapply ends_seq; [by apply ends_wipe|]. eapply ends_pre; [|apply ends_wsect; [done|]].
  - intros i (Hr & Ha & Hf). split; [by split|]. rewrite Hf. done.
  - unfold sb_bytes. by rewrite !length_put32.
Qed.

(** On any files, [mkfs] ends, with an image or with an error exit; its image has a free map as the
    kernel's allocator needs it, in which just the blocks below [freeblock] are marked. *)
Lemma mkfs_marks files e :
  match mkfs files e new_image with
  | Ret _ e' i =>
    e' = e ∧ sectors i ∧ free_map mk_sb (im_disk i) ∧ nmeta ≤ im_freeblock i ≤ FSSIZE ∧
    ∀ b, 0 ≤ b < FSSIZE → used mk_sb (im_disk i) b = (b <? im_freeblock i)
  | Panic _ _ => True
  | _ => False
  end.
Proof.
  cut (ends (λ i, im_disk i = ∅) (λ _ i, sectors i ∧ free_map mk_sb (im_disk i) ∧ nmeta ≤ im_freeblock i ≤ FSSIZE ∧
    ∀ b, 0 ≤ b < FSSIZE → used mk_sb (im_disk i) b = (b <? im_freeblock i)) (mkfs files)).
  { intros H. apply (H e new_image). done. }
  unfold mkfs. intros e0 i0 Hi0. rewrite bind_assoc3. revert e0 i0 Hi0. fold (@ends unit).
  eapply ends_seq; [apply ends_layout|].
  eapply ends_bind; [apply ends_ialloc|]. intros rootino.
  eapply ends_bind; [apply ends_massert|]. intros []. apply ends_pure. intros _.
  do 2 (eapply ends_seq; [apply ends_iappend|]). eapply ends_seq; [apply ends_add_files|].
  eapply ends_seq; [apply ends_fix_root|].
  intros e1 i1 Hi1. rewrite bind_gets. pose proof Hi1 as [_ Hf].
  pose proof (ends_balloc (im_freeblock i1) Hf e1 i1 (conj Hi1 eq_refl)) as Hb.
  destruct (balloc _ e1 i1) as [u e2 i2|?|?|?|?]; try done. destruct Hb as (-> & Hs & Hm & E & Hu).
  rewrite E. done.
Qed.

(** With one file of three bytes the image is made: block 59 is the root's, block 60 the file's. *)
Lemma mkfs_example :
  match mkfs [Infile (codes "_cat") (Some [[1; 2; 3]])] [] new_image with
  | Ret _ _ i => im_freeblock i = 61 ∧ take 3 <$> (im_disk i !! 60) = Some [1; 2; 3]
  | _ => False
  end.
Proof. by vm_compute. Qed.
