(* ===== verification/Mkimage.v ===== *)
(** * What mkfs leaves on the disk, proved (mkfs.c)

    The image that [mkfs] makes is read with the kernel's own notions: the inode
    that [ilock] would load ([disk_inode]), its slots for block addresses
    ([slot]) and the bytes of the file ([fbyte]).  [mkfs_free_map]: the blocks
    marked in the free map are the metadata and the blocks in the slots of the
    inodes, each in one slot only, so every file is in order for the kernel
    ([file_ok]).  [mkfs_files]: the inodes hold the root directory and the files
    that were given, byte by byte.  The state in the middle of [iappend], where
    the inode that grows is in memory and not yet written back, is a view of
    the disk with that inode in place of the one on the disk ([view]). *)

From S2P Require Import Prelude State Consout Bio Bytes Crash Inode Alloc Bmap Console Fs Rw Icache Dir Mkfs.

(** ** Inodes in bytes *)

(** The inodes that have room in the blocks for inodes. *)
Definition NI : Z := ninodeblocks * IPB.

(** The inode in the 64 bytes [din]. *)
Definition dino (n : Z) (din : list Z) : inode :=
  load_dinode din 0 (zero_inode <| i_dev := 1 |> <| i_inum := n |>).

(** Type, links and size. *)
Definition hdr (x : inode) : Z * Z * Z := (i_type x, i_nlink x, i_size x).

Lemma get_addrs_lookup d o n j : (j < n)%nat → get_addrs d o n !! j = Some (get32 d (o + 4 * Z.of_nat j)).
Proof.
  revert o j. induction n as [|n IH]; intros o j Hj; [lia|]. destruct j as [|j]; cbn [get_addrs lookup list_lookup].
  - by rewrite Z.add_0_r.
  - rewrite IH by lia. do 2 f_equal. lia.
Qed.

Lemma length_get_addrs d o n : length (get_addrs d o n) = n.
Proof. revert o. induction n as [|n IH]; intros o; cbn; [done|]. by rewrite IH. Qed.

Lemma addr_at_dino n din j : 0 ≤ j ≤ 12 → addr_at (dino n din) j = get32 din (o_addr j).
Proof.
  intros Hj. unfold addr_at, dino, load_dinode. rsimpl. rewrite get_addrs_lookup by (unfold NDIRECT; lia).
  cbn. unfold o_addr. f_equal. lia.
Qed.

Lemma get8_slice d o i : 0 ≤ o → 0 ≤ i < 64 → get8 (slice d o 64) i = get8 d (o + i).
Proof.
  intros Ho Hi. unfold get8, slice. rewrite lookup_take_lt by lia. rewrite lookup_drop. do 2 f_equal. lia.
Qed.

Lemma get_addrs_ext d d' o o' n :
  (∀ j, (j < n)%nat → get32 d (o + 4 * Z.of_nat j) = get32 d' (o' + 4 * Z.of_nat j)) → get_addrs d o n = get_addrs d' o' n.
Proof.
  revert o o'. induction n as [|n IH]; intros o o' H; cbn; [done|]. f_equal.
  - specialize (H 0%nat ltac:(lia)). by rewrite !Z.add_0_r in H.
  - apply IH. intros j Hj. specialize (H (S j) ltac:(lia)).
    replace (o + 4 + 4 * Z.of_nat j) with (o + 4 * Z.of_nat (S j)) by lia.
    by replace (o' + 4 + 4 * Z.of_nat j) with (o' + 4 * Z.of_nat (S j)) by lia.
Qed.

(** Equal bytes, equal inodes. *)
Lemma load_ext d d' o o' x :
  (∀ i, 0 ≤ i < 64 → get8 d (o + i) = get8 d' (o' + i)) → load_dinode d o x = load_dinode d' o' x.
Proof.
  intros H.
  assert (H16 : ∀ i, 0 ≤ i → i + 2 ≤ 64 → get16 d (o + i) = get16 d' (o' + i)).
  { intros i Hi Hi2. unfold get16. rewrite <- !Z.add_assoc, !H by lia. done. }
  assert (H32 : ∀ i, 0 ≤ i → i + 4 ≤ 64 → get32 d (o + i) = get32 d' (o' + i)).
  { intros i Hi Hi2. unfold get32. rewrite <- !Z.add_assoc, !H16 by lia. done. }
  assert (E0 : get16 d o = get16 d' o') by (specialize (H16 0); rewrite !Z.add_0_r in H16; by apply H16).
  unfold load_dinode. rewrite E0, !H16, H32 by lia.
  rewrite (get_addrs_ext d d' (o + 12) (o' + 12)); [done|]. intros j Hj. unfold NDIRECT in Hj. rewrite <- !Z.add_assoc. apply H32; lia.
Qed.

Lemma dino_slice n d : dino n (slice d (dip n) 64) = load_dinode d (64 * (n mod IPB)) (zero_inode <| i_dev := 1 |> <| i_inum := n |>).
Proof.
  unfold dino. apply load_ext. intros i Hi. rewrite Z.add_0_l, get8_slice; [done|apply dip_range|done].
Qed.

(** ** Blocks in slots *)

Definition place (n j : Z) : Prop := 0 ≤ n < NI ∧ 0 ≤ j < NSLOT.

(** The blocks from the metadata up to [f] are in the slots [S], each in one. *)
Record alloc (S : Z → Z → Z) (f : Z) : Prop := {
  al_range : ∀ n j, place n j → S n j ≠ 0 → nmeta ≤ S n j < f;
  al_inj : ∀ n j n' j', place n j → place n' j' → S n j ≠ 0 → S n j = S n' j' → n = n' ∧ j = j';
  al_all : ∀ b, nmeta ≤ b < f → ∃ n j, place n j ∧ S n j = b }.

Lemma alloc_ext S S' f : (∀ n j, place n j → S' n j = S n j) → alloc S f → alloc S' f.
Proof.
  intros E [H1 H2 H3]. split.
  - intros n j Hp. rewrite E by done. by apply H1.
  - intros n j n' j' Hp Hp'. rewrite !E by done. by apply H2.
  - intros b Hb. destruct (H3 b Hb) as (n & j & Hp & <-). exists n, j. by rewrite E.
Qed.

(** Block [f] goes into an empty slot. *)
Lemma alloc_take S S' f n0 j0 :
  alloc S f → nmeta ≤ f → place n0 j0 → S n0 j0 = 0 →
  (∀ n j, place n j → S' n j = if decide (n = n0 ∧ j = j0) then f else S n j) → alloc S' (f + 1).
Proof.
  intros [H1 H2 H3] Hf Hp0 H0 E. split.
  - intros n j Hp. rewrite E by done. case_decide; [lia|]. intros Hn. specialize (H1 n j Hp Hn). lia.
  - intros n j n' j' Hp Hp'. rewrite !E by done. repeat case_decide; intros Hn En.
    + destruct_and!. by subst.
    + exfalso. assert (S n' j' ≠ 0) as Hne by congruence. specialize (H1 n' j' Hp' Hne). lia.
    + exfalso. specialize (H1 n j Hp Hn). lia.
    + by apply H2.
  - intros b Hb. destruct (decide (b = f)) as [->|Hne].
    + exists n0, j0. split; [done|]. rewrite E by done. by rewrite decide_True.
    + destruct (H3 b) as (n & j & Hp & <-); [lia|]. exists n, j. split; [done|]. rewrite E by done.
      rewrite decide_False; [done|]. intros [-> ->]. change nmeta with 59 in *. lia.
Qed.

(** Byte [o] of the file reads as [v]; if there is a [v], the block is there. *)
Definition reads (C : disk) (x : inode) (o : Z) (v : option Z) : Prop :=
  fbyte C x o = default 0 v ∧ (is_Some v → slot C x (dslot (o / BSIZE)) ≠ 0).

(** The image [i], with the inodes [D], as files with headers [H] and bytes [B]. *)
Record img (D : Z → inode) (H : Z → Z * Z * Z) (B : Z → Z → option Z) (i : image) : Prop := {
  ig_sec : sectors i;
  ig_fb : nmeta ≤ im_freeblock i ≤ FSSIZE + 1;
  ig_len : ∀ n, 0 ≤ n < NI → length (i_addrs (D n)) = 13%nat;
  ig_alloc : alloc (λ n j, slot (im_disk i) (D n) j) (im_freeblock i);
  ig_fresh : ∀ b, im_freeblock i ≤ b → default zero_block (im_disk i !! b) = zero_block;
  ig_hdr : ∀ n, 0 ≤ n < NI → hdr (D n) = H n;
  ig_byte : ∀ n o, 0 ≤ n < NI → 0 ≤ o < MAXFILE * BSIZE → reads (im_disk i) (D n) o (B n o) }.

Lemma slot_default C x j : slot C x j =
  if j <=? 12 then addr_at x j else if addr_at x 12 =? 0 then 0
  else get32 (default zero_block (C !! addr_at x 12)) (4 * (j - 13)).
Proof.
  unfold slot. destruct (j <=? 12), (addr_at x 12 =? 0); [done..|]. destruct (C !! _); [done|]. cbn. by rewrite get32_zero.
Qed.

Lemma get8_zero o : get8 zero_block o = 0.
Proof.
  unfold get8, zero_block. destruct (replicate _ 0 !! _) as [v|] eqn:Ev; [|done].
  by apply lookup_replicate in Ev as [-> _].
Qed.

Lemma fbyte_default C x o : fbyte C x o =
  let a := slot C x (dslot (o / BSIZE)) in if a =? 0 then 0 else get8 (default zero_block (C !! a)) (o mod BSIZE).
Proof. unfold fbyte. cbv zeta. destruct (_ =? _); [done|]. destruct (C !! _); [done|]. cbn. by rewrite get8_zero. Qed.

Lemma dslot_place n o : 0 ≤ n < NI → 0 ≤ o < MAXFILE * BSIZE → place n (dslot (o / BSIZE)) ∧ dslot (o / BSIZE) ≠ 12.
Proof.
  intros Hn Ho. split.
  - split; [done|]. unfold dslot, NSLOT. change MAXFILE with 140 in *. unfold BSIZE in *.
    destruct (Z.ltb_spec (o / 512) 12); dlia.
  - unfold dslot. destruct (Z.ltb_spec (o / BSIZE) 12); lia.
Qed.

Section img.
Context (D : Z → inode) (H : Z → Z * Z * Z) (B : Z → Z → option Z) (i : image) (Hi : img D H B i).

Lemma img_bytes B' :
  (∀ n o, 0 ≤ n < NI → 0 ≤ o < MAXFILE * BSIZE → reads (im_disk i) (D n) o (B n o) → reads (im_disk i) (D n) o (B' n o)) →
  img D H B' i.
Proof. intros HB. destruct Hi. split; try done. intros n o Hn Ho. by apply HB; [done..|apply ig_byte0]. Qed.

(** The slots of an inode, from its addresses. *)
Lemma indirect_range n : 0 ≤ n < NI → addr_at (D n) 12 ≠ 0 → nmeta ≤ addr_at (D n) 12 < im_freeblock i.
Proof. intros Hn Ha. apply (al_range _ _ (ig_alloc _ _ _ _ Hi) n 12); [by split|done]. Qed.

(** [freeblock] goes into address [j] of inode [n0]. *)
Lemma img_take_addr D' n0 j :
  0 ≤ n0 < NI → 0 ≤ j ≤ 12 → addr_at (D n0) j = 0 → im_freeblock i ≤ FSSIZE →
  (∀ n, 0 ≤ n < NI → n ≠ n0 → D' n = D n) → hdr (D' n0) = hdr (D n0) → length (i_addrs (D' n0)) = 13%nat →
  (∀ m, 0 ≤ m ≤ 12 → addr_at (D' n0) m = if decide (m = j) then im_freeblock i else addr_at (D n0) m) →
  img D' H B (i <| im_freeblock := im_freeblock i + 1 |>).
Proof.
  intros Hn0 Hj H0 Hfb Hoth Hhdr Hlen Haddr. pose proof Hi as [Hs Hf Hl Ha Hfr Hh Hb].
  assert (HS : ∀ n m, place n m → slot (im_disk i) (D' n) m =
    if decide (n = n0 ∧ m = j) then im_freeblock i else slot (im_disk i) (D n) m).
  { intros n m [Hn Hm]. destruct (decide (n = n0)) as [->|Hne]; [|rewrite decide_False by tauto; by rewrite Hoth].
    rewrite !slot_default. destruct (Z.leb_spec m 12).
    - rewrite Haddr by lia. destruct (decide (m = j)); [by rewrite decide_True|by rewrite decide_False by tauto].
    - rewrite (decide_False (P := _ ∧ _)) by lia. rewrite Haddr by lia. case_decide as E; [|done]. subst j.
      rewrite H0, Hfr by lia. cbn [Z.eqb]. rewrite get32_zero. by destruct (_ =? 0). }
  split; rsimpl.
  - by destruct Hs.
  - lia.
  - intros n Hn. destruct (decide (n = n0)) as [->|]; [done|]. rewrite Hoth by done. by apply Hl.
  - eapply (alloc_take _ _ _ n0 j); [exact Ha|lia|split; [done|unfold NSLOT; change MAXFILE with 140; lia]| |done].
    unfold slot. by rewrite (proj2 (Z.leb_le j 12)) by lia.
  - intros b Hb'. apply Hfr. lia.
  - intros n Hn. destruct (decide (n = n0)) as [->|]; [by rewrite Hhdr, Hh|]. rewrite Hoth by done. by apply Hh.
  - intros n o Hn Ho. destruct (dslot_place n o Hn Ho) as [Hp Hp12]. specialize (Hb n o Hn Ho) as [Hb1 Hb2].
    unfold reads. rewrite fbyte_default in *. cbv zeta in *. rewrite HS by done. case_decide as E; [|done].
    assert (slot (im_disk i) (D n) (dslot (o / BSIZE)) = 0) as E0.
    { destruct E as [-> ->]. unfold slot. by rewrite (proj2 (Z.leb_le j 12)) by lia. }
    rewrite E0 in *. cbn in Hb1. split; [|change nmeta with 59 in *; lia].
    rewrite Hfr, get8_zero by lia. by destruct (_ =? 0).
Qed.

(** A block in a slot is written: the other slots are where they were. *)
Lemma slot_other C D' x n j :
  place n j → (∀ n, 0 ≤ n < NI → D' n = D n) → (∀ b, b ≠ x → C !! b = im_disk i !! b) →
  (13 ≤ j → addr_at (D n) 12 ≠ x ∨ x = 0) → slot C (D' n) j = slot (im_disk i) (D n) j.
Proof.
  intros [Hn Hj] HD HC Hx. rewrite HD by done. rewrite !slot_default. destruct (Z.leb_spec j 12); [done|].
  destruct (Z.eqb_spec (addr_at (D n) 12) 0); [done|]. rewrite HC; [done|]. destruct Hx; [lia|done|congruence].
Qed.

Lemma sectors_insert x buf f :
  0 ≤ x < FSSIZE → length buf = Z.to_nat BSIZE → sectors (i <| im_disk ::= <[x := buf]> |> <| im_freeblock := f |>).
Proof.
  intros Hx Hl. destruct (ig_sec _ _ _ _ Hi) as [Hr Ha]. split; rsimpl.
  - intros b d [[<- <-]|[_ Hd]]%lookup_insert_Some; [done|by apply Hr].
  - intros b Hb. apply lookup_insert_is_Some'. right. by apply Ha.
Qed.

(** [freeblock] goes into an entry of the indirect block of inode [n0]. *)
Lemma img_take_entry D' n0 j d :
  0 ≤ n0 < NI → 13 ≤ j < NSLOT → addr_at (D n0) 12 ≠ 0 → im_disk i !! addr_at (D n0) 12 = Some d →
  get32 d (4 * (j - 13)) = 0 → im_freeblock i ≤ FSSIZE → (∀ n, 0 ≤ n < NI → D' n = D n) →
  img D' H B (i <| im_disk ::= <[addr_at (D n0) 12 := put32 d (4 * (j - 13)) (im_freeblock i)]> |>
                <| im_freeblock := im_freeblock i + 1 |>).
Proof.
  intros Hn0 Hj H12 Hd H0 Hfb HD. pose proof Hi as [Hs Hf Hl Ha Hfr Hh Hb]. set (a := addr_at (D n0) 12) in *.
  assert (nmeta ≤ a < im_freeblock i) as Hra by (by apply indirect_range).
  destruct (se_range _ Hs a d Hd) as [Hx Hld]. change nmeta with 59 in *. unfold NSLOT in Hj. change MAXFILE with 140 in Hj.
  assert (Z.of_nat (length d) = 512) as Hld' by (rewrite Hld; done).
  assert (Hdiff : ∀ n j', place n j' → ¬ (n = n0 ∧ j' = 12) → slot (im_disk i) (D n) j' ≠ a).
  { intros n j' Hp Hne E. apply Hne.
    apply (al_inj _ _ Ha n j' n0 12 Hp ltac:(by split)); rewrite E; [lia|]. done. }
  set (C' := <[a := put32 d (4 * (j - 13)) (im_freeblock i)]> (im_disk i)).
  assert (HC : ∀ b, b ≠ a → C' !! b = im_disk i !! b) by (intros b Hne; by apply lookup_insert_ne).
  assert (HS : ∀ n m, place n m → slot C' (D' n) m =
    if decide (n = n0 ∧ m = j) then im_freeblock i else slot (im_disk i) (D n) m).
  { intros n m Hp. destruct (decide (n = n0)) as [->|Hne].
    - rewrite HD by done. rewrite !slot_default. destruct (Z.leb_spec m 12); [by rewrite decide_False by lia|]. fold a.
      rewrite (proj2 (Z.eqb_neq a 0)) by done. unfold C'. rewrite lookup_insert_eq, Hd. cbn [default id].
      destruct (decide (m = j)) as [->|Hne].
      + rewrite decide_True by done. rewrite get32_put32_eq by lia. apply wrap32_small. unfold is_u32. change FSSIZE with 1000 in *. lia.
      + rewrite decide_False by tauto. destruct Hp as [_ Hm]. apply get32_put32_ne; lia.
    - rewrite decide_False by tauto. apply (slot_other _ _ a); [done..|]. intros _. left.
      apply (Hdiff n 12); [split; [apply Hp|done]|tauto]. }
  split; rsimpl.
  - apply sectors_insert; [done|]. by rewrite length_put32.
  - change nmeta with 59. lia.
  - intros n Hn. rewrite HD by done. by apply Hl.
  - eapply (alloc_take _ _ _ n0 j); [exact Ha|change nmeta with 59; lia|split; [done|unfold NSLOT; change MAXFILE with 140; lia]| |done].
    cbv beta. rewrite slot_default, (proj2 (Z.leb_gt j 12)) by lia. fold a. rewrite (proj2 (Z.eqb_neq a 0)) by done. by rewrite Hd.
  - intros b Hb'. rewrite lookup_insert_ne by lia. apply Hfr. lia.
  - intros n Hn. rewrite HD by done. by apply Hh.
  - intros n o Hn Ho. destruct (dslot_place n o Hn Ho) as [Hp Hp12]. specialize (Hb n o Hn Ho) as [Hb1 Hb2].
    unfold reads. rewrite fbyte_default in *. cbv zeta in *. fold C'. rewrite HS by done. case_decide as E.
    + assert (slot (im_disk i) (D n) (dslot (o / BSIZE)) = 0) as E0.
      { destruct E as [-> ->]. rewrite slot_default, (proj2 (Z.leb_gt j 12)) by lia. fold a.
        rewrite (proj2 (Z.eqb_neq a 0)) by done. by rewrite Hd. }
      rewrite E0 in *. cbn in Hb1. split; [|lia]. rewrite HC, Hfr, get8_zero by lia. by destruct (_ =? 0).
    + rewrite HC; [done|]. apply Hdiff; [done|]. intros [_ ?]. done.
Qed.

(** Bytes [chunk] go into block [bn] of inode [n0]. *)
Lemma img_write D' n0 bn off chunk d :
  let x := slot (im_disk i) (D n0) (dslot bn) in
  0 ≤ n0 < NI → 0 ≤ bn < MAXFILE → x ≠ 0 → im_disk i !! x = Some d →
  bn * BSIZE ≤ off → off + Z.of_nat (length chunk) ≤ (bn + 1) * BSIZE → (∀ n, 0 ≤ n < NI → D' n = D n) →
  img D' H (λ n o, if decide (n = n0 ∧ off ≤ o < off + Z.of_nat (length chunk)) then chunk !! Z.to_nat (o - off) else B n o)
    (i <| im_disk ::= <[x := splice d (off - bn * BSIZE) chunk]> |>).
Proof.
  intros x Hn0 Hbn Hx Hd Ho1 Ho2 HD. pose proof Hi as [Hs Hf Hl Ha Hfr Hh Hb].
  assert (place n0 (dslot bn) ∧ dslot bn ≠ 12) as [Hp0 Hne0].
  { pose proof (dslot_place n0 (bn * BSIZE) Hn0) as Hp. rewrite Z.div_mul in Hp by done. apply Hp. unfold BSIZE. lia. }
  assert (nmeta ≤ x < im_freeblock i) as Hrx by (by apply (al_range _ _ Ha n0 (dslot bn))).
  destruct (se_range _ Hs x d Hd) as [Hxr Hld]. change nmeta with 59 in *.
  assert (Z.of_nat (length d) = BSIZE) as Hld' by (rewrite Hld; done).
  assert (Hdiff : ∀ n j', place n j' → slot (im_disk i) (D n) j' = x → n = n0 ∧ j' = dslot bn).
  { intros n j' Hp E. apply (al_inj _ _ Ha n j' n0 (dslot bn) Hp Hp0); [by rewrite E|done]. }
  set (C' := <[x := splice d (off - bn * BSIZE) chunk]> (im_disk i)).
  assert (HC : ∀ b, b ≠ x → C' !! b = im_disk i !! b) by (intros b Hne; by apply lookup_insert_ne).
  assert (HS : ∀ n m, place n m → slot C' (D' n) m = slot (im_disk i) (D n) m).
  { intros n m Hp. apply (slot_other _ _ x); [done..|]. intros _. left. intros E.
    destruct (Hdiff n 12) as [_ E2]; [split; [apply Hp|done]|exact E|]. congruence. }
  split; rsimpl.
  - destruct (sectors_insert x (splice d (off - bn * BSIZE) chunk) 0) as [Hr1 Ha1]; [done| |by split].
    rewrite length_splice by lia. done.
  - done.
  - intros n Hn. rewrite HD by done. by apply Hl.
  - eapply alloc_ext; [|exact Ha]. exact HS.
  - intros b Hb'. rewrite lookup_insert_ne by lia. by apply Hfr.
  - intros n Hn. rewrite HD by done. by apply Hh.
  - intros n o Hn Ho. destruct (dslot_place n o Hn Ho) as [Hp Hp12]. specialize (Hb n o Hn Ho) as [Hb1 Hb2].
    unfold reads. rewrite fbyte_default in *. cbv zeta in *. fold C'. rewrite HS by done.
    destruct (decide (slot (im_disk i) (D n) (dslot (o / BSIZE)) = x)) as [E|E].
    + destruct (Hdiff n (dslot (o / BSIZE)) Hp E) as [-> Eb]. rewrite E in *.
      rewrite (proj2 (Z.eqb_neq x 0)) in * by done. unfold C'. rewrite lookup_insert_eq, Hd in *. cbn [default id] in *.
      assert (o / BSIZE = bn) as <-.
      { unfold dslot in Eb. destruct (Z.ltb_spec (o / BSIZE) 12), (Z.ltb_spec bn 12); lia. }
      pose proof (Z.div_mod o BSIZE ltac:(done)) as Hdm. pose proof (Z.mod_pos_bound o BSIZE ltac:(done)) as Hmb.
      rewrite get8_splice by lia. split; [|done]. destruct (decide (off ≤ o < off + Z.of_nat (length chunk))).
      * rewrite !decide_True by (try split; lia). do 2 f_equal. lia.
      * rewrite !decide_False by lia. done.
    + rewrite HC by done. rewrite decide_False; [done|]. intros [-> Hr]. apply E. unfold x. do 2 f_equal.
      symmetry. apply (Z.div_unique_pos _ _ _ (o - bn * BSIZE)); lia.
Qed.
End img.

(** ** The steps of the code *)

(** From the state [i], [m] returns with [Q], or exits. *)
Definition safe {A} (m : IM A) (e : env image) (i : image) (Q : A → image → Prop) : Prop :=
  match m e i with
  | Ret a e' i' => e' = e ∧ Q a i'
  | Panic _ _ => True
  | _ => False
  end.

Lemma safe_bind {A B} (m : IM A) (f : A → IM B) e i R Q :
  safe m e i R → (∀ a i', R a i' → safe (f a) e i' Q) → safe (m ≫= f) e i Q.
Proof.
  unfold safe. intros Hm Hf. rewrite bind_eq. destruct (m e i); try done. destruct Hm as [-> Hr]. by apply Hf.
Qed.
Lemma safe_ret {A} (a : A) e i (Q : A → image → Prop) : Q a i → safe (mret a) e i Q.
Proof. by split. Qed.
Lemma safe_mono {A} (m : IM A) e i (R Q : A → image → Prop) : safe m e i R → (∀ a i', R a i' → Q a i') → safe m e i Q.
Proof. unfold safe. intros Hm Hf. destruct (m e i); try done. destruct Hm as [-> Hr]. split; [done|by apply Hf]. Qed.
Lemma safe_massert b e i : safe (massert b) e i (λ _ i', i' = i ∧ b = true).
Proof. by destruct b. Qed.
Lemma safe_rsect x e i : safe (rsect x) e i (λ d i', i' = i ∧ im_disk i !! x = Some d).
Proof. unfold safe, rsect. msteps. by destruct (im_disk i !! x). Qed.
Lemma safe_wsect x buf e i Q : Q tt (i <| im_disk ::= <[x := buf]> |>) → safe (wsect x buf) e i Q.
Proof. by split. Qed.

(** The inodes, with that of number [n0] in memory. *)
Definition view (n0 : Z) (din : list Z) (C : disk) (n : Z) : inode :=
  if decide (n = n0) then dino n0 din else disk_inode mk_sb C n.

Lemma iblock_range n : 0 ≤ n < NI → 0 ≤ IBLOCK n mk_sb < 58.
Proof. change NI with 208. unfold IBLOCK. change IPB with 8. change (sb_inodestart mk_sb) with 32. dlia. Qed.

Lemma disk_inode_frame C x buf n : nmeta ≤ x → 0 ≤ n < NI → disk_inode mk_sb (<[x := buf]> C) n = disk_inode mk_sb C n.
Proof.
  intros Hx Hn. pose proof (iblock_range n Hn). change nmeta with 59 in Hx.
  unfold disk_inode, loaded, dblock. rsimpl. by rewrite lookup_insert_ne by lia.
Qed.
Lemma view_frame n0 din C x buf n : nmeta ≤ x → 0 ≤ n < NI → view n0 din (<[x := buf]> C) n = view n0 din C n.
Proof. intros. unfold view. case_decide; [done|by apply disk_inode_frame]. Qed.

Lemma view_self n0 din C : view n0 din C n0 = dino n0 din.
Proof. unfold view. by rewrite decide_True. Qed.

Section append.
Context (n0 : Z) (Hn0 : 0 ≤ n0 < NI) (H : Z → Z * Z * Z) (i0 : image).

(** The inode [din] of number [n0] is in memory; the metadata are those of [i0]. *)
Definition work (din : list Z) (B : Z → Z → option Z) (i : image) : Prop :=
  length din = 64%nat ∧ img (view n0 din (im_disk i)) H B i ∧
  im_freeinode i = im_freeinode i0 ∧ ∀ b, b < nmeta → im_disk i !! b = im_disk i0 !! b.

Definition room (i : image) : Prop := im_freeblock i ≤ FSSIZE.

Lemma hdr_put32 din j v : 0 ≤ j ≤ 12 → hdr (dino n0 (put32 din (o_addr j) v)) = hdr (dino n0 din).
Proof.
  intros Hj. unfold hdr, dino, load_dinode. rsimpl. unfold o_addr.
  rewrite !get16_put32_ne, get32_put32_ne by lia. done.
Qed.

Lemma length_dino din : length (i_addrs (dino n0 din)) = 13%nat.
Proof. unfold dino, load_dinode. rsimpl. apply length_get_addrs. Qed.

(** A direct address, or that of the indirect block, is filled if it is empty. *)
Lemma safe_addr din B j e i :
  work din B i → room i → 0 ≤ j ≤ 12 →
  safe (if get32 din (o_addr j) =? 0 then b ← next_block; mret (put32 din (o_addr j) b) else mret din) e i
    (λ din' i', work din' B i' ∧ get32 din' (o_addr j) ≠ 0 ∧ (get32 din' (o_addr j) < FSSIZE → room i')).
Proof.
  intros (Hl & Hi & Hfi & Hmeta) Hr Hj. destruct (Z.eqb_spec (get32 din (o_addr j)) 0) as [E|E]; [|by apply safe_ret].
  pose proof (ig_fb _ _ _ _ Hi) as Hfb. unfold room in *. change nmeta with 59 in *. change FSSIZE with 1000 in *.
  unfold safe, next_block. asteps.
  rewrite wrap32_small by (unfold is_u32; lia). split; [done|].
  assert (Hg : get32 (put32 din (o_addr j) (im_freeblock i)) (o_addr j) = im_freeblock i).
  { rewrite get32_put32_eq by (unfold o_addr; lia). apply wrap32_small. unfold is_u32. lia. }
  rewrite Hg. rsimpl. split; [|lia]. split; [by rewrite length_put32|]. rsimpl. split; [|done].
  eapply (img_take_addr _ _ _ _ Hi _ n0 j); [done|done| |done| | | |].
  - by rewrite view_self, addr_at_dino.
  - intros n _ Hne. unfold view. by rewrite !decide_False.
  - rewrite !view_self. by apply hdr_put32.
  - rewrite view_self. apply length_dino.
  - intros m Hm. rewrite !view_self, !addr_at_dino by done. case_decide as Em; [by subst|].
    unfold o_addr in *. apply get32_put32_ne; lia.
Qed.

(** The block of the file at [bn]. *)
Lemma safe_file_block din B bn e i :
  work din B i → room i → 0 ≤ bn →
  safe (file_block bn din) e i (λ r i', work r.2 B i' ∧ bn < MAXFILE ∧ r.1 ≠ 0 ∧
    r.1 = slot (im_disk i') (dino n0 r.2) (dslot bn) ∧ (r.1 < FSSIZE → room i')).
Proof.
  intros Hw Hr Hbn. unfold file_block. eapply safe_bind; [apply safe_massert|]. intros _ i1 [-> Hmax%Z.ltb_lt].
  change (Z.of_nat NDIRECT) with 12. destruct (Z.ltb_spec bn 12) as [Hlt|Hge].
  - eapply safe_bind; [apply safe_addr; [done|done|lia]|]. intros din' i' (Hw' & Hg & Hr'). apply safe_ret. cbn [fst snd].
    split_and!; [done|done|done| |done]. unfold dslot. rewrite (proj2 (Z.ltb_lt bn 12)) by lia.
    unfold slot. rewrite (proj2 (Z.leb_le bn 12)) by lia. by rewrite addr_at_dino by lia.
  - eapply safe_bind; [apply safe_addr; [done|done|lia]|]. intros din' i' (Hw' & Hg & Hr').
    set (a := get32 din' (o_addr 12)) in *.
    eapply safe_bind; [apply safe_rsect|]. intros d i2 [-> Hd]. pose proof Hw' as (Hl' & Hi' & Hfi' & Hmeta').
    destruct (se_range _ (ig_sec _ _ _ _ Hi') a d Hd) as [Ha Hld]. specialize (Hr' ltac:(lia)).
    assert (Ea : addr_at (view n0 din' (im_disk i') n0) 12 = a) by (by rewrite view_self, addr_at_dino by lia).
    assert (Hslot : ∀ C d', C !! a = Some d' → slot C (dino n0 din') (dslot bn) = get32 d' (4 * (bn - 12))).
    { intros C d' Hd'. unfold dslot. rewrite (proj2 (Z.ltb_ge bn 12)) by lia. unfold slot.
      rewrite (proj2 (Z.leb_gt (bn + 1) 12)) by lia. rewrite addr_at_dino by lia. fold a.
      rewrite (proj2 (Z.eqb_neq a 0)) by done. rewrite Hd'. f_equal. lia. }
    destruct (Z.eqb_spec (get32 d (4 * (bn - 12))) 0) as [E|E].
    + pose proof (ig_fb _ _ _ _ Hi') as Hfb. unfold room in *. change nmeta with 59 in *. change FSSIZE with 1000 in *.
      change MAXFILE with 140 in *.
      unfold safe, next_block. asteps.
      rewrite wrap32_small by (unfold is_u32; lia). unfold wsect. asteps.
      assert (Hg2 : get32 (put32 d (4 * (bn - 12)) (im_freeblock i')) (4 * (bn - 12)) = im_freeblock i').
      { rewrite get32_put32_eq; [apply wrap32_small; unfold is_u32; lia|lia|]. rewrite Hld. change (Z.of_nat (Z.to_nat BSIZE)) with 512. lia. }
      rewrite Hg2. split; [done|]. cbn [fst snd]. rsimpl. split_and!; [|done|lia| |lia].
      * assert (nmeta ≤ a) as Hna by (rewrite <- Ea; apply (indirect_range _ _ _ _ Hi'); [done|by rewrite Ea]).
        split; [done|]. rsimpl. split; [|split; [done|]].
        2:{ intros b Hb. rewrite lookup_insert_ne by lia. by apply Hmeta'. }
        pose proof (img_take_entry _ _ _ _ Hi' (view n0 din' (<[a := put32 d (4 * (bn - 12)) (im_freeblock i')]> (im_disk i')))
          n0 (bn + 1) d) as Ht. rewrite Ea in Ht. replace (bn + 1 - 13) with (bn - 12) in Ht by lia.
        apply Ht; [done|unfold NSLOT; change MAXFILE with 140; lia|done|done|done|done|].
        intros n Hn. by apply view_frame.
      * symmetry. rewrite <- Hg2 at 2. apply Hslot, lookup_insert_eq.
    + apply safe_bind with (R := λ l i2, l = d ∧ i2 = i'); [by apply safe_ret|]. intros _ _ [-> ->].
      apply safe_ret. cbn [fst snd]. split_and!; [done|done|done|by rewrite (Hslot _ d)|done].
Qed.
End append.

Section loop.
Context (n0 : Z) (Hn0 : 0 ≤ n0 < NI) (H : Z → Z * Z * Z) (i0 : image).

(** The bytes [p] in file [n0], from [off] on. *)
Definition put_bytes (off : Z) (p : list Z) (B : Z → Z → option Z) (n o : Z) : option Z :=
  if decide (n = n0 ∧ off ≤ o < off + Z.of_nat (length p)) then p !! Z.to_nat (o - off) else B n o.

Lemma put_bytes_drop off p B m n o :
  (m ≤ length p)%nat →
  put_bytes (off + Z.of_nat m) (drop m p) (put_bytes off (take m p) B) n o = put_bytes off p B n o.
Proof.
  intros Hm. unfold put_bytes. rewrite length_drop, length_take. destruct (decide (n = n0)) as [->|Hne];
    [|by rewrite !decide_False by tauto].
  destruct (decide (off ≤ o < off + Z.of_nat m)).
  - rewrite decide_False by lia. rewrite !decide_True by lia. apply lookup_take_lt. lia.
  - destruct (decide (off + Z.of_nat m ≤ o < off + Z.of_nat (length p))).
    + rewrite !decide_True by lia. rewrite lookup_drop. f_equal. lia.
    + by rewrite !decide_False by lia.
Qed.

Lemma work_bytes din B B' i : (∀ n o, B' n o = B n o) → work n0 H i0 din B i → work n0 H i0 din B' i.
Proof. intros E (Hl & Hi & Hm). split; [done|]. split; [|done]. eapply img_bytes; [exact Hi|]. intros n o _ _. by rewrite E. Qed.

Lemma safe_iappend_loop fuel p off din B e i :
  (length p < fuel)%nat → work n0 H i0 din B i → room i → 0 ≤ off ≤ MAXFILE * BSIZE →
  safe (iappend_loop fuel p off din) e i (λ r i', work n0 H i0 r.2 (put_bytes off p B) i' ∧ room i' ∧
    r.1 = off + Z.of_nat (length p) ∧ r.1 ≤ MAXFILE * BSIZE).
Proof.
  revert p off din B i. induction fuel as [|fuel IH]; intros p off din B i Hf Hw Hr Hoff; [lia|]. cbn [iappend_loop].
  destruct (Z.leb_spec (Z.of_nat (length p)) 0).
  { destruct p; [|cbn in *; lia]. apply safe_ret. cbn [fst snd length]. split_and!; [|done|lia|lia].
    eapply work_bytes; [|done]. intros n o. unfold put_bytes. by rewrite decide_False by (cbn; lia). }
  set (bn := off / BSIZE). assert (Hbn : 0 ≤ bn ∧ bn * BSIZE ≤ off < (bn + 1) * BSIZE) by (unfold bn, BSIZE in *; dlia).
  eapply safe_bind; [apply safe_file_block; [done..|lia]|].
  intros [x din'] i1 (Hw1 & Hmax & Hx & Es & Hr1). cbn [fst snd] in *.
  eapply safe_bind; [apply safe_rsect|]. intros d i2 [-> Hd]. pose proof Hw1 as (Hl1 & Hi1 & Hfi1 & Hmeta1).
  destruct (se_range _ (ig_sec _ _ _ _ Hi1) x d Hd) as [Hxr Hld]. specialize (Hr1 ltac:(lia)).
  set (m := Z.min _ _). assert (Hm : 0 < m ≤ Z.of_nat (length p) ∧ off + m ≤ (bn + 1) * BSIZE) by lia.
  assert (Hlt : length (take (Z.to_nat m) p) = Z.to_nat m) by (rewrite length_take; lia).
  assert (Hxm : nmeta ≤ x).
  { assert (place n0 (dslot bn) ∧ dslot bn ≠ 12) as [Hp0 _].
    { pose proof (dslot_place n0 (bn * BSIZE) Hn0) as Hp. rewrite Z.div_mul in Hp by done. apply Hp. unfold BSIZE. lia. }
    pose proof (al_range _ _ (ig_alloc _ _ _ _ Hi1) n0 (dslot bn) Hp0) as Ha. cbv beta in Ha.
    rewrite view_self, <- Es in Ha. by apply Ha. }
  eapply safe_bind with (R := λ _ i3, work n0 H i0 din' (put_bytes off (take (Z.to_nat m) p) B) i3 ∧ room i3).
  { apply safe_wsect. split; [|done]. split; [done|]. rsimpl. split; [|split; [done|]].
    2:{ intros b Hb. rewrite lookup_insert_ne by lia. by apply Hmeta1. }
    pose proof (img_write _ _ _ _ Hi1 (view n0 din' (<[x := splice d (off - bn * BSIZE) (take (Z.to_nat m) p)]> (im_disk i1)))
      n0 bn off (take (Z.to_nat m) p) d) as Hwr.
    cbv zeta in Hwr. rewrite view_self, <- Es in Hwr. apply Hwr; [done|lia|done|done|lia|lia|].
    intros n Hn. by apply view_frame. }
  intros _ i3 [Hw3 Hr3].
  eapply safe_mono; [apply IH; [rewrite length_drop; lia|exact Hw3|done|change MAXFILE with 140 in *; unfold BSIZE in *; lia]|].
  intros [off' din2] i4 (Hw4 & Hr4 & E4 & Hm4). cbn [fst snd] in *. rewrite length_drop in E4.
  split_and!; [|done|lia|done]. eapply work_bytes; [|exact Hw4]. intros n o.
  replace (off + m) with (off + Z.of_nat (Z.to_nat m)) by lia. symmetry. apply put_bytes_drop. lia.
Qed.
End loop.

(** ** Blocks of metadata *)

(** A block of metadata is written: the files are as before, if the addresses are. *)
Lemma img_meta D D' H H' B i x buf :
  img D H B i → 0 ≤ x < nmeta → length buf = Z.to_nat BSIZE →
  (∀ n, 0 ≤ n < NI → i_addrs (D' n) = i_addrs (D n)) → (∀ n, 0 ≤ n < NI → hdr (D' n) = H' n) →
  img D' H' B (i <| im_disk ::= <[x := buf]> |>).
Proof.
  intros Hi Hx Hl Ha Hh. pose proof Hi as [Hs Hf Hla Hal Hfr _ Hb]. change nmeta with 59 in *.
  assert (Haddr : ∀ n j, 0 ≤ n < NI → addr_at (D' n) j = addr_at (D n) j).
  { intros n j Hn. unfold addr_at. by rewrite Ha. }
  assert (HS : ∀ n j, place n j → slot (<[x := buf]> (im_disk i)) (D' n) j = slot (im_disk i) (D n) j).
  { intros n j [Hn Hj]. rewrite !slot_default, !Haddr by done. destruct (_ <=? _); [done|].
    destruct (Z.eqb_spec (addr_at (D n) 12) 0); [done|]. rewrite lookup_insert_ne; [done|].
    pose proof (indirect_range _ _ _ _ Hi n Hn). change nmeta with 59 in *. lia. }
  split; rsimpl.
  - destruct (sectors_insert _ _ _ _ Hi x buf 0) as [Hr1 Ha1]; [change FSSIZE with 1000; lia|done|by split].
  - change nmeta with 59. done.
  - intros n Hn. rewrite Ha by done. by apply Hla.
  - eapply alloc_ext; [|exact Hal]. exact HS.
  - intros b Hb'. rewrite lookup_insert_ne by lia. by apply Hfr.
  - done.
  - intros n o Hn Ho. destruct (dslot_place n o Hn Ho) as [Hp Hp12]. specialize (Hb n o Hn Ho) as [Hb1 Hb2].
    unfold reads. rewrite fbyte_default in *. cbv zeta in *. rewrite HS by done. split; [|done]. rewrite <- Hb1.
    destruct (Z.eqb_spec (slot (im_disk i) (D n) (dslot (o / BSIZE))) 0) as [E|E]; [done|].
    pose proof (al_range _ _ Hal _ _ Hp E). change nmeta with 59 in *. by rewrite lookup_insert_ne by lia.
Qed.

(** An inode is written to its place. *)
Lemma disk_inode_put C n0 n d din :
  0 ≤ n0 < NI → 0 ≤ n < NI → C !! IBLOCK n0 mk_sb = Some d → length d = Z.to_nat BSIZE → length din = 64%nat →
  disk_inode mk_sb (<[IBLOCK n0 mk_sb := splice d (dip n0) din]> C) n =
    if decide (n = n0) then dino n0 din else disk_inode mk_sb C n.
Proof.
  intros Hn0 Hn Hd Hld Hl. destruct (dip_range n0) as [Hd1 Hd2].
  assert (Z.of_nat (length d) = BSIZE) as Hld' by (rewrite Hld; done).
  unfold disk_inode, loaded, dblock. rsimpl. change (64 * (n mod IPB)) with (dip n).
  destruct (decide (IBLOCK n mk_sb = IBLOCK n0 mk_sb)) as [E|E].
  - rewrite E, lookup_insert_eq, Hd. cbn [default id]. case_decide as En.
    + subst n. apply load_ext. intros i Hi. rewrite get8_splice by lia. rewrite decide_True by lia.
      unfold get8. do 2 f_equal. lia.
    + apply load_ext. intros i Hi. destruct (dip_range n) as [Hd3 Hd4]. rewrite get8_splice by lia.
      rewrite decide_False; [done|]. unfold IBLOCK, dip in *. change IPB with 8 in *. change NI with 208 in *. dlia.
  - rewrite decide_False by congruence. by rewrite lookup_insert_ne.
Qed.

(** ** The files of an image *)

(** A file is a type and its bytes; the first of the list is inode 1. *)
Definition file_at (fs : list (Z * list Z)) (n : Z) : option (Z * list Z) :=
  if decide (1 ≤ n) then fs !! Z.to_nat (n - 1) else None.
Definition hdrs (fs : list (Z * list Z)) (n : Z) : Z * Z * Z :=
  match file_at fs n with Some (ty, bs) => (ty, 1, Z.of_nat (length bs)) | None => (0, 0, 0) end.
Definition bytes_at (fs : list (Z * list Z)) (n o : Z) : option Z :=
  match file_at fs n with Some (_, bs) => bs !! Z.to_nat o | None => None end.

Record keeps_files (fs : list (Z * list Z)) (i : image) : Prop := {
  kf_img : img (disk_inode mk_sb (im_disk i)) (hdrs fs) (bytes_at fs) i;
  kf_room : room i;
  kf_free : im_freeinode i = 1 + Z.of_nat (length fs);
  kf_few : Z.of_nat (length fs) < NI;
  kf_unused : ∀ n, 0 ≤ n < NI → file_at fs n = None → i_addrs (disk_inode mk_sb (im_disk i) n) = replicate 13 0;
  kf_max : ∀ n ty bs, file_at fs n = Some (ty, bs) → Z.of_nat (length bs) ≤ MAXFILE * BSIZE }.

Lemma file_at_range fs n f : file_at fs n = Some f → 1 ≤ n ≤ Z.of_nat (length fs).
Proof. unfold file_at. case_decide; [|done]. intros E%lookup_lt_Some. lia. Qed.

Lemma file_at_insert fs n0 f f' n :
  file_at fs n0 = Some f → file_at (<[Z.to_nat (n0 - 1) := f']> fs) n = if decide (n = n0) then Some f' else file_at fs n.
Proof.
  intros E. pose proof (file_at_range _ _ _ E). unfold file_at. case_decide.
  - case_decide as En; [subst; apply list_lookup_insert_eq; lia|]. apply list_lookup_insert_ne. lia.
  - by rewrite decide_False by lia.
Qed.

Lemma file_at_app fs f n :
  file_at (fs ++ [f]) n = if decide (n = 1 + Z.of_nat (length fs)) then Some f else file_at fs n.
Proof.
  unfold file_at. case_decide.
  - case_decide as En; [subst; rewrite lookup_app_r by lia; by replace (_ - _)%nat with 0%nat by lia|].
    destruct (decide (n ≤ Z.of_nat (length fs))); [by rewrite lookup_app_l by lia|].
    rewrite !lookup_ge_None_2; [done|lia|]. rewrite length_app. cbn. lia.
  - by rewrite decide_False by lia.
Qed.

Lemma i_size_dino n din v t l z :
  length din = 64%nat → is_u32 v → hdr (dino n din) = (t, l, z) → hdr (dino n (put32 din o_size v)) = (t, l, v).
Proof.
  intros Hl Hv. unfold hdr, dino, load_dinode. rsimpl. unfold o_size. intros [= <- <- _].
  rewrite !get16_put32_ne by lia. change (0 + 8) with 8. rewrite get32_put32_eq by lia. by rewrite wrap32_small.
Qed.

Lemma i_addrs_size n din v : i_addrs (dino n (put32 din o_size v)) = i_addrs (dino n din).
Proof.
  unfold dino, load_dinode. rsimpl. apply get_addrs_ext. intros j Hj. unfold o_size. apply get32_put32_ne; lia.
Qed.

Lemma safe_rinode fs n e i :
  keeps_files fs i → 0 ≤ n < NI →
  safe (rinode n) e i (λ din i', i' = i ∧ length din = 64%nat ∧ dino n din = disk_inode mk_sb (im_disk i) n ∧
    get32 din o_size = i_size (disk_inode mk_sb (im_disk i) n)).
Proof.
  intros Hk Hn. unfold rinode. eapply safe_bind; [apply safe_rsect|]. intros d i' [-> Hd]. apply safe_ret.
  destruct (se_range _ (ig_sec _ _ _ _ (kf_img _ _ Hk)) _ _ Hd) as [_ Hld]. destruct (dip_range n) as [Hd1 Hd2].
  assert (dino n (slice d (dip n) 64) = disk_inode mk_sb (im_disk i) n) as E.
  { rewrite dino_slice. unfold disk_inode, loaded, dblock. rsimpl. by rewrite Hd. }
  split_and!; [done| |done|rewrite <- E; reflexivity].
  unfold slice. rewrite length_take, length_drop, Hld. unfold BSIZE in *. lia.
Qed.

(** [winode], with the image as it is then. *)
Lemma safe_winode n0 din D H H' B e i :
  img D H B i → 0 ≤ n0 < NI → length din = 64%nat →
  (∀ n, 0 ≤ n < NI → n ≠ n0 → D n = disk_inode mk_sb (im_disk i) n) →
  i_addrs (dino n0 din) = i_addrs (D n0) → hdr (dino n0 din) = H' n0 → (∀ n, n ≠ n0 → H' n = H n) →
  safe (winode n0 din) e i (λ _ i', img (disk_inode mk_sb (im_disk i')) H' B i' ∧
    im_freeblock i' = im_freeblock i ∧ im_freeinode i' = im_freeinode i ∧
    ∀ n, 0 ≤ n < NI → n ≠ n0 → disk_inode mk_sb (im_disk i') n = disk_inode mk_sb (im_disk i) n).
Proof.
  intros Hi Hn0 Hl HD Ha Hh0 Hh. unfold winode. eapply safe_bind; [apply safe_rsect|]. intros d i' [-> Hd].
  destruct (se_range _ (ig_sec _ _ _ _ Hi) _ _ Hd) as [_ Hld]. destruct (dip_range n0) as [Hd1 Hd2].
  assert (HP := λ n Hn, disk_inode_put (im_disk i) n0 n d din Hn0 Hn Hd Hld Hl).
  apply safe_wsect. rsimpl. split_and!; [|done|done|].
  - eapply (img_meta D _ H); [exact Hi| | | |].
    + pose proof (iblock_range n0 Hn0). change nmeta with 59. lia.
    + rewrite length_splice; [done|lia|]. rewrite Hld, Hl. change (Z.of_nat (Z.to_nat BSIZE)) with BSIZE. lia.
    + intros n Hn. rewrite HP by done. case_decide as E; [by subst|]. by rewrite HD.
    + intros n Hn. rewrite HP by done. case_decide as E; [by subst|]. rewrite Hh, <- HD by done. by apply Hi.
  - intros n Hn Hne. rewrite HP by done. by rewrite decide_False.
Qed.

Lemma safe_ialloc fs ty e i :
  keeps_files fs i → 1 + Z.of_nat (length fs) < NI → is_short ty →
  safe (ialloc ty) e i (λ n i', n = 1 + Z.of_nat (length fs) ∧ keeps_files (fs ++ [(ty, [])]) i').
Proof.
  intros Hk Hlt Hty. pose proof Hk as [Hi Hr Hf Hfew Hun Hmax]. unfold ialloc, next_inode.
  set (n0 := 1 + Z.of_nat (length fs)) in *.
  eapply safe_bind with (R := λ n i', n = n0 ∧ i' = i <| im_freeinode := 1 + n0 |>).
  { unfold safe. asteps. rewrite Hf, wrap32_small by (unfold is_u32; change NI with 208 in *; lia).
    split; [done|]. split; [done|]. by rewrite Z.add_comm. }
  intros _ i1 [-> ->]. set (din := put32 _ _ _).
  assert (length din = 64%nat) as Hl by (unfold din; by rewrite length_put32, !length_put16).
  assert (i_addrs (dino n0 din) = replicate 13 0) as Ea by reflexivity.
  assert (hdr (dino n0 din) = (ty, 1, 0)) as Eh.
  { unfold din, hdr, dino, load_dinode. rsimpl. unfold o_type, o_nlink, o_size. rewrite !Z.add_0_l.
    rewrite !get16_put32_ne by lia. rewrite (get16_put16_ne _ 6 0) by lia.
    rewrite !get16_put16_eq by (rewrite ?length_put16, ?length_replicate; lia). rewrite get32_put32_eq by (rewrite ?length_put16, ?length_replicate; lia).
    by rewrite sint16_mod. }
  assert (file_at fs n0 = None) as Hnone.
  { unfold file_at. case_decide; [|done]. apply lookup_ge_None_2. lia. }
  assert (img (disk_inode mk_sb (im_disk i)) (hdrs fs) (bytes_at fs) (i <| im_freeinode := 1 + n0 |>)) as Hi1.
  { destruct Hi as [[] ? ? ? ? ? ?]. by split. }
  eapply safe_bind; [eapply (safe_winode n0 din _ _ (hdrs (fs ++ [(ty, [])]))); [exact Hi1|lia|done|done|..]|].
  - rewrite Ea, Hun by (done || lia). done.
  - unfold hdrs. rewrite file_at_app, decide_True by done. done.
  - intros n Hne. unfold hdrs. rewrite file_at_app, decide_False by done. done.
  - intros _ i2 (Hi2 & Eb & Ei & Hoth). rsimpl. apply safe_ret. split; [done|]. split.
    + eapply img_bytes; [exact Hi2|]. intros n o Hn Ho Hrd. unfold bytes_at in *. rewrite file_at_app.
      case_decide as E; [|done]. rewrite E in Hrd |- *. fold n0 in Hrd |- *. by rewrite Hnone in Hrd.
    + unfold room in *. by rewrite Eb.
    + rewrite Ei, length_app. cbn. lia.
    + rewrite length_app. cbn. lia.
    + intros n Hn. rewrite file_at_app. case_decide as E; [done|]. intros Hno. rewrite Hoth by done. by apply Hun.
    + intros n t bs. rewrite file_at_app. case_decide; [|apply Hmax]. intros [= _ <-]. by vm_compute.
Qed.

Lemma safe_iappend fs n0 ty bs p e i :
  keeps_files fs i → file_at fs n0 = Some (ty, bs) →
  safe (iappend n0 p) e i (λ _ i', keeps_files (<[Z.to_nat (n0 - 1) := (ty, bs ++ p)]> fs) i').
Proof.
  intros Hk Hf0. pose proof Hk as [Hi Hr Hf Hfew Hun Hmax]. pose proof (file_at_range _ _ _ Hf0) as Hn.
  assert (0 ≤ n0 < NI) as Hn0 by lia. pose proof (Hmax _ _ _ Hf0) as Hlen. change MAXFILE with 140 in *.
  assert (hdr (disk_inode mk_sb (im_disk i) n0) = (ty, 1, Z.of_nat (length bs))) as Hh0.
  { rewrite (ig_hdr _ _ _ _ Hi) by done. unfold hdrs. by rewrite Hf0. }
  unfold iappend. eapply safe_bind; [by apply (safe_rinode fs)|]. intros din i1 (-> & Hl & Ed & Es).
  assert (i_size (disk_inode mk_sb (im_disk i) n0) = Z.of_nat (length bs)) as Hsz by (by injection Hh0).
  rewrite Es, Hsz, wrap32_small by (unfold is_u32, BSIZE in *; lia).
  eapply safe_bind; [apply (safe_iappend_loop n0 Hn0 (hdrs fs) i) with (B := bytes_at fs);
    [lia| |done|change MAXFILE with 140; lia]|].
  { split; [done|]. split; [|done]. destruct Hi as [H1 H2 H3 H4 H5 H6 H7].
    assert (HV : ∀ n, view n0 din (im_disk i) n = disk_inode mk_sb (im_disk i) n).
    { intros n. unfold view. case_decide as E; [by subst|done]. }
    split; [done|done| | |done| |].
    - intros n. rewrite HV. apply H3.
    - eapply alloc_ext; [|exact H4]. intros. cbv beta. by rewrite HV.
    - intros n. rewrite HV. apply H6.
    - intros n o. rewrite HV. apply H7. }
  intros [off din'] i2 ((Hl2 & Hi2 & Hfi2 & Hm2) & Hr2 & Eoff & Hmo). cbn [fst snd] in *. change MAXFILE with 140 in *.
  assert (hdr (dino n0 din') = (ty, 1, Z.of_nat (length bs))) as Hh2.
  { rewrite <- (view_self n0 din' (im_disk i2)), (ig_hdr _ _ _ _ Hi2) by done. unfold hdrs. by rewrite Hf0. }
  assert (∀ n, 0 ≤ n < NI → disk_inode mk_sb (im_disk i2) n = disk_inode mk_sb (im_disk i) n) as Hsame.
  { intros n Hnn. pose proof (iblock_range n Hnn). unfold disk_inode, loaded, dblock. rsimpl.
    by rewrite Hm2 by (change nmeta with 59; lia). }
  set (fs' := <[Z.to_nat (n0 - 1) := (ty, bs ++ p)]> fs).
  assert (Hat : ∀ n, file_at fs' n = if decide (n = n0) then Some (ty, bs ++ p) else file_at fs n).
  { intros n. by eapply file_at_insert. }
  assert (off = Z.of_nat (length (bs ++ p))) as Eoff' by (rewrite length_app; lia).
  eapply safe_mono; [eapply (safe_winode n0 _ _ _ (hdrs fs')); [exact Hi2|done|by rewrite length_put32|..]|].
  - intros n _ Hne. unfold view. by rewrite decide_False.
  - by rewrite i_addrs_size, view_self.
  - unfold hdrs. rewrite Hat, decide_True by done. rewrite <- Eoff'.
    eapply i_size_dino; [done|unfold is_u32, BSIZE in *; lia|exact Hh2].
  - intros n Hne. unfold hdrs. by rewrite Hat, decide_False.
  - intros _ i3 (Hi3 & Eb & Ei & Hoth). split.
    + eapply img_bytes; [exact Hi3|]. intros n o Hnn Ho Hrd. unfold put_bytes, bytes_at in *. rewrite Hat.
      destruct (decide (n = n0)) as [->|Hne]; [|by rewrite decide_False in Hrd by tauto].
      rewrite Hf0 in Hrd. case_decide as Ein.
      * rewrite lookup_app_r by lia. by replace (Z.to_nat o - length bs)%nat with (Z.to_nat (o - Z.of_nat (length bs))) by lia.
      * destruct (decide (o < Z.of_nat (length bs))); [by rewrite lookup_app_l by lia|].
        rewrite lookup_ge_None_2 in Hrd by lia. rewrite lookup_ge_None_2; [done|]. rewrite length_app. lia.
    + unfold room in *. by rewrite Eb.
    + unfold fs'. rewrite length_insert, Ei, Hfi2. done.
    + unfold fs'. by rewrite length_insert.
    + intros n Hnn. rewrite Hat. case_decide as E; [done|]. intros Hno. rewrite Hoth, Hsame by done. by apply Hun.
    + intros n t b. rewrite Hat. case_decide; [|apply Hmax]. intros [= _ <-]. change MAXFILE with 140. lia.
Qed.

(** ** The program *)

(** What [read] returns until the end of the file, the name without the underscore, and the
    entries of the root directory. *)
Fixpoint read_all (reads : list (list Z)) : list Z :=
  match reads with [] => [] | buf :: reads => if Z.of_nat (length buf) >? 0 then buf ++ read_all reads else [] end.
Definition file_bytes (f : infile) : list Z := read_all (default [] (if_reads f)).
Definition short_name (f : infile) : list Z := match if_name f with 95 :: name => name | name => name end.
Fixpoint entries (n : Z) (files : list infile) : list (Z * list Z) :=
  match files with [] => [] | f :: files => (n, short_name f) :: entries (n + 1) files end.
Definition dir_bytes (es : list (Z * list Z)) : list Z := concat ((λ en, dirent en.1 en.2) <$> es).
Definition root_entries (files : list infile) : list (Z * list Z) := (1, codes ".") :: (1, codes "..") :: entries 2 files.

(** The files that [mkfs] is to put on the disk. *)
Definition image_files (files : list infile) : list (Z * list Z) :=
  (T_DIR, dir_bytes (root_entries files)) :: ((λ f, (T_FILE, file_bytes f)) <$> files).

Lemma dir_bytes_app es es' : dir_bytes (es ++ es') = dir_bytes es ++ dir_bytes es'.
Proof. unfold dir_bytes. by rewrite fmap_app, concat_app. Qed.

Lemma safe_copy fs n0 ty bs reads e i :
  keeps_files fs i → file_at fs n0 = Some (ty, bs) →
  safe (copy n0 reads) e i (λ _ i', keeps_files (<[Z.to_nat (n0 - 1) := (ty, bs ++ read_all reads)]> fs) i').
Proof.
  revert fs bs i. induction reads as [|buf reads IH]; intros fs bs i Hk Hf; cbn [copy read_all].
  - apply safe_ret. rewrite app_nil_r, list_insert_id; [done|]. unfold file_at in Hf. by case_decide.
  - destruct (_ >? 0).
    + eapply safe_bind; [eapply safe_iappend; [exact Hk|exact Hf]|]. intros [] i1 Hk1.
      eapply safe_mono; [eapply IH; [exact Hk1|]|].
      { rewrite (file_at_insert _ _ _ _ _ Hf). by rewrite decide_True. }
      intros [] i2 Hk2. by rewrite list_insert_insert_eq, <- app_assoc in Hk2.
    + apply safe_ret. rewrite app_nil_r, list_insert_id; [done|]. unfold file_at in Hf. by case_decide.
Qed.

Lemma file_at_last fs f : file_at (fs ++ [f]) (1 + Z.of_nat (length fs)) = Some f.
Proof. rewrite file_at_app. by rewrite decide_True. Qed.

(** One file: an inode, an entry of the root, and the contents. *)
Lemma safe_add_file rb old f e i :
  keeps_files ((T_DIR, rb) :: old) i → 2 + Z.of_nat (length old) < NI →
  safe (add_file ROOTINO f) e i (λ _ i', is_Some (if_reads f) ∧
    keeps_files ((T_DIR, rb ++ dirent (2 + Z.of_nat (length old)) (short_name f)) :: old ++ [(T_FILE, file_bytes f)]) i').
Proof.
  intros Hk Hlt. unfold add_file. eapply safe_bind; [apply safe_massert|]. intros [] i1 [-> _].
  unfold file_bytes. destruct (if_reads f) as [reads|]; [|done]. cbn [default id].
  change (match if_name f with 95 :: name => name | name => name end) with (short_name f).
  eapply safe_bind; [apply (safe_ialloc _ T_FILE _ _ Hk); [cbn [length]; lia|by split]|]. intros inum i1 [Ei Hk1].
  assert (inum = 2 + Z.of_nat (length old)) as -> by (rewrite Ei; cbn [length]; lia). clear Ei. cbn [app] in Hk1.
  eapply safe_bind; [eapply (safe_iappend _ ROOTINO); [exact Hk1|reflexivity]|]. intros [] i2 Hk2.
  change (Z.to_nat (ROOTINO - 1)) with 0%nat in Hk2. cbn [insert list_insert] in Hk2.
  eapply safe_mono; [eapply (safe_copy _ _ T_FILE []); [exact Hk2|]|].
  - pose proof (file_at_last ((T_DIR, rb ++ dirent (2 + Z.of_nat (length old)) (short_name f)) :: old) (T_FILE, [])) as Hl.
    cbn [length app] in Hl. by replace (1 + Z.of_nat (S (length old))) with (2 + Z.of_nat (length old)) in Hl by lia.
  - intros [] i3 Hk3. split; [eauto|].
    replace (Z.to_nat (2 + Z.of_nat (length old) - 1)) with (S (length old)) in Hk3 by lia.
    change (<[S ?n := ?y]> (?x :: ?l)) with (x :: <[n := y]> l) in Hk3. rewrite insert_app_r_alt, Nat.sub_diag in Hk3 by done. exact Hk3.
Qed.

Lemma safe_add_files files rb old e i :
  keeps_files ((T_DIR, rb) :: old) i → 1 + Z.of_nat (length old) + Z.of_nat (length files) < NI →
  safe (add_files ROOTINO files) e i (λ _ i', Forall (λ f, is_Some (if_reads f)) files ∧
    keeps_files ((T_DIR, rb ++ dir_bytes (entries (2 + Z.of_nat (length old)) files)) ::
                 old ++ ((λ f, (T_FILE, file_bytes f)) <$> files)) i').
Proof.
  revert rb old i. induction files as [|f files IH]; intros rb old i Hk Hlt; cbn [add_files entries fmap list_fmap].
  - apply safe_ret. cbn. by rewrite !app_nil_r.
  - cbn [length] in Hlt. eapply safe_bind; [apply (safe_add_file rb old); [done|lia]|]. intros [] i1 [Hf Hk1].
    eapply safe_mono; [apply (IH _ _ _ Hk1); rewrite length_app; cbn [length]; lia|]. intros [] i2 [Hfs Hk2].
    split; [by constructor|]. rewrite length_app, <- !app_assoc in Hk2. cbn [length app] in Hk2.
    replace (2 + Z.of_nat (length old + 1)) with (2 + Z.of_nat (length old) + 1) in Hk2 by lia.
    change (dir_bytes (?en :: ?es)) with (dirent en.1 en.2 ++ dir_bytes es). exact Hk2.
Qed.

(** The image while it is wiped. *)
Definition wiped (n : Z) (C : disk) : Prop := ∀ b, C !! b = if decide (0 ≤ b < n) then Some zero_block else None.

Lemma safe_wipe n j e i :
  0 ≤ j → wiped j (im_disk i) →
  safe (wipe n j) e i (λ _ i', wiped (j + Z.of_nat n) (im_disk i') ∧ im_freeblock i' = im_freeblock i ∧ im_freeinode i' = im_freeinode i).
Proof.
  revert j i. induction n as [|n IH]; intros j i Hj Hw; cbn [wipe].
  - apply safe_ret. by rewrite Z.add_0_r.
  - eapply safe_bind; [apply safe_wsect with (Q := λ _ i', i' = i <| im_disk ::= <[j := zero_block]> |>); done|].
    intros _ _ ->. eapply safe_mono; [apply IH; [lia|]|].
    + intros b. rsimpl. destruct (decide (b = j)) as [->|Hne].
      * rewrite lookup_insert_eq. by rewrite decide_True by lia.
      * rewrite lookup_insert_ne, Hw by done. repeat case_decide; done || lia.
    + intros _ i' (Hw' & E1 & E2). split; [|done]. by replace (j + Z.of_nat (S n)) with (j + 1 + Z.of_nat n) by lia.
Qed.

Lemma zero_dino_addrs n C : C !! IBLOCK n mk_sb = Some zero_block → i_addrs (disk_inode mk_sb C n) = replicate 13 0 ∧ hdr (disk_inode mk_sb C n) = (0, 0, 0).
Proof.
  intros E. assert (H16 : ∀ o, get16 zero_block o = 0) by (intros; unfold get16; by rewrite !get8_zero).
  unfold disk_inode, loaded, dblock, hdr. rsimpl. rewrite E. cbn [default id]. unfold load_dinode. rsimpl.
  rewrite !H16, get32_zero. split; [|done]. unfold NDIRECT. cbn [get_addrs]. by rewrite !get32_zero.
Qed.

Lemma keeps_no_files C f :
  (∀ b, b ≠ 1 → C !! b = if decide (0 ≤ b < FSSIZE) then Some zero_block else None) →
  (∃ d, C !! 1 = Some d ∧ length d = Z.to_nat BSIZE) → f = nmeta → keeps_files [] (Image C 1 f).
Proof.
  intros HC (d1 & Hd1 & Hl1) ->.
  assert (Hz : ∀ n, 0 ≤ n < NI → i_addrs (disk_inode mk_sb C n) = replicate 13 0 ∧ hdr (disk_inode mk_sb C n) = (0, 0, 0)).
  { intros n Hn. apply zero_dino_addrs. pose proof (iblock_range n Hn) as Hb. unfold IBLOCK in *.
    change (sb_inodestart mk_sb) with 32 in *. change FSSIZE with 1000 in *. change IPB with 8 in *. change NI with 208 in *.
    rewrite HC by dlia. by rewrite decide_True by lia. }
  assert (Ha : ∀ n j, 0 ≤ n < NI → addr_at (disk_inode mk_sb C n) j = 0).
  { intros n j Hn. unfold addr_at. destruct (Hz n Hn) as [-> _]. destruct (replicate 13 0 !! _) as [v|] eqn:Ev; [|done].
    by apply lookup_replicate in Ev as [-> _]. }
  assert (HS : ∀ n j, 0 ≤ n < NI → slot C (disk_inode mk_sb C n) j = 0).
  { intros n j Hn. unfold slot. rewrite !Ha by done. by destruct (_ <=? _). }
  assert (Hfa : ∀ n, file_at [] n = None) by (intros n; unfold file_at; by case_decide).
  split; [split|..]; cbn [im_disk im_freeblock im_freeinode].
  - split; cbn [im_disk].
    + intros b d. destruct (decide (b = 1)) as [->|Hne]; [rewrite Hd1; by intros [= <-]|].
      rewrite HC by done. case_decide; [|done]. by intros [= <-].
    + intros b Hb. destruct (decide (b = 1)) as [->|Hne]; [by rewrite Hd1|]. rewrite HC by done. by rewrite decide_True.
  - by vm_compute.
  - intros n Hn. by destruct (Hz n Hn) as [-> _].
  - split; [|..].
    + intros n j [Hn _] Hne. by rewrite HS in Hne.
    + intros n j n' j' [Hn _] _ Hne. by rewrite HS in Hne.
    + lia.
  - intros b Hb. change nmeta with 59 in Hb. rewrite HC by lia. by case_decide.
  - intros n Hn. unfold hdrs. rewrite Hfa. apply Hz, Hn.
  - intros n o Hn Ho. unfold bytes_at. rewrite Hfa. unfold reads, fbyte. by rewrite HS.
  - by vm_compute.
  - done.
  - by vm_compute.
  - intros n Hn _. apply Hz, Hn.
  - intros n ty bs. by rewrite Hfa.
Qed.

(** The headers at the end: the size of the root directory is rounded up. *)
Definition final_hdrs (fs : list (Z * list Z)) (n : Z) : Z * Z * Z :=
  if decide (n = ROOTINO) then let '(t, l, z) := hdrs fs n in (t, l, (z / BSIZE + 1) * BSIZE) else hdrs fs n.

Record finished (files : list infile) (i : image) : Prop := {
  fi_opened : Forall (λ f, is_Some (if_reads f)) files;
  fi_img : img (disk_inode mk_sb (im_disk i)) (final_hdrs (image_files files)) (bytes_at (image_files files)) i;
  fi_room : room i;
  fi_max : ∀ n ty bs, file_at (image_files files) n = Some (ty, bs) → Z.of_nat (length bs) ≤ MAXFILE * BSIZE }.

Lemma safe_fix_root fs rb e i :
  keeps_files ((T_DIR, rb) :: fs) i →
  safe (fix_root ROOTINO) e i (λ _ i', room i' ∧
    img (disk_inode mk_sb (im_disk i')) (final_hdrs ((T_DIR, rb) :: fs)) (bytes_at ((T_DIR, rb) :: fs)) i').
Proof.
  intros Hk. pose proof Hk as [Hi Hr Hf Hfew Hun Hmax]. unfold fix_root. set (fs' := (T_DIR, rb) :: fs) in *.
  assert (0 ≤ ROOTINO < NI) as Hn0 by done.
  assert (hdrs fs' ROOTINO = (T_DIR, 1, Z.of_nat (length rb))) as Hh by done.
  pose proof (Hmax ROOTINO T_DIR rb eq_refl) as Hlen. change MAXFILE with 140 in Hlen.
  eapply safe_bind; [by apply (safe_rinode fs')|]. intros din i1 (-> & Hl & Ed & Es).
  pose proof (ig_hdr _ _ _ _ Hi ROOTINO Hn0) as Hd. rewrite Hh in Hd.
  assert (get32 din o_size = Z.of_nat (length rb)) as -> by (rewrite Es; by injection Hd).
  eapply safe_mono; [eapply (safe_winode ROOTINO _ _ _ (final_hdrs fs')); [exact Hi|done|by rewrite length_put32|done|..]|].
  - by rewrite i_addrs_size, Ed.
  - unfold final_hdrs. rewrite decide_True, Hh by done. eapply i_size_dino; [done| |by rewrite Ed].
    unfold is_u32, BSIZE in *. dlia.
  - intros n Hne. unfold final_hdrs. by rewrite decide_False.
  - intros [] i2 (Hi2 & Eb & _). split; [|done]. unfold room in *. by rewrite Eb.
Qed.

Lemma safe_balloc H B e i :
  img (disk_inode mk_sb (im_disk i)) H B i → room i →
  safe (balloc (im_freeblock i)) e i (λ _ i', room i' ∧ img (disk_inode mk_sb (im_disk i')) H B i').
Proof.
  intros Hi Hr. pose proof (ig_fb _ _ _ _ Hi) as Hfb. unfold room in *. change nmeta with 59 in *. change FSSIZE with 1000 in *.
  unfold balloc. eapply safe_bind; [apply safe_massert|]. intros [] i1 [-> _]. apply safe_wsect. split; [done|]. rsimpl.
  change (sb_bmapstart mk_sb) with 58.
  assert (HD : ∀ n buf, 0 ≤ n < NI → disk_inode mk_sb (<[58 := buf]> (im_disk i)) n = disk_inode mk_sb (im_disk i) n).
  { intros n buf Hn. pose proof (iblock_range n Hn). unfold disk_inode, loaded, dblock. rsimpl. by rewrite lookup_insert_ne by lia. }
  eapply img_meta; [exact Hi|by change nmeta with 59| | |].
  - apply (mark_spec _ _ _ 0); [done|done| |done]. unfold BPB, BSIZE. lia.
  - intros n Hn. by rewrite HD.
  - intros n Hn. rewrite HD by done. by apply Hi.
Qed.

Lemma safe_layout e i :
  im_disk i = ∅ → im_freeinode i = 1 →
  safe (modify (λ i, i <| im_freeblock := nmeta |>);; wipe (Z.to_nat FSSIZE) 0;; wsect 1 (sb_bytes mk_sb)) e i (λ _ i', keeps_files [] i').
Proof.
  intros Hd Hf. eapply safe_bind with (R := λ _ i', i' = i <| im_freeblock := nmeta |>); [done|]. intros _ _ ->.
  eapply safe_bind; [apply safe_wipe; [done|]|].
  { intros b. rsimpl. rewrite Hd, lookup_empty. by rewrite decide_False by lia. }
  intros [] i1 (Hw & E1 & E2). rsimpl. apply safe_wsect. destruct i1 as [C fi fb]. rsimpl.
  cbn in E1, E2. subst fb. rewrite Hf in E2. subst fi.
  apply keeps_no_files; [| |done].
  - intros b Hb. rewrite lookup_insert_ne by done. apply Hw.
  - rewrite lookup_insert_eq. eexists. split; [done|]. unfold sb_bytes. by rewrite !length_put32.
Qed.

Lemma returns_ex (m : IM unit) e i0 :
  match m e i0 with Ret _ e' _ => e' = e | _ => False end → ∃ i, m e i0 = Ret tt e i.
Proof. destruct (m e i0) as [[] e' i|?|?|?|?]; try done. intros ->. by exists i. Qed.

Lemma safe_match {A} (m : IM A) e i Q :
  safe m e i Q → match m e i with Ret a e' i' => e' = e ∧ Q a i' | Panic _ _ => True | _ => False end.
Proof. done. Qed.

Lemma safe_assoc3 {A} (a b c : IM unit) (m : IM A) e i Q : safe ((a;; b;; c);; m) e i Q → safe (a;; b;; c;; m) e i Q.
Proof. unfold safe. by rewrite bind_assoc3. Qed.

Lemma safe_mkfs files e :
  1 + Z.of_nat (length files) < NI → safe (mkfs files) e new_image (λ _ i, finished files i).
Proof.
  intros Hn. unfold mkfs. apply safe_assoc3. eapply safe_bind; [by apply safe_layout|]. intros [] i1 Hk1.
  eapply safe_bind; [apply (safe_ialloc [] T_DIR _ _ Hk1); [done|by split]|]. intros rootino i2 [_ Hk2].
  eapply safe_bind; [apply safe_massert|]. intros [] i3 [-> ->%Z.eqb_eq]. cbn [app] in Hk2.
  eapply safe_bind; [eapply (safe_iappend _ ROOTINO); [exact Hk2|reflexivity]|]. intros [] i4 Hk4.
  eapply safe_bind; [eapply (safe_iappend _ ROOTINO); [exact Hk4|reflexivity]|]. intros [] i5 Hk5.
  change (Z.to_nat (ROOTINO - 1)) with 0%nat in Hk5. cbn [insert list_insert app] in Hk5.
  eapply safe_bind; [apply (safe_add_files files _ _ _ _ Hk5); cbn [length]; lia|]. intros [] i6 [Hop Hk6].
  cbn [app length] in Hk6. change (2 + Z.of_nat 0) with 2 in Hk6. rewrite <- app_assoc in Hk6.
  eapply safe_bind; [apply (safe_fix_root _ _ _ _ Hk6)|]. intros [] i7 [Hr7 Hi7].
  unfold safe. rewrite bind_gets. pose proof (safe_balloc _ _ e i7 Hi7 Hr7) as Hb. unfold safe in Hb.
  destruct (balloc _ e i7); try done. destruct Hb as (-> & Hr8 & Hi8). split; [done|]. split; [done|exact Hi8|done|apply Hk6].
Qed.

(** ** Properties *)

Section kernel.
Context (i : image) (n f : Z) (Hn : 0 ≤ n < NI) (Hs : sectors i) (Hf : nmeta ≤ f ≤ FSSIZE).
Context (Hu : ∀ b, 0 ≤ b < FSSIZE → used mk_sb (im_disk i) b = (b <? f)).

Lemma image_good b : 0 ≤ b < f → b ≠ sb_bmapstart mk_sb → good mk_sb (im_disk i) b.
Proof.
  intros Hb Hne. split.
  - change (sb_size mk_sb) with FSSIZE. lia.
  - rewrite Hu by lia. lia.
  - intros (x & Hx & ->). apply Hne. by apply one_map_block.
  - destruct (se_all _ Hs b ltac:(lia)) as [d Hd]. exists d. split; [done|]. by apply (se_range _ Hs b).
Qed.

(** An inode of the image is a file in order. *)
Lemma image_file_ok :
  alloc (λ n j, slot (im_disk i) (disk_inode mk_sb (im_disk i) n) j) f →
  file_ok mk_sb (im_disk i) (disk_inode mk_sb (im_disk i) n).
Proof.
  intros Ha. pose proof (iblock_range n Hn) as Hib. change nmeta with 59 in *.
  assert (iblock mk_sb (disk_inode mk_sb (im_disk i) n) = IBLOCK n mk_sb) as Eib by done.
  pose proof (λ j Hj, al_range _ _ Ha n j (conj Hn Hj)) as Hr. change nmeta with 59 in Hr. cbv beta in Hr. split.
  - done.
  - apply length_get_addrs.
  - intros j Hj Hne. specialize (Hr j Hj Hne). apply image_good; [lia|]. change (sb_bmapstart mk_sb) with 58. lia.
  - intros j j' Hj Hj' Hne E. by apply (al_inj _ _ Ha n j n j').
  - rewrite Eib. apply image_good; [lia|]. change (sb_bmapstart mk_sb) with 58. lia.
  - intros j Hj E. rewrite Eib in E. specialize (Hr j Hj). unfold IBLOCK in *. change (sb_inodestart mk_sb) with 32 in *.
    change IPB with 8 in *. assert (0 ≤ n / 8) by (apply Z.div_pos; lia). lia.
Qed.
End kernel.

Lemma mkfs_empty e : ∃ i, mkfs [] e new_image = Ret tt e i.
Proof. apply returns_ex. by vm_compute. Qed.

(** C37 What mkfs promises the kernel's allocator.  On any files, [mkfs] ends, with an image or with an
    error exit; its image has a free map as the allocator needs it, in which just the blocks
    below [freeblock] are marked.  If there are no more files than inodes, the marked blocks
    behind the metadata are those that the inodes hold in their slots (direct addresses,
    indirect block and its entries), every one of them in one slot of one inode; so every inode is
    a file in order for the kernel.  With no files [mkfs] does not exit. *)
Theorem mkfs_free_map files e :
  match mkfs files e new_image with
  | Ret _ e' i =>
    e' = e ∧ free_map mk_sb (im_disk i) ∧ nmeta ≤ im_freeblock i ≤ FSSIZE ∧
    (∀ b, 0 ≤ b < FSSIZE → used mk_sb (im_disk i) b = (b <? im_freeblock i)) ∧
    (1 + Z.of_nat (length files) < NINODES →
     alloc (λ n j, slot (im_disk i) (disk_inode mk_sb (im_disk i) n) j) (im_freeblock i) ∧
     ∀ n, 0 ≤ n < NINODES → file_ok mk_sb (im_disk i) (disk_inode mk_sb (im_disk i) n))
  | Panic _ _ => True
  | _ => False
  end ∧ ∃ i, mkfs [] e new_image = Ret tt e i.
Proof.
  split; [|apply mkfs_empty].
  pose proof (mkfs_marks files e) as Hm. pose proof (λ H, safe_match _ _ _ _ (safe_mkfs files e H)) as Hs.
  destruct (mkfs files e new_image) as [u e' i|?|?|?|?]; try done. destruct Hm as (-> & Hsec & Hfm & Hfb & Hu).
  do 4 (split; [done|]). intros Hlt. assert (NINODES < NI) as HNI by done.
  destruct Hs as [_ [_ Hi _ _]]; [lia|]. pose proof (ig_alloc _ _ _ _ Hi) as Ha. split; [done|].
  intros n Hn. eapply image_file_ok; [lia|done|exact Hfb|exact Hu|exact Ha].
Qed.

Lemma length_dir_bytes es : length (dir_bytes es) = (16 * length es)%nat.
Proof.
  induction es as [|en es IH]; [done|]. change (dir_bytes (en :: es)) with (dirent en.1 en.2 ++ dir_bytes es).
  rewrite length_app, length_dirent, IH. cbn [length]. lia.
Qed.

Lemma dir_bytes_lookup es j en m :
  es !! j = Some en → (m < 16)%nat → dir_bytes es !! (16 * j + m)%nat = dirent en.1 en.2 !! m.
Proof.
  revert j. induction es as [|en' es IH]; intros j Hj Hm; [done|].
  change (dir_bytes (en' :: es)) with (dirent en'.1 en'.2 ++ dir_bytes es). destruct j as [|j].
  - injection Hj as ->. by rewrite lookup_app_l by (rewrite length_dirent; lia).
  - rewrite lookup_app_r by (rewrite length_dirent; lia). rewrite length_dirent.
    replace (16 * S j + m - 16)%nat with (16 * j + m)%nat by lia. by apply IH.
Qed.

(** The directory that the bytes of entries make. *)
Lemma dir_of_bytes C x es m :
  (∀ o, 0 ≤ o < i_size x → fbyte C x o = default 0 (dir_bytes es !! Z.to_nat o)) →
  i_size x = 16 * Z.of_nat (length es + m) → Forall (λ en, 0 ≤ en.1 < 65536) es →
  dir C x = ((λ en, (en.1, cname en.2)) <$> es) ++ replicate m (0, []).
Proof.
  intros Hb Hz Hes. assert (ndents x = length es + m)%nat as Hn by (unfold ndents; rewrite Hz; dlia).
  apply list_eq. intros j. destruct (decide (j < ndents x)%nat) as [Hj|Hj].
  2:{ by rewrite !lookup_ge_None_2 by (rewrite ?length_app, ?length_fmap, ?length_replicate, ?length_dir; lia). }
  rewrite dir_lookup by done.
  assert (Hd : ∀ q, (q < 16)%nat → dent C x j !! q = Some (default 0 (dir_bytes es !! (16 * j + q)%nat))).
  { intros q Hq. unfold dent. rewrite list_lookup_fmap, lookup_seqZ_lt by lia. cbn. rewrite Hb by lia. do 3 f_equal. lia. }
  assert (length (dent C x j) = 16%nat) as Hl by (unfold dent; by rewrite length_fmap, length_seqZ).
  destruct (es !! j) as [en|] eqn:E.
  - assert (dent C x j = dirent en.1 en.2) as ->.
    { apply list_eq. intros q. destruct (decide (q < 16)%nat) as [Hq|Hq].
      - rewrite Hd, (dir_bytes_lookup es j en) by done.
        by destruct (lookup_lt_is_Some_2 (dirent en.1 en.2) q) as [v ->]; [rewrite length_dirent|].
      - rewrite !lookup_ge_None_2; [done|rewrite length_dirent; lia|lia]. }
    rewrite lookup_app_l by (rewrite length_fmap; by eapply lookup_lt_Some). rewrite list_lookup_fmap, E. cbn [fmap option_fmap option_map].
    unfold said. rewrite cname_dirent, inum_dirent; [done|]. rewrite Forall_lookup in Hes. by apply (Hes j).
  - apply lookup_ge_None_1 in E. assert (dent C x j = replicate 16 0) as ->.
    { apply list_eq. intros q. destruct (decide (q < 16)%nat) as [Hq|Hq].
      - rewrite Hd, lookup_ge_None_2 by (done || (rewrite length_dir_bytes; lia)). symmetry. by apply lookup_replicate_2.
      - rewrite !lookup_ge_None_2; [done|rewrite length_replicate; lia|lia]. }
    rewrite lookup_app_r by (by rewrite length_fmap). rewrite length_fmap. symmetry. apply lookup_replicate_2. lia.
Qed.

Lemma length_entries n files : length (entries n files) = length files.
Proof. revert n. induction files as [|f files IH]; intros n; cbn; [done|]. by rewrite IH. Qed.

Lemma entries_range n files : 0 ≤ n → n + Z.of_nat (length files) ≤ 65536 → Forall (λ en, 0 ≤ en.1 < 65536) (entries n files).
Proof.
  revert n. induction files as [|f files IH]; intros n Hn Hl; cbn in *; constructor; [cbn; lia|]. apply IH; lia.
Qed.

Lemma hdr_inv x t l z : hdr x = (t, l, z) → i_type x = t ∧ i_nlink x = l ∧ i_size x = z.
Proof. unfold hdr. by intros [= -> -> ->]. Qed.

(** What a file of the image is to the kernel. *)
Lemma image_file H fs i n ty bs :
  img (disk_inode mk_sb (im_disk i)) H (bytes_at fs) i → 0 ≤ n < NI → file_at fs n = Some (ty, bs) →
  Z.of_nat (length bs) ≤ MAXFILE * BSIZE →
  let x := disk_inode mk_sb (im_disk i) n in
  (fbyte (im_disk i) x <$> seqZ 0 (Z.of_nat (length bs)) = bs) ∧
  ∀ o, 0 ≤ o < Z.of_nat (length bs) → slot (im_disk i) x (dslot (o / BSIZE)) ≠ 0.
Proof.
  intros Hi Hn Hf Hlen x.
  assert (Hrd : ∀ o, 0 ≤ o < Z.of_nat (length bs) → reads (im_disk i) x o (bs !! Z.to_nat o)).
  { intros o Ho. pose proof (ig_byte _ _ _ _ Hi n o Hn ltac:(lia)) as Hb. unfold bytes_at in Hb. by rewrite Hf in Hb. }
  split.
  - apply list_eq. intros m. rewrite list_lookup_fmap. destruct (decide (m < length bs)%nat) as [Hm|Hm].
    + rewrite lookup_seqZ_lt by lia. cbn. destruct (Hrd (Z.of_nat m) ltac:(lia)) as [E _]. rewrite Z.add_0_l, E, Nat2Z.id.
      by destruct (lookup_lt_is_Some_2 bs m Hm) as [v ->].
    + rewrite lookup_seqZ_ge by lia. cbn. by rewrite lookup_ge_None_2 by lia.
  - intros o Ho. apply (Hrd o Ho). apply lookup_lt_is_Some_2. lia.
Qed.

(** C38 What is on the disk that mkfs makes, as the kernel reads it.  If [mkfs] ends with an image, and
    there are no more files than inodes: the inode after the root directory's, and so on for
    each file given, is a file with one link, whose size and bytes are those that [read] returned,
    with all its blocks there.  The root directory is inode 1; its entries are [.], [..] and, for each file, its
    name without the underscore, cut to what an entry holds, with the number of its inode; the rest of
    the directory, up to a size of whole blocks, are entries not in use. *)
Theorem mkfs_files files e i :
  1 + Z.of_nat (length files) < NINODES → mkfs files e new_image = Ret tt e i →
  let C := im_disk i in
  (∀ k f, files !! k = Some f → ∃ reads, if_reads f = Some reads ∧
     let x := disk_inode mk_sb C (2 + Z.of_nat k) in
     i_type x = T_FILE ∧ i_nlink x = 1 ∧ i_size x = Z.of_nat (length (read_all reads)) ∧
     fbyte C x <$> seqZ 0 (i_size x) = read_all reads ∧ filled C x) ∧
  let r := disk_inode mk_sb C ROOTINO in
  i_type r = T_DIR ∧ i_nlink r = 1 ∧ i_size r = (16 * (2 + Z.of_nat (length files)) / BSIZE + 1) * BSIZE ∧
  ∃ m, dir C r = ((λ en, (en.1, cname en.2)) <$> root_entries files) ++ replicate m (0, []).
Proof.
  intros Hlt E. cbv zeta. assert (NINODES = 200) as EN by done. assert (NI = 208) as ENI by done.
  pose proof (safe_match _ _ _ _ (safe_mkfs files e ltac:(lia))) as Hs. rewrite E in Hs. destruct Hs as (_ & [Hop Hi _ Hmax]).
  set (fs := image_files files) in *.
  assert (Hlen : length (dir_bytes (root_entries files)) = (16 * (2 + length files))%nat).
  { rewrite length_dir_bytes. unfold root_entries. cbn [length]. rewrite length_entries. lia. }
  split.
  - intros k f Hk. pose proof (lookup_lt_Some _ _ _ Hk) as Hkl.
    rewrite Forall_lookup in Hop. destruct (Hop k f Hk) as [reads Er]. exists reads. split; [done|]. cbv zeta.
    assert (file_at fs (2 + Z.of_nat k) = Some (T_FILE, read_all reads)) as Hf.
    { unfold file_at. rewrite decide_True by lia. replace (Z.to_nat _) with (S k) by lia.
      change (fs !! S k) with (((λ f, (T_FILE, file_bytes f)) <$> files) !! k).
      rewrite list_lookup_fmap, Hk. cbn. unfold file_bytes. by rewrite Er. }
    pose proof (ig_hdr _ _ _ _ Hi (2 + Z.of_nat k) ltac:(lia)) as Hh. unfold final_hdrs, hdrs in Hh.
    rewrite decide_False, Hf in Hh by (change ROOTINO with 1; lia). apply hdr_inv in Hh as (Ht & Hl & Ez).
    destruct (image_file _ _ _ (2 + Z.of_nat k) _ _ Hi ltac:(lia) Hf (Hmax _ _ _ Hf)) as [Hb Hfill]. unfold filled. rewrite Ez. do 3 (split; [done|]). split; [exact Hb|exact Hfill].
  - assert (0 ≤ ROOTINO < NI) as Hr by (by split).
    assert (file_at fs ROOTINO = Some (T_DIR, dir_bytes (root_entries files))) as Hf by reflexivity.
    pose proof (ig_hdr _ _ _ _ Hi ROOTINO Hr) as Hh. unfold final_hdrs in Hh.
    rewrite decide_True in Hh by reflexivity. unfold hdrs in Hh. rewrite Hf in Hh.
    rewrite Hlen in Hh. apply hdr_inv in Hh as (Ht & Hl & Hz). replace (Z.of_nat (16 * (2 + length files))) with (16 * (2 + Z.of_nat (length files))) in Hz by lia.
    split; [done|]. split; [done|]. split; [done|].
    exists (Z.to_nat ((16 * (2 + Z.of_nat (length files)) / BSIZE + 1) * BSIZE / 16) - (2 + length files))%nat.
    apply dir_of_bytes.
    + intros o Ho. pose proof (ig_byte _ _ _ _ Hi ROOTINO o Hr) as Hb. unfold bytes_at in Hb. rewrite Hf in Hb.
      apply Hb. change MAXFILE with 140. unfold BSIZE in *. dlia.
    + rewrite Hz. unfold root_entries. cbn [length]. rewrite length_entries. unfold BSIZE. dlia.
    + constructor; [by split|]. constructor; [by split|]. apply entries_range; lia.
Qed.

(** One file of three bytes: block 59 is the root's, block 60 the file's. *)
Lemma mkfs_files_witness :
  ∃ i, mkfs [Infile (codes "_cat") (Some [[1; 2; 3]])] [] new_image = Ret tt [] i ∧
    fbyte (im_disk i) (disk_inode mk_sb (im_disk i) 2) <$> seqZ 0 3 = [1; 2; 3] ∧
    ∃ m, dir (im_disk i) (disk_inode mk_sb (im_disk i) ROOTINO) = [(1, [46]); (1, [46; 46]); (2, [99; 97; 116])] ++ replicate m (0, []).
Proof.
  assert (∃ i, mkfs [Infile (codes "_cat") (Some [[1; 2; 3]])] [] new_image = Ret tt [] i) as [i E].
  { apply returns_ex. by vm_compute. }
  destruct (mkfs_files [Infile (codes "_cat") (Some [[1; 2; 3]])] [] i) as (Hf & _ & _ & _ & Hd); [done|exact E|].
  exists i. split; [exact E|]. split.
  - destruct (Hf 0%nat _ eq_refl) as (reads & [= <-] & _ & _ & Hz & Hb & _). cbv zeta in *. change (2 + Z.of_nat 0) with 2 in *.
    rewrite Hz in Hb. exact Hb.
  - destruct Hd as [m Hd]. exists m. exact Hd.
Defined.
