(* ===== verification/File.v ===== *)
(** * Open files (file.c, and pipealloc of pipe.c)

    The table of open files with its reference counts, and reading and
    writing through an open file. *)

From S2P Require Import Prelude State Spinlock Kalloc Consout Sched Sleep Sleeplock Vm.
From S2P Require Import Pipe Bio Log Inode Console Fs.

Definition file_get {A} (f : nat) (g : file → A) : KM A :=
  k ← mget; x ← deref (k_file k !! f); mret (g x).
Definition file_upd (f : nat) (g : file → file) : KM unit :=
  modify (λ k, k <| k_file ::= alter g f |>).

(** [src/xv6-public/file.c:19-23] *)
Definition fileinit : KM unit := initlock LkFtable.

(** [src/xv6-public/file.c:26-41] *)
Definition filealloc : KM (option nat) :=
  acquire LkFtable;;
  fs ← gets k_file;
  match list_find (λ f, f_ref f = 0) fs with
  | Some (f, _) =>
    file_upd f (λ x, x <| f_ref := 1 |>);;
    release LkFtable;;
    mret (Some f)
  | None =>
    release LkFtable;;
    mret None
  end.

(** [src/xv6-public/file.c:44-53] *)
Definition filedup (f : nat) : KM nat :=
  acquire LkFtable;;
  ref ← file_get f f_ref;
  if ref <? 1 then mpanic "filedup" else
  file_upd f (λ x, x <| f_ref ::= λ n, n + 1 |>);;
  release LkFtable;;
  mret f.

Section file.
Context `{Disk} `{Devsw}.

(** [src/xv6-public/file.c:56-80] *)
Definition fileclose (f : nat) : KM unit :=
  acquire LkFtable;;
  ref ← file_get f f_ref;
  if ref <? 1 then mpanic "fileclose" else
  file_upd f (λ x, x <| f_ref ::= λ n, n - 1 |>);;
  ff ← file_get f id;
  if f_ref ff >? 0 then release LkFtable else
  file_upd f (λ x, x <| f_ref := 0 |>);;
  file_upd f (λ x, x <| f_type := FD_NONE |>);;
  release LkFtable;;
  match f_type ff with
  | FD_PIPE => pipeclose (f_pipe ff) (f_writable ff)
  | FD_INODE =>
    begin_op;;
    ip ← deref (f_ip ff);
    iput ip;;
    end_op
  | FD_NONE => mret tt
  end.

(** [src/xv6-public/file.c:83-93] *)
Definition filestat (f : nat) (st : Z) : KM Z :=
  x ← file_get f id;
  match f_type x with
  | FD_INODE =>
    ip ← deref (f_ip x);
    ilock (Some ip);;
    stati ip st;;
    iunlock (Some ip);;
    mret 0
  | _ => mret (-1)
  end.

(** [src/xv6-public/file.c:96-113] *)
Definition fileread (f : nat) (addr n : Z) : KM Z :=
  x ← file_get f id;
  if negb (f_readable x) then mret (-1) else
  match f_type x with
  | FD_PIPE => piperead (f_pipe x) addr n
  | FD_INODE =>
    ip ← deref (f_ip x);
    ilock (Some ip);;
    off ← file_get f f_off;
    r ← readi ip (to_user addr) off n;
    when (fst r >? 0) (file_upd f (λ x, x <| f_off ::= λ o, wrap32 (o + fst r) |>));;
    iunlock (Some ip);;
    mret (fst r)
  | FD_NONE => mpanic "fileread"
  end.

(** The loop of [filewrite]; [None] when a write fails. *)
Fixpoint filewrite_loop (fuel : nat) (f ip : nat) (addr i n : Z) : KM Z :=
  match fuel with
  | O => λ _ k, NoFuel k
  | S fuel =>
    if negb (i <? n) then mret i else
    let max := (MAXOPBLOCKS - 1 - 1 - 2) / 2 * 512 in
    let n1 := if n - i >? max then max else n - i in
    begin_op;;
    ilock (Some ip);;
    off ← file_get f f_off;
    r ← writei ip (from_user (addr + i)) off n1;
    when (r >? 0) (file_upd f (λ x, x <| f_off ::= λ o, wrap32 (o + r) |>));;
    iunlock (Some ip);;
    end_op;;
    if r <? 0 then mret i else
    if negb (r =? n1) then mpanic "short filewrite" else
    filewrite_loop fuel f ip addr (i + r) n
  end.

(** [src/xv6-public/file.c:117-156] *)
Definition filewrite (f : nat) (addr n : Z) : KM Z :=
  x ← file_get f id;
  if negb (f_writable x) then mret (-1) else
  match f_type x with
  | FD_PIPE => pipewrite (f_pipe x) addr n
  | FD_INODE =>
    ip ← deref (f_ip x);
    i ← filewrite_loop (S (Z.to_nat n)) f ip addr 0 n;
    mret (if i =? n then n else -1)
  | FD_NONE => mpanic "filewrite"
  end.

(** [src/xv6-public/pipe.c:48-56] the common exit of [pipealloc] on failure *)
Definition pipealloc_bad (f0 f1 : option nat) : KM (option (nat * nat)) :=
  (match f0 with Some f => fileclose f | None => mret tt end);;
  (match f1 with Some f => fileclose f | None => mret tt end);;
  mret None.

(** [src/xv6-public/pipe.c:22-57] the read end and the write end *)
Definition pipealloc : KM (option (nat * nat)) :=
  f0 ← filealloc;
  match f0 with
  | None => pipealloc_bad None None
  | Some r =>
    f1 ← filealloc;
    match f1 with
    | None => pipealloc_bad (Some r) None
    | Some w =>
      p ← kalloc;
      if p =? 0 then pipealloc_bad (Some r) (Some w) else
      modify (λ k, k <| k_pipe ::=
        <[p := Pipe (replicate (Z.to_nat PIPESIZE) 0) 0 0 true true]> |>);;
      initlock (LkPipe p);;
      file_upd r (λ x, x <| f_type := FD_PIPE |> <| f_readable := true |>
                         <| f_writable := false |> <| f_pipe := p |>);;
      file_upd w (λ x, x <| f_type := FD_PIPE |> <| f_readable := false |>
                         <| f_writable := true |> <| f_pipe := p |>);;
      mret (Some (r, w))
    end
  end.

End file.
