(* ===== verification/Proc.v ===== *)
(** * The life of a process (proc.c)

    [allocproc], [userinit], [growproc], [fork], [set_prio], [exit], the three
    [wait]s and [forkret]. *)

From S2P Require Import Prelude State Spinlock Mem Kalloc Consout Sched Sleep Sleeplock.
From S2P Require Import Vm Pipe Bio Log Inode Console Fs File.

(** The return addresses that a new kernel stack holds, which the linker
    chooses. *)
Class Entries := { trapret : Z; forkret_addr : Z }.

(** [src/xv6-public/x86.h:150-183] offsets in a trap frame, and its size *)
Definition tf_eax : Z := 28.
Definition tf_es : Z := 40.
Definition tf_ds : Z := 44.
Definition tf_trapno : Z := 48.
Definition tf_err : Z := 52.
Definition tf_eip : Z := 56.
Definition tf_cs : Z := 60.
Definition tf_eflags : Z := 64.
Definition tf_esp : Z := 68.
Definition tf_ss : Z := 72.
Definition tf_size : Z := 76.

(** [src/xv6-public/proc.h:27-33] size of a context, and offset of [eip] *)
Definition context_size : Z := 20.
Definition context_eip : Z := 16.

(** A field of [*p->tf]. *)
Definition tf_get (p : nat) (o : Z) : KM Z :=
  tf ← proc_get p p_tf; gets (λ k, kld32 k (tf + o)).
Definition tf_set (p : nat) (o v : Z) : KM unit :=
  tf ← proc_get p p_tf; kst32 (tf + o) v.

(** [src/xv6-public/proc.c:77-85] what [allocproc] records in the slot it found *)
Definition embryo (pid : Z) (q : proc) : proc :=
  q <| p_state := EMBRYO |> <| p_pid := pid |> <| p_priority := 2 |>
    <| p_retime := 0 |> <| p_rutime := 0 |> <| p_stime := 0 |> <| p_ctime := 0 |>
    <| p_queue_time := 0 |>.

Section proc.
Context `{Entries}.

(** [src/xv6-public/proc.c:63-111] C leaves the overflow of [nextpid++] undefined *)
Definition allocproc : KM (option nat) :=
  acquire LkPtable;;
  ps ← gets k_proc;
  match find_proc (λ q, bool_decide (p_state q = UNUSED)) ps with
  | None => release LkPtable;; mret None
  | Some p =>
    pid ← gets k_nextpid;
    if pid + 1 >=? 2 ^ 31 then mfault else
    modify (λ k, k <| k_nextpid := pid + 1 |>);;
    proc_upd p (embryo pid);;
    release LkPtable;;
    kstack ← kalloc;
    proc_upd p (λ q, q <| p_kstack := kstack |>);;
    if kstack =? 0 then
      proc_upd p (λ q, q <| p_state := UNUSED |>);;
      mret None
    else
      let sp := kstack + KSTACKSIZE - tf_size in
      proc_upd p (λ q, q <| p_tf := sp |>);;
      let sp := sp - 4 in
      kst32 sp trapret;;
      let sp := sp - context_size in
      proc_upd p (λ q, q <| p_context := sp |>);;
      modify (λ k, k <| k_mem ::= λ m, memset m (V2P sp) 0 context_size |>);;
      kst32 (sp + context_eip) forkret_addr;;
      mret (Some p)
  end.

(** [src/xv6-public/proc.c:151-166] *)
Definition growproc (n : Z) : KM Z :=
  curproc ← myproc;
  p ← deref curproc;
  q ← proc_get p id;
  let sz := p_sz q in
  let grow sz :=
    proc_upd p (λ q, q <| p_sz := sz |>);;
    switchuvm (Some p);;
    mret 0 in
  if n >? 0 then
    sz ← allocuvm (p_pgdir q) sz (wrap32 (sz + n));
    if sz =? 0 then mret (-1) else grow sz
  else if n <? 0 then
    sz ← deallocuvm (p_pgdir q) sz (wrap32 (sz + n));
    if sz =? 0 then mret (-1) else grow sz
  else grow sz.

(** [safestrcpy] between two arrays. *)
Fixpoint safestrcpy_l (dst src : list Z) (n : nat) : list Z :=
  match n, dst with
  | O, _ | _, [] => dst
  | S O, _ :: dst => 0 :: dst
  | S n, _ :: dst =>
    match src with
    | [] => 0 :: dst
    | c :: src => if c =? 0 then 0 :: <[0%nat := 0]> dst else c :: safestrcpy_l dst src n
    end
  end.

(** [src/xv6-public/proc.c:195-197] *)
Fixpoint dup_files (np : nat) (files : list (option nat)) (i : nat) : KM unit :=
  match files with
  | [] => mret tt
  | f :: files =>
    (match f with
     | Some f =>
       g ← filedup f;
       proc_upd np (λ q, q <| p_ofile ::= <[i := Some g]> |>)
     | None => mret tt
     end);;
    dup_files np files (S i)
  end.

(** The code that [fork] and [set_prio] share, which differs in the priority the
    child gets. *)
Definition fork_with (child_priority : Z → Z) : KM Z :=
  curproc ← myproc;
  np ← allocproc;
  match np with
  | None => mret (-1)
  | Some np =>
    cur ← deref curproc;
    q ← proc_get cur id;
    pgdir ← copyuvm (p_pgdir q) (p_sz q);
    proc_upd np (λ x, x <| p_pgdir := pgdir |>);;
    if pgdir =? 0 then
      kstack ← proc_get np p_kstack;
      kfree kstack;;
      proc_upd np (λ x, x <| p_kstack := 0 |>);;
      proc_upd np (λ x, x <| p_state := UNUSED |>);;
      mret (-1)
    else
      sz ← proc_get cur p_sz;
      proc_upd np (λ x, x <| p_sz := sz |>);;
      proc_upd np (λ x, x <| p_parent := curproc |>);;
      ntf ← proc_get np p_tf;
      tf ← proc_get cur p_tf;
      modify (λ k, k <| k_mem ::= λ m, memmove m (V2P ntf) (V2P tf) tf_size |>);;
      tf_set np tf_eax 0;;
      q ← proc_get cur id;
      dup_files np (p_ofile q) 0;;
      cwd ← proc_get cur p_cwd;
      cwd ← deref cwd;
      cwd ← idup cwd;
      proc_upd np (λ x, x <| p_cwd := Some cwd |>);;
      name ← proc_get cur p_name;
      proc_upd np (λ x, x <| p_name ::= λ s, safestrcpy_l s name 16 |>);;
      pid ← proc_get np p_pid;
      acquire LkPtable;;
      proc_upd np (λ x, x <| p_state := RUNNABLE |>);;
      proc_upd np (λ x, x <| p_priority := child_priority pid |>);;
      release LkPtable;;
      mret pid
  end.

(** [src/xv6-public/proc.c:171-213] *)
Definition fork : KM Z := fork_with (λ _, 2).

(** [src/xv6-public/proc.c:657-699] [%] rounds towards zero *)
Definition set_prio : KM Z := fork_with (λ pid, Z.rem pid 3 + 1).

(** ** Exit and wait *)

(** [src/xv6-public/proc.c:273-286] what [wait] leaves in the slot of a child *)
Definition reaped (q : proc) : proc :=
  q <| p_pid := 0 |> <| p_parent := None |> <| p_name ::= <[0%nat := 0]> |>
    <| p_killed := 0 |> <| p_state := UNUSED |>.

(** [src/xv6-public/proc.c:276-284] free what a dead child holds *)
Definition reap (p : nat) : KM Z :=
  pid ← proc_get p p_pid;
  kstack ← proc_get p p_kstack;
  kfree kstack;;
  proc_upd p (λ q, q <| p_kstack := 0 |>);;
  pgdir ← proc_get p p_pgdir;
  freevm pgdir;;
  proc_upd p reaped;;
  mret pid.

Definition is_child (cur : nat) (q : proc) : bool := bool_decide (p_parent q = Some cur).
Definition is_dead_child (cur : nat) (q : proc) : bool :=
  is_child cur q && bool_decide (p_state q = ZOMBIE).

(** The loop the three [wait]s share: scan for a dead child, else give up without
    children, else sleep.  [finish] is what is done with the slot before the
    lock is released. *)
Definition wait_loop (cur : nat) (finish : nat → KM unit) : KM Z :=
  acquire LkPtable;;
  mrepeat (
    ps ← gets k_proc;
    match find_proc (is_dead_child cur) ps with
    | Some p =>
      pid ← reap p;
      finish p;;
      release LkPtable;;
      mret (inr pid)
    | None =>
      killed ← proc_get cur p_killed;
      if negb (existsb (is_child cur) ps) || truthy killed then
        release LkPtable;;
        mret (inr (-1))
      else
        sleep (ChProc cur) LkPtable;;
        mret (inl tt)
    end).

(** [src/xv6-public/proc.c:261-299] *)
Definition wait : KM Z :=
  p ← myproc;
  cur ← deref p;
  wait_loop cur (λ _, mret tt).

(** [src/xv6-public/proc.c:636-639] *)
Definition clear_times (q : proc) : proc :=
  q <| p_priority := 1 |> <| p_retime := 0 |> <| p_rutime := 0 |> <| p_stime := 0 |>.

(** [src/xv6-public/proc.c:608-655] to user addresses *)
Definition wait2 (retime rutime stime : Z) : KM Z :=
  p ← myproc;
  cur ← deref p;
  wait_loop cur (λ p,
    q ← proc_get p id;
    ust32 retime (p_retime q);;
    ust32 rutime (p_rutime q);;
    ust32 stime (p_stime q);;
    proc_upd p clear_times).

(** [src/xv6-public/proc.c:702-747] *)
Definition wait3 (prio : Z) : KM Z :=
  p ← myproc;
  cur ← deref p;
  wait_loop cur (λ p,
    priority ← proc_get p p_priority;
    ust32 prio priority;;
    proc_upd p clear_times).

End proc.

Section exits.
Context `{Disk}.

(** [src/xv6-public/proc.c:227-232] *)
Fixpoint close_files (cur : nat) (fds : list nat) : KM unit :=
  match fds with
  | [] => mret tt
  | fd :: fds =>
    q ← proc_get cur id;
    (match p_ofile q !! fd with
     | Some (Some f) =>
       fileclose f;;
       proc_upd cur (λ q, q <| p_ofile ::= <[fd := None]> |>)
     | _ => mret tt
     end);;
    close_files cur fds
  end.

(** [src/xv6-public/proc.c:245-251] *)
Fixpoint abandon (cur : nat) (ps : list nat) : KM unit :=
  match ps with
  | [] => mret tt
  | p :: ps =>
    q ← proc_get p id;
    (if is_child cur q then
       init ← gets k_initproc;
       proc_upd p (λ q, q <| p_parent := init |>);;
       when (bool_decide (p_state q = ZOMBIE)) (wakeup1 (ChProc <$> init))
     else mret tt);;
    abandon cur ps
  end.

(** [src/xv6-public/proc.c:218-257] *)
Definition exit : KM unit :=
  curproc ← myproc;
  init ← gets k_initproc;
  if bool_decide (curproc = init) then mpanic "init exiting" else
  cur ← deref curproc;
  close_files cur (seq 0 NOFILE);;
  begin_op;;
  q ← proc_get cur id;
  cwd ← deref (p_cwd q);
  iput cwd;;
  end_op;;
  proc_upd cur (λ q, q <| p_cwd := None |>);;
  acquire LkPtable;;
  parent ← proc_get cur p_parent;
  wakeup1 (ChProc <$> parent);;
  abandon cur (seq 0 NPROC);;
  proc_upd cur (λ q, q <| p_state := ZOMBIE |>);;
  sched;;
  mpanic "zombie exit".

(** [src/xv6-public/proc.c:466-481] *)
Definition forkret : KM unit :=
  release LkPtable;;
  first ← gets k_first;
  if first : bool then
    modify (λ k, k <| k_first := false |>);;
    iinit ROOTDEV;;
    initlog ROOTDEV
  else mret tt.

Context `{Devsw} `{Entries}.

(** [src/xv6-public/proc.c:115-147] [initcode] are the bytes of the first program *)
Definition userinit (initcode : list Z) : KM unit :=
  p ← allocproc;
  modify (λ k, k <| k_initproc := p |>);;
  p ← deref p;
  pgdir ← setupkvm;
  proc_upd p (λ q, q <| p_pgdir := pgdir |>);;
  if pgdir =? 0 then mpanic "userinit: out of memory?" else
  inituvm pgdir initcode;;
  proc_upd p (λ q, q <| p_sz := PGSIZE |>);;
  tf ← proc_get p p_tf;
  modify (λ k, k <| k_mem ::= λ m, memset m (V2P tf) 0 tf_size |>);;
  tf_set p tf_cs (Z.lor (Z.shiftl 3 3) 3);;
  tf_set p tf_ds (Z.lor (Z.shiftl 4 3) 3);;
  ds ← tf_get p tf_ds;
  tf_set p tf_es ds;;
  tf_set p tf_ss ds;;
  tf_set p tf_eflags 0x200;;
  tf_set p tf_esp PGSIZE;;
  tf_set p tf_eip 0;;
  proc_upd p (λ q, q <| p_name ::= λ s, safestrcpy_l s (codes "initcode") 16 |>);;
  cwd ← namei (codes "/");
  proc_upd p (λ q, q <| p_cwd := cwd |>);;
  acquire LkPtable;;
  proc_upd p (λ q, q <| p_state := RUNNABLE |>);;
  release LkPtable.

End exits.
