(* ===== verification/Syscall.v ===== *)
(** * System call arguments and the process system calls (syscall.c, sysproc.c)

    The kernel fetches the arguments of a system call from the stack of the
    calling process, after checking that they lie in its address space. *)

From S2P Require Import Prelude State Spinlock Mem Kalloc Consout Sched Sleep Sleeplock.
From S2P Require Import Vm Pipe Bio Log Inode Console Fs File Proc.

(** [myproc()], which a system call never finds null. *)
Definition curproc : KM nat := p ← myproc; deref p.

(** [src/xv6-public/syscall.c:17-26] *)
Definition fetchint (addr : Z) : KM (option Z) :=
  p ← curproc;
  sz ← proc_get p p_sz;
  if (addr >=? sz) || (wrap32 (addr + 4) >? sz) then mret None else
  v ← uld32 addr;
  mret (Some (sint32 v)).

(** The scan of [fetchstr]: the bytes before the NUL, which must come before
    [ep]. *)
Fixpoint scan_str (n : nat) (s : Z) : KM (option (list Z)) :=
  match n with
  | O => mret None
  | S n =>
    c ← uld8 s;
    if c =? 0 then mret (Some []) else
    r ← scan_str n (s + 1);
    mret (cons c <$> r)
  end.

(** [src/xv6-public/syscall.c:31-46] the string itself; its length is what the C
    function returns *)
Definition fetchstr (addr : Z) : KM (option (list Z)) :=
  p ← curproc;
  sz ← proc_get p p_sz;
  if addr >=? sz then mret None else
  scan_str (Z.to_nat (sz - addr)) addr.

(** [src/xv6-public/syscall.c:49-53] *)
Definition argint (n : Z) : KM (option Z) :=
  p ← curproc;
  esp ← tf_get p tf_esp;
  fetchint (wrap32 (esp + 4 + 4 * n)).

(** [src/xv6-public/syscall.c:58-70] *)
Definition argptr (n size : Z) : KM (option Z) :=
  p ← curproc;
  i ← argint n;
  match i with
  | None => mret None
  | Some i =>
    sz ← proc_get p p_sz;
    if (size <? 0) || (wrap32 i >=? sz) || (wrap32 (wrap32 i + size) >? sz)
    then mret None
    else mret (Some (wrap32 i))
  end.

(** [src/xv6-public/syscall.c:76-83] *)
Definition argstr (n : Z) : KM (option (list Z)) :=
  addr ← argint n;
  match addr with
  | None => mret None
  | Some addr => fetchstr (wrap32 addr)
  end.

(** ** Process system calls *)

Section sysproc.
Context `{Disk} `{Entries}.

(** [src/xv6-public/sysproc.c:10-14] *)
Definition sys_fork : KM Z := fork.
(** [src/xv6-public/sysproc.c:16-21] *)
Definition sys_exit : KM Z := exit;; mret 0.
(** [src/xv6-public/sysproc.c:23-27] *)
Definition sys_wait : KM Z := wait.

(** [src/xv6-public/sysproc.c:29-37] *)
Definition sys_kill : KM Z :=
  pid ← argint 0;
  match pid with
  | None => mret (-1)
  | Some pid => kill pid
  end.

(** [src/xv6-public/sysproc.c:39-43] *)
Definition sys_getpid : KM Z := p ← curproc; proc_get p p_pid.

(** [src/xv6-public/sysproc.c:45-57] *)
Definition sys_sbrk : KM Z :=
  n ← argint 0;
  match n with
  | None => mret (-1)
  | Some n =>
    p ← curproc;
    addr ← proc_get p p_sz;
    r ← growproc n;
    if r <? 0 then mret (-1) else mret (sint32 addr)
  end.

(** [src/xv6-public/sysproc.c:67-77] the comparison is unsigned *)
Definition sleep_ticks (n : Z) : KM Z :=
  acquire LkTicks;;
  ticks0 ← gets k_ticks;
  mrepeat (
    ticks ← gets k_ticks;
    if wrap32 (ticks - ticks0) <? wrap32 n then
      killed ← my_killed;
      if killed : bool then release LkTicks;; mret (inr (-1))
      else sleep ChTicks LkTicks;; mret (inl tt)
    else release LkTicks;; mret (inr 0)).

(** [src/xv6-public/sysproc.c:59-78] *)
Definition sys_sleep : KM Z :=
  n ← argint 0;
  match n with
  | None => mret (-1)
  | Some n => sleep_ticks n
  end.

(** [src/xv6-public/sysproc.c:82-91] *)
Definition sys_uptime : KM Z :=
  acquire LkTicks;;
  xticks ← gets k_ticks;
  release LkTicks;;
  mret (sint32 xticks).

(** [src/xv6-public/sysproc.c:93-103] *)
Definition sys_change_prio : KM Z :=
  priority ← argint 0;
  match priority with
  | None => mret (-1)
  | Some priority =>
    if negb (priority =? 1) && negb (priority =? 2) && negb (priority =? 3)
    then mret (-1) else change_prio priority
  end.

(** [src/xv6-public/sysproc.c:105-116] *)
Definition sys_wait2 : KM Z :=
  retime ← argptr 0 4;
  match retime with None => mret (-1) | Some retime =>
  rutime ← argptr 1 4;
  match rutime with None => mret (-1) | Some rutime =>
  stime ← argptr 2 4;
  match stime with None => mret (-1) | Some stime =>
  wait2 retime rutime stime
  end end end.

(** [src/xv6-public/sysproc.c:118-121] *)
Definition sys_yield2 : KM Z := yield;; mret 1.
(** [src/xv6-public/sysproc.c:123-125] *)
Definition sys_set_prio : KM Z := set_prio.

(** [src/xv6-public/sysproc.c:127-132] *)
Definition sys_wait3 : KM Z :=
  prio ← argptr 0 4;
  match prio with
  | None => mret (-1)
  | Some prio => wait3 prio
  end.

End sysproc.

(** ** The arguments of a system call

    A process in the kernel: CPU [i] runs [p], whose address space is below
    the kernel. *)

Lemma curproc_ok e k i c p :
  settled k i c → c_proc c = Some p → curproc e k = Ret p e k.
Proof.
  intros Hs Hp. unfold curproc. mgo (by eapply myproc_settled). by rewrite Hp.
Qed.

Definition in_call (k : kernel) (i : nat) (c : cpu) (p : nat) (q : proc) : Prop :=
  settled k i c ∧ c_proc c = Some p ∧ k_proc k !! p = Some q ∧ 0 ≤ p_sz q ≤ KERNBASE.

(** Fetching an argument changes nothing; it can fail with a page fault only. *)
Definition reads {A} (k : kernel) (m : KM A) (R : A → Prop) : Prop :=
  ∀ e, wpo (λ a e' k', e' = e ∧ k' = k ∧ R a) (λ s k', s = SFault ∧ k' = k) (m e k).

Lemma reads_bind {A B} k (m : KM A) (f : A → KM B) R Q :
  reads k m R → (∀ a, R a → reads k (f a) Q) → reads k (m ≫= f) Q.
Proof.
  intros Hm Hf e. apply wpo_bind. eapply wpo_mono; [apply Hm|..|done].
  intros a e' k' (-> & -> & Ha). by apply Hf.
Qed.

Lemma reads_ret {A} k (a : A) (R : A → Prop) : R a → reads k (mret a) R.
Proof. by intros H e. Qed.

Lemma reads_eq {A} k (m : KM A) a (R : A → Prop) :
  (∀ e, m e k = Ret a e k) → R a → reads k m R.
Proof. intros H Ha e. by rewrite H. Qed.

Lemma reads_mono {A} k (m : KM A) (R Q : A → Prop) :
  reads k m R → (∀ a, R a → Q a) → reads k m Q.
Proof. intros Hm HQ e. eapply wpo_mono; [apply Hm|naive_solver..]. Qed.

(** The byte at a user address. *)
Definition ubyte (k : kernel) (va : Z) : option Z :=
  rd (k_mem k) <$> translate (k_mem k) (k_cr3 k) va false.

Lemma reads_uld8 k va : reads k (uld8 va) (λ b, ubyte k va = Some b).
Proof.
  intros e. unfold uld8, ubyte. msteps.
  by destruct (translate _ _ _ _); [|rewrite bind_eq].
Qed.

Lemma reads_uld32 k va : reads k (uld32 va) (λ _, True).
Proof.
  unfold uld32. do 4 (eapply reads_bind; [apply reads_uld8|]; intros ? ?). by apply reads_ret.
Qed.

Section arguments.
Context (k : kernel) (i : nat) (c : cpu) (p : nat) (q : proc) (Hin : in_call k i c p q).

Lemma reads_curproc : reads k curproc (λ p', p' = p).
Proof.
  destruct Hin as (Hs & Hp & _). eapply reads_eq; [|done]. intros e. by eapply curproc_ok.
Qed.

Lemma reads_proc_get {A} (f : proc → A) : reads k (proc_get p f) (λ a, a = f q).
Proof.
  destruct Hin as (_ & _ & Eq & _). eapply reads_eq; [|done]. intros e. by apply proc_get_ok.
Qed.

Lemma reads_gets {A} (f : kernel → A) : reads k (gets f) (λ a, a = f k).
Proof. by intros e. Qed.

Lemma reads_fetchint a :
  is_u32 a → reads k (fetchint a) (λ r, ∀ v, r = Some v → a + 4 ≤ p_sz q ∧ is_i32 v).
Proof.
  intros Ha. unfold fetchint. eapply reads_bind; [apply reads_curproc|]. intros ? ->.
  eapply reads_bind; [apply reads_proc_get|]. intros ? ->. rewrite Z.geb_leb, Z.gtb_ltb.
  destruct (Z.leb_spec (p_sz q) a); [by apply reads_ret|].
  destruct (Z.ltb_spec (p_sz q) (wrap32 (a + 4))); [by apply reads_ret|].
  eapply reads_bind; [apply reads_uld32|]. intros v _. apply reads_ret.
  intros ? [= <-]. split; [|apply sint32_range].
  destruct Hin as (_ & _ & _ & Hsz). unfold KERNBASE, wrap32, is_u32 in *. dlia.
Qed.

Lemma reads_argint n : reads k (argint n) (λ r, ∀ v, r = Some v → is_i32 v).
Proof.
  unfold argint. eapply reads_bind; [apply reads_curproc|]. intros ? ->.
  unfold tf_get. eapply reads_bind.
  { eapply reads_bind; [apply reads_proc_get|]. intros ? ->. apply reads_gets. }
  intros esp ->. eapply reads_mono; [apply reads_fetchint, wrap32_range|]. naive_solver.
Qed.

Lemma reads_argptr n size :
  is_i32 size →
  reads k (argptr n size) (λ r, ∀ a, r = Some a → 0 ≤ a ∧ 0 ≤ size ∧ a < p_sz q ∧ a + size ≤ p_sz q).
Proof.
  intros Hsize. unfold argptr. eapply reads_bind; [apply reads_curproc|]. intros ? ->.
  eapply reads_bind; [apply reads_argint|]. intros [v|] Hv; [|by apply reads_ret].
  eapply reads_bind; [apply reads_proc_get|]. intros ? ->. rewrite Z.geb_leb, Z.gtb_ltb.
  destruct (Z.ltb_spec size 0); [by apply reads_ret|].
  destruct (Z.leb_spec (p_sz q) (wrap32 v)); [by apply reads_ret|].
  destruct (Z.ltb_spec (p_sz q) (wrap32 (wrap32 v + size))) as [|Hw]; [by apply reads_ret|].
  apply reads_ret. intros ? [= <-]. pose proof (wrap32_range v) as Hr.
  destruct Hin as (_ & _ & _ & Hsz). unfold KERNBASE, is_u32, is_i32 in *.
  rewrite wrap32_small in Hw by (unfold is_u32; lia). lia.
Qed.

(** A C string of the process: its bytes, none of them zero, and the NUL after
    them, which still is inside the address space. *)
Definition ustring (a : Z) (bs : list Z) : Prop :=
  (∀ j b, bs !! j = Some b → ubyte k (a + Z.of_nat j) = Some b ∧ b ≠ 0) ∧
  ubyte k (a + Z.of_nat (length bs)) = Some 0.

Lemma reads_scan_str n a :
  reads k (scan_str n a) (λ r, ∀ bs, r = Some bs → (length bs < n)%nat ∧ ustring a bs).
Proof.
  revert a. induction n as [|n IH]; intros a; cbn [scan_str]; [by apply reads_ret|].
  eapply reads_bind; [apply reads_uld8|]. intros b Hb.
  destruct (Z.eqb_spec b 0) as [->|Hnz].
  { apply reads_ret. intros ? [= <-]. split; [cbn; lia|]. split; [done|]. by rewrite Z.add_0_r. }
  eapply reads_bind; [apply IH|]. intros [bs|] Hbs; apply reads_ret; [|done].
  intros ? [= <-]. destruct (Hbs bs eq_refl) as (Hl & H1 & H2). split; [cbn; lia|]. split.
  - intros [|j] b'; cbn [lookup list_lookup].
    + intros [= <-]. by rewrite Z.add_0_r.
    + intros Hj. replace (a + Z.of_nat (S j)) with (a + 1 + Z.of_nat j) by lia. by apply H1.
  - cbn [length]. by replace (a + Z.of_nat (S (length bs))) with (a + 1 + Z.of_nat (length bs)) by lia.
Qed.

Lemma reads_argstr n :
  reads k (argstr n) (λ r, ∀ bs, r = Some bs →
    ∃ a, 0 ≤ a ∧ a + Z.of_nat (length bs) < p_sz q ∧ ustring a bs).
Proof.
  unfold argstr. eapply reads_bind; [apply reads_argint|]. intros [v|] Hv; [|by apply reads_ret].
  unfold fetchstr. eapply reads_bind; [apply reads_curproc|]. intros ? ->.
  eapply reads_bind; [apply reads_proc_get|]. intros ? ->. rewrite Z.geb_leb.
  destruct (Z.leb_spec (p_sz q) (wrap32 v)); [by apply reads_ret|].
  eapply reads_mono; [apply reads_scan_str|]. intros r Hr bs ->.
  destruct (Hr bs eq_refl) as [Hl Hs]. pose proof (wrap32_range v) as Hv'. unfold is_u32 in Hv'.
  exists (wrap32 v). split_and!; [lia|lia|done].
Qed.
End arguments.

(** C18 A system call never uses a user pointer that leaves the caller's address
    space.  Fetching the [n]-th argument changes nothing (it can only fault on
    an unmapped page); [argptr] returns an address [a] only if all of
    [a, a + size) lies below [p->sz], in spite of the 32-bit wrap-around of its
    test; and [argstr] returns a string only if it, with its NUL, lies there,
    is what user memory holds, and has no zero byte inside. *)
Theorem syscall_arguments_safe k i c p q n size :
  in_call k i c p q → is_i32 size →
  reads k (argptr n size)
    (λ r, ∀ a, r = Some a → 0 ≤ a ∧ 0 ≤ size ∧ a < p_sz q ∧ a + size ≤ p_sz q) ∧
  reads k (argstr n) (λ r, ∀ bs, r = Some bs →
    ∃ a, 0 ≤ a ∧ a + Z.of_nat (length bs) < p_sz q ∧ ustring k a bs).
Proof. intros Hin Hs. split; [by eapply reads_argptr|by eapply reads_argstr]. Qed.

(** A call of the process of [k_piped] whose argument is the pointer 16. *)
Definition k_call : kernel :=
  k_piped <| k_proc := [(mkproc RUNNING 1 2) <| p_sz := 4096 |> <| p_tf := KERNBASE + 0x7000 |>] |>
    <| k_mem ::= λ m, st32 (st32 m (0x7000 + tf_esp) 0x100) 0x3104 16 |>.

Lemma syscall_arguments_safe_witness :
  argptr 0 4 [] k_call = Ret (Some 16) [] k_call ∧ 16 + 4 ≤ 4096.
Proof.
  assert (argptr 0 4 [] k_call = Ret (Some 16) [] k_call) as E by (vm_compute; reflexivity).
  split; [exact E|].
  destruct (syscall_arguments_safe k_call 0 (Cpu 0 0 true 0 false (Some 0%nat)) 0
    ((mkproc RUNNING 1 2) <| p_sz := 4096 |> <| p_tf := KERNBASE + 0x7000 |>) 0 4) as [H _].
  - repeat split; cbn; lia || done.
  - split; lia.
  - specialize (H []). rewrite E in H. destruct H as (_ & _ & H). by apply (H 16 eq_refl).
Defined.
