(* ===== verification/Exec.v ===== *)
(** * Running a program (exec.c, and loaduvm of vm.c) *)

From S2P Require Import Prelude State Spinlock Mem Kalloc Consout Sched Sleep Sleeplock.
From S2P Require Import Vm Pipe Bio Log Inode Console Fs File Proc Syscall.

(** [src/xv6-public/elf.h:3] *)
Definition ELF_MAGIC : Z := 0x464C457F.
(** [src/xv6-public/elf.h:37] *)
Definition ELF_PROG_LOAD : Z := 1.

Section exec.
Context `{Disk} `{Devsw}.

(** [src/xv6-public/vm.c:205-216] with [i] bytes of [sz] loaded *)
Fixpoint loaduvm_loop (fuel : nat) (pgdir addr : Z) (ip : nat) (offset sz i : Z) : KM Z :=
  match fuel with
  | O => λ _ k, NoFuel k
  | S fuel =>
    if negb (i <? sz) then mret 0 else
    pte ← walkpgdir pgdir (wrap32 (addr + i)) false;
    match pte with
    | None => mpanic "loaduvm: address should exist"
    | Some pte =>
      e ← gets (λ k, kld32 k pte);
      let pa := PTE_ADDR e in
      let n := if wrap32 (sz - i) <? PGSIZE then wrap32 (sz - i) else PGSIZE in
      r ← readi ip (λ o bs, modify (λ k, k <| k_mem ::= λ m, wrn m (pa + o) bs |>))
            (wrap32 (offset + i)) n;
      if negb (fst r =? n) then mret (-1) else
      loaduvm_loop fuel pgdir addr ip offset sz (wrap32 (i + PGSIZE))
    end
  end.

(** [src/xv6-public/vm.c:197-217] *)
Definition loaduvm (pgdir addr : Z) (ip : nat) (offset sz : Z) : KM Z :=
  if truthy (addr mod PGSIZE) then mpanic "loaduvm: addr must be page aligned" else
  loaduvm_loop (pages_fuel 0 sz) pgdir addr ip offset sz 0.

(** [src/xv6-public/exec.c:43-58] the program headers, [n] of them to go; [None] to
    give up *)
Fixpoint load_segments (n : nat) (pgdir : Z) (ip : nat) (off sz : Z) : KM (option Z) :=
  match n with
  | O => mret (Some sz)
  | S n =>
    r ← readi ip nowhere (wrap32 off) 32;
    if negb (fst r =? 32) then mret None else
    let ph := snd r in
    let type := get32 ph 0 in
    let poff := get32 ph 4 in
    let vaddr := get32 ph 8 in
    let filesz := get32 ph 16 in
    let memsz := get32 ph 20 in
    if negb (type =? ELF_PROG_LOAD) then load_segments n pgdir ip (off + 32) sz else
    if memsz <? filesz then mret None else
    if wrap32 (vaddr + memsz) <? vaddr then mret None else
    sz ← allocuvm pgdir sz (wrap32 (vaddr + memsz));
    if sz =? 0 then mret None else
    if truthy (vaddr mod PGSIZE) then mret None else
    r ← loaduvm pgdir vaddr ip poff filesz;
    if r <? 0 then mret None else
    load_segments n pgdir ip (off + 32) sz
  end.

(** [src/xv6-public/exec.c:72-79] the strings pushed below [sp], and their
    addresses; [None] to give up.  At most [MAXARG] fit in [ustack]. *)
Fixpoint push_args (argc : nat) (pgdir sp : Z) (argv : list (list Z)) (ustack : list Z) :
    KM (option (Z * list Z)) :=
  match argv with
  | [] => mret (Some (sp, ustack))
  | s :: argv =>
    if bool_decide (MAXARG ≤ argc)%nat then mret None else
    let sp := Z.land (wrap32 (sp - (Z.of_nat (length s) + 1))) (Z.lnot 3) in
    r ← copyout pgdir sp (s ++ [0]);
    if r <? 0 then mret None else
    push_args (S argc) pgdir sp argv (ustack ++ [sp])
  end.

(** The bytes of an array of words. *)
Definition word_bytes (w : Z) : list Z :=
  [w mod 256; w / 256 mod 256; w / 65536 mod 256; w / 16777216 mod 256].

(** [src/xv6-public/exec.c:91-93] the last element of the path *)
Fixpoint last_elem (path last : list Z) : list Z :=
  match path with
  | [] => last
  | c :: path => last_elem path (if c =? 47 then path else last)
  end.

(** [src/xv6-public/exec.c:106-113] *)
Definition exec_bad (pgdir : Z) (ip : option nat) : KM Z :=
  (if truthy pgdir then freevm pgdir else mret tt);;
  (match ip with Some ip => iunlockput ip;; end_op | None => mret tt end);;
  mret (-1).

(** [src/xv6-public/exec.c:63-104] the second half: stack, arguments, and the commit
    to the new image *)
Definition exec_stack (cur : nat) (path : list Z) (argv : list (list Z)) (entry pgdir sz : Z) :
    KM Z :=
  let sz := PGROUNDUP sz in
  sz ← allocuvm pgdir sz (wrap32 (sz + 2 * PGSIZE));
  if sz =? 0 then exec_bad pgdir None else
  clearpteu pgdir (wrap32 (sz - 2 * PGSIZE));;
  a ← push_args 0 pgdir sz argv [];
  match a with
  | None => exec_bad pgdir None
  | Some (sp, args) =>
    let argc := Z.of_nat (length args) in
    let ustack := [0xffffffff; argc; wrap32 (sp - (argc + 1) * 4)] ++ args ++ [0] in
    let sp := wrap32 (sp - (3 + argc + 1) * 4) in
    r ← copyout pgdir sp (concat (map word_bytes ustack));
    if r <? 0 then exec_bad pgdir None else
    proc_upd cur (λ q, q <| p_name ::= λ s, safestrcpy_l s (last_elem path path) 16 |>);;
    oldpgdir ← proc_get cur p_pgdir;
    proc_upd cur (λ q, q <| p_pgdir := pgdir |>);;
    proc_upd cur (λ q, q <| p_sz := sz |>);;
    tf_set cur tf_eip entry;;
    tf_set cur tf_esp sp;;
    switchuvm (Some cur);;
    freevm oldpgdir;;
    mret 0
  end.

(** [src/xv6-public/exec.c:10-114] *)
Definition exec (path : list Z) (argv : list (list Z)) : KM Z :=
  cur ← curproc;
  begin_op;;
  ip ← namei path;
  match ip with
  | None =>
    end_op;;
    cprintf "exec: fail
" [];;
    mret (-1)
  | Some ip =>
    ilock (Some ip);;
    r ← readi ip nowhere 0 52;
    if negb (fst r =? 52) then exec_bad 0 (Some ip) else
    let elf := snd r in
    if negb (get32 elf 0 =? ELF_MAGIC) then exec_bad 0 (Some ip) else
    pgdir ← setupkvm;
    if pgdir =? 0 then exec_bad 0 (Some ip) else
    sz ← load_segments (Z.to_nat (get16 elf 44)) pgdir ip (get32 elf 28) 0;
    match sz with
    | None => exec_bad pgdir (Some ip)
    | Some sz =>
      iunlockput ip;;
      end_op;;
      exec_stack cur path argv (get32 elf 24) pgdir sz
    end
  end.

End exec.
