(* ===== verification/Sysfile.v ===== *)
(** * File system calls (sysfile.c) *)

From S2P Require Import Prelude State Spinlock Mem Kalloc Consout Sched Sleep Sleeplock.
From S2P Require Import Vm Pipe Bio Log Inode Console Fs File Proc Syscall Exec.

(** [src/xv6-public/sysfile.c:21-36] the descriptor and the file *)
Definition argfd (n : Z) : KM (option (nat * nat)) :=
  fd ← argint n;
  match fd with
  | None => mret None
  | Some fd =>
    if (fd <? 0) || (fd >=? Z.of_nat NOFILE) then mret None else
    p ← curproc;
    files ← proc_get p p_ofile;
    match files !! Z.to_nat fd with
    | Some (Some f) => mret (Some (Z.to_nat fd, f))
    | _ => mret None
    end
  end.

(** [src/xv6-public/sysfile.c:40-53] *)
Definition fdalloc (f : nat) : KM (option nat) :=
  p ← curproc;
  files ← proc_get p p_ofile;
  match list_find (λ o, o = None) files with
  | Some (fd, _) =>
    proc_upd p (λ q, q <| p_ofile ::= <[fd := Some f]> |>);;
    mret (Some fd)
  | None => mret None
  end.

(** [src/xv6-public/sysfile.c:55-67] *)
Definition sys_dup : KM Z :=
  a ← argfd 0;
  match a with None => mret (-1) | Some (_, f) =>
  fd ← fdalloc f;
  match fd with None => mret (-1) | Some fd =>
  filedup f;;
  mret (Z.of_nat fd)
  end end.

Section sysfile.
Context `{Disk} `{Devsw}.

(** [src/xv6-public/sysfile.c:69-79] *)
Definition sys_read : KM Z :=
  a ← argfd 0;
  match a with None => mret (-1) | Some (_, f) =>
  n ← argint 2;
  match n with None => mret (-1) | Some n =>
  p ← argptr 1 n;
  match p with None => mret (-1) | Some p =>
  fileread f p n
  end end end.

(** [src/xv6-public/sysfile.c:81-91] *)
Definition sys_write : KM Z :=
  a ← argfd 0;
  match a with None => mret (-1) | Some (_, f) =>
  n ← argint 2;
  match n with None => mret (-1) | Some n =>
  p ← argptr 1 n;
  match p with None => mret (-1) | Some p =>
  filewrite f p n
  end end end.

(** [src/xv6-public/sysfile.c:93-104] *)
Definition sys_close : KM Z :=
  a ← argfd 0;
  match a with None => mret (-1) | Some (fd, f) =>
  p ← curproc;
  proc_upd p (λ q, q <| p_ofile ::= <[fd := None]> |>);;
  fileclose f;;
  mret 0
  end.

(** [src/xv6-public/sysfile.c:106-115] *)
Definition sys_fstat : KM Z :=
  a ← argfd 0;
  match a with None => mret (-1) | Some (_, f) =>
  st ← argptr 1 20;
  match st with None => mret (-1) | Some st =>
  filestat f st
  end end.

(** [src/xv6-public/sysfile.c:158-164] *)
Definition link_bad (ip : nat) : KM Z :=
  ilock (Some ip);;
  inode_upd ip (λ x, x <| i_nlink ::= λ n, sint16 (n - 1) |>);;
  iupdate ip;;
  iunlockput ip;;
  end_op;;
  mret (-1).

(** [src/xv6-public/sysfile.c:118-165] *)
Definition sys_link : KM Z :=
  old ← argstr 0;
  match old with None => mret (-1) | Some old =>
  new ← argstr 1;
  match new with None => mret (-1) | Some new =>
  begin_op;;
  ip ← namei old;
  match ip with
  | None => end_op;; mret (-1)
  | Some ip =>
    ilock (Some ip);;
    type ← inode_get ip i_type;
    if type =? T_DIR then iunlockput ip;; end_op;; mret (-1) else
    inode_upd ip (λ x, x <| i_nlink ::= λ n, sint16 (n + 1) |>);;
    iupdate ip;;
    iunlock (Some ip);;
    dp ← nameiparent new;
    match dp with
    | None => link_bad ip
    | Some (dp, name) =>
      ilock (Some dp);;
      ddev ← inode_get dp i_dev;
      x ← inode_get ip id;
      r ← (if negb (ddev =? i_dev x) then mret (-1) else dirlink dp name (i_inum x));
      if r <? 0 then iunlockput dp;; link_bad ip else
      iunlockput dp;;
      iput ip;;
      end_op;;
      mret 0
    end
  end end end.

Fixpoint isdirempty_loop (fuel : nat) (dp : nat) (off : Z) : KM bool :=
  match fuel with
  | O => λ _ k, NoFuel k
  | S fuel =>
    size ← inode_get dp i_size;
    if negb (off <? size) then mret true else
    r ← readi dp nowhere off 16;
    if negb (fst r =? 16) then mpanic "isdirempty: readi" else
    if negb (de_inum (snd r) =? 0) then mret false
    else isdirempty_loop fuel dp (off + 16)
  end.

(** [src/xv6-public/sysfile.c:168-181] *)
Definition isdirempty (dp : nat) : KM bool :=
  size ← inode_get dp i_size;
  isdirempty_loop (entries_fuel size) dp 32.

(** [src/xv6-public/sysfile.c:235-238] *)
Definition unlink_bad (dp : nat) : KM Z := iunlockput dp;; end_op;; mret (-1).

(** [src/xv6-public/sysfile.c:184-239] *)
Definition sys_unlink : KM Z :=
  path ← argstr 0;
  match path with None => mret (-1) | Some path =>
  begin_op;;
  dp ← nameiparent path;
  match dp with
  | None => end_op;; mret (-1)
  | Some (dp, name) =>
    ilock (Some dp);;
    if (namecmp name (codes ".") =? 0) || (namecmp name (codes "..") =? 0)
    then unlink_bad dp else
    r ← dirlookup dp name;
    match r with
    | None => unlink_bad dp
    | Some (ip, off) =>
      ilock (Some ip);;
      x ← inode_get ip id;
      if i_nlink x <? 1 then mpanic "unlink: nlink < 1" else
      busy ← (if i_type x =? T_DIR then e ← isdirempty ip; mret (negb e) else mret false);
      if busy : bool then iunlockput ip;; unlink_bad dp else
      r ← writei dp (local (replicate 16 0)) off 16;
      if negb (r =? 16) then mpanic "unlink: writei" else
      type ← inode_get ip i_type;
      (if type =? T_DIR then
         inode_upd dp (λ x, x <| i_nlink ::= λ n, sint16 (n - 1) |>);;
         iupdate dp
       else mret tt);;
      iunlockput dp;;
      inode_upd ip (λ x, x <| i_nlink ::= λ n, sint16 (n - 1) |>);;
      iupdate ip;;
      iunlockput ip;;
      end_op;;
      mret 0
    end
  end end.

(** [src/xv6-public/sysfile.c:241-283] *)
Definition create (path : list Z) (type major minor : Z) : KM (option nat) :=
  dp ← nameiparent path;
  match dp with
  | None => mret None
  | Some (dp, name) =>
    ilock (Some dp);;
    r ← dirlookup dp name;
    match r with
    | Some (ip, _) =>
      iunlockput dp;;
      ilock (Some ip);;
      t ← inode_get ip i_type;
      if (type =? T_FILE) && (t =? T_FILE) then mret (Some ip) else
      iunlockput ip;;
      mret None
    | None =>
      dev ← inode_get dp i_dev;
      ip ← ialloc dev type;
      ilock (Some ip);;
      inode_upd ip (λ x, x <| i_major := sint16 major |>);;
      inode_upd ip (λ x, x <| i_minor := sint16 minor |>);;
      inode_upd ip (λ x, x <| i_nlink := 1 |>);;
      iupdate ip;;
      (if type =? T_DIR then
         inode_upd dp (λ x, x <| i_nlink ::= λ n, sint16 (n + 1) |>);;
         iupdate dp;;
         inum ← inode_get ip i_inum;
         r ← dirlink ip (codes ".") inum;
         if r <? 0 then mpanic "create dots" else
         dinum ← inode_get dp i_inum;
         r ← dirlink ip (codes "..") dinum;
         if r <? 0 then mpanic "create dots" else mret tt
       else mret tt);;
      inum ← inode_get ip i_inum;
      r ← dirlink dp name inum;
      if r <? 0 then mpanic "create: dirlink" else
      iunlockput dp;;
      mret (Some ip)
    end
  end.

(** [src/xv6-public/sysfile.c:298-315] the inode [open] works on, locked *)
Definition open_inode (path : list Z) (omode : Z) : KM (option nat) :=
  if truthy (Z.land omode O_CREATE) then create path T_FILE 0 0 else
  ip ← namei path;
  match ip with
  | None => mret None
  | Some ip =>
    ilock (Some ip);;
    type ← inode_get ip i_type;
    if (type =? T_DIR) && negb (omode =? O_RDONLY) then iunlockput ip;; mret None
    else mret (Some ip)
  end.

(** [src/xv6-public/sysfile.c:317-332] *)
Definition open_file (ip : nat) (omode : Z) : KM Z :=
  f ← filealloc;
  match f with
  | None => iunlockput ip;; end_op;; mret (-1)
  | Some f =>
    fd ← fdalloc f;
    match fd with
    | None => fileclose f;; iunlockput ip;; end_op;; mret (-1)
    | Some fd =>
      iunlock (Some ip);;
      end_op;;
      file_upd f (λ x, x <| f_type := FD_INODE |> <| f_ip := Some ip |> <| f_off := 0 |>
        <| f_readable := negb (truthy (Z.land omode O_WRONLY)) |>
        <| f_writable := truthy (Z.land omode O_WRONLY) || truthy (Z.land omode O_RDWR) |>);;
      mret (Z.of_nat fd)
    end
  end.

(** [src/xv6-public/sysfile.c:285-333] *)
Definition sys_open : KM Z :=
  path ← argstr 0;
  match path with None => mret (-1) | Some path =>
  omode ← argint 1;
  match omode with None => mret (-1) | Some omode =>
  begin_op;;
  ip ← open_inode path omode;
  match ip with
  | None => end_op;; mret (-1)
  | Some ip => open_file ip omode
  end end end.

(** [src/xv6-public/sysfile.c:335-349] *)
Definition sys_mkdir : KM Z :=
  begin_op;;
  path ← argstr 0;
  match path with None => end_op;; mret (-1) | Some path =>
  ip ← create path T_DIR 0 0;
  match ip with
  | None => end_op;; mret (-1)
  | Some ip => iunlockput ip;; end_op;; mret 0
  end end.

(** [src/xv6-public/sysfile.c:351-369] *)
Definition sys_mknod : KM Z :=
  begin_op;;
  path ← argstr 0;
  match path with None => end_op;; mret (-1) | Some path =>
  major ← argint 1;
  match major with None => end_op;; mret (-1) | Some major =>
  minor ← argint 2;
  match minor with None => end_op;; mret (-1) | Some minor =>
  ip ← create path T_DEV major minor;
  match ip with
  | None => end_op;; mret (-1)
  | Some ip => iunlockput ip;; end_op;; mret 0
  end end end end.

(** [src/xv6-public/sysfile.c:371-394] *)
Definition sys_chdir : KM Z :=
  cur ← curproc;
  begin_op;;
  path ← argstr 0;
  match path with None => end_op;; mret (-1) | Some path =>
  ip ← namei path;
  match ip with
  | None => end_op;; mret (-1)
  | Some ip =>
    ilock (Some ip);;
    type ← inode_get ip i_type;
    if negb (type =? T_DIR) then iunlockput ip;; end_op;; mret (-1) else
    iunlock (Some ip);;
    cwd ← proc_get cur p_cwd;
    cwd ← deref cwd;
    iput cwd;;
    end_op;;
    proc_upd cur (λ q, q <| p_cwd := Some ip |>);;
    mret 0
  end end.

(** [src/xv6-public/sysfile.c:407-418] the strings of [argv] from entry [i] on; no
    more than [MAXARG] entries are looked at *)
Fixpoint fetch_argv (n : nat) (uargv : Z) : KM (option (list (list Z))) :=
  match n with
  | O => mret None
  | S n =>
    uarg ← fetchint uargv;
    match uarg with
    | None => mret None
    | Some uarg =>
      if uarg =? 0 then mret (Some []) else
      s ← fetchstr (wrap32 uarg);
      match s with
      | None => mret None
      | Some s => rest ← fetch_argv n (wrap32 (uargv + 4)); mret (cons s <$> rest)
      end
    end
  end.

(** [src/xv6-public/sysfile.c:396-420] *)
Definition sys_exec : KM Z :=
  path ← argstr 0;
  match path with None => mret (-1) | Some path =>
  uargv ← argint 1;
  match uargv with None => mret (-1) | Some uargv =>
  argv ← fetch_argv MAXARG (wrap32 uargv);
  match argv with
  | None => mret (-1)
  | Some argv => exec path argv
  end end end.

(** [src/xv6-public/sysfile.c:422-444] *)
Definition sys_pipe : KM Z :=
  fd ← argptr 0 8;
  match fd with None => mret (-1) | Some fd =>
  r ← pipealloc;
  match r with None => mret (-1) | Some (rf, wf) =>
  fd0 ← fdalloc rf;
  match fd0 with
  | None => fileclose rf;; fileclose wf;; mret (-1)
  | Some fd0 =>
    fd1 ← fdalloc wf;
    match fd1 with
    | None =>
      p ← curproc;
      proc_upd p (λ q, q <| p_ofile ::= <[fd0 := None]> |>);;
      fileclose rf;;
      fileclose wf;;
      mret (-1)
    | Some fd1 =>
      ust32 fd (Z.of_nat fd0);;
      ust32 (fd + 4) (Z.of_nat fd1);;
      mret 0
    end
  end end end.

End sysfile.
