(* ===== verification/Trap.v ===== *)
(** * Traps and the system call table (trap.c, syscall.c) *)

From S2P Require Import Prelude State Spinlock Mem Kalloc Consout Sched Sleep Sleeplock.
From S2P Require Import Vm Pipe Bio Log Inode Console Fs File Proc Syscall Exec Sysfile.

(** [src/xv6-public/traps.h:27] *)
Definition T_SYSCALL : Z := 64.
(** [src/xv6-public/traps.h:30] *)
Definition T_IRQ0 : Z := 32.
(** [src/xv6-public/traps.h:32] *)
Definition IRQ_TIMER : Z := 0.
(** [src/xv6-public/traps.h:33] *)
Definition IRQ_KBD : Z := 1.
(** [src/xv6-public/traps.h:34] *)
Definition IRQ_COM1 : Z := 4.
(** [src/xv6-public/traps.h:35] *)
Definition IRQ_IDE : Z := 14.
(** [src/xv6-public/traps.h:37] *)
Definition IRQ_SPURIOUS : Z := 31.

(** The interrupt handlers of the devices: the disk's, the characters that the
    keyboard and the serial port have ready, and the faulting address. *)
Class Devices :=
  { ideintr : KM unit; kbd_chars : list Z; uart_chars : list Z; rcr2 : Z }.

Section trap.
Context `{Disk} `{Devsw} `{Entries} `{Devices}.

(** [src/xv6-public/syscall.c:113-141] by the numbers of syscall.h *)
Definition syscalls (num : Z) : option (KM Z) :=
  if num =? 1 then Some sys_fork else
  if num =? 2 then Some sys_exit else
  if num =? 3 then Some sys_wait else
  if num =? 4 then Some sys_pipe else
  if num =? 5 then Some sys_read else
  if num =? 6 then Some sys_kill else
  if num =? 7 then Some sys_exec else
  if num =? 8 then Some sys_fstat else
  if num =? 9 then Some sys_chdir else
  if num =? 10 then Some sys_dup else
  if num =? 11 then Some sys_getpid else
  if num =? 12 then Some sys_sbrk else
  if num =? 13 then Some sys_sleep else
  if num =? 14 then Some sys_uptime else
  if num =? 15 then Some sys_open else
  if num =? 16 then Some sys_write else
  if num =? 17 then Some sys_mknod else
  if num =? 18 then Some sys_unlink else
  if num =? 19 then Some sys_link else
  if num =? 20 then Some sys_mkdir else
  if num =? 21 then Some sys_close else
  if num =? 22 then Some sys_change_prio else
  if num =? 23 then Some sys_wait2 else
  if num =? 24 then Some sys_yield2 else
  if num =? 25 then Some sys_set_prio else
  if num =? 26 then Some sys_wait3 else None.

(** [src/xv6-public/syscall.c:143-157] *)
Definition syscall : KM unit :=
  cur ← curproc;
  num ← tf_get cur tf_eax;
  match syscalls (sint32 num) with
  | Some call =>
    r ← call;
    tf_set cur tf_eax r
  | None =>
    q ← proc_get cur id;
    cprintf "%d %s: unknown sys call %d
" [AInt (p_pid q); AStr (Some (c_str (p_name q))); AInt (sint32 num)];;
    tf_set cur tf_eax (-1)
  end.

(** [if(myproc() && ...)]: a test of a field of the running process, if any. *)
Definition my_test (f : proc → bool) : KM bool :=
  p ← myproc;
  match p with None => mret false | Some p => proc_get p f end.

(** [src/xv6-public/trap.c:50-58] *)
Definition timer : KM unit :=
  id ← cpuid;
  if bool_decide (id = 0%nat) then
    acquire LkTicks;;
    modify (λ k, k <| k_ticks ::= λ t, wrap32 (t + 1) |>);;
    wakeup ChTicks;;
    release LkTicks
  else mret tt.

(** [src/xv6-public/trap.c:49-95] the interrupt controller's acknowledgement is not
    modelled *)
Definition trap_switch (trapno cs eip err : Z) : KM unit :=
  if trapno =? T_IRQ0 + IRQ_TIMER then timer else
  if trapno =? T_IRQ0 + IRQ_IDE then ideintr else
  if trapno =? T_IRQ0 + IRQ_IDE + 1 then mret tt else
  if trapno =? T_IRQ0 + IRQ_KBD then consoleintr kbd_chars else
  if trapno =? T_IRQ0 + IRQ_COM1 then consoleintr uart_chars else
  if (trapno =? T_IRQ0 + 7) || (trapno =? T_IRQ0 + IRQ_SPURIOUS) then
    id ← cpuid;
    cprintf "cpu%d: spurious interrupt at %x:%x
" [AInt (Z.of_nat id); AInt cs; AInt eip]
  else
    p ← myproc;
    match (if Z.land cs 3 =? 0 then None else p) with
    | None =>
      cid ← cpuid;
      cprintf "unexpected trap %d from cpu %d eip %x (cr2=0x%x)
" [AInt trapno; AInt (Z.of_nat cid); AInt eip; AInt rcr2];;
      mpanic "trap"
    | Some p =>
      q ← proc_get p id;
      cid ← cpuid;
      cprintf "pid %d %s: trap %d err %d on cpu %d eip 0x%x addr 0x%x--kill proc
" [AInt (p_pid q); AStr (Some (c_str (p_name q))); AInt trapno; AInt err;
   AInt (Z.of_nat cid); AInt eip; AInt rcr2];;
      proc_upd p (λ q, q <| p_killed := 1 |>)
    end.

(** [src/xv6-public/trap.c:105-113] *)
Definition preempt (trapno : Z) : KM unit :=
  running ← my_test (λ q, bool_decide (p_state q = RUNNING));
  if running && (trapno =? T_IRQ0 + IRQ_TIMER) then
    p ← curproc;
    time_slice ← proc_get p p_time_slice;
    if negb (time_slice =? 0) then proc_upd p (λ q, q <| p_time_slice ::= λ t, t - 1 |>)
    else yield
  else mret tt.

(** [src/xv6-public/trap.c:36-118] [tf] is the address of the trap frame *)
Definition trap (tf : Z) : KM unit :=
  k ← mget;
  let trapno := kld32 k (tf + tf_trapno) in
  let cs := Z.land (kld32 k (tf + tf_cs)) 0xffff in
  let eip := kld32 k (tf + tf_eip) in
  let err := kld32 k (tf + tf_err) in
  if trapno =? T_SYSCALL then
    p ← curproc;
    killed ← proc_get p p_killed;
    when (truthy killed) exit;;
    p ← curproc;
    proc_upd p (λ q, q <| p_tf := tf |>);;
    syscall;;
    p ← curproc;
    killed ← proc_get p p_killed;
    when (truthy killed) exit
  else
  trap_switch trapno cs eip err;;
  killed ← my_test (λ q, truthy (p_killed q));
  when (killed && (Z.land cs 3 =? 3)) exit;;
  preempt trapno;;
  killed ← my_test (λ q, truthy (p_killed q));
  when (killed && (Z.land cs 3 =? 3)) exit.

End trap.

(** ** The quantum *)

(** A timer interrupt has reached CPU [i], which runs process [p] in the state
    [q]; the frame is at [tf]. *)
Record at_tick (k : kernel) (i : nat) (c : cpu) (p : nat) (q : proc) (tf : Z) : Prop := {
  at_settled : settled k i c;
  at_off : k_if k = false;
  at_outer : c_ncli c = 0;
  at_ticks : lock_free k LkTicks;
  at_ptable : lock_free k LkPtable;
  at_proc : c_proc c = Some p;
  at_slot : k_proc k !! p = Some q;
  at_running : p_state q = RUNNING;
  at_alive : p_killed q = 0;
  at_trapno : kld32 k (tf + tf_trapno) = T_IRQ0 + IRQ_TIMER }.

(** The clock's part of the tick: CPU 0 counts it and wakes who waits for it. *)
Definition clock (i : nat) (k : kernel) : kernel :=
  if bool_decide (i = 0%nat) then
    k <| k_ticks ::= λ t, wrap32 (t + 1) |> <| k_proc ::= map (wake (Some ChTicks)) |>
  else k.

Lemma clock_sync i k : same_sync (clock i k) k.
Proof. unfold clock. by case_bool_decide. Qed.

Lemma clock_mem i k : k_mem (clock i k) = k_mem k.
Proof. unfold clock. by case_bool_decide. Qed.

Lemma clock_running i k p q :
  k_proc k !! p = Some q → p_state q = RUNNING → k_proc (clock i k) !! p = Some q.
Proof.
  intros Eq Hr. unfold clock. case_bool_decide; [|done]. rsimpl.
  rewrite list_lookup_fmap, Eq. cbn. unfold wake. by rewrite Hr.
Qed.

Lemma timer_ok e k i c :
  settled k i c → k_if k = false → lock_free k LkTicks → lock_free k LkPtable →
  timer e k = Ret tt e (clock i k).
Proof.
  intros Hs Hi Ht Hl. pose proof Hs as (Hc & Hw & _). unfold timer, cpuid, clock.
  mgo (by eapply mycpu_ok). case_bool_decide as E; [subst i|done].
  mgo (by eapply acquire_free). msteps.
  set (k1 := _ <| k_ticks ::= _ |>).
  assert (same_sync k1 (acquired 0 c LkTicks k)) as Hk by done.
  pose proof (same_sync_settled _ _ _ _ Hk (acquired_settled 0 c LkTicks k Hc Hw)) as Hs1.
  mgo (eapply wakeup_ok; [apply Hs1|apply Hs1|
    by eapply same_sync_free, acquired_free]).
  rewrite (touch_settled _ _ _ Hs1).
  erewrite release_settled; [|exact Hs|done|done].
  unfold k1. ksync_push. by rewrite ksync_acquired_settled.
Qed.

Section quantum.
Context `{Disk} `{Devsw} `{Entries} `{Devices}.

Lemma my_test_ok f e k i c p q :
  settled k i c → c_proc c = Some p → k_proc k !! p = Some q →
  my_test f e k = Ret (f q) e k.
Proof.
  intros Hs Hp Eq. unfold my_test. mgo (by eapply myproc_settled). rewrite Hp.
  by apply proc_get_ok.
Qed.

(** The trap frame's timer branch: the clock, then the quantum. *)
Lemma trap_timer e k i c p q tf :
  at_tick k i c p q tf →
  trap tf e k =
  ((if negb (p_time_slice q =? 0)
    then proc_upd p (λ q, q <| p_time_slice ::= λ t, t - 1 |>) else yield);;
   killed ← my_test (λ q, truthy (p_killed q));
   when (killed && (Z.land (Z.land (kld32 k (tf + tf_cs)) 0xffff) 3 =? 3)) exit)
    e (clock i k).
Proof.
  intros [Hs Hi Hn Ht Hl Hp Eq Hr Hk Et]. unfold trap. msteps. rewrite Et.
  change (_ =? T_SYSCALL) with false. unfold trap_switch. rewrite Z.eqb_refl. cbn match.
  mgo (by eapply timer_ok).
  pose proof (same_sync_settled _ _ _ _ (clock_sync i k) Hs) as Hs'.
  pose proof (clock_running i k p q Eq Hr) as Eq'.
  mgo (by eapply my_test_ok). rewrite Hk. cbn [truthy negb Z.eqb andb when]. asteps.
  unfold preempt. asteps. mgo (by eapply my_test_ok).
  rewrite bool_decide_eq_true_2, Z.eqb_refl by done. cbn [andb].
  asteps. mgo (by eapply curproc_ok). asteps. by mgo (by eapply proc_get_ok).
Qed.

(** A tick inside the quantum costs one unit of it. *)
Definition ticked (i p : nat) (k : kernel) : kernel :=
  (clock i k) <| k_proc ::= alter (λ q, q <| p_time_slice ::= λ t, t - 1 |>) p |>.

Lemma trap_ticked e k i c p q tf :
  at_tick k i c p q tf → p_time_slice q ≠ 0 →
  trap tf e k = Ret tt e (ticked i p k) ∧
  at_tick (ticked i p k) i c p (q <| p_time_slice ::= λ t, t - 1 |>) tf.
Proof.
  intros Ha Hz. rewrite (trap_timer _ _ _ _ _ _ _ Ha).
  rewrite (proj2 (Z.eqb_neq _ _) Hz). cbn [negb]. unfold proc_upd. msteps.
  fold (ticked i p k).
  assert (same_sync (ticked i p k) k) as Hk by exact (clock_sync i k).
  assert (at_tick (ticked i p k) i c p (q <| p_time_slice ::= λ t, t - 1 |>) tf) as Ha'.
  { destruct Ha as [Hs Hi Hn Ht Hl Hp Eq Hr Ha Et]. split; try done.
    - by eapply same_sync_settled.
    - by destruct Hk as (_ & _ & -> & _).
    - by eapply same_sync_free.
    - by eapply same_sync_free.
    - unfold ticked. rsimpl. by erewrite list_lookup_alter_eq, clock_running.
    - rewrite <- Et. unfold kld32. change (k_mem (ticked i p k)) with (k_mem (clock i k)).
      by rewrite clock_mem. }
  split; [|done]. destruct Ha' as [Hs Hi Hn Ht Hl Hp Eq Hr Hd Et].
  mgo (by eapply my_test_ok). by rewrite Hd.
Qed.

(** [n] timer interrupts, one after the other. *)
Definition ticks_n (n : nat) (tf : Z) : KM unit := Nat.iter n (λ m, trap tf;; m) (mret tt).

Lemma ticks_n_ok n e k i c p q tf :
  at_tick k i c p q tf → p_time_slice q = Z.of_nat n →
  ∃ k' q', ticks_n n tf e k = Ret tt e k' ∧ at_tick k' i c p q' tf ∧ p_time_slice q' = 0.
Proof.
  revert k q. induction n as [|n IH]; intros k q Ha Ht; [by exists k, q|].
  destruct (trap_ticked e k i c p q tf Ha) as [E Ha']; [lia|].
  destruct (IH _ _ Ha') as (k' & q' & E' & H'); [rsimpl; lia|].
  exists k', q'. split; [|done]. unfold ticks_n. rewrite Nat.iter_succ. by mgo (exact E).
Qed.

(** C15 The quantum.  A process whose time slice is [n] keeps the CPU, still
    RUNNING, through [n] timer interrupts; at the next one, and not before,
    the trap handler gives the CPU to the scheduler: the process is RUNNABLE and
    [ptable.lock] is held.  [scheduler] starts every process with [INTERV] = 5,
    so the CPU is given away on the sixth tick. *)
Theorem quantum n e k i c p q tf :
  at_tick k i c p q tf → p_time_slice q = Z.of_nat n →
  ∃ k' q' k'', ticks_n n tf e k = Ret tt e k' ∧
    k_proc k' !! p = Some q' ∧ p_state q' = RUNNING ∧ oncpu k' i c ∧
    trap tf [] k' = Blocked k'' ∧
    k_proc k'' !! p = Some (q' <| p_state := RUNNABLE |>) ∧ held_by k'' LkPtable i.
Proof.
  intros Ha Ht. destruct (ticks_n_ok n e k i c p q tf Ha Ht) as (k' & q' & E & Ha' & E0).
  exists k', q', (yielding i c p (clock i k')).
  rewrite (trap_timer _ _ _ _ _ _ _ Ha'), E0. cbn [Z.eqb negb].
  destruct Ha' as [Hs Hi Hn Hk Hl Hp Eq Hr Hd Et].
  pose proof (clock_running i k' p q' Eq Hr) as Eq'.
  split_and!; [exact E|done|done|apply Hs|..].
  - rewrite bind_eq. erewrite yield_blocked; [done| |exact Hn| |exact Hp|exact Eq'].
    + by eapply same_sync_settled, Hs; apply clock_sync.
    + by eapply same_sync_free, Hl; apply clock_sync.
  - unfold yielding. ksimpl. by rewrite list_lookup_alter_eq, Eq'.
  - exact (acquired_held i c LkPtable (clock i k')).
Qed.
End quantum.

(** A machine for the examples: the memory disk, no device input. *)
Definition plain_entries : Entries := {| trapret := 0x80105000; forkret_addr := 0x80104000 |}.
Definition plain_devices : Devices :=
  {| ideintr := mret tt; kbd_chars := []; uart_chars := []; rcr2 := 0 |}.

Definition k_tick : kernel :=
  zero_kernel <| k_proc := [(mkproc RUNNING 1 2) <| p_time_slice := INTERV |>] |>
    <| k_cpus := [Cpu 0 0 true 0 false (Some 0%nat)] |>
    <| k_mem := st32 ∅ (V2P (KERNBASE + 0x7000 + tf_trapno)) (T_IRQ0 + IRQ_TIMER) |>.

Lemma quantum_witness :
  let trap := @trap Memide.disk (@console_devsw Memide.disk) plain_entries plain_devices in
  ∃ k' k'', @ticks_n Memide.disk (@console_devsw Memide.disk) plain_entries plain_devices
      5 (KERNBASE + 0x7000) [] k_tick = Ret tt [] k' ∧
    p_state <$> k_proc k' !! 0%nat = Some RUNNING ∧
    trap (KERNBASE + 0x7000) [] k' = Blocked k'' ∧
    p_state <$> k_proc k'' !! 0%nat = Some RUNNABLE.
Proof.
  destruct (@quantum Memide.disk (@console_devsw Memide.disk) plain_entries plain_devices
    5 [] k_tick 0 (Cpu 0 0 true 0 false (Some 0%nat)) 0
    ((mkproc RUNNING 1 2) <| p_time_slice := INTERV |>) (KERNBASE + 0x7000))
    as (k' & q' & k'' & E & Eq & Hr & _ & E' & Eq' & _).
  - split; try reflexivity. repeat split; cbn; lia.
  - reflexivity.
  - exists k', k''. split; [exact E|]. rewrite Eq, Eq'. cbn. rewrite Hr.
    split; [reflexivity|]. split; [exact E'|reflexivity].
Defined.
