(* ===== verification/Calm.v ===== *)
(** * What the kernel does to the process table

    Everything outside proc.c touches the process table through [sleep] and
    [wakeup] only, and through fields of its own slots that the scheduler does
    not look at (open files, current directory, memory).  [calm] says so,
    and this file shows it for every function of the other components. *)

From S2P Require Import Prelude State Spinlock Mem Kalloc Consout Sched Sleep Sleeplock.
From S2P Require Import Vm Pipe Bio Log Inode Console Fs File Proc Syscall Exec Sysfile.

(** What the process table is seen through: the executing CPU, what every CPU
    runs, the table and the counter of pids. *)
Definition pview (k : kernel) : Z * list (Z * option nat) * list proc * Z :=
  (k_lapicid k, cpu_ids (k_cpus k), k_proc k, k_nextpid k).

#[export] Instance pview_sync : SyncFrame pview.
Proof.
  split; try done. intros k f Hf. unfold pview. rsimpl. by rewrite Hf.
Qed.

(** An update of a slot that the scheduler and the parent do not see. *)
Definition tame (f : proc → proc) : Prop :=
  ∀ q, p_state (f q) = p_state q ∧ p_pid (f q) = p_pid q ∧
    p_priority (f q) = p_priority q ∧ p_parent (f q) = p_parent q.

(** An invariant [Inv] of the thread that runs, what it leaves to the others when
    it gives the CPU away ([G]), and what it gets back ([R]). *)
Class Guard (G R Inv : kernel → Prop) : Prop := {
  guard_view k k' : pview k' = pview k → Inv k → Inv k';
  guard_give k : Inv k → G k;
  guard_sleep chan lk : hoare G R Inv (sleep chan lk) (λ _, Inv);
  guard_wakeup chan : hoare G R Inv (wakeup chan) (λ _, Inv);
  guard_tame p f : tame f → hoare G R Inv (proc_upd p f) (λ _, Inv) }.

Definition calm {A} (m : KM A) : Prop :=
  ∀ G R Inv, Guard G R Inv → hoare G R Inv m (λ _, Inv).

Lemma calm_steady {A} (m : KM A) : steady true pview m → calm m.
Proof.
  intros Hm G R Inv HG. eapply hoare_steady; [done|..].
  - intros k k' E. by apply guard_view.
  - intros k. apply guard_give.
Qed.

Lemma calm_bind {A B} (m : KM A) (f : A → KM B) : calm m → (∀ a, calm (f a)) → calm (m ≫= f).
Proof. intros Hm Hf G R Inv HG. eapply hoare_bind; [by apply Hm|]. intros a. by apply Hf. Qed.

Lemma calm_ret {A} (a : A) : calm (mret a).
Proof. apply calm_steady, steady_ret. Qed.
Lemma calm_when b m : calm m → calm (when b m).
Proof. destruct b; [done|]. intros _. apply calm_ret. Qed.
Lemma calm_sleep chan lk : calm (sleep chan lk).
Proof. intros G R Inv HG. apply guard_sleep. Qed.
Lemma calm_wakeup chan : calm (wakeup chan).
Proof. intros G R Inv HG. apply guard_wakeup. Qed.
Lemma calm_tame p f : tame f → calm (proc_upd p f).
Proof. intros Hf G R Inv HG. by apply guard_tame. Qed.
Lemma calm_nofuel {A} : calm (A := A) (λ _ k, NoFuel k).
Proof. by intros G R Inv HG e k. Qed.

Lemma calm_mwait test body : calm test → calm body → calm (mwait test body).
Proof.
  intros Ht Hb G R Inv HG. apply hoare_mwait; [|by apply Hb].
  eapply hoare_conseq; [by apply Ht|done|]. by intros [].
Qed.

Lemma calm_mrepeat {A} (body : KM (unit + A)) : calm body → calm (mrepeat body).
Proof.
  intros Hb G R Inv HG. apply hoare_mrepeat.
  eapply hoare_conseq; [by apply Hb|done|]. by intros [].
Qed.

(** Programs that do not give the CPU away leave the table as it is. *)
Definition still {A} (m : KM A) : Prop :=
  ∀ e k, wpo (λ _ e' k', e' = e ∧ pview k' = pview k) (λ _ k', pview k' = pview k) (m e k).

Lemma still_steady {A} (m : KM A) : steady true pview m → still m.
Proof. intros H e k. eapply wpo_mono; [apply H|naive_solver..]. Qed.
Lemma still_ret {A} (a : A) : still (mret a).
Proof. by intros e k. Qed.
Lemma still_nofuel {A} : still (A := A) (λ _ k, NoFuel k).
Proof. by intros e k. Qed.
Lemma still_bind {A B} (m : KM A) (f : A → KM B) : still m → (∀ a, still (f a)) → still (m ≫= f).
Proof.
  intros Hm Hf e k. apply wpo_bind. eapply wpo_mono; [apply Hm|..|done]. cbn.
  intros a e' k' [-> E]. eapply wpo_mono; [apply Hf|..]; cbn.
  - intros b e'' k'' [-> ?]. split; congruence.
  - intros s k''. congruence.
Qed.
Lemma still_when b m : still m → still (when b m).
Proof. destruct b; [done|]. intros _. apply still_ret. Qed.

Lemma hoare_still {A} (m : KM A) G R P :
  still m → (∀ k k', pview k' = pview k → P k → P k') → (∀ k, P k → G k) →
  hoare G R P m (λ _, P).
Proof.
  intros Hm HP HG e k He Hk. eapply wpo_mono; [apply Hm|..]; cbn.
  - intros a e' k' [-> E]. split; [done|]. by apply (HP k k').
  - intros s k' E _. apply HG. by apply (HP k k').
Qed.

Lemma calm_still {A} (m : KM A) : still m → calm m.
Proof.
  intros Hm G R Inv HG. apply hoare_still; [done|..].
  - intros k k' E. by apply guard_view.
  - intros k. apply guard_give.
Qed.

Create HintDb still discriminated.
#[export] Hint Constants Opaque : still.
#[export] Hint Resolve still_ret : still.
Ltac solve_still :=
  repeat first
    [ progress intros
    | solve [auto with still]
    | match goal with
      | |- still (mbind _ _) => apply still_bind
      | |- still (when _ _) => apply still_when
      | |- still (λ _ k, NoFuel k) => apply still_nofuel
      | |- still (match ?x with _ => _ end) => destruct x
      end
    | solve [apply still_steady; solve_steady] ].

Create HintDb calm discriminated.
#[export] Hint Constants Opaque : calm.
#[export] Hint Resolve calm_ret calm_sleep calm_wakeup : calm.
#[export] Hint Extern 1 (calm (proc_upd _ _)) => apply calm_tame; by intros : calm.

(** [solve_calm] walks through a program. *)
Ltac solve_calm :=
  repeat first
    [ progress intros
    | solve [auto with calm]
    | match goal with
      | |- calm (mbind _ _) => apply calm_bind
      | |- calm (when _ _) => apply calm_when
      | |- calm (mwait _ _) => apply calm_mwait
      | |- calm (mrepeat _) => apply calm_mrepeat
      | |- calm (λ _ k, NoFuel k) => apply calm_nofuel
      | |- calm (match ?x with _ => _ end) => destruct x
      end
    | solve [apply calm_still; solve_still] ].

(** ** Sleep locks, buffers and the log *)

Ltac frame := apply steady_modify; reflexivity.

Lemma steady_sl_upd {B} (g : kernel → B) b l f :
  (∀ k f, g (k <| k_buf ::= f |>) = g k) → (∀ k f, g (k <| k_inode ::= f |>) = g k) →
  steady b g (sl_upd l f).
Proof. intros Hb Hi. apply steady_modify. intros k. destruct l; [apply Hb|apply Hi]. Qed.
#[export] Hint Extern 1 (steady _ _ (sl_upd _ _)) => apply steady_sl_upd; reflexivity : steady.
#[export] Hint Extern 1 (steady _ _ (sl_get _ _)) => unfold sl_get; solve [solve_steady] : steady.

Lemma calm_acquiresleep l : calm (acquiresleep l).
Proof. unfold acquiresleep. solve_calm. Qed.
Lemma calm_releasesleep l : calm (releasesleep l).
Proof. unfold releasesleep. solve_calm. Qed.
Lemma calm_holdingsleep l : calm (holdingsleep l).
Proof. unfold holdingsleep. solve_calm. Qed.
Lemma calm_initsleeplock l : calm (initsleeplock l).
Proof. unfold initsleeplock. solve_calm. Qed.
#[export] Hint Resolve calm_acquiresleep calm_releasesleep calm_holdingsleep
  calm_initsleeplock : calm.

#[export] Hint Extern 2 (steady _ _ (buf_get _ _)) => unfold buf_get; solve [solve_steady] : steady.
#[export] Hint Extern 2 (steady _ _ (buf_upd _ _)) => unfold buf_upd; solve [solve_steady] : steady.
#[export] Hint Extern 2 (steady _ _ (log_upd _)) => unfold log_upd; solve [solve_steady] : steady.
#[export] Hint Extern 2 (steady _ _ (inode_get _ _)) => unfold inode_get; solve [solve_steady] : steady.
#[export] Hint Extern 2 (steady _ _ (inode_upd _ _)) => unfold inode_upd; solve [solve_steady] : steady.
#[export] Hint Extern 2 (steady _ _ (file_get _ _)) => unfold file_get; solve [solve_steady] : steady.
#[export] Hint Extern 2 (steady _ _ (file_upd _ _)) => unfold file_upd; solve [solve_steady] : steady.
#[export] Hint Extern 2 (steady _ _ (pipe_get _ _)) => unfold pipe_get; solve [solve_steady] : steady.
#[export] Hint Extern 2 (steady _ _ (pipe_upd _ _)) => unfold pipe_upd; solve [solve_steady] : steady.
#[export] Hint Extern 2 (steady _ _ (input_upd _)) => unfold input_upd; solve [solve_steady] : steady.
#[export] Hint Extern 2 (steady _ _ (kst32 _ _)) => unfold kst32; solve [solve_steady] : steady.
#[export] Hint Extern 2 (steady _ _ (tf_get _ _)) => unfold tf_get; solve [solve_steady] : steady.
#[export] Hint Extern 2 (steady _ _ (tf_set _ _ _)) => unfold tf_set; solve [solve_steady] : steady.

(** The disk is calm. *)
Class CalmDisk `{Disk} : Prop := calm_iderw b : calm (iderw b).
#[export] Hint Extern 1 (calm (iderw _)) => apply calm_iderw : calm.

#[export] Instance memide_calm : @CalmDisk Memide.disk.
Proof. intros b. change (calm (Memide.iderw b)). unfold Memide.iderw. solve_calm. Qed.

Lemma calm_append_after fuel b new : calm (Ide.append_after fuel b new).
Proof. revert b. induction fuel as [|fuel IH]; intros b; cbn [Ide.append_after]; solve_calm. Qed.
#[export] Hint Resolve calm_append_after : calm.

#[export] Instance ide_calm : @CalmDisk Ide.disk.
Proof.
  intros b. change (calm (Ide.iderw b)). unfold Ide.iderw, Ide.idestart. solve_calm.
Qed.

Lemma calm_ideintr : calm Ide.ideintr.
Proof. unfold Ide.ideintr, Ide.idestart. solve_calm. Qed.

Lemma calm_bfind fuel dir P b : calm (bfind fuel dir P b).
Proof. revert b. induction fuel as [|fuel IH]; intros b; cbn [bfind]; solve_calm. Qed.
#[export] Hint Resolve calm_bfind : calm.
Lemma calm_bget dev n : calm (bget dev n).
Proof. unfold bget. solve_calm. Qed.
Lemma calm_brelse b : calm (brelse b).
Proof. unfold brelse, link_first. solve_calm. Qed.
#[export] Hint Resolve calm_bget calm_brelse : calm.

Section disk.
Context `{CalmDisk}.

Lemma calm_bread dev n : calm (bread dev n).
Proof. unfold bread. solve_calm. Qed.
Lemma calm_bwrite b : calm (bwrite b).
Proof. unfold bwrite. solve_calm. Qed.
#[local] Hint Resolve calm_bread calm_bwrite : calm.

Lemma calm_readsb dev : calm (readsb dev).
Proof. unfold readsb. solve_calm. Qed.
Lemma calm_install_loop tails : calm (install_loop tails).
Proof.
  induction tails; cbn [install_loop]; unfold log_dev, log_block, home_block, copy_block; solve_calm.
Qed.
Lemma calm_write_log_loop tails : calm (write_log_loop tails).
Proof.
  induction tails; cbn [write_log_loop]; unfold log_dev, log_block, home_block, copy_block; solve_calm.
Qed.
#[local] Hint Resolve calm_readsb calm_install_loop calm_write_log_loop : calm.
Lemma calm_install_trans : calm install_trans.
Proof. unfold install_trans. solve_calm. Qed.
Lemma calm_read_head : calm read_head.
Proof. unfold read_head. solve_calm. Qed.
Lemma calm_write_head : calm write_head.
Proof. unfold write_head. solve_calm. Qed.
#[local] Hint Resolve calm_install_trans calm_read_head calm_write_head : calm.
Lemma calm_initlog dev : calm (initlog dev).
Proof. unfold initlog, recover_from_log. solve_calm. Qed.
Lemma calm_commit : calm commit.
Proof. unfold commit, write_log. solve_calm. Qed.
#[local] Hint Resolve calm_commit : calm.
Lemma calm_begin_op : calm begin_op.
Proof. unfold begin_op. solve_calm. Qed.
Lemma calm_end_op : calm end_op.
Proof. unfold end_op. solve_calm. Qed.
Lemma calm_log_write b : calm (log_write b).
Proof. unfold log_write. solve_calm. Qed.
End disk.
#[export] Hint Resolve calm_bread calm_bwrite calm_readsb calm_initlog calm_begin_op calm_end_op
  calm_log_write : calm.
#[export] Hint Extern 0 (CalmDisk) => apply _ : calm.

(** ** Output and memory *)

#[export] Hint Extern 2 (steady _ _ (cgaputc _)) => unfold cgaputc; solve [solve_steady] : steady.
#[export] Hint Extern 2 (steady _ _ (uartputc _)) => unfold uartputc; solve [solve_steady] : steady.

Lemma still_consputc c : still (consputc c).
Proof. unfold consputc. solve_still. Qed.
#[export] Hint Resolve still_consputc : still.
Lemma still_consputs s : still (consputs s).
Proof. induction s; cbn [consputs]; solve_still. Qed.
#[export] Hint Resolve still_consputs : still.
Lemma still_cprintf_loop fmt args : still (cprintf_loop fmt args).
Proof.
  remember (length fmt) as n eqn:E. revert fmt args E.
  induction n as [n IH] using lt_wf_ind. intros [|c fmt] args E; cbn [cprintf_loop]; [solve_still|].
  assert (∀ args, still (cprintf_loop fmt args)) as H1 by (intros; eapply IH; [|done]; cbn in E; lia).
  destruct fmt as [|c' fmt]; [solve_still|].
  assert (∀ args, still (cprintf_loop fmt args)) as H2 by (intros; eapply IH; [|done]; cbn in E; lia).
  unfold printint. solve_still.
Qed.
#[export] Hint Resolve still_cprintf_loop : still.
Lemma still_cprintf fmt args : still (cprintf fmt args).
Proof. unfold cprintf. solve_still. Qed.
#[export] Hint Resolve still_cprintf : still.

Lemma still_walkpgdir pgdir va alloc : still (walkpgdir pgdir va alloc).
Proof. unfold walkpgdir. solve_still. Qed.
#[export] Hint Resolve still_walkpgdir : still.
Lemma still_mappages pgdir va size pa perm : still (mappages pgdir va size pa perm).
Proof.
  unfold mappages. generalize (PGROUNDDOWN va) as a. intros a.
  generalize (S (Z.to_nat (wrap32 (PGROUNDDOWN (wrap32 (va + size - 1)) - a) / PGSIZE))) as fuel.
  intros fuel. revert a pa. induction fuel as [|fuel IH]; intros a pa; cbn [mappages_loop]; solve_still.
Qed.
#[export] Hint Resolve still_mappages : still.
Lemma still_deallocuvm_loop fuel pgdir a sz : still (deallocuvm_loop fuel pgdir a sz).
Proof. revert a. induction fuel as [|fuel IH]; intros a; cbn [deallocuvm_loop]; solve_still. Qed.
#[export] Hint Resolve still_deallocuvm_loop : still.
Lemma still_deallocuvm pgdir old new : still (deallocuvm pgdir old new).
Proof. unfold deallocuvm. solve_still. Qed.
Lemma still_free_tables pgdir idx : still (free_tables pgdir idx).
Proof. induction idx; cbn [free_tables]; solve_still. Qed.
#[export] Hint Resolve still_deallocuvm still_free_tables : still.
Lemma still_freevm pgdir : still (freevm pgdir).
Proof. unfold freevm. solve_still. Qed.
#[export] Hint Resolve still_freevm : still.
Lemma still_setupkvm_loop pgdir ks : still (setupkvm_loop pgdir ks).
Proof. induction ks as [|[[[]]]]; cbn [setupkvm_loop]; solve_still. Qed.
#[export] Hint Resolve still_setupkvm_loop : still.
Lemma still_setupkvm : still setupkvm.
Proof. unfold setupkvm. solve_still. Qed.
#[export] Hint Resolve still_setupkvm : still.
Lemma still_inituvm pgdir init : still (inituvm pgdir init).
Proof. unfold inituvm. solve_still. Qed.
Lemma still_allocuvm_loop fuel pgdir a old new : still (allocuvm_loop fuel pgdir a old new).
Proof. revert a. induction fuel as [|fuel IH]; intros a; cbn [allocuvm_loop]; solve_still. Qed.
#[export] Hint Resolve still_inituvm still_allocuvm_loop : still.
Lemma still_allocuvm pgdir old new : still (allocuvm pgdir old new).
Proof. unfold allocuvm. solve_still. Qed.
Lemma still_clearpteu pgdir uva : still (clearpteu pgdir uva).
Proof. unfold clearpteu. solve_still. Qed.
Lemma still_copyuvm_loop fuel pgdir d i sz : still (copyuvm_loop fuel pgdir d i sz).
Proof. revert i. induction fuel as [|fuel IH]; intros i; cbn [copyuvm_loop]; solve_still. Qed.
#[export] Hint Resolve still_allocuvm still_clearpteu still_copyuvm_loop : still.
Lemma still_copyuvm pgdir sz : still (copyuvm pgdir sz).
Proof. unfold copyuvm. solve_still. Qed.
Lemma still_copyout_loop fuel pgdir va buf : still (copyout_loop fuel pgdir va buf).
Proof.
  revert va buf. induction fuel as [|fuel IH]; intros va buf; cbn [copyout_loop]; unfold uva2ka;
    solve_still.
Qed.
#[export] Hint Resolve still_copyuvm still_copyout_loop : still.
Lemma still_copyout pgdir va buf : still (copyout pgdir va buf).
Proof. unfold copyout. solve_still. Qed.
#[export] Hint Resolve still_copyout : still.
#[export] Hint Extern 2 (steady _ _ (uld32 _)) => unfold uld32; solve [solve_steady] : steady.
#[export] Hint Extern 2 (steady _ _ (ust32 _ _)) => unfold ust32; solve [solve_steady] : steady.
#[export] Hint Extern 2 (steady _ _ (ust16 _ _)) => unfold ust16; solve [solve_steady] : steady.
Lemma still_uread va n : still (uread va n).
Proof. revert va. induction n as [|n IH]; intros va; cbn [uread]; solve_still. Qed.
Lemma still_uwrite va bs : still (uwrite va bs).
Proof. revert va. induction bs as [|b bs IH]; intros va; cbn [uwrite]; solve_still. Qed.
#[export] Hint Resolve still_uread still_uwrite : still.
Lemma still_switchuvm p : still (switchuvm p).
Proof. unfold switchuvm. solve_still. Qed.
#[export] Hint Resolve still_switchuvm : still.

(** ** Pipes, inodes and the console *)

Lemma calm_my_killed : calm my_killed.
Proof. unfold my_killed. solve_calm. Qed.
#[export] Hint Resolve calm_my_killed : calm.
Lemma calm_pipeclose p w : calm (pipeclose p w).
Proof. unfold pipeclose. solve_calm. Qed.
Lemma calm_wait_space p : calm (wait_space p).
Proof. unfold wait_space. solve_calm. Qed.
#[export] Hint Resolve calm_pipeclose calm_wait_space : calm.
Lemma calm_pipewrite_loop p addr n : calm (pipewrite_loop p addr n).
Proof. revert addr. induction n as [|n IH]; intros addr; cbn [pipewrite_loop]; solve_calm. Qed.
#[export] Hint Resolve calm_pipewrite_loop : calm.
Lemma calm_pipewrite p addr n : calm (pipewrite p addr n).
Proof. unfold pipewrite. solve_calm. Qed.
Lemma calm_wait_data p : calm (wait_data p).
Proof. unfold wait_data. solve_calm. Qed.
Lemma calm_piperead_loop p addr n : calm (piperead_loop p addr n).
Proof. revert addr. induction n as [|n IH]; intros addr; cbn [piperead_loop]; solve_calm. Qed.
#[export] Hint Resolve calm_pipewrite calm_wait_data calm_piperead_loop : calm.
Lemma calm_piperead p addr n : calm (piperead p addr n).
Proof. unfold piperead. solve_calm. Qed.
#[export] Hint Resolve calm_piperead : calm.

Lemma calm_iget dev inum : calm (iget dev inum).
Proof. unfold iget. solve_calm. Qed.
Lemma calm_idup ip : calm (idup ip).
Proof. unfold idup. solve_calm. Qed.
Lemma calm_iunlock ip : calm (iunlock ip).
Proof. unfold iunlock. solve_calm. Qed.
#[export] Hint Resolve calm_iget calm_idup calm_iunlock : calm.

Section inodes.
Context `{CalmDisk}.

Lemma calm_bzero dev n : calm (bzero dev n).
Proof. unfold bzero. solve_calm. Qed.
#[local] Hint Resolve calm_bzero : calm.
Lemma calm_balloc dev : calm (balloc dev).
Proof.
  unfold balloc. apply calm_bind; [solve_calm|]. intros sb.
  generalize (Z.to_nat ((sb_size sb + BPB - 1) / BPB)) as n. intros n. generalize 0 as b.
  induction n as [|n IH]; intros b; cbn [balloc_loop]; solve_calm.
Qed.
Lemma calm_bfree dev n : calm (bfree dev n).
Proof. unfold bfree. solve_calm. Qed.
Lemma calm_iinit dev : calm (iinit dev).
Proof.
  unfold iinit. apply calm_bind; [solve_calm|]. intros _.
  apply calm_bind; [|unfold readsb; solve_calm].
  generalize (seq 0 NINODE). intros l. induction l; cbn [iinit_loop]; solve_calm.
Qed.
#[local] Hint Resolve calm_balloc calm_bfree : calm.
Lemma calm_ialloc dev type : calm (ialloc dev type).
Proof.
  unfold ialloc. apply calm_bind; [solve_calm|]. intros sb.
  generalize (Z.to_nat (sb_ninodes sb - 1)) as n. intros n. generalize 1 as i.
  induction n as [|n IH]; intros i; cbn [ialloc_loop]; solve_calm.
Qed.
Lemma calm_iupdate ip : calm (iupdate ip).
Proof. unfold iupdate. solve_calm. Qed.
Lemma calm_ilock ip : calm (ilock ip).
Proof. unfold ilock. solve_calm. Qed.
#[local] Hint Resolve calm_iupdate : calm.
Lemma calm_bmap ip bn : calm (bmap ip bn).
Proof. unfold bmap, addr_or_alloc. solve_calm. Qed.
Lemma calm_trunc_direct ip idx : calm (trunc_direct ip idx).
Proof. induction idx; cbn [trunc_direct]; solve_calm. Qed.
Lemma calm_trunc_indirect bp dev idx : calm (trunc_indirect bp dev idx).
Proof. induction idx; cbn [trunc_indirect]; solve_calm. Qed.
#[local] Hint Resolve calm_trunc_direct calm_trunc_indirect : calm.
Lemma calm_itrunc ip : calm (itrunc ip).
Proof. unfold itrunc. solve_calm. Qed.
#[local] Hint Resolve calm_itrunc : calm.
Lemma calm_iput ip : calm (iput ip).
Proof. unfold iput. solve_calm. Qed.
#[local] Hint Resolve calm_iput : calm.
Lemma calm_iunlockput ip : calm (iunlockput ip).
Proof. unfold iunlockput. solve_calm. Qed.
End inodes.
#[export] Hint Resolve calm_iinit calm_ialloc calm_iupdate calm_ilock calm_bmap calm_iput
  calm_iunlockput : calm.

Lemma calm_print_pcs pcs : calm (print_pcs pcs).
Proof. induction pcs; cbn [print_pcs]; solve_calm. Qed.
#[export] Hint Resolve calm_print_pcs : calm.
Lemma calm_procdump : calm procdump.
Proof.
  unfold procdump. generalize (seq 0 NPROC). intros l. induction l; cbn [procdump_loop]; solve_calm.
Qed.
Lemma calm_kill_line fuel : calm (kill_line fuel).
Proof. induction fuel; cbn [kill_line]; solve_calm. Qed.
#[export] Hint Resolve calm_procdump calm_kill_line : calm.
Lemma calm_console_char c : calm (console_char c).
Proof. unfold console_char. solve_calm. Qed.
#[export] Hint Resolve calm_console_char : calm.
Lemma calm_console_chars cs d : calm (console_chars cs d).
Proof. revert d. induction cs; intros d; cbn [console_chars]; solve_calm. Qed.
#[export] Hint Resolve calm_console_chars : calm.
Lemma calm_consoleintr cs : calm (consoleintr cs).
Proof. unfold consoleintr. solve_calm. Qed.
#[export] Hint Resolve calm_consoleintr : calm.

(** The device functions are calm if what they copy with is. *)
Class CalmDevsw `{Devsw} : Prop := {
  calm_dev_read major read ip put n :
    dev_read major = Some read → (∀ o bs, calm (put o bs)) → calm (read ip put n);
  calm_dev_write major write ip get n :
    dev_write major = Some write → (∀ o m, calm (get o m)) → calm (write ip get n) }.

Section console.
Context `{CalmDisk}.

Lemma calm_console_byte ip fresh : calm (console_byte ip fresh).
Proof. unfold console_byte. solve_calm. Qed.
#[local] Hint Resolve calm_console_byte : calm.
Lemma calm_consoleread ip put n : (∀ o bs, calm (put o bs)) → calm (consoleread ip put n).
Proof.
  intros Hput. assert (∀ togo done, calm (consoleread_loop ip put togo done)).
  { induction togo as [|togo IH]; intros d; cbn [consoleread_loop]; solve_calm. }
  unfold consoleread. solve_calm.
Qed.
Lemma calm_consolewrite ip get n : (∀ o m, calm (get o m)) → calm (consolewrite ip get n).
Proof.
  intros Hget. assert (∀ m i, calm (consolewrite_loop get i m)).
  { induction m as [|m IH]; intros i; cbn [consolewrite_loop]; solve_calm. }
  unfold consolewrite. solve_calm.
Qed.

#[export] Instance console_calm : @CalmDevsw console_devsw.
Proof.
  split; intros major f ip x n; cbn; destruct (_ =? _); intros [= <-] Hx.
  - by apply calm_consoleread.
  - by apply calm_consolewrite.
Qed.
End console.

(** ** Files, directories and paths *)

Section fs.
Context `{CalmDisk} `{CalmDevsw}.

Lemma calm_readi_loop fuel ip put tot off n :
  (∀ o bs, calm (put o bs)) → calm (readi_loop fuel ip put tot off n).
Proof.
  intros Hput. revert tot off.
  induction fuel as [|fuel IH]; intros tot off; cbn [readi_loop]; solve_calm.
Qed.
#[local] Hint Resolve calm_readi_loop : calm.
Lemma calm_readi ip put off n : (∀ o bs, calm (put o bs)) → calm (readi ip put off n).
Proof.
  intros Hput. unfold readi. apply calm_bind; [solve_calm|]. intros x.
  destruct (_ =? _); [|solve_calm]. destruct (_ || _); [solve_calm|].
  destruct (dev_read (i_major x)) as [read|] eqn:E; [|solve_calm].
  apply calm_bind; [by eapply calm_dev_read|solve_calm].
Qed.
Lemma calm_writei_loop fuel ip get tot off n :
  (∀ o m, calm (get o m)) → calm (writei_loop fuel ip get tot off n).
Proof.
  intros Hget. revert tot off.
  induction fuel as [|fuel IH]; intros tot off; cbn [writei_loop]; solve_calm.
Qed.
#[local] Hint Resolve calm_writei_loop : calm.
Lemma calm_writei ip get off n : (∀ o m, calm (get o m)) → calm (writei ip get off n).
Proof.
  intros Hget. unfold writei. apply calm_bind; [solve_calm|]. intros x.
  destruct (_ =? _); [|solve_calm]. destruct (_ || _); [solve_calm|].
  destruct (dev_write (i_major x)) as [write|] eqn:E; [|solve_calm]. by eapply calm_dev_write.
Qed.

Lemma calm_nowhere o bs : calm (nowhere o bs).
Proof. unfold nowhere. solve_calm. Qed.
Lemma calm_local l o m : calm (local l o m).
Proof. unfold local. solve_calm. Qed.
Lemma calm_to_user va o bs : calm (to_user va o bs).
Proof. unfold to_user. solve_calm. Qed.
Lemma calm_from_user va o m : calm (from_user va o m).
Proof. unfold from_user. solve_calm. Qed.
#[local] Hint Resolve calm_readi calm_writei calm_nowhere calm_local calm_to_user
  calm_from_user : calm.

Lemma calm_dirlookup dp name : calm (dirlookup dp name).
Proof.
  assert (∀ fuel off, calm (dirlookup_loop fuel dp name off)).
  { induction fuel as [|fuel IH]; intros off; cbn [dirlookup_loop]; solve_calm. }
  unfold dirlookup. solve_calm.
Qed.
#[local] Hint Resolve calm_dirlookup : calm.
Lemma calm_empty_dirent fuel dp off : calm (empty_dirent fuel dp off).
Proof. revert off. induction fuel as [|fuel IH]; intros off; cbn [empty_dirent]; solve_calm. Qed.
#[local] Hint Resolve calm_empty_dirent : calm.
Lemma calm_dirlink dp name inum : calm (dirlink dp name inum).
Proof. unfold dirlink. solve_calm. Qed.

Lemma calm_namex path np : calm (namex path np).
Proof.
  assert (∀ fuel ip path name, calm (namex_loop fuel ip path np name)).
  { induction fuel as [|fuel IH]; intros ip path' name; cbn [namex_loop]; solve_calm. }
  unfold namex. solve_calm.
Qed.
#[local] Hint Resolve calm_namex : calm.
Lemma calm_namei path : calm (namei path).
Proof. unfold namei. solve_calm. Qed.
Lemma calm_nameiparent path : calm (nameiparent path).
Proof. unfold nameiparent. solve_calm. Qed.
End fs.
#[export] Hint Resolve calm_readi calm_writei calm_nowhere calm_local calm_to_user
  calm_from_user calm_dirlookup calm_dirlink calm_namei calm_nameiparent : calm.
#[export] Hint Extern 0 (CalmDevsw) => apply _ : calm.

(** ** Open files, arguments and the system calls outside proc.c *)

Lemma calm_filealloc : calm filealloc.
Proof. unfold filealloc. solve_calm. Qed.
Lemma calm_filedup f : calm (filedup f).
Proof. unfold filedup. solve_calm. Qed.
Lemma calm_curproc : calm curproc.
Proof. unfold curproc. solve_calm. Qed.
#[export] Hint Resolve calm_filealloc calm_filedup calm_curproc : calm.
Lemma calm_fetchint addr : calm (fetchint addr).
Proof. unfold fetchint. solve_calm. Qed.
Lemma calm_scan_str n s : calm (scan_str n s).
Proof. revert s. induction n as [|n IH]; intros s; cbn [scan_str]; solve_calm. Qed.
#[export] Hint Resolve calm_fetchint calm_scan_str : calm.
Lemma calm_fetchstr addr : calm (fetchstr addr).
Proof. unfold fetchstr. solve_calm. Qed.
#[export] Hint Resolve calm_fetchstr : calm.
Lemma calm_argint n : calm (argint n).
Proof. unfold argint. solve_calm. Qed.
#[export] Hint Resolve calm_argint : calm.
Lemma calm_argptr n size : calm (argptr n size).
Proof. unfold argptr. solve_calm. Qed.
Lemma calm_argstr n : calm (argstr n).
Proof. unfold argstr. solve_calm. Qed.
#[export] Hint Resolve calm_argptr calm_argstr : calm.
Lemma calm_argfd n : calm (argfd n).
Proof. unfold argfd. solve_calm. Qed.
Lemma calm_fdalloc f : calm (fdalloc f).
Proof. unfold fdalloc. solve_calm. Qed.
#[export] Hint Resolve calm_argfd calm_fdalloc : calm.
Lemma calm_sys_dup : calm sys_dup.
Proof. unfold sys_dup. solve_calm. Qed.
Lemma calm_fetch_argv n u : calm (fetch_argv n u).
Proof. revert u. induction n as [|n IH]; intros u; cbn [fetch_argv]; solve_calm. Qed.
#[export] Hint Resolve calm_sys_dup calm_fetch_argv : calm.

Lemma calm_fileclose `{CalmDisk} f : calm (fileclose f).
Proof. unfold fileclose. solve_calm. Qed.
#[export] Hint Resolve calm_fileclose : calm.

Section files.
Context `{CalmDisk} `{CalmDevsw}.

Lemma calm_filestat f st : calm (filestat f st).
Proof. unfold filestat, stati. solve_calm. Qed.
Lemma calm_fileread f addr n : calm (fileread f addr n).
Proof. unfold fileread. solve_calm. Qed.
Lemma calm_filewrite f addr n : calm (filewrite f addr n).
Proof.
  assert (∀ fuel ip i, calm (filewrite_loop fuel f ip addr i n)).
  { induction fuel as [|fuel IH]; intros ip i; cbn [filewrite_loop]; solve_calm. }
  unfold filewrite. solve_calm.
Qed.
#[local] Hint Resolve calm_filestat calm_fileread calm_filewrite : calm.
Lemma calm_pipealloc : calm pipealloc.
Proof. unfold pipealloc, pipealloc_bad. solve_calm. Qed.
#[local] Hint Resolve calm_pipealloc : calm.

Lemma calm_loaduvm pgdir addr ip off sz : calm (loaduvm pgdir addr ip off sz).
Proof.
  assert (∀ fuel i, calm (loaduvm_loop fuel pgdir addr ip off sz i)).
  { induction fuel as [|fuel IH]; intros i; cbn [loaduvm_loop]; solve_calm.
    apply calm_readi. solve_calm. }
  unfold loaduvm. solve_calm.
Qed.
#[local] Hint Resolve calm_loaduvm : calm.
Lemma calm_load_segments n pgdir ip off sz : calm (load_segments n pgdir ip off sz).
Proof. revert off sz. induction n as [|n IH]; intros off sz; cbn [load_segments]; solve_calm. Qed.
Lemma calm_push_args argc pgdir sp argv u : calm (push_args argc pgdir sp argv u).
Proof.
  revert argc sp u. induction argv as [|a argv IH]; intros argc sp u; cbn [push_args]; solve_calm.
Qed.
#[local] Hint Resolve calm_load_segments calm_push_args : calm.
Lemma calm_exec path argv : calm (exec path argv).
Proof. unfold exec, exec_stack, exec_bad. solve_calm. Qed.

Lemma calm_create path type major minor : calm (create path type major minor).
Proof. unfold create. solve_calm. Qed.
Lemma calm_isdirempty dp : calm (isdirempty dp).
Proof.
  assert (∀ fuel off, calm (isdirempty_loop fuel dp off)).
  { induction fuel as [|fuel IH]; intros off; cbn [isdirempty_loop]; solve_calm. }
  unfold isdirempty. solve_calm.
Qed.
#[local] Hint Resolve calm_exec calm_create calm_isdirempty : calm.
Lemma calm_open_file ip omode : calm (open_file ip omode).
Proof. unfold open_file. solve_calm. Qed.
#[local] Hint Resolve calm_open_file : calm.

(** The system calls of sysfile.c. *)
Lemma calm_sysfile :
  Forall calm [sys_read; sys_write; sys_close; sys_fstat; sys_link; sys_unlink; sys_open;
               sys_mkdir; sys_mknod; sys_chdir; sys_exec; sys_pipe].
Proof.
  repeat constructor; [unfold sys_read|unfold sys_write|unfold sys_close|unfold sys_fstat
    |unfold sys_link, link_bad|unfold sys_unlink, unlink_bad|unfold sys_open, open_inode
    |unfold sys_mkdir|unfold sys_mknod|unfold sys_chdir|unfold sys_exec|unfold sys_pipe];
    solve_calm.
Qed.
End files.
