(* ===== verification/Ptable.v ===== *)
(** * The process table, whoever runs

    One invariant for the whole kernel: the live slots of [ptable] have
    distinct, positive process identifiers and priorities between 1 and 3.
    Every system call, every trap and the scheduler keep it, each under the
    assumption that the others do while it is off the CPU; a process gives
    the CPU away only with a correct table, and the scheduler gives it to a
    process only when that process is RUNNING and current on the CPU. *)

From S2P Require Import Prelude State Spinlock Mem Kalloc Consout Sched Sleep Sleeplock.
From S2P Require Import Vm Pipe Bio Log Inode Console Fs File Proc Syscall Exec Sysfile Trap Calm.

Definition live (q : proc) : Prop := p_state q ≠ UNUSED.

Record table_ok (ps : list proc) (nextpid : Z) : Prop := {
  t_next : 1 ≤ nextpid < 2 ^ 31;
  t_pid i q : ps !! i = Some q → live q → 1 ≤ p_pid q < nextpid;
  t_prio i q : ps !! i = Some q → live q → 1 ≤ p_priority q ≤ 3;
  t_uniq i j qi qj : ps !! i = Some qi → ps !! j = Some qj → live qi → live qj →
    p_pid qi = p_pid qj → i = j }.

Definition ptable_ok (k : kernel) : Prop := table_ok (k_proc k) (k_nextpid k).

(** The number of the executing CPU, and the process it runs. *)
Definition this_cpu (k : kernel) : option nat :=
  fst <$> list_find (λ x, x.1 = k_lapicid k) (cpu_ids (k_cpus k)).
Definition running (k : kernel) : option nat :=
  match list_find (λ x, x.1 = k_lapicid k) (cpu_ids (k_cpus k)) with
  | Some (_, (_, p)) => p
  | None => None
  end.

(** Process [p] executes. *)
Definition in_process (p : nat) (k : kernel) : Prop :=
  ptable_ok k ∧ running k = Some p ∧ ∃ q, k_proc k !! p = Some q ∧ p_state q = RUNNING.

(** The three predicates look at [pview] only. *)
Lemma ptable_view k k' : pview k' = pview k → ptable_ok k → ptable_ok k'.
Proof. intros [= _ _ Ep En]. unfold ptable_ok. by rewrite Ep, En. Qed.

Lemma running_view k k' : pview k' = pview k → running k' = running k.
Proof. intros [= El Ei _ _]. unfold running. by rewrite El, Ei. Qed.

Lemma in_process_view p k k' : pview k' = pview k → in_process p k → in_process p k'.
Proof.
  intros E (Hp & Hr & q & Eq & Hs). split; [by eapply ptable_view|].
  rewrite (running_view _ _ E). split; [done|]. injection E as _ _ Ep _. rewrite Ep. eauto.
Qed.

(** ** Changes of the table *)

Lemma table_change ps ps' n :
  table_ok ps n →
  (∀ i q', ps' !! i = Some q' → live q' → ∃ q, ps !! i = Some q ∧ live q ∧
    p_pid q' = p_pid q ∧ (1 ≤ p_priority q ≤ 3 → 1 ≤ p_priority q' ≤ 3)) →
  table_ok ps' n.
Proof.
  intros [Hn Hpid Hprio Hu] H. split; [done|..].
  - intros i q' Eq Hl. destruct (H i q' Eq Hl) as (q & ? & ? & -> & _). eauto.
  - intros i q' Eq Hl. destruct (H i q' Eq Hl) as (q & ? & ? & _ & Hp). eauto.
  - intros i j qi qj Ei Ej Hi Hj E.
    destruct (H i qi Ei Hi) as (q1 & ? & ? & E1 & _), (H j qj Ej Hj) as (q2 & ? & ? & E2 & _).
    eapply Hu; eauto. congruence.
Qed.

Lemma table_alter ps n p f :
  table_ok ps n →
  (∀ q, ps !! p = Some q → live (f q) →
    live q ∧ p_pid (f q) = p_pid q ∧ (1 ≤ p_priority q ≤ 3 → 1 ≤ p_priority (f q) ≤ 3)) →
  table_ok (alter f p ps) n.
Proof.
  intros Ht Hf. eapply table_change; [exact Ht|]. intros i q' Eq Hl.
  destruct (decide (p = i)) as [->|]; [|rewrite list_lookup_alter_ne in Eq by done; eauto].
  rewrite list_lookup_alter_eq in Eq. destruct (ps !! i) as [q|] eqn:E; [|done].
  injection Eq as <-. exists q. naive_solver.
Qed.

Lemma table_map ps n f :
  table_ok ps n →
  (∀ q, live (f q) →
    live q ∧ p_pid (f q) = p_pid q ∧ (1 ≤ p_priority q ≤ 3 → 1 ≤ p_priority (f q) ≤ 3)) →
  table_ok (map f ps) n.
Proof.
  intros Ht Hf. eapply table_change; [exact Ht|]. intros i q' Eq Hl.
  apply list_lookup_fmap_Some in Eq as (q & -> & E). exists q. naive_solver.
Qed.

Lemma table_embryo ps n p q :
  table_ok ps n → n + 1 < 2 ^ 31 → ps !! p = Some q → ¬ live q →
  table_ok (alter (embryo n) p ps) (n + 1).
Proof.
  intros [Hn Hpid Hprio Hu] Hlt Eq Hq.
  assert (∀ i q', alter (embryo n) p ps !! i = Some q' → live q' →
    (i = p ∧ p_pid q' = n ∧ p_priority q' = 2) ∨ (i ≠ p ∧ ps !! i = Some q')) as H.
  { intros i q' E _. destruct (decide (p = i)) as [->|].
    - rewrite list_lookup_alter_eq, Eq in E. injection E as <-. by left.
    - rewrite list_lookup_alter_ne in E by done. right. by split. }
  split; [lia|..].
  - intros i q' E Hl. destruct (H i q' E Hl) as [(_ & -> & _)|[_ E']]; [lia|].
    specialize (Hpid i q' E' Hl). lia.
  - intros i q' E Hl. destruct (H i q' E Hl) as [(_ & _ & ->)|[_ E']]; [lia|eauto].
  - intros i j qi qj Ei Ej Hi Hj E.
    destruct (H i qi Ei Hi) as [(-> & Ep & _)|[_ Ei']], (H j qj Ej Hj) as [(-> & Ep' & _)|[_ Ej']].
    + done.
    + specialize (Hpid j qj Ej' Hj). lia.
    + specialize (Hpid i qi Ei' Hi). lia.
    + eauto.
Qed.

(** ** A process *)

Lemma running_oncpu k i c : oncpu k i c → running k = c_proc c.
Proof.
  intros Hc. unfold running, cpu_ids.
  assert (list_find (λ x, x.1 = k_lapicid k) ((λ c, (c_apicid c, c_proc c)) <$> k_cpus k) =
    Some (i, (c_apicid c, c_proc c))) as ->; [|done].
  apply list_find_Some in Hc as (Hl & Hid & Hmin). apply list_find_Some. split_and!.
  - by rewrite list_lookup_fmap, Hl.
  - done.
  - intros j y Hj Hlt. apply list_lookup_fmap_Some in Hj as (c' & -> & Hj). eauto.
Qed.

(** [myproc] finds the process that runs. *)
Lemma myproc_running e k :
  wpo (λ o e' k', e' = e ∧ pview k' = pview k ∧ o = running k)
      (λ s k', s ≠ SBlocked) (myproc e k).
Proof.
  unfold myproc. apply wpo_bind. eapply wpo_mono; [apply (steady_pushcli false pview)|..].
  2:{ intros [] k' [? _]; done. }
  intros _ e1 k1 [-> E1]. cbn beta.
  assert ((∃ i c, oncpu k1 i c ∧ k_if k1 = false) ∨
    ∀ f e, ∃ msg, mycpu_get (A := option nat) f e k1 = Panic msg k1) as [(i & c & Hc & Hi)|Hp].
  { unfold mycpu_get, mycpu, oncpu. destruct (k_if k1) eqn:Hi.
    - right. intros f e'. rewrite bind_assoc. msteps. rewrite Hi. by eexists.
    - destruct (list_find _ (k_cpus k1)) as [[i c]|] eqn:Hc; [left; eauto|].
      right. intros f e'. rewrite bind_assoc. msteps. rewrite Hi, Hc. by eexists. }
  2:{ destruct (Hp c_proc e) as [msg E]. by rewrite bind_eq, E. }
  mgo (by eapply mycpu_get_ok). apply wpo_bind.
  eapply wpo_mono; [apply (steady_popcli false pview)|..].
  - intros _ e2 k2 [-> E2]. cbn. split_and!; [done|congruence|].
    rewrite <- (running_view _ _ E1). symmetry. by eapply running_oncpu.
  - intros [] k' [? _]; done.
Qed.

Section process.
Context (p : nat).
Abbreviation hoare_p := (hoare ptable_ok (in_process p)).
Abbreviation keeps m := (hoare_p (in_process p) m (λ _, in_process p)).

(** Between the change of state and the switch the process is no longer
    RUNNING, but still current. *)
Definition leaving (k : kernel) : Prop := ptable_ok k ∧ running k = Some p.

Lemma leaving_view k k' : pview k' = pview k → leaving k → leaving k'.
Proof.
  intros E [Hp Hr]. split; [by eapply ptable_view|]. by rewrite (running_view _ _ E).
Qed.

Lemma keeps_still {A} (m : KM A) : still m → keeps m.
Proof.
  intros Hm. apply hoare_still; [done|apply in_process_view|by intros k [? _]].
Qed.

Lemma hoare_myproc (P : kernel → Prop) :
  (∀ k k', pview k' = pview k → P k → P k') →
  hoare_p P myproc (λ o k, P k ∧ o = running k).
Proof.
  intros HP e k He Hk. eapply wpo_mono; [apply myproc_running|..]; [|by intros s k' ?].
  intros o e' k' (-> & E & ->). split; [done|]. split; [by eapply HP|].
  by rewrite (running_view _ _ E).
Qed.

Lemma keeps_myproc : hoare_p (in_process p) myproc (λ o k, in_process p k ∧ o = Some p).
Proof.
  eapply hoare_conseq; [apply hoare_myproc, in_process_view|done|].
  cbn. intros o k [Hk ->]. split; [done|]. by destruct Hk as (_ & -> & _).
Qed.

(** Updates of one slot. *)
Lemma ptable_upd k p' f :
  ptable_ok k →
  (∀ q, k_proc k !! p' = Some q → live (f q) →
    live q ∧ p_pid (f q) = p_pid q ∧ (1 ≤ p_priority q ≤ 3 → 1 ≤ p_priority (f q) ≤ 3)) →
  ptable_ok (k <| k_proc ::= alter f p' |>).
Proof. intros Hk Hf. unfold ptable_ok. rsimpl. by apply table_alter. Qed.

(** An update that keeps the state, the identifier and the range of the
    priority. *)
Definition mild (f : proc → proc) : Prop :=
  ∀ q, p_state (f q) = p_state q ∧ p_pid (f q) = p_pid q ∧
    (1 ≤ p_priority q ≤ 3 → 1 ≤ p_priority (f q) ≤ 3).

Lemma mild_live f q : mild f → live (f q) → live q.
Proof. intros Hf. unfold live. by destruct (Hf q) as (-> & _). Qed.

Lemma in_process_mild k p' f : mild f → in_process p k → in_process p (k <| k_proc ::= alter f p' |>).
Proof.
  intros Hf (Hp & Hr & q & Eq & Hs). split; [|split; [done|]].
  - apply ptable_upd; [done|]. intros q' _ Hl. destruct (Hf q') as (_ & ? & ?).
    split_and!; [by eapply mild_live|done|done].
  - rsimpl. destruct (decide (p' = p)) as [->|].
    + rewrite list_lookup_alter_eq, Eq. exists (f q). split; [done|].
      by destruct (Hf q) as (-> & _).
    + rewrite list_lookup_alter_ne by done. eauto.
Qed.

Lemma keeps_mild p' f : mild f → keeps (proc_upd p' f).
Proof. intros Hf. apply hoare_modify. intros k. by apply in_process_mild. Qed.

Lemma tame_mild f : tame f → mild f.
Proof. intros H q. destruct (H q) as (-> & -> & -> & _). done. Qed.

(** Waking others. *)
Lemma wake_state chan q : p_state q = RUNNING → wake chan q = q.
Proof. intros H. unfold wake. by rewrite H. Qed.

Lemma in_process_wake chan k :
  in_process p k → in_process p (k <| k_proc ::= map (wake chan) |>).
Proof.
  intros (Hp & Hr & q & Eq & Hs). split; [|split; [done|]].
  - unfold ptable_ok. rsimpl. apply table_map; [done|]. intros q' Hl. unfold wake in *.
    destruct (bool_decide (p_state q' = SLEEPING)) eqn:E; [|done].
    apply bool_decide_eq_true in E. destruct (bool_decide (p_chan q' = chan)); [|done].
    split_and!; [by unfold live; rewrite E|done|done].
  - rsimpl. exists q. split; [|done]. rewrite list_lookup_fmap, Eq. cbn. by rewrite wake_state.
Qed.

Lemma keeps_wakeup1 chan : keeps (wakeup1 chan).
Proof. apply hoare_modify. apply in_process_wake. Qed.

Lemma keeps_bind {A B} (m : KM A) (f : A → KM B) : keeps m → (∀ a, keeps (f a)) → keeps (m ≫= f).
Proof. intros Hm Hf. eapply hoare_bind; [exact Hm|]. intros a. apply Hf. Qed.

Lemma keeps_bind' {A B} (m : KM A) (f : A → KM B) Q :
  keeps m → (∀ a, hoare_p (in_process p) (f a) Q) → hoare_p (in_process p) (m ≫= f) Q.
Proof. intros Hm Hf. eapply hoare_bind; [exact Hm|]. intros a. apply Hf. Qed.

Lemma keeps_wakeup chan : keeps (wakeup chan).
Proof.
  unfold wakeup. apply keeps_bind; [apply keeps_still; solve_still|]. intros ?.
  apply keeps_bind; [apply keeps_wakeup1|]. intros ?. apply keeps_still. solve_still.
Qed.

(** Giving the CPU away. *)
Lemma hoare_leaving {A} (m : KM A) : still m → hoare_p leaving m (λ _, leaving).
Proof. intros Hm. apply hoare_still; [done|apply leaving_view|by intros k [? _]]. Qed.

Lemma hoare_sched : hoare_p leaving sched (λ _, in_process p).
Proof.
  unfold sched.
  assert (∀ A B (m : KM A) (f : A → KM B), still m →
    (∀ a, hoare_p leaving (f a) (λ _, in_process p)) →
    hoare_p leaving (m ≫= f) (λ _, in_process p)) as Hstep.
  { intros A B m f Hm Hf. eapply hoare_bind; [by apply hoare_leaving|]. intros a. apply Hf. }
  apply Hstep; [solve_still|]. intros o. apply Hstep; [solve_still|]. intros [];
    [|apply hoare_panic]. cbn [negb].
  apply Hstep; [solve_still|]. intros n. destruct (negb _); [apply hoare_panic|].
  apply Hstep; [solve_still|]. intros p'. apply Hstep; [solve_still|]. intros st.
  destruct (bool_decide _); [apply hoare_panic|].
  apply Hstep; [solve_still|]. intros []; [apply hoare_panic|].
  apply Hstep; [solve_still|]. intros intena.
  eapply hoare_bind; [by apply hoare_switch; intros k [? _]|]. intros ?.
  apply keeps_still. solve_still.
Qed.

(** The process leaves RUNNING for another live state. *)
Lemma hoare_leave st :
  st ≠ UNUSED →
  hoare_p (in_process p) (proc_upd p (λ q, q <| p_state := st |>)) (λ _, leaving).
Proof.
  intros Hst. apply hoare_modify. intros k (Hp & Hr & q & Eq & Hs). split; [|done].
  apply ptable_upd; [done|]. intros q' Eq' _. rewrite Eq in Eq'. injection Eq' as <-.
  split; [unfold live; by rewrite Hs|done].
Qed.

Lemma keeps_sleep chan lk : keeps (sleep chan lk).
Proof.
  unfold sleep. eapply hoare_bind; [apply keeps_myproc|]. intros o.
  apply hoare_pre with (P := λ k, in_process p k ∧ o = Some p); [|done].
  destruct (decide (o = Some p)) as [->|]; [|by intros e k ? [_ ?]].
  apply (hoare_pre _ _ (in_process p)); [|by intros k [? _]].
  apply keeps_bind; [apply keeps_still; solve_still|]. intros ?.
  apply keeps_bind; [apply keeps_mild; by intros q|]. intros ?.
  eapply hoare_bind; [by apply hoare_leave|]. intros ?.
  eapply hoare_bind; [apply hoare_sched|]. intros ?.
  apply keeps_bind; [apply keeps_mild; by intros q|]. intros ?. apply keeps_still. solve_still.
Qed.

#[export] Instance process_guard : Guard ptable_ok (in_process p) (in_process p).
Proof.
  split.
  - apply in_process_view.
  - by intros k [? _].
  - apply keeps_sleep.
  - apply keeps_wakeup.
  - intros p' f Hf. by apply keeps_mild, tame_mild.
Qed.

Lemma keeps_calm {A} (m : KM A) : calm m → keeps m.
Proof. intros Hm. apply Hm, process_guard. Qed.

Lemma keeps_when b m : keeps m → keeps (when b m).
Proof. destruct b; [done|]. intros ?. by apply hoare_ret. Qed.

Lemma keeps_mrepeat {A} (body : KM (unit + A)) : keeps body → keeps (mrepeat body).
Proof.
  intros Hb. apply hoare_mrepeat. eapply hoare_conseq; [exact Hb|done|]. by intros [].
Qed.

(** The slot that [proc_get] looks at. *)
Lemma hoare_proc_get {A} (P : kernel → Prop) p' (f : proc → A) :
  hoare_p P (proc_get p' f) (λ a k, P k ∧ ∃ q, k_proc k !! p' = Some q ∧ a = f q).
Proof.
  intros e k He Hk. unfold proc_get. msteps.
  destruct (k_proc k !! p') as [q|] eqn:E; rewrite bind_eq; cbn; [|done]. eauto.
Qed.
End process.

(** [solve_keeps] walks through a program of process [p]. *)
Ltac solve_keeps :=
  repeat first
    [ progress intros
    | assumption
    | match goal with
      | |- hoare _ _ _ (mbind _ _) _ => apply keeps_bind
      | |- hoare _ _ _ (when _ _) _ => apply keeps_when
      | |- hoare _ _ _ (mrepeat _) _ => apply keeps_mrepeat
      | |- hoare _ _ _ (match ?x with _ => _ end) _ => destruct x
      | |- hoare _ _ _ (wakeup1 _) _ => apply keeps_wakeup1
      | |- hoare _ _ _ (mpanic _) _ => apply hoare_panic
      | |- hoare _ _ _ mfault _ => apply hoare_fault
      end
    | solve [apply keeps_calm; solve_calm]
    | solve [apply keeps_mild; by intros ?] ].

(** ** The operations of proc.c *)

Section operations.
Context (p : nat).
Abbreviation hoare_p := (hoare ptable_ok (in_process p)).
Abbreviation keeps m := (hoare_p (in_process p) m (λ _, in_process p)).

(** A slot in a state other than RUNNING is not that of the process. *)
Lemma in_process_set k p' q f :
  in_process p k → k_proc k !! p' = Some q → p_state q ≠ RUNNING →
  (live (f q) → live q ∧ p_pid (f q) = p_pid q ∧
    (1 ≤ p_priority q ≤ 3 → 1 ≤ p_priority (f q) ≤ 3)) →
  in_process p (k <| k_proc ::= alter f p' |>).
Proof.
  intros (Hp & Hr & qp & Ep & Hs) Eq Hq Hf. split; [|split; [done|]].
  - apply ptable_upd; [done|]. intros q' Eq'. rewrite Eq in Eq'. injection Eq' as <-. done.
  - rsimpl. rewrite list_lookup_alter_ne by congruence. eauto.
Qed.

Lemma keeps_yield : keeps yield.
Proof.
  unfold yield. apply keeps_bind; [apply keeps_calm; solve_calm|]. intros ?.
  eapply hoare_bind; [apply keeps_myproc|]. intros o.
  eapply hoare_bind; [apply hoare_deref|]. intros p'.
  destruct (decide (p' = p)) as [->|]; [|intros e k ? [[_ ?] ?]; congruence].
  apply (hoare_pre _ _ (in_process p)); [|by intros k [[? _] _]].
  eapply hoare_bind; [by apply hoare_leave|]. intros ?.
  eapply hoare_bind; [apply hoare_sched|]. intros ?. apply keeps_calm. solve_calm.
Qed.

Lemma keeps_kill pid : keeps (kill pid).
Proof.
  unfold kill. apply keeps_bind; [solve_keeps|]. intros ?. apply keeps_bind; [solve_keeps|].
  intros ps. destruct (find_proc _ ps) as [p'|]; [|solve_keeps].
  apply keeps_bind; [solve_keeps|]. intros ?.
  eapply hoare_bind; [apply hoare_proc_get|]. intros st. cbn beta.
  eapply (hoare_bind _ _ _ _ _ (λ _, in_process p)); [|solve_keeps].
  destruct (bool_decide (st = SLEEPING)) eqn:E; [|by apply hoare_ret; intros k [? _]].
  apply bool_decide_eq_true in E. apply hoare_modify. intros k (Hk & q & Eq & ->).
  eapply in_process_set; [done|exact Eq|congruence|]. intros _.
  split; [unfold live; congruence|done].
Qed.

Lemma keeps_change_prio prio : 1 ≤ prio ≤ 3 → keeps (change_prio prio).
Proof.
  intros Hp. unfold change_prio. apply keeps_bind; [solve_keeps|]. intros o.
  do 4 (apply keeps_bind; [solve_keeps|]; intros ?). destruct (find_proc _ _); [|solve_keeps].
  apply keeps_bind; [by apply keeps_mild|]. solve_keeps.
Qed.

Lemma keeps_growproc n : keeps (growproc n).
Proof. unfold growproc. solve_keeps. Qed.

(** *** Creation

    The process prepares the slot [np] of a child. *)

Definition with_child (np : nat) (k : kernel) : Prop :=
  in_process p k ∧ ∃ q, k_proc k !! np = Some q ∧ p_state q = EMBRYO.

Lemma with_child_view np k k' : pview k' = pview k → with_child np k → with_child np k'.
Proof.
  intros E [Hk (q & Eq & Hs)]. split; [by eapply in_process_view|].
  injection E as _ _ Ep _. rewrite Ep. eauto.
Qed.

Lemma child_still {A} np (m : KM A) : still m → hoare_p (with_child np) m (λ _, with_child np).
Proof.
  intros Hm. apply hoare_still; [done|apply with_child_view|by intros k [[? _] _]].
Qed.

Lemma child_bind {A B} np (m : KM A) (f : A → KM B) Q :
  hoare_p (with_child np) m (λ _, with_child np) → (∀ a, hoare_p (with_child np) (f a) Q) →
  hoare_p (with_child np) (m ≫= f) Q.
Proof. intros Hm Hf. eapply hoare_bind; [exact Hm|]. intros a. apply Hf. Qed.

Lemma child_mild np p' f : mild f → hoare_p (with_child np) (proc_upd p' f) (λ _, with_child np).
Proof.
  intros Hf. apply hoare_modify. intros k [Hk (q & Eq & Hs)].
  split; [by apply in_process_mild|]. rsimpl. destruct (decide (p' = np)) as [->|].
  - rewrite list_lookup_alter_eq, Eq. exists (f q). split; [done|]. by destruct (Hf q) as (-> & _).
  - rewrite list_lookup_alter_ne by done. eauto.
Qed.

(** The slot becomes RUNNABLE, or free again. *)
Lemma child_set np st :
  hoare_p (with_child np) (proc_upd np (λ q, q <| p_state := st |>)) (λ _, in_process p).
Proof.
  apply hoare_modify. intros k [Hk (q & Eq & Hs)].
  eapply in_process_set; [done|exact Eq|congruence|]. intros _.
  split; [unfold live; congruence|done].
Qed.

Lemma child_pid np :
  hoare_p (with_child np) (proc_get np p_pid) (λ pid k, with_child np k ∧ 1 ≤ pid).
Proof.
  eapply hoare_conseq; [apply hoare_proc_get|done|]. intros pid k (Hk & q & Eq & ->).
  split; [done|]. destruct Hk as [(Hp & _) (q' & Eq' & Hs)]. rewrite Eq in Eq'.
  injection Eq' as <-. destruct Hp as [_ Hpid _ _]. apply (Hpid np q Eq). unfold live. congruence.
Qed.

Ltac solve_child :=
  repeat first
    [ progress intros
    | match goal with
      | |- hoare _ _ _ (mbind _ _) _ => apply child_bind
      | |- hoare _ _ _ (match ?x with _ => _ end) _ => destruct x
      | |- hoare _ _ _ (mpanic _) _ => apply hoare_panic
      end
    | solve [apply child_still; solve_still]
    | solve [apply child_mild; by intros ?] ].

Lemma find_unused ps np :
  find_proc (λ q, bool_decide (p_state q = UNUSED)) ps = Some np →
  ∃ q, ps !! np = Some q ∧ p_state q = UNUSED.
Proof. intros (q & Eq & H & _)%find_proc_Some. apply bool_decide_eq_true in H. eauto. Qed.

(** What [allocproc] does to the table while it holds the lock. *)
Lemma in_process_embryo k np q :
  in_process p k → k_proc k !! np = Some q → p_state q = UNUSED → k_nextpid k + 1 < 2 ^ 31 →
  with_child np (k <| k_nextpid := k_nextpid k + 1 |>
                   <| k_proc ::= alter (embryo (k_nextpid k)) np |>).
Proof.
  intros (Hp & Hr & qp & Ep & Hs) Eq Hq Hlt. split; [split; [|split; [done|]]|].
  - unfold ptable_ok. rsimpl. eapply table_embryo; [done|done|done|]. unfold live. auto.
  - rsimpl. rewrite list_lookup_alter_ne by congruence. eauto.
  - rsimpl. rewrite list_lookup_alter_eq, Eq. by eexists.
Qed.

Section entries.
Context `{Entries}.

Lemma hoare_allocproc :
  hoare_p (in_process p) allocproc
    (λ o, match o with Some np => with_child np | None => in_process p end).
Proof.
  unfold allocproc. apply keeps_bind'; [solve_keeps|]. intros ?.
  eapply hoare_bind; [apply hoare_gets|]. intros ps. cbn beta.
  destruct (find_proc _ ps) as [np|] eqn:Ef.
  2:{ apply (hoare_pre _ _ (in_process p)); [|by intros k [? _]].
      apply keeps_bind'; [solve_keeps|]. intros ?. by apply hoare_ret. }
  apply find_unused in Ef as (q & Eq & Hq).
  eapply hoare_bind; [apply hoare_gets|]. intros pid. cbn beta.
  rewrite Z.geb_leb. destruct (Z.leb_spec (2 ^ 31) (pid + 1)); [apply hoare_fault|].
  eapply (hoare_bind _ _ _ _ _ (λ _ k, ∃ k0, in_process p k0 ∧ k_proc k0 !! np = Some q ∧
    k_nextpid k0 = pid ∧ k = k0 <| k_nextpid := pid + 1 |>)).
  { apply hoare_modify. intros k [[Hk ->] ->]. by exists k. }
  intros ?. eapply hoare_bind.
  { apply hoare_modify with (Q := λ _, with_child np). intros ? (k0 & Hk & Ek & <- & ->).
    by eapply in_process_embryo. }
  intros ?. do 3 (apply child_bind; [solve_child|]; intros ?). destruct (_ =? 0).
  - eapply hoare_bind; [apply child_set|]. intros ?. by apply hoare_ret.
  - do 5 (apply child_bind; [solve_child|]; intros ?). by apply hoare_ret.
Qed.

(** *** [fork] and [set_prio] *)

Lemma still_idup ip : still (idup ip).
Proof. unfold idup. solve_still. Qed.
Lemma still_filedup f : still (filedup f).
Proof. unfold filedup. solve_still. Qed.
#[local] Hint Resolve still_idup still_filedup : still.

Lemma child_dup_files np files i :
  hoare_p (with_child np) (dup_files np files i) (λ _, with_child np).
Proof.
  revert i. induction files as [|f files IH]; intros i; cbn [dup_files]; [by apply hoare_ret|].
  apply child_bind; [|intros ?; apply IH]. destruct f; solve_child.
Qed.

Lemma keeps_fork_with prio : (∀ pid, 1 ≤ pid → 1 ≤ prio pid ≤ 3) → keeps (fork_with prio).
Proof.
  intros Hprio. unfold fork_with. eapply hoare_bind; [apply keeps_calm; solve_calm|]. intros o.
  eapply hoare_bind; [apply hoare_allocproc|]. intros [np|]; [|by apply hoare_ret].
  do 4 (apply child_bind; [solve_child|]; intros ?). destruct (_ =? 0).
  - do 3 (apply child_bind; [solve_child|]; intros ?).
    eapply hoare_bind; [apply child_set|]. intros ?. by apply hoare_ret.
  - do 8 (apply child_bind; [solve_child|]; intros ?).
    apply child_bind; [apply child_dup_files|]. intros ?.
    do 6 (apply child_bind; [solve_child|]; intros ?).
    eapply hoare_bind; [apply child_pid|]. intros pid.
    destruct (decide (1 ≤ pid)); [|by intros e k ? [_ ?]].
    apply (hoare_pre _ _ (with_child np)); [|by intros k [? _]].
    apply child_bind; [solve_child|]. intros ?.
    eapply hoare_bind; [apply child_set|]. intros ?.
    apply keeps_bind; [apply keeps_mild; intros q; split_and!; [done|done|]; by rsimpl; auto|].
    solve_keeps.
Qed.

Lemma keeps_fork : keeps fork.
Proof. apply keeps_fork_with. intros. lia. Qed.

Lemma keeps_set_prio : keeps set_prio.
Proof.
  apply keeps_fork_with. intros pid Hpid. pose proof (Z.rem_bound_pos pid 3). lia.
Qed.
End entries.

(** *** The end of a process *)

(** The process looks at the dead child [p']. *)
Definition with_zombie (p' : nat) (k : kernel) : Prop :=
  in_process p k ∧ ∃ q, k_proc k !! p' = Some q ∧ p_state q = ZOMBIE.

Lemma with_zombie_view p' k k' : pview k' = pview k → with_zombie p' k → with_zombie p' k'.
Proof.
  intros E [Hk (q & Eq & Hs)]. split; [by eapply in_process_view|].
  injection E as _ _ Ep _. rewrite Ep. eauto.
Qed.

Lemma zombie_bind {A B} p' (m : KM A) (f : A → KM B) Q :
  still m → (∀ a, hoare_p (with_zombie p') (f a) Q) → hoare_p (with_zombie p') (m ≫= f) Q.
Proof.
  intros Hm Hf. eapply hoare_bind; [|intros a; apply Hf].
  apply hoare_still; [done|apply with_zombie_view|by intros k [[? _] _]].
Qed.

Lemma hoare_reap p' : hoare_p (with_zombie p') (reap p') (λ _, in_process p).
Proof.
  unfold reap. do 3 (apply zombie_bind; [solve_still|]; intros ?).
  eapply (hoare_bind _ _ _ _ _ (λ _, with_zombie p')).
  { apply hoare_modify. intros k [Hk (q & Eq & Hs)].
    split; [by apply in_process_mild; [intros ?|]|]. rsimpl.
    rewrite list_lookup_alter_eq, Eq. by eexists. }
  intros ?. do 2 (apply zombie_bind; [solve_still|]; intros ?).
  eapply (hoare_bind _ _ _ _ _ (λ _, in_process p)); [|solve_keeps].
  apply hoare_modify. intros k [Hk (q & Eq & Hs)].
  eapply in_process_set; [done|exact Eq|congruence|]. by intros [].
Qed.

Lemma find_dead_child cur ps p' :
  find_proc (is_dead_child cur) ps = Some p' → ∃ q, ps !! p' = Some q ∧ p_state q = ZOMBIE.
Proof.
  intros (q & Eq & H & _)%find_proc_Some. unfold is_dead_child in H.
  apply andb_true_iff in H as [_ H]. apply bool_decide_eq_true in H. eauto.
Qed.

Lemma keeps_wait_loop cur finish : (∀ p', keeps (finish p')) → keeps (wait_loop cur finish).
Proof.
  intros Hf. unfold wait_loop. apply keeps_bind; [solve_keeps|]. intros ?.
  apply keeps_mrepeat. eapply hoare_bind; [apply hoare_gets|]. intros ps. cbn beta.
  destruct (find_proc _ ps) as [p'|] eqn:Ef.
  - apply (hoare_pre _ _ (with_zombie p')).
    2:{ intros k [Hk ->]. split; [done|]. by eapply find_dead_child. }
    eapply hoare_bind; [apply hoare_reap|]. intros pid.
    apply keeps_bind; [apply Hf|]. solve_keeps.
  - apply (hoare_pre _ _ (in_process p)); [solve_keeps|by intros k [? _]].
Qed.

Lemma keeps_wait : keeps wait.
Proof. unfold wait. solve_keeps. apply keeps_wait_loop. solve_keeps. Qed.
Lemma keeps_wait2 a b c : keeps (wait2 a b c).
Proof.
  unfold wait2. solve_keeps. apply keeps_wait_loop. solve_keeps.
Qed.
Lemma keeps_wait3 a : keeps (wait3 a).
Proof.
  unfold wait3. solve_keeps. apply keeps_wait_loop. solve_keeps.
Qed.

Section disk.
Context `{CalmDisk}.

Lemma keeps_close_files cur fds : keeps (close_files cur fds).
Proof. induction fds; cbn [close_files]; solve_keeps. Qed.

Lemma keeps_abandon cur ps : keeps (abandon cur ps).
Proof. induction ps; cbn [abandon]; solve_keeps. Qed.

Lemma keeps_exit : keeps exit.
Proof.
  unfold exit. eapply hoare_bind; [apply keeps_myproc|]. intros o.
  destruct (decide (o = Some p)) as [->|]; [|by intros e k ? [_ ?]].
  apply (hoare_pre _ _ (in_process p)); [|by intros k [? _]].
  apply keeps_bind; [solve_keeps|]. intros init. destruct (bool_decide _); [apply hoare_panic|].
  eapply hoare_bind; [apply hoare_deref|]. intros cur. cbn beta.
  destruct (decide (cur = p)) as [->|]; [|intros e k ? [_ ?]; congruence].
  apply (hoare_pre _ _ (in_process p)); [|by intros k [? _]].
  apply keeps_bind; [apply keeps_close_files|]. intros ?.
  do 9 (apply keeps_bind; [solve_keeps|]; intros ?).
  apply keeps_bind; [apply keeps_abandon|]. intros ?.
  eapply hoare_bind; [by apply hoare_leave|]. intros ?.
  eapply hoare_bind; [apply hoare_sched|]. intros ?. apply hoare_panic.
Qed.
End disk.
End operations.

(** ** System calls and traps *)

Class CalmDevices `{Devices} : Prop := calm_ideintr : calm ideintr.
#[export] Instance plain_calm : @CalmDevices plain_devices.
Proof. unfold CalmDevices. cbn. solve_calm. Qed.

Section kernel.
Context `{CalmDisk} `{CalmDevsw} `{Entries} `{CalmDevices} (p : nat).
Abbreviation hoare_p := (hoare ptable_ok (in_process p)).
Abbreviation keeps m := (hoare_p (in_process p) m (λ _, in_process p)).

Lemma keeps_sys_change_prio : keeps sys_change_prio.
Proof.
  unfold sys_change_prio. apply keeps_bind; [solve_keeps|]. intros [prio|]; [|solve_keeps].
  destruct (Z.eqb_spec prio 1); [|destruct (Z.eqb_spec prio 2); [|destruct (Z.eqb_spec prio 3)]];
    cbn [negb andb]; [apply keeps_change_prio; lia..|solve_keeps].
Qed.

Lemma keeps_sysproc :
  Forall (λ m, keeps m) [sys_fork; sys_exit; sys_wait; sys_kill; sys_getpid; sys_sbrk; sys_sleep;
    sys_uptime; sys_change_prio; sys_wait2; sys_yield2; sys_set_prio; sys_wait3].
Proof.
  repeat constructor.
  - apply keeps_fork.
  - apply keeps_bind; [by apply keeps_exit|solve_keeps].
  - apply keeps_wait.
  - unfold sys_kill. apply keeps_bind; [solve_keeps|]. intros [pid|]; [apply keeps_kill|solve_keeps].
  - unfold sys_getpid. solve_keeps.
  - unfold sys_sbrk. apply keeps_bind; [solve_keeps|]. intros [n|]; [|solve_keeps].
    do 2 (apply keeps_bind; [solve_keeps|]; intros ?).
    apply keeps_bind; [apply keeps_growproc|solve_keeps].
  - unfold sys_sleep, sleep_ticks. solve_keeps.
  - unfold sys_uptime. solve_keeps.
  - apply keeps_sys_change_prio.
  - unfold sys_wait2. do 3 (apply keeps_bind; [solve_keeps|]; intros [?|]; [|solve_keeps]).
    apply keeps_wait2.
  - apply keeps_bind; [apply keeps_yield|solve_keeps].
  - apply keeps_set_prio.
  - unfold sys_wait3. apply keeps_bind; [solve_keeps|]. intros [?|]; [apply keeps_wait3|solve_keeps].
Qed.

Lemma keeps_sysfile :
  Forall (λ m, keeps m) [sys_read; sys_write; sys_close; sys_fstat; sys_link; sys_unlink; sys_open;
    sys_mkdir; sys_mknod; sys_chdir; sys_exec; sys_pipe].
Proof. eapply Forall_impl; [apply calm_sysfile|]. intros m. apply keeps_calm. Qed.

Lemma keeps_syscalls num call : syscalls num = Some call → keeps call.
Proof.
  pose proof keeps_sysproc as Hp. pose proof keeps_sysfile as Hf.
  repeat (apply Forall_cons in Hp as [? Hp]). repeat (apply Forall_cons in Hf as [? Hf]).
  assert (keeps sys_dup) by solve_keeps. unfold syscalls.
  repeat (destruct (_ =? _); [intros [= <-]; assumption|]). done.
Qed.

Lemma calm_trap_switch trapno cs eip err : calm (trap_switch trapno cs eip err).
Proof.
  unfold trap_switch, timer, cpuid. pose proof calm_ideintr. solve_calm.
Qed.

Lemma keeps_my_test f : keeps (my_test f).
Proof. unfold my_test. solve_keeps. Qed.

Lemma keeps_preempt trapno : keeps (preempt trapno).
Proof.
  unfold preempt. apply keeps_bind; [apply keeps_my_test|]. intros r. destruct (_ && _); [|solve_keeps].
  do 2 (apply keeps_bind; [solve_keeps|]; intros ?).
  destruct (negb _); [solve_keeps|apply keeps_yield].
Qed.

Lemma keeps_syscall : keeps syscall.
Proof.
  unfold syscall. do 2 (apply keeps_bind; [solve_keeps|]; intros ?).
  destruct (syscalls _) as [call|] eqn:E; [|solve_keeps].
  apply keeps_bind; [by eapply keeps_syscalls|solve_keeps].
Qed.

Lemma keeps_when_exit b : keeps (when b exit).
Proof. apply keeps_when. by apply keeps_exit. Qed.

Lemma keeps_trap tf : keeps (trap tf).
Proof.
  unfold trap. apply keeps_bind; [solve_keeps|]. intros k. destruct (_ =? _).
  - do 2 (apply keeps_bind; [solve_keeps|]; intros ?).
    apply keeps_bind; [apply keeps_when_exit|]. intros ?.
    do 2 (apply keeps_bind; [solve_keeps|]; intros ?).
    apply keeps_bind; [apply keeps_syscall|]. intros ?.
    do 2 (apply keeps_bind; [solve_keeps|]; intros ?). apply keeps_when_exit.
  - apply keeps_bind; [apply keeps_calm, calm_trap_switch|]. intros ?.
    apply keeps_bind; [apply keeps_my_test|]. intros ?.
    apply keeps_bind; [apply keeps_when_exit|]. intros ?.
    apply keeps_bind; [apply keeps_preempt|]. intros ?.
    apply keeps_bind; [apply keeps_my_test|]. intros ?. apply keeps_when_exit.
Qed.
End kernel.

(** ** The scheduler

    On CPU [c] the scheduler gives the CPU away with some process in charge
    of it, and gets it back with a correct table. *)

Definition handing (k : kernel) : Prop := ∃ p, in_process p k.
Definition in_scheduler (c : nat) (k : kernel) : Prop := ptable_ok k ∧ this_cpu k = Some c.

Lemma in_scheduler_view c k k' : pview k' = pview k → in_scheduler c k → in_scheduler c k'.
Proof.
  intros E [Hp Hc]. split; [by eapply ptable_view|]. injection E as El Ei _ _.
  unfold this_cpu in *. by rewrite El, Ei.
Qed.

(** The executing CPU gets another process. *)
Lemma list_find_alter_proc (ids : list (Z * option nat)) lap c o x :
  list_find (λ x, x.1 = lap) ids = Some (c, x) →
  list_find (λ x, x.1 = lap) (alter (λ x, (x.1, o)) c ids) = Some (c, (x.1, o)).
Proof.
  intros (Hl & Hid & Hmin)%list_find_Some. apply list_find_Some. split_and!.
  - by rewrite list_lookup_alter_eq, Hl.
  - done.
  - intros j y Hj Hlt. rewrite list_lookup_alter_ne in Hj by lia. eauto.
Qed.

Definition set_running (c : nat) (o : option nat) (k : kernel) : kernel :=
  k <| k_cpus ::= alter (λ c, c <| c_proc := o |>) c |>.

Lemma set_running_ids c o k :
  cpu_ids (k_cpus (set_running c o k)) = alter (λ x, (x.1, o)) c (cpu_ids (k_cpus k)).
Proof.
  unfold set_running, cpu_ids. rsimpl. apply list_eq. intros j.
  destruct (decide (c = j)) as [->|]; rewrite ?list_lookup_alter_eq, ?list_lookup_alter_ne,
    !list_lookup_fmap by done.
  - rewrite ?list_lookup_alter_eq, ?list_lookup_fmap. by destruct (k_cpus k !! j).
  - by rewrite list_lookup_alter_ne.
Qed.

Lemma set_running_ok c o k :
  in_scheduler c k → in_scheduler c (set_running c o k) ∧ running (set_running c o k) = o.
Proof.
  intros [Hp Hc]. unfold in_scheduler, this_cpu, running in *. rewrite set_running_ids.
  change (k_lapicid (set_running c o k)) with (k_lapicid k).
  destruct (list_find _ _) as [[c' x]|] eqn:E; [|done]. injection Hc as ->.
  by rewrite (list_find_alter_proc _ _ _ o _ E).
Qed.

Lemma account_mild pid : mild (account pid).
Proof.
  intros q. unfold account. cbv zeta.
  set (q2 := if negb _ then _ else _).
  assert (p_state q2 = p_state q ∧ p_pid q2 = p_pid q ∧ p_priority q2 = p_priority q)
    as (E1 & E2 & E3) by (unfold q2; by repeat case_match).
  destruct (_ && _); [|destruct (_ && _)]; split_and!; rsimpl; lia || congruence.
Qed.

Lemma highest_runnable ps f fq :
  ps !! f = Some fq → runnable fq = true →
  ∃ q, ps !! highest_priority_p ps f = Some q ∧ runnable q = true.
Proof.
  intros Ef Hr. destruct (highest_first ps f fq (length ps) Ef Hr) as [(q & Eq & Hq & _) _].
  by exists q.
Qed.

Section dispatching.
Context (c : nat).
Abbreviation hoare_s := (hoare handing (in_scheduler c)).

(** The scheduler, with a RUNNABLE process at hand. *)
Definition with_runnable (p : nat) (k : kernel) : Prop :=
  in_scheduler c k ∧ ∃ q, k_proc k !! p = Some q ∧ p_state q = RUNNABLE.

Lemma steady_in_scheduler {A} (m : KM A) :
  steady false pview m → hoare_s (in_scheduler c) m (λ _, in_scheduler c).
Proof.
  intros Hm e k He Hk. eapply wpo_mono; [apply Hm|..]; cbn.
  - intros a e' k' [-> E]. split; [done|]. by eapply in_scheduler_view.
  - by intros [] k' [? _].
Qed.

Lemma hoare_dispatch p : hoare_s (with_runnable p) (dispatch c p) (λ _, in_scheduler c).
Proof.
  unfold dispatch. eapply (hoare_bind _ _ _ _ _ (λ _ k, with_runnable p k ∧ running k = Some p)).
  { apply hoare_modify. intros k [Hk Hq]. change (_ <| k_cpus ::= _ |>) with (set_running c (Some p) k).
    destruct (set_running_ok c (Some p) k Hk) as [Hk' Hr]. by split. }
  intros ?. eapply (hoare_bind _ _ _ _ _ (λ _ k, with_runnable p k ∧ running k = Some p)).
  { intros e k He [[Hk Hq] Hr]. unfold switchuvm.
    eapply wpo_mono; [apply (λ H, H : steady false pview _); solve_steady|..]; cbn.
    - intros ? e' k' [-> E]. split; [done|]. split; [|by rewrite (running_view _ _ E)].
      split; [by eapply in_scheduler_view|]. injection E as _ _ Ep _. by rewrite Ep.
    - by intros [] k' [? _]. }
  intros ?. eapply (hoare_bind _ _ _ _ _ (λ _, in_process p)).
  { apply hoare_modify. intros k [[[Hp Hc] (q & Eq & Hs)] Hr]. split; [|split; [done|]].
    - apply ptable_upd; [done|]. intros q' Eq' _. rewrite Eq in Eq'. injection Eq' as <-.
      split; [unfold live; congruence|done].
    - rsimpl. rewrite list_lookup_alter_eq, Eq. by eexists. }
  intros ?. eapply hoare_bind; [apply hoare_switch; intros k Hk; by exists p|]. intros ?.
  eapply hoare_bind; [apply steady_in_scheduler; unfold switchkvm; solve_steady|]. intros ?.
  eapply (hoare_bind _ _ _ _ _ (λ _, in_scheduler c)).
  { apply hoare_modify. intros k Hk. by apply (set_running_ok c None k). }
  intros ?. eapply hoare_bind; [apply steady_in_scheduler; solve_steady|]. intros pid.
  apply hoare_modify. intros k [Hp Hc]. split; [|done]. unfold ptable_ok. rsimpl.
  apply table_map; [done|]. intros q Hl. destruct (account_mild pid q) as (_ & ? & ?).
  split_and!; [eapply mild_live; [apply account_mild|exact Hl]|done|done].
Qed.

Lemma hoare_scan fuel p : hoare_s (in_scheduler c) (scan fuel c p) (λ _, in_scheduler c).
Proof.
  revert p. induction fuel as [|fuel IH]; intros p; cbn [scan]; [by intros e k|].
  eapply hoare_bind; [apply (hoare_gets _ _ _ id)|]. intros k0. unfold id.
  destruct (k_proc k0 !! p) as [q|] eqn:Eq; [|by apply hoare_ret; intros k [? _]].
  destruct (runnable q) eqn:Er; cbn [negb].
  2:{ eapply hoare_pre; [apply IH|]. by intros k [? _]. }
  eapply hoare_bind; [|intros ?; apply IH].
  eapply hoare_pre; [apply hoare_dispatch|]. intros k [Hk ->]. split; [done|].
  destruct (highest_runnable (k_proc k) p q Eq Er) as (hq & Eh & Hr).
  exists hq. split; [done|]. by apply bool_decide_eq_true in Hr.
Qed.
End dispatching.

(** C4 Every trap keeps the process table correct.  Process [p] runs in the
    kernel; whatever trap it takes, be it any of the 26 system calls, a device
    interrupt, a fault or the end of its quantum, the live slots of [ptable]
    keep distinct positive identifiers below [nextpid] and priorities from 1
    to 3, at every point where the CPU is given away and at the end, where
    [p] is RUNNING and current.  The others are assumed to hand a correct
    table back, with [p] running. *)
Theorem trap_keeps_ptable `{CalmDisk} `{CalmDevsw} `{Entries} `{CalmDevices} p tf :
  hoare ptable_ok (in_process p) (in_process p) (trap tf) (λ _, in_process p).
Proof. apply keeps_trap. Qed.

(** The start of a turn of the scheduler: it holds no lock, and nobody else
    holds [ptable.lock]. *)
Definition idle (c : nat) (k : kernel) : Prop :=
  in_scheduler c k ∧ lock_free k LkPtable ∧ ∃ i cc, oncpu k i cc ∧ c_ncli cc = 0.

(** C5 The scheduler discharges the assumption of the processes: a turn on CPU
    [c] keeps the table correct, and switches only to a process that is
    RUNNING and current on its CPU; it assumes in turn that the CPU comes
    back with a correct table. *)
Theorem scheduler_keeps_ptable c fuel :
  hoare handing (in_scheduler c) (idle c) (scheduler_round fuel c) (λ _, in_scheduler c).
Proof.
  unfold scheduler_round. eapply (hoare_bind _ _ _ _ _ (λ _, idle c)).
  { by apply hoare_modify. }
  intros ?. eapply (hoare_bind _ _ _ _ _ (λ _, in_scheduler c)).
  { intros e k He (Hk & Hl & i & cc & Hc & Hn).
    pose proof (steady_acquire pview LkPtable e k) as H.
    rewrite (acquire_free e k i cc LkPtable Hc) in * by (done || split; lia).
    destruct H as [_ E]. split; [done|]. by eapply in_scheduler_view. }
  intros ?. eapply hoare_bind; [apply hoare_scan|]. intros ?.
  apply steady_in_scheduler. solve_steady.
Qed.

Lemma trap_keeps_ptable_witness :
  let k := k_tick <| k_nextpid := 2 |> in
  in_process 0 k ∧
  wpo (λ _ _, in_process 0) (λ s k', s = SBlocked → ptable_ok k')
    (@trap Memide.disk (@console_devsw Memide.disk) plain_entries plain_devices
       (KERNBASE + 0x7000) [] k).
Proof.
  intros k. assert (in_process 0 k) as Hk.
  { split; [|split; [reflexivity|by eexists]].
    assert (∀ i q, k_proc k !! i = Some q → i = 0%nat ∧ p_pid q = 1 ∧ p_priority q = 2) as H.
    { intros [|i] q; [|done]. by intros [= <-]. }
    split; [split; vm_compute; congruence|..].
    - intros i q (_ & -> & _)%H _. split; vm_compute; congruence.
    - intros i q (_ & _ & ->)%H _. lia.
    - by intros i j qi qj (-> & _)%H (-> & _)%H. }
  split; [exact Hk|].
  pose proof (@trap_keeps_ptable Memide.disk memide_calm (@console_devsw Memide.disk)
    (@console_calm Memide.disk memide_calm) plain_entries plain_devices plain_calm 0
    (KERNBASE + 0x7000) [] k (Forall_nil_2 _) Hk) as H.
  eapply wpo_mono; [exact H|intros ? ? ? [_ ?]; assumption|intros ? ?; exact id].
Defined.
