(* ===== verification/Dev.v ===== *)
(** * Devices (lapic.c, ioapic.c, picirq.c, uart.c, the ports of ide.c)

    Driver code that touches device registers and next to no kernel data.  It
    runs in the monad of the prelude on the events it has made so far: a read
    takes the environment's next move, which is the value the device delivers.
    A loop that polls takes a move each turn, so that it needs no more turns
    than there are moves ([fuelsafe_cmostime] and its neighbours).

    [cmostime_correct]: the date of the clock chip, decoded, however often the
    chip was caught updating it.  [ioapic_routes]: after [ioapicinit] and any
    calls of [ioapicenable], just the interrupts enabled are delivered, with
    the vectors that trap.c dispatches on. *)

From S2P Require Import Prelude State Mem Consout Bio Console Trap.

(** What driver code does: access I/O ports and memory-mapped registers, write memory, print. *)
Inductive event :=
  | In (port : Z)
  | Out (port v : Z)
  | Outsl (port : Z) (data : list Z)
  | Load (reg : Z)
  | Store (reg v : Z)
  | Poke (addr v : Z)
  | Print (msg : string).

(** The events, the last first; the value that a device delivered last; [uart] of uart.c;
    [havedisk1] of ide.c. *)
Record dev := Dev
  { dv_events : list event; dv_val : Z; dv_uart : bool; dv_havedisk1 : bool }.

#[export] Instance dev_eta : Settable dev := λ d, Dev (dv_events d) (dv_val d) (dv_uart d) (dv_havedisk1 d).
#[export] Instance set_events : Setter dv_events.
Proof. solve_setter. Defined.
#[export] Instance set_val : Setter dv_val.
Proof. solve_setter. Defined.
#[export] Instance set_uart : Setter dv_uart.
Proof. solve_setter. Defined.
#[export] Instance set_havedisk1 : Setter dv_havedisk1.
Proof. solve_setter. Defined.

Abbreviation DM := (M dev).

Definition emit (a : event) : DM unit := modify (λ d, d <| dv_events ::= cons a |>).

(** The device delivers [v]. *)
Definition deliver (v : Z) (d : dev) : dev := d <| dv_val := v |>.

(** [src/xv6-public/x86.h:3-10] *)
Definition inb (port : Z) : DM Z :=
  emit (In port);; switch;; v ← gets dv_val; mret (v mod 256).
(** [src/xv6-public/x86.h:21-25] *)
Definition outb (port data : Z) : DM unit := emit (Out port (data mod 256)).
(** [src/xv6-public/x86.h:33-40] *)
Definition outsl (port : Z) (data : list Z) : DM unit := emit (Outsl port data).

(** A memory-mapped register is read, or written. *)
Definition load (reg : Z) : DM Z :=
  emit (Load reg);; switch;; v ← gets dv_val; mret (wrap32 v).
Definition store (reg v : Z) : DM unit := emit (Store reg (wrap32 v)).

(** [while(test) ;] *)
Definition poll (test : DM bool) : DM unit :=
  mrepeat (b ← test; mret (if b : bool then inl tt else inr tt)).

(** ** The local APIC *)

(** The registers, by their index in an array of [uint], and the values written to them. *)
(** [src/xv6-public/lapic.c:14] *)
Definition ID : Z := 0x20 / 4.
(** [src/xv6-public/lapic.c:15] *)
Definition VER : Z := 0x30 / 4.
(** [src/xv6-public/lapic.c:16] *)
Definition TPR : Z := 0x80 / 4.
(** [src/xv6-public/lapic.c:17] *)
Definition EOI : Z := 0xB0 / 4.
(** [src/xv6-public/lapic.c:18] *)
Definition SVR : Z := 0xF0 / 4.
(** [src/xv6-public/lapic.c:19] *)
Definition ENABLE : Z := 0x100.
(** [src/xv6-public/lapic.c:20] *)
Definition ESR : Z := 0x280 / 4.
(** [src/xv6-public/lapic.c:21] *)
Definition ICRLO : Z := 0x300 / 4.
(** [src/xv6-public/lapic.c:22] *)
Definition INIT : Z := 0x500.
(** [src/xv6-public/lapic.c:23] *)
Definition STARTUP : Z := 0x600.
(** [src/xv6-public/lapic.c:24] *)
Definition DELIVS : Z := 0x1000.
(** [src/xv6-public/lapic.c:25] *)
Definition ASSERT : Z := 0x4000.
(** [src/xv6-public/lapic.c:27] *)
Definition LEVEL : Z := 0x8000.
(** [src/xv6-public/lapic.c:28] *)
Definition BCAST : Z := 0x80000.
(** [src/xv6-public/lapic.c:31] *)
Definition ICRHI : Z := 0x310 / 4.
(** [src/xv6-public/lapic.c:32] *)
Definition TIMER : Z := 0x320 / 4.
(** [src/xv6-public/lapic.c:33] *)
Definition X1 : Z := 0xB.
(** [src/xv6-public/lapic.c:34] *)
Definition PERIODIC : Z := 0x20000.
(** [src/xv6-public/lapic.c:35] *)
Definition PCINT : Z := 0x340 / 4.
(** [src/xv6-public/lapic.c:36] *)
Definition LINT0 : Z := 0x350 / 4.
(** [src/xv6-public/lapic.c:37] *)
Definition LINT1 : Z := 0x360 / 4.
(** [src/xv6-public/lapic.c:38] *)
Definition ERROR : Z := 0x370 / 4.
(** [src/xv6-public/lapic.c:39] *)
Definition MASKED : Z := 0x10000.
(** [src/xv6-public/lapic.c:40] *)
Definition TICR : Z := 0x380 / 4.
(** [src/xv6-public/lapic.c:42] *)
Definition TDCR : Z := 0x3E0 / 4.

(** [src/xv6-public/traps.h:36] *)
Definition IRQ_ERROR : Z := 19.

Section lapic.
(** The address of the registers, which [mpinit] finds; 0 if there are none. *)
Context (lapic : Z).

(** [src/xv6-public/lapic.c:47-52] *)
Definition lapicw (index value : Z) : DM unit :=
  store (lapic + 4 * index) value;; load (lapic + 4 * ID);; mret tt.

(** [src/xv6-public/lapic.c:54-98] *)
Definition lapicinit : DM unit :=
  if negb (truthy lapic) then mret tt else
  lapicw SVR (Z.lor ENABLE (T_IRQ0 + IRQ_SPURIOUS));;
  lapicw TDCR X1;;
  lapicw TIMER (Z.lor PERIODIC (T_IRQ0 + IRQ_TIMER));;
  lapicw TICR 10000000;;
  lapicw LINT0 MASKED;;
  lapicw LINT1 MASKED;;
  ver ← load (lapic + 4 * VER);
  when (Z.land (Z.shiftr ver 16) 0xFF >=? 4) (lapicw PCINT MASKED);;
  lapicw ERROR (T_IRQ0 + IRQ_ERROR);;
  lapicw ESR 0;;
  lapicw ESR 0;;
  lapicw EOI 0;;
  lapicw ICRHI 0;;
  lapicw ICRLO (Z.lor (Z.lor BCAST INIT) LEVEL);;
  poll (v ← load (lapic + 4 * ICRLO); mret (truthy (Z.land v DELIVS)));;
  lapicw TPR 0.

(** [src/xv6-public/lapic.c:100-106] *)
Definition lapicid : DM Z :=
  if negb (truthy lapic) then mret 0 else
  v ← load (lapic + 4 * ID); mret (Z.shiftr v 24).

(** [src/xv6-public/lapic.c:108-114] *)
Definition lapiceoi : DM unit := when (truthy lapic) (lapicw EOI 0).

(** [src/xv6-public/lapic.c:123] *)
Definition CMOS_PORT : Z := 0x70.

(** [src/xv6-public/lapic.c:124] *)
Definition CMOS_RETURN : Z := 0x71.

(** [src/xv6-public/lapic.c:116-121] *)
Definition microdelay (us : Z) : DM unit := mret tt.

(** [src/xv6-public/lapic.c:157-159] *)
Definition startup_ipi (apicid addr : Z) : DM unit :=
  lapicw ICRHI (Z.shiftl apicid 24);;
  lapicw ICRLO (Z.lor STARTUP (Z.shiftr addr 12));;
  microdelay 200.

(** [src/xv6-public/lapic.c:126-161] *)
Definition lapicstartap (apicid addr : Z) : DM unit :=
  outb CMOS_PORT 0xF;;
  outb (CMOS_PORT + 1) 0x0A;;
  let wrv := P2V (Z.lor (Z.shiftl 0x40 4) 0x67) in
  emit (Poke wrv 0);;
  emit (Poke (wrv + 2) (Z.shiftr addr 4 mod 2 ^ 16));;
  lapicw ICRHI (Z.shiftl apicid 24);;
  lapicw ICRLO (Z.lor (Z.lor INIT LEVEL) ASSERT);;
  microdelay 200;;
  lapicw ICRLO (Z.lor INIT LEVEL);;
  microdelay 100;;
  startup_ipi apicid addr;;
  startup_ipi apicid addr.

End lapic.

(** ** The clock *)

(** [src/xv6-public/lapic.c:163] *)
Definition CMOS_STATA : Z := 0x0a.
(** [src/xv6-public/lapic.c:164] *)
Definition CMOS_STATB : Z := 0x0b.
(** [src/xv6-public/lapic.c:165] *)
Definition CMOS_UIP : Z := Z.shiftl 1 7.
(** [src/xv6-public/lapic.c:167] *)
Definition SECS : Z := 0x00.
(** [src/xv6-public/lapic.c:168] *)
Definition MINS : Z := 0x02.
(** [src/xv6-public/lapic.c:169] *)
Definition HOURS : Z := 0x04.
(** [src/xv6-public/lapic.c:170] *)
Definition DAY : Z := 0x07.
(** [src/xv6-public/lapic.c:171] *)
Definition MONTH : Z := 0x08.
(** [src/xv6-public/lapic.c:172] *)
Definition YEAR : Z := 0x09.

(** [src/xv6-public/date.h:1-8] *)
Record rtcdate := Rtcdate
  { second : Z; minute : Z; hour : Z; day : Z; month : Z; year : Z }.

#[export] Instance rtcdate_eq_dec : EqDecision rtcdate.
Proof. solve_decision. Defined.

(** [src/xv6-public/lapic.c:174-181] *)
Definition cmos_read (reg : Z) : DM Z :=
  outb CMOS_PORT reg;; microdelay 200;; inb CMOS_RETURN.

(** [src/xv6-public/lapic.c:183-192] *)
Definition fill_rtcdate : DM rtcdate :=
  s ← cmos_read SECS; m ← cmos_read MINS; h ← cmos_read HOURS;
  d ← cmos_read DAY; mo ← cmos_read MONTH; y ← cmos_read YEAR;
  mret (Rtcdate s m h d mo y).

(** [src/xv6-public/lapic.c:217] *)
Definition CONV (x : Z) : Z := Z.shiftr x 4 * 10 + Z.land x 0xf.

Definition map_date (f : Z → Z) (t : rtcdate) : rtcdate :=
  Rtcdate (f (second t)) (f (minute t)) (f (hour t)) (f (day t)) (f (month t)) (f (year t)).

(** [src/xv6-public/lapic.c:206-213] one turn of the loop; structures of six [uint] have no
    padding, so that [memcmp] compares the fields *)
Definition cmos_turn : DM (unit + rtcdate) :=
  t1 ← fill_rtcdate;
  a ← cmos_read CMOS_STATA;
  if truthy (Z.land a CMOS_UIP) then mret (inl tt) else
  t2 ← fill_rtcdate;
  if decide (t1 = t2) then mret (inr t1) else mret (inl tt).

(** [src/xv6-public/lapic.c:194-229] *)
Definition cmostime : DM rtcdate :=
  sb ← cmos_read CMOS_STATB;
  let bcd := Z.land sb (Z.shiftl 1 2) =? 0 in
  t1 ← mrepeat cmos_turn;
  let t1 := if bcd then map_date CONV t1 else t1 in
  mret (Rtcdate (second t1) (minute t1) (hour t1) (day t1) (month t1) (year t1 + 2000)).

(** ** The I/O APIC and the 8259A *)

(** [src/xv6-public/ioapic.c:9] *)
Definition IOAPIC : Z := 0xFEC00000.
(** [src/xv6-public/ioapic.c:11] *)
Definition REG_ID : Z := 0x00.
(** [src/xv6-public/ioapic.c:12] *)
Definition REG_VER : Z := 0x01.
(** [src/xv6-public/ioapic.c:13] *)
Definition REG_TABLE : Z := 0x10.
(** [src/xv6-public/ioapic.c:20] *)
Definition INT_DISABLED : Z := 0x00010000.

(** [src/xv6-public/ioapic.c:27-32] the offset of [data] *)
Definition io_data : Z := 16.

(** [src/xv6-public/ioapic.c:34-39] *)
Definition ioapicread (reg : Z) : DM Z := store IOAPIC reg;; load (IOAPIC + io_data).

(** [src/xv6-public/ioapic.c:41-46] *)
Definition ioapicwrite (reg data : Z) : DM unit :=
  store IOAPIC reg;; store (IOAPIC + io_data) data.

(** [src/xv6-public/ioapic.c:61-64] the loop, from [i] on for [n] turns *)
Fixpoint ioapic_mask (n : nat) (i : Z) : DM unit :=
  match n with
  | O => mret tt
  | S n =>
    ioapicwrite (REG_TABLE + 2 * i) (Z.lor INT_DISABLED (T_IRQ0 + i));;
    ioapicwrite (REG_TABLE + 2 * i + 1) 0;;
    ioapic_mask n (i + 1)
  end.

(** [src/xv6-public/ioapic.c:48-65] *)
Definition ioapicinit (ioapicid : Z) : DM unit :=
  ver ← ioapicread REG_VER;
  let maxintr := Z.land (Z.shiftr ver 16) 0xFF in
  v ← ioapicread REG_ID;
  let id := Z.shiftr v 24 in
  when (negb (id =? ioapicid))
    (emit (Print "ioapicinit: id isn't equal to ioapicid; not a MP"));;
  ioapic_mask (Z.to_nat (maxintr + 1)) 0.

(** [src/xv6-public/ioapic.c:67-75] *)
Definition ioapicenable (irq cpunum : Z) : DM unit :=
  ioapicwrite (REG_TABLE + 2 * irq) (T_IRQ0 + irq);;
  ioapicwrite (REG_TABLE + 2 * irq + 1) (Z.shiftl cpunum 24).

(** [src/xv6-public/picirq.c:6] *)
Definition IO_PIC1 : Z := 0x20.
(** [src/xv6-public/picirq.c:7] *)
Definition IO_PIC2 : Z := 0xA0.

(** [src/xv6-public/picirq.c:9-16] *)
Definition picinit : DM unit := outb (IO_PIC1 + 1) 0xFF;; outb (IO_PIC2 + 1) 0xFF.

(** ** The serial port *)

Module Uart.

(** [src/xv6-public/uart.c:15] *)
Definition COM1 : Z := 0x3f8.

(** [src/xv6-public/uart.c:58-59] the loop of [uartputc], for [n] more turns *)
Fixpoint wait_ready (n : nat) : DM unit :=
  match n with
  | O => mret tt
  | S n =>
    st ← inb (COM1 + 5);
    if truthy (Z.land st 0x20) then mret tt else microdelay 10;; wait_ready n
  end.

(** [src/xv6-public/uart.c:51-61] *)
Definition uartputc (c : Z) : DM unit :=
  uart ← gets dv_uart;
  if negb uart then mret tt else
  wait_ready 128;; outb (COM1 + 0) c.

Fixpoint uartputs (s : list Z) : DM unit :=
  match s with [] => mret tt | c :: s => uartputc c;; uartputs s end.

(** [src/xv6-public/uart.c:19-49] *)
Definition uartinit : DM unit :=
  outb (COM1 + 2) 0;;
  outb (COM1 + 3) 0x80;;
  outb (COM1 + 0) (115200 / 9600);;
  outb (COM1 + 1) 0;;
  outb (COM1 + 3) 0x03;;
  outb (COM1 + 4) 0;;
  outb (COM1 + 1) 0x01;;
  st ← inb (COM1 + 5);
  if st =? 0xFF then mret tt else
  modify (λ d, d <| dv_uart := true |>);;
  inb (COM1 + 2);;
  inb (COM1 + 0);;
  ioapicenable IRQ_COM1 0;;
  uartputs (codes "xv6..." ++ [10]).

(** [src/xv6-public/uart.c:63-71] *)
Definition uartgetc : DM Z :=
  uart ← gets dv_uart;
  if negb uart then mret (-1) else
  st ← inb (COM1 + 5);
  if negb (truthy (Z.land st 0x01)) then mret (-1) else
  inb (COM1 + 0).

End Uart.

(** ** The ports of the disk *)

Module IdePorts.

(** [src/xv6-public/ide.c:16] *)
Definition SECTOR_SIZE : Z := 512.
(** [src/xv6-public/ide.c:17] *)
Definition IDE_BSY : Z := 0x80.
(** [src/xv6-public/ide.c:18] *)
Definition IDE_DRDY : Z := 0x40.
(** [src/xv6-public/ide.c:19] *)
Definition IDE_DF : Z := 0x20.
(** [src/xv6-public/ide.c:20] *)
Definition IDE_ERR : Z := 0x01.
(** [src/xv6-public/ide.c:22] *)
Definition IDE_CMD_READ : Z := 0x20.
(** [src/xv6-public/ide.c:23] *)
Definition IDE_CMD_WRITE : Z := 0x30.
(** [src/xv6-public/ide.c:24] *)
Definition IDE_CMD_RDMUL : Z := 0xc4.
(** [src/xv6-public/ide.c:25] *)
Definition IDE_CMD_WRMUL : Z := 0xc5.

(** [src/xv6-public/ide.c:37-48] *)
Definition idewait (checkerr : bool) : DM Z :=
  r ← mrepeat (r ← inb 0x1f7;
               mret (if Z.land r (Z.lor IDE_BSY IDE_DRDY) =? IDE_DRDY then inr r else inl tt));
  if checkerr && negb (Z.land r (Z.lor IDE_DF IDE_ERR) =? 0) then mret (-1) else mret 0.

(** [src/xv6-public/ide.c:61-66] the loop, for [n] more turns *)
Fixpoint probe (n : nat) : DM unit :=
  match n with
  | O => mret tt
  | S n =>
    r ← inb 0x1f7;
    if negb (r =? 0) then modify (λ d, d <| dv_havedisk1 := true |>) else probe n
  end.

(** [src/xv6-public/ide.c:56-69] what [ideinit] does to the devices *)
Definition ideinit (ncpu : Z) : DM unit :=
  ioapicenable IRQ_IDE (ncpu - 1);;
  idewait false;;
  outb 0x1f6 (Z.lor 0xe0 (Z.shiftl 1 4));;
  probe 1000;;
  outb 0x1f6 (Z.lor 0xe0 (Z.shiftl 0 4)).

(** [src/xv6-public/ide.c:78-99] what [idestart] does to the ports for a buffer *)
Definition idestart (b : buf) : DM unit :=
  if b_blockno b >=? FSSIZE then mpanic "incorrect blockno" else
  let sector_per_block := BSIZE / SECTOR_SIZE in
  let sector := b_blockno b * sector_per_block in
  let read_cmd := if sector_per_block =? 1 then IDE_CMD_READ else IDE_CMD_RDMUL in
  let write_cmd := if sector_per_block =? 1 then IDE_CMD_WRITE else IDE_CMD_WRMUL in
  if sector_per_block >? 7 then mpanic "idestart" else
  idewait false;;
  outb 0x3f6 0;;
  outb 0x1f2 sector_per_block;;
  outb 0x1f3 (Z.land sector 0xff);;
  outb 0x1f4 (Z.land (Z.shiftr sector 8) 0xff);;
  outb 0x1f5 (Z.land (Z.shiftr sector 16) 0xff);;
  outb 0x1f6 (Z.lor (Z.lor 0xe0 (Z.shiftl (Z.land (b_dev b) 1) 4)) (Z.land (Z.shiftr sector 24) 0x0f));;
  if truthy (Z.land (b_flags b) B_DIRTY) then
    outb 0x1f7 write_cmd;; outsl 0x1f0 (b_data b)
  else outb 0x1f7 read_cmd.

End IdePorts.

(** ** Runs of driver code

    [reads m vs a]: when the devices deliver the values [vs], [m] returns [a], whatever happened
    before and happens after. *)

Definition reads {A} (m : DM A) (vs : list Z) (a : A) : Prop :=
  ∀ e d, ∃ d', m ((deliver <$> vs) ++ e) d = Ret a e d'.

Lemma dreads_ret {A} (a : A) : reads (mret a) [] a.
Proof. intros e d. by exists d. Qed.

Lemma dreads_bind {A B} (m : DM A) (f : A → DM B) vs ws a b :
  reads m vs a → reads (f a) ws b → reads (m ≫= f) (vs ++ ws) b.
Proof.
  intros Hm Hf e d. rewrite fmap_app, <- (assoc_L (++)).
  destruct (Hm ((deliver <$> ws) ++ e) d) as [d1 H1]. destruct (Hf e d1) as [d2 H2].
  exists d2. by rewrite (bind_Ret _ _ _ _ _ _ _ H1).
Qed.

Lemma dreads_cons {A B} (m : DM A) (f : A → DM B) v ws a b :
  reads m [v] a → reads (f a) ws b → reads (m ≫= f) (v :: ws) b.
Proof. apply (dreads_bind m f [v]). Qed.

Lemma dreads_outb p v : reads (outb p v) [] tt.
Proof. intros e d. by eexists. Qed.

Lemma dreads_inb p v : 0 ≤ v < 256 → reads (inb p) [v] v.
Proof.
  intros Hv e d. eexists. unfold inb, emit. msteps. cbn [fmap list_fmap app].
  mgo (reflexivity). msteps. unfold deliver. rsimpl.
  by rewrite Z.mod_small.
Qed.

Lemma dreads_cmos_read r v : 0 ≤ v < 256 → reads (cmos_read r) [v] v.
Proof.
  intros Hv. apply (dreads_bind _ _ [] [v] tt); [apply dreads_outb|].
  apply (dreads_bind _ _ [] [v] tt); [apply dreads_ret|]. by apply dreads_inb.
Qed.

(** A loop, by the turns that go on and the last one. *)
Lemma dreads_mrepeat {A} (body : DM (unit + A)) turns last a :
  Forall (λ vs, vs ≠ [] ∧ reads body vs (inl tt)) turns → reads body last (inr a) →
  reads (mrepeat body) (concat turns ++ last) a.
Proof.
  intros Ht Hl e d. unfold mrepeat.
  assert (Hf : (length turns < S (length ((deliver <$> concat turns ++ last) ++ e)))%nat).
  { rewrite length_app, length_fmap, length_app. clear -Ht.
    induction Ht as [|vs ts [Hne _] _ IH]; cbn [concat length]; [lia|].
    rewrite length_app. destruct vs; [done|]. cbn [length]. lia. }
  revert Hf. generalize (S (length ((deliver <$> concat turns ++ last) ++ e))). intros fuel.
  revert fuel d. induction Ht as [|vs ts [_ Hvs] _ IH]; intros fuel d Hf.
  - destruct fuel; [lia|]. cbn [concat app mloop]. destruct (Hl e d) as [d' Hd].
    exists d'. by rewrite (bind_Ret _ _ _ _ _ _ _ Hd).
  - destruct fuel; [cbn in Hf; lia|]. cbn [concat mloop length] in *.
    rewrite <- (assoc_L (++) vs), fmap_app, <- (assoc_L (++)).
    destruct (Hvs ((deliver <$> concat ts ++ last) ++ e) d) as [d1 H1].
    rewrite (bind_Ret _ _ _ _ _ _ _ H1). apply IH. lia.
Qed.

(** The six registers in the order they are read. *)
Definition regs (t : rtcdate) : list Z := [second t; minute t; hour t; day t; month t; year t].

Definition bytes (l : list Z) : Prop := Forall (λ v, 0 ≤ v < 256) l.

Lemma dreads_fill t : bytes (regs t) → reads fill_rtcdate (regs t) t.
Proof.
  unfold bytes, regs. rewrite !Forall_cons. intros (H1 & H2 & H3 & H4 & H5 & H6 & _).
  unfold fill_rtcdate.
  do 6 (eapply dreads_cons; [by apply dreads_cmos_read|]).
  destruct t; apply dreads_ret.
Qed.

(** Status A with the update-in-progress bit set. *)
Definition updating (a : Z) : bool := truthy (Z.land a CMOS_UIP).

(** What the chip delivers in a turn in which it is caught updating the date: the status says
    so after the registers were read, or they read differently the second time. *)
Inductive torn : list Z → Prop :=
  | torn_uip t a : bytes (regs t) → 0 ≤ a < 256 → updating a = true → torn (regs t ++ [a])
  | torn_diff t a t' : bytes (regs t) → bytes (regs t') → 0 ≤ a < 256 →
      updating a = false → t ≠ t' → torn (regs t ++ a :: regs t').

Lemma dreads_torn vs : torn vs → vs ≠ [] ∧ reads cmos_turn vs (inl tt).
Proof.
  intros [t a Ht Ha Hu|t a t' Ht Ht' Ha Hu Hne]; (split; [done|]).
  - eapply dreads_bind; [by apply dreads_fill|].
    eapply dreads_cons; [by apply dreads_cmos_read|].
    change (truthy _) with (updating a). rewrite Hu. apply dreads_ret.
  - eapply dreads_bind; [by apply dreads_fill|].
    eapply dreads_cons; [by apply dreads_cmos_read|].
    change (truthy _) with (updating a). rewrite Hu.
    rewrite <- (app_nil_r (regs t')). eapply dreads_bind; [by apply dreads_fill|].
    rewrite decide_False by done. apply dreads_ret.
Qed.

Lemma dreads_still t a : bytes (regs t) → 0 ≤ a < 256 → updating a = false →
  reads cmos_turn (regs t ++ a :: regs t) (inr t).
Proof.
  intros Ht Ha Hu. eapply dreads_bind; [by apply dreads_fill|].
  eapply dreads_cons; [by apply dreads_cmos_read|].
  change (truthy _) with (updating a). rewrite Hu.
  rewrite <- (app_nil_r (regs t)) at 1. eapply dreads_bind; [by apply dreads_fill|].
  rewrite decide_True by done. apply dreads_ret.
Qed.

(** Binary-coded decimal, and the register format that status B selects. *)
Definition to_bcd (x : Z) : Z := 16 * (x / 10) + x mod 10.
Definition is_bcd (sb : Z) : bool := Z.land sb (Z.shiftl 1 2) =? 0.
Definition encoded (sb : Z) (t : rtcdate) : rtcdate :=
  if is_bcd sb then map_date to_bcd t else t.

Definition two_digits (t : rtcdate) : Prop := Forall (λ x, 0 ≤ x < 100) (regs t).

Lemma to_bcd_ok x : 0 ≤ x < 100 → CONV (to_bcd x) = x ∧ 0 ≤ to_bcd x < 256.
Proof.
  intros Hx.
  assert (H : (CONV (to_bcd x) =? x) && (0 <=? to_bcd x) && (to_bcd x <? 256) = true).
  { revert x Hx. apply range_forallb. by vm_compute. }
  apply andb_true_iff in H as [[H1 H2]%andb_true_iff H3]. lia.
Qed.

Lemma encoded_ok sb t : two_digits t →
  bytes (regs (encoded sb t)) ∧
  (if is_bcd sb then map_date CONV (encoded sb t) else encoded sb t) = t.
Proof.
  unfold two_digits, encoded, regs, bytes. rewrite !Forall_cons. intros H.
  destruct (is_bcd sb); cbn [map_date second minute hour day month year].
  - pose proof to_bcd_ok as B. destruct t as [s m h d mo y].
    cbn [second minute hour day month year] in *. unfold map_date.
    cbn [second minute hour day month year].
    rewrite !(λ x H, proj1 (B x H)) by apply H.
    split; [|done]. repeat split; try apply Forall_nil_2; apply B, H.
  - split; [|done]. repeat split; try lia. by apply Forall_nil_2.
Qed.

(** ** The date *)

(** [cmostime] returns the date of the clock chip: when the chip holds the date [t] of this
    century in the format that status B announces, binary or BCD, and was caught updating it in
    any number of turns before a still one, the loop ends and the result is [t], with the year
    counted from 0. *)
Theorem cmostime_correct sb t turns a e d :
  two_digits t → 0 ≤ sb < 256 → 0 ≤ a < 256 → updating a = false → Forall torn turns →
  let r := regs (encoded sb t) in
  ∃ d', cmostime ((deliver <$> sb :: concat turns ++ r ++ a :: r) ++ e) d =
    Ret (Rtcdate (second t) (minute t) (hour t) (day t) (month t) (year t + 2000)) e d'.
Proof.
  intros Ht Hsb Ha Hu Htorn r. destruct (encoded_ok sb t Ht) as [Hb Hc].
  cut (reads cmostime (sb :: (concat turns ++ r ++ a :: r) ++ [])
         (Rtcdate (second t) (minute t) (hour t) (day t) (month t) (year t + 2000))).
  { rewrite app_nil_r. intros H. apply H. }
  eapply dreads_cons; [by apply dreads_cmos_read|].
  eapply dreads_bind.
  { apply dreads_mrepeat; [|by apply dreads_still].
    eapply Forall_impl; [exact Htorn|apply dreads_torn]. }
  fold (is_bcd sb). rewrite Hc. apply dreads_ret.
Qed.

Definition noon : rtcdate := Rtcdate 59 30 12 24 11 26.

Lemma cmostime_correct_witness :
  ∃ d', cmostime ((deliver <$> 2 :: concat [regs noon ++ [128]] ++
                    regs (map_date to_bcd noon) ++ 38 :: regs (map_date to_bcd noon)) ++ [])
          (Dev [] 0 false false) =
    Ret (Rtcdate 59 30 12 24 11 2026) [] d'.
Proof.
  apply (cmostime_correct 2 noon [regs noon ++ [128]] 38 [] (Dev [] 0 false false)).
  - unfold two_digits, regs, noon. cbn. rewrite !Forall_cons, Forall_nil. lia.
  - lia.
  - lia.
  - reflexivity.
  - rewrite Forall_singleton. apply torn_uip; [|lia|reflexivity].
    unfold bytes, regs, noon. cbn. rewrite !Forall_cons, Forall_nil. lia.
Defined.

(** ** The redirection table

    The I/O APIC as a device: a store to the first register selects one of its registers, and a
    store to the other writes the register selected. *)

Definition io_step (a : event) (s : Z * gmap Z Z) : Z * gmap Z Z :=
  match a with
  | Store r v =>
    if r =? IOAPIC then (v, s.2)
    else if r =? IOAPIC + io_data then (s.1, <[s.1 := v]> s.2) else s
  | _ => s
  end.

Definition io_regs (d : dev) : gmap Z Z := (foldr io_step (0, ∅) (dv_events d)).2.

(** The two words of interrupt [i] in the table. *)
Definition entry (d : dev) (i : Z) : option Z * option Z :=
  (io_regs d !! (REG_TABLE + 2 * i), io_regs d !! (REG_TABLE + 2 * i + 1)).

Lemma ioapicwrite_ok reg v e d : is_u32 reg → is_u32 v →
  ∃ d', ioapicwrite reg v e d = Ret tt e d' ∧ io_regs d' = <[reg := v]> (io_regs d).
Proof.
  intros Hr Hv. eexists. split; [reflexivity|]. unfold io_regs. rsimpl. cbn [foldr].
  unfold io_step at 1. rewrite !wrap32_small by done. cbn. done.
Qed.

(** Both words of an interrupt are written. *)
Lemma route_ok irq lo hi e d : 0 ≤ irq < 256 → is_u32 lo → is_u32 hi →
  ∃ d', (ioapicwrite (REG_TABLE + 2 * irq) lo;; ioapicwrite (REG_TABLE + 2 * irq + 1) hi) e d =
          Ret tt e d' ∧
        ∀ i, entry d' i = if decide (i = irq) then (Some lo, Some hi) else entry d i.
Proof.
  intros Hi Hlo Hhi.
  destruct (ioapicwrite_ok (REG_TABLE + 2 * irq) lo e d) as (d1 & E1 & R1);
    [unfold REG_TABLE, is_u32; lia|done|].
  destruct (ioapicwrite_ok (REG_TABLE + 2 * irq + 1) hi e d1) as (d2 & E2 & R2);
    [unfold REG_TABLE, is_u32; lia|done|].
  exists d2. rewrite (bind_Ret _ _ _ _ _ _ _ E1). split; [done|]. intros i.
  unfold entry. rewrite R2, R1. destruct (decide (i = irq)) as [->|Hne].
  - rewrite lookup_insert_ne by lia. by rewrite !lookup_insert_eq.
  - by rewrite !lookup_insert_ne by lia.
Qed.

Lemma ioapic_mask_ok n i e d : 0 ≤ i → i + Z.of_nat n ≤ 256 →
  ∃ d', ioapic_mask n i e d = Ret tt e d' ∧
    ∀ j, entry d' j = if decide (i ≤ j < i + Z.of_nat n)
                      then (Some (Z.lor INT_DISABLED (T_IRQ0 + j)), Some 0) else entry d j.
Proof.
  revert i d. induction n as [|n IH]; intros i d H0 Hn; cbn [ioapic_mask].
  { exists d. split; [done|]. intros j. by rewrite decide_False by lia. }
  destruct (route_ok i (Z.lor INT_DISABLED (T_IRQ0 + i)) 0 e d) as (d1 & E1 & R1).
  { lia. }
  { split; [apply Z.lor_nonneg; unfold INT_DISABLED, T_IRQ0; lia|].
    apply Z.log2_lt_cancel. rewrite Z.log2_lor by (unfold INT_DISABLED, T_IRQ0; lia).
    change (Z.log2 (2 ^ 32)) with 32. apply Z.max_lub_lt; [done|]. apply Z.log2_lt_pow2; unfold T_IRQ0; lia. }
  { done. }
  destruct (IH (i + 1) d1) as (d2 & E2 & R2); [lia..|].
  exists d2. rewrite <- bind_assoc, (bind_Ret _ _ _ _ _ _ _ E1). split; [done|].
  intros j. rewrite R2, R1. destruct (decide (j = i)) as [->|].
  - by rewrite decide_False, decide_True by lia.
  - destruct (decide (i + 1 ≤ j < i + 1 + Z.of_nat n)).
    + by rewrite decide_True by lia.
    + by rewrite decide_False by lia.
Qed.

(** Calls of [ioapicenable], and the CPU that the last of them for interrupt [i] names. *)
Fixpoint enable_all (irqs : list (Z * Z)) : DM unit :=
  match irqs with [] => mret tt | (irq, cpu) :: irqs => ioapicenable irq cpu;; enable_all irqs end.

Fixpoint routed (irqs : list (Z * Z)) (i : Z) : option Z :=
  match irqs with
  | [] => None
  | (irq, cpu) :: irqs => routed irqs i ∪ (if decide (i = irq) then Some cpu else None)
  end.

Lemma enable_all_ok irqs e d :
  Forall (λ x, 0 ≤ x.1 < 256 ∧ 0 ≤ x.2 < 256) irqs →
  ∃ d', enable_all irqs e d = Ret tt e d' ∧
    ∀ i, entry d' i = match routed irqs i with
                      | Some cpu => (Some (T_IRQ0 + i), Some (Z.shiftl cpu 24))
                      | None => entry d i
                      end.
Proof.
  intros H. revert d. induction H as [|[irq cpu] irqs [Hi Hc] _ IH]; intros d.
  { by exists d. }
  cbn [fst snd enable_all routed] in *.
  destruct (route_ok irq (T_IRQ0 + irq) (Z.shiftl cpu 24) e d) as (d1 & E1 & R1).
  { done. }
  { unfold is_u32, T_IRQ0. lia. }
  { unfold is_u32. rewrite Z.shiftl_mul_pow2 by lia. lia. }
  destruct (IH d1) as (d2 & E2 & R2). exists d2.
  unfold ioapicenable. rewrite (bind_Ret _ _ _ _ _ _ _ E1). split; [done|].
  intros i. rewrite R2, R1. destruct (routed irqs i) as [c|].
  { by destruct (decide _). }
  rewrite (left_id_L None (∪)). by destruct (decide (i = irq)) as [->|].
Qed.

Lemma load_ok r v e d : is_u32 v → ∃ d', load r (deliver v :: e) d = Ret v e d'.
Proof.
  intros Hv. eexists. unfold load, emit. msteps. mgo (reflexivity). msteps.
  unfold deliver. rsimpl. by rewrite wrap32_small.
Qed.

(** The number of interrupts that the version register announces, less one. *)
Definition maxintr (ver : Z) : Z := Z.land (Z.shiftr ver 16) 0xFF.

Lemma maxintr_range ver : 0 ≤ maxintr ver < 256.
Proof. unfold maxintr. change 0xFF with (Z.ones 8). rewrite Z.land_ones by lia. apply Z.mod_pos_bound. lia. Qed.

Lemma dreads_load r v : is_u32 v → reads (load r) [v] v.
Proof. intros Hv e d. by apply load_ok. Qed.

Lemma ioapicinit_ok aid ver id e d : is_u32 ver → is_u32 id →
  ∃ d', ioapicinit aid ((deliver <$> [ver; id]) ++ e) d = Ret tt e d' ∧
    ∀ i, 0 ≤ i ≤ maxintr ver → entry d' i = (Some (Z.lor INT_DISABLED (T_IRQ0 + i)), Some 0).
Proof.
  intros Hv Hi. pose proof (maxintr_range ver) as Hm.
  assert (Hr : ∀ reg v, is_u32 v → reads (ioapicread reg) [v] v).
  { intros reg v H. apply (dreads_bind _ _ [] [v] tt); [|by apply dreads_load].
    intros e0 d0. by eexists. }
  unfold ioapicinit. cbn [fmap list_fmap app].
  destruct (Hr REG_VER ver Hv (deliver id :: e) d) as [d1 E1].
  rewrite (bind_Ret _ _ _ _ _ _ _ E1). fold (maxintr ver).
  destruct (Hr REG_ID id Hi e d1) as [d2 E2]. rewrite (bind_Ret _ _ _ _ _ _ _ E2).
  set (t := negb _).
  destruct (ioapic_mask_ok (Z.to_nat (maxintr ver + 1)) 0 e
    (if t then d2 <| dv_events ::= cons (Print "ioapicinit: id isn't equal to ioapicid; not a MP") |>
     else d2)) as (d3 & E3 & R3); [lia..|].
  exists d3. split; [by destruct t|].
  intros i Hi'. rewrite R3. by rewrite decide_True by lia.
Qed.

(** The I/O APIC delivers just the interrupts that the kernel has enabled: after
    [ioapicinit] and any calls of [ioapicenable], every interrupt the controller has is masked
    and routed to no CPU, or, if it was enabled, unmasked and routed to the CPU of the last call,
    with the vector [T_IRQ0 + irq] that [trap] dispatches on. *)
Theorem ioapic_routes aid ver id irqs e d :
  is_u32 ver → is_u32 id → Forall (λ x, 0 ≤ x.1 < 256 ∧ 0 ≤ x.2 < 256) irqs →
  ∃ d', (ioapicinit aid;; enable_all irqs) ((deliver <$> [ver; id]) ++ e) d = Ret tt e d' ∧
    ∀ i, 0 ≤ i ≤ maxintr ver →
      entry d' i = match routed irqs i with
                   | Some cpu => (Some (T_IRQ0 + i), Some (Z.shiftl cpu 24))
                   | None => (Some (Z.lor INT_DISABLED (T_IRQ0 + i)), Some 0)
                   end.
Proof.
  intros Hv Hi Hirqs. destruct (ioapicinit_ok aid ver id e d Hv Hi) as (d1 & E1 & R1).
  destruct (enable_all_ok irqs e d1 Hirqs) as (d2 & E2 & R2).
  exists d2. rewrite (bind_Ret _ _ _ _ _ _ _ E1). split; [done|].
  intros i Hr. rewrite R2, (R1 i Hr). done.
Qed.

Lemma ioapic_routes_witness :
  ∃ d', (ioapicinit 0;; enable_all [(IRQ_KBD, 0); (IRQ_IDE, 1)])
          ((deliver <$> [0x170011; 0]) ++ []) (Dev [] 0 false false) = Ret tt [] d' ∧
    entry d' IRQ_KBD = (Some 33, Some 0) ∧ entry d' 2 = (Some 65570, Some 0).
Proof.
  destruct (ioapic_routes 0 0x170011 0 [(IRQ_KBD, 0); (IRQ_IDE, 1)] [] (Dev [] 0 false false))
    as (d' & E & R).
  - split; lia.
  - split; lia.
  - rewrite !Forall_cons, Forall_nil. cbn. unfold IRQ_KBD, IRQ_IDE. lia.
  - exists d'. split; [exact E|]. split; rewrite R by (vm_compute; split; discriminate); reflexivity.
Defined.

(** ** The polling loops need no more turns than there are moves *)

Lemma fuelsafe_modify (f : dev → dev) : fuelsafe false (modify f).
Proof. intros e k. cbn. lia. Qed.
Lemma fuelsafe_gets {A} (f : dev → A) : fuelsafe false (gets f).
Proof. intros e k. cbn. lia. Qed.

Lemma fuelsafe_read {A B} (a : event) (f : dev → A) (g : A → B) :
  fuelsafe true (emit a;; switch;; v ← gets f; mret (g v)).
Proof.
  apply (fuelsafe_bind false true); [apply fuelsafe_modify|]. intros _.
  apply (fuelsafe_bind true false); [apply fuelsafe_switch|]. intros _.
  apply (fuelsafe_bind false false); [apply fuelsafe_gets|]. intros. apply fuelsafe_ret.
Qed.

Lemma fuelsafe_inb p : fuelsafe true (inb p).
Proof. apply fuelsafe_read. Qed.
Lemma fuelsafe_load r : fuelsafe true (load r).
Proof. apply fuelsafe_read. Qed.
Lemma fuelsafe_loop {A} (body : DM (unit + A)) : fuelsafe true body → fuelsafe false (mrepeat body).
Proof.
  intros H. apply fuelsafe_mrepeat. intros e k. eapply wpo_mono; [apply H|..|done].
  intros [] e' k' Hl; cbn in *; lia.
Qed.

Create HintDb fuel.
#[export] Hint Resolve fuelsafe_modify fuelsafe_gets fuelsafe_ret fuelsafe_when : fuel.
#[export] Hint Extern 2 (fuelsafe false _) => apply (fuelsafe_weaken true) : fuel.
#[export] Hint Resolve fuelsafe_inb fuelsafe_load : fuel.

(** One read is enough for a sequence to have taken a move. *)
Ltac solve_fuel :=
  repeat first
    [ lazymatch goal with |- ∀ _, _ => intro end
    | solve [eauto 2 with fuel]
    | lazymatch goal with
      | |- fuelsafe false (_ ≫= _) => apply (fuelsafe_bind false false)
      | |- fuelsafe true (_ ≫= _) =>
        first [ apply (fuelsafe_bind true false); [solve [solve_fuel]|]
              | apply (fuelsafe_bind false true) ]
      | |- fuelsafe false (if ?b then _ else _) => destruct b
      end ].

Lemma fuelsafe_cmos_read r : fuelsafe true (cmos_read r).
Proof. unfold cmos_read, outb, emit, microdelay. solve_fuel. Qed.
#[export] Hint Resolve fuelsafe_cmos_read : fuel.

Lemma fuelsafe_fill : fuelsafe true fill_rtcdate.
Proof. unfold fill_rtcdate. solve_fuel. Qed.
#[export] Hint Resolve fuelsafe_fill : fuel.

Lemma fuelsafe_cmostime : fuelsafe false cmostime.
Proof.
  unfold cmostime. solve_fuel. apply fuelsafe_loop. unfold cmos_turn. solve_fuel.
Qed.

Lemma fuelsafe_idewait checkerr : fuelsafe false (IdePorts.idewait checkerr).
Proof. unfold IdePorts.idewait. solve_fuel. apply fuelsafe_loop. solve_fuel. Qed.
#[export] Hint Resolve fuelsafe_idewait : fuel.

Lemma fuelsafe_lapicw lapic i v : fuelsafe false (lapicw lapic i v).
Proof. unfold lapicw, store, emit. solve_fuel. Qed.
#[export] Hint Resolve fuelsafe_lapicw : fuel.

Lemma fuelsafe_lapicinit lapic : fuelsafe false (lapicinit lapic).
Proof.
  unfold lapicinit. solve_fuel. all: first [apply (fuelsafe_when _ false)|apply fuelsafe_loop]; solve_fuel.
Qed.

(** ** The disk's command block *)

(** The value written last to a port. *)
Fixpoint last_out (port : Z) (l : list event) : option Z :=
  match l with
  | [] => None
  | Out p v :: l => if p =? port then Some v else last_out port l
  | _ :: l => last_out port l
  end.

(** The 28-bit address of the sector in the ports. *)
Definition lba (l : list event) : option Z :=
  b0 ← last_out 0x1f3 l; b1 ← last_out 0x1f4 l; b2 ← last_out 0x1f5 l; b3 ← last_out 0x1f6 l;
  Some (b0 + 2 ^ 8 * b1 + 2 ^ 16 * b2 + 2 ^ 24 * (Z.land b3 0x0f)).

Lemma idewait_ok r e d : 0 ≤ r < 256 → Z.land r 0xC0 = 0x40 →
  ∃ d', IdePorts.idewait false (deliver r :: e) d = Ret 0 e d'.
Proof.
  intros Hr Hready. eapply (dreads_bind _ _ [r] [] r 0); [|apply dreads_ret].
  apply (dreads_mrepeat _ [] [r]); [constructor|]. eapply dreads_cons; [by apply dreads_inb|].
  change (Z.lor _ _) with 0xC0. rewrite Hready. apply dreads_ret.
Qed.

Lemma sector_split s : 0 ≤ s < 2 ^ 28 →
  Z.land s 0xff mod 256 + 2 ^ 8 * (Z.land (Z.shiftr s 8) 0xff mod 256) +
  2 ^ 16 * (Z.land (Z.shiftr s 16) 0xff mod 256) + 2 ^ 24 * Z.land (Z.shiftr s 24) 0x0f = s.
Proof.
  intros Hs. change 0xff with (Z.ones 8). change 0x0f with (Z.ones 4).
  rewrite !Z.land_ones, !Z.shiftr_div_pow2 by lia. rewrite !(Z.mod_small (_ mod 2 ^ 8)) by dlia.
  dlia.
Qed.

Lemma drive_bits dev x :
  Z.land (Z.lor (Z.lor 0xe0 (Z.shiftl (Z.land dev 1) 4)) (Z.land x 0x0f) mod 256) 0x0f = Z.land x 0x0f.
Proof.
  assert (Hd : Z.land dev 1 = 0 ∨ Z.land dev 1 = 1).
  { pose proof (Z.land_ones dev 1 ltac:(lia)) as E. change (Z.ones 1) with 1 in E.
    rewrite E. change (2 ^ 1) with 2. dlia. }
  assert (Hx : 0 ≤ Z.land x 0x0f < 16).
  { change 0x0f with (Z.ones 4). rewrite Z.land_ones by lia. apply Z.mod_pos_bound. lia. }
  apply Z.eqb_eq. revert Hx. generalize (Z.land x 0x0f).
  destruct Hd as [-> | ->]; apply range_forallb; by vm_compute.
Qed.

(** The request that [idestart] gives a ready disk: one sector, the block's, of the buffer's
    drive, read or, if the buffer is dirty, written with the buffer's data. *)
Lemma idestart_command b r e d :
  0 ≤ b_blockno b < FSSIZE → 0 ≤ r < 256 → Z.land r 0xC0 = 0x40 →
  ∃ d', IdePorts.idestart b (deliver r :: e) d = Ret tt e d' ∧
    last_out 0x1f2 (dv_events d') = Some 1 ∧ lba (dv_events d') = Some (b_blockno b) ∧
    last_out 0x1f7 (dv_events d') =
      Some (if truthy (Z.land (b_flags b) B_DIRTY) then 0x30 else 0x20) ∧
    (truthy (Z.land (b_flags b) B_DIRTY) = true → dv_events d' !! 0%nat = Some (Outsl 0x1f0 (b_data b))).
Proof.
  intros Hb Hr Hready. destruct (idewait_ok r e d Hr Hready) as [d1 E1].
  unfold IdePorts.idestart. replace (b_blockno b >=? FSSIZE) with false by lia.
  change (BSIZE / IdePorts.SECTOR_SIZE) with 1. cbn [Z.eqb Pos.eqb Z.gtb Z.compare Pos.compare Pos.compare_cont].
  rewrite (bind_Ret _ _ _ _ _ _ _ E1), Z.mul_1_r.
  unfold outb, outsl, emit. msteps.
  assert (H28 : 0 ≤ b_blockno b < 2 ^ 28) by (unfold FSSIZE in Hb; lia).
  pose proof (sector_split (b_blockno b) H28) as Hs.
  destruct (truthy _); eexists; (split; [reflexivity|]); repeat split; intros; rsimpl; unfold lba;
    cbn [last_out Z.eqb Pos.eqb mbind option_bind lookup list_lookup]; rewrite ?drive_bits, ?Hs; done.
Qed.
