(* ===== verification/Desc.v ===== *)
(** * Descriptor tables (mmu.h, seginit of vm.c, tvinit and idtinit of trap.c)

    The tables through which the processor enters the kernel.  Their bit fields
    are records; what the processor takes from them ([seg_base], [gate_offset],
    [may_int]) is defined on the fields.  [tvinit_protects]: code of privilege
    3 can enter the kernel by an [int] instruction through the gate of the
    system calls only, every gate leads to its own entry in the kernel's code
    segment, and only that of system calls leaves interrupts on. *)

From S2P Require Import Prelude State Spinlock Txn Trap.

(** [src/xv6-public/mmu.h:15] *)
Definition SEG_KCODE : nat := 1.
(** [src/xv6-public/mmu.h:16] *)
Definition SEG_KDATA : nat := 2.
(** [src/xv6-public/mmu.h:17] *)
Definition SEG_UCODE : nat := 3.
(** [src/xv6-public/mmu.h:18] *)
Definition SEG_UDATA : nat := 4.
(** [src/xv6-public/mmu.h:19] *)
Definition SEG_TSS : nat := 5.
(** [src/xv6-public/mmu.h:22] *)
Definition NSEGS : nat := 6.

(** [src/xv6-public/mmu.h:26-40] *)
Record segdesc := Segdesc {
  lim_15_0 : Z; base_15_0 : Z; base_23_16 : Z; sd_type : Z; sd_s : Z; sd_dpl : Z; sd_p : Z;
  lim_19_16 : Z; sd_avl : Z; sd_rsv1 : Z; sd_db : Z; sd_g : Z; base_31_24 : Z }.

(** [src/xv6-public/mmu.h:43-46] *)
Definition SEG (type base lim dpl : Z) : segdesc :=
  Segdesc (Z.land (Z.shiftr lim 12) 0xffff) (Z.land base 0xffff) (Z.land (Z.shiftr base 16) 0xff)
    type 1 dpl 1 (Z.shiftr lim 28) 0 0 1 1 (Z.shiftr base 24).

(** [src/xv6-public/mmu.h:47-50] *)
Definition SEG16 (type base lim dpl : Z) : segdesc :=
  Segdesc (Z.land lim 0xffff) (Z.land base 0xffff) (Z.land (Z.shiftr base 16) 0xff)
    type 1 dpl 1 (Z.shiftr lim 16) 0 0 1 0 (Z.shiftr base 24).

(** [src/xv6-public/mmu.h:53] *)
Definition DPL_USER : Z := 0x3.
(** [src/xv6-public/mmu.h:56] *)
Definition STA_X : Z := 0x8.
(** [src/xv6-public/mmu.h:57] *)
Definition STA_W : Z := 0x2.
(** [src/xv6-public/mmu.h:58] *)
Definition STA_R : Z := 0x2.
(** [src/xv6-public/mmu.h:61] *)
Definition STS_T32A : Z := 0x9.
(** [src/xv6-public/mmu.h:62] *)
Definition STS_IG32 : Z := 0xE.
(** [src/xv6-public/mmu.h:63] *)
Definition STS_TG32 : Z := 0xF.

(** [src/xv6-public/x86.h:62-72] the three words of the operand of [lgdt] *)
Definition lgdt (p size : Z) : list Z := [(size - 1) mod 2 ^ 16; p mod 2 ^ 16; Z.shiftr p 16].
(** [src/xv6-public/x86.h:76-86] the three words of the operand of [lidt] *)
Definition lidt (p size : Z) : list Z := [(size - 1) mod 2 ^ 16; p mod 2 ^ 16; Z.shiftr p 16].

(** [src/xv6-public/vm.c:15-30] on the table of the CPU that runs it, which is at [p]: the new
    table and the operand of [lgdt]; a descriptor has 8 bytes *)
Definition seginit (p : Z) (gdt : list segdesc) : list segdesc * list Z :=
  let gdt := <[SEG_KCODE := SEG (Z.lor STA_X STA_R) 0 0xffffffff 0]> gdt in
  let gdt := <[SEG_KDATA := SEG STA_W 0 0xffffffff 0]> gdt in
  let gdt := <[SEG_UCODE := SEG (Z.lor STA_X STA_R) 0 0xffffffff DPL_USER]> gdt in
  let gdt := <[SEG_UDATA := SEG STA_W 0 0xffffffff DPL_USER]> gdt in
  (gdt, lgdt p (8 * Z.of_nat NSEGS)).

(** [src/xv6-public/mmu.h:109-110] the fields that the kernel sets, [esp0], [ss0] and the last one; the structure has 104 bytes *)
Record taskstate := Taskstate { ts_esp0 : Z; ts_ss0 : Z; ts_iomb : Z }.
Definition sizeof_taskstate : Z := 104.

(** [src/xv6-public/vm.c:167-174] the task segment of the CPU, whose task state is at [ts] *)
Definition set_tss (ts kstack : Z) (gdt : list segdesc) : list segdesc * taskstate :=
  let d := SEG16 STS_T32A ts (sizeof_taskstate - 1) 0 in
  let d := Segdesc (lim_15_0 d) (base_15_0 d) (base_23_16 d) (sd_type d) 0 (sd_dpl d) (sd_p d)
             (lim_19_16 d) (sd_avl d) (sd_rsv1 d) (sd_db d) (sd_g d) (base_31_24 d) in
  (<[SEG_TSS := d]> gdt,
   Taskstate (wrap32 (kstack + KSTACKSIZE)) (Z.shiftl (Z.of_nat SEG_KDATA) 3) 0xFFFF).

(** [src/xv6-public/mmu.h:148-158] *)
Record gatedesc := Gatedesc {
  off_15_0 : Z; gd_cs : Z; gd_args : Z; gd_rsv1 : Z; gd_type : Z; gd_s : Z; gd_dpl : Z; gd_p : Z;
  off_31_16 : Z }.

(** [src/xv6-public/mmu.h:160-179] *)
Definition SETGATE (istrap : bool) (sel off d : Z) : gatedesc :=
  Gatedesc (Z.land off 0xffff) sel 0 0 (if istrap then STS_TG32 else STS_IG32) 0 d 1 (Z.shiftr off 16).

Section tvinit.
(** The 256 entry points of vectors.S, which the build generates. *)
Context (vectors : nat → Z).

(** [src/xv6-public/trap.c:22-23] the loop, from [i] on for [n] turns *)
Fixpoint set_gates (n i : nat) (idt : list gatedesc) : list gatedesc :=
  match n with
  | O => idt
  | S n => set_gates n (S i) (<[i := SETGATE false (Z.shiftl (Z.of_nat SEG_KCODE) 3) (vectors i) 0]> idt)
  end.

(** [src/xv6-public/trap.c:17-27] the table, and the lock of the ticks *)
Definition tvinit (idt : list gatedesc) : KM (list gatedesc) :=
  let idt := set_gates 256 0 idt in
  let t := Z.to_nat T_SYSCALL in
  let idt := <[t := SETGATE true (Z.shiftl (Z.of_nat SEG_KCODE) 3) (vectors t) DPL_USER]> idt in
  initlock LkTicks;;
  mret idt.

End tvinit.

(** [src/xv6-public/trap.c:29-33] the table is at [p] *)
Definition idtinit (p : Z) : list Z := lidt p (8 * 256).

(** ** What the processor takes from a descriptor *)

Definition seg_base (s : segdesc) : Z :=
  base_15_0 s + base_23_16 s * 2 ^ 16 + base_31_24 s * 2 ^ 24.
Definition seg_limit (s : segdesc) : Z :=
  let l := lim_15_0 s + lim_19_16 s * 2 ^ 16 in
  if sd_g s =? 1 then l * 4096 + 4095 else l.
Definition executable (s : segdesc) : bool :=
  (sd_p s =? 1) && (sd_s s =? 1) && Z.testbit (sd_type s) 3.

(** The address and the limit in the operand of [lgdt] and [lidt]. *)
Definition pd_base (pd : list Z) : Z := nth 1 pd 0 + nth 2 pd 0 * 2 ^ 16.
Definition pd_limit (pd : list Z) : Z := nth 0 pd 0.

Definition gate_offset (g : gatedesc) : Z := off_15_0 g + off_31_16 g * 2 ^ 16.
(** May code of privilege [cpl] name the gate in an [int] instruction? *)
Definition may_int (cpl : Z) (g : gatedesc) : bool := (gd_p g =? 1) && (cpl <=? gd_dpl g).
(** Entry through a trap gate leaves interrupts on. *)
Definition leaves_if (g : gatedesc) : bool := gd_type g =? STS_TG32.

(** Without privilege, I/O needs a permission bit of the task segment: that of a port is at byte
    [iomb + port / 8]. *)
Definition may_io (s : segdesc) (t : taskstate) (port : Z) : bool :=
  ts_iomb t + port / 8 <=? seg_limit s.

(** ** Facts *)

Lemma halves off : is_u32 off → Z.land off 0xffff + Z.shiftr off 16 * 2 ^ 16 = off.
Proof.
  intros. change 0xffff with (Z.ones 16). rewrite Z.land_ones, Z.shiftr_div_pow2 by lia.
  pose proof (Z.div_mod off (2 ^ 16)). lia.
Qed.

Lemma SETGATE_offset istrap sel off d : is_u32 off → gate_offset (SETGATE istrap sel off d) = off.
Proof. apply halves. Qed.

Lemma base_bytes base :
  is_u32 base →
  Z.land base 0xffff + Z.land (Z.shiftr base 16) 0xff * 2 ^ 16 + Z.shiftr base 24 * 2 ^ 24 = base.
Proof.
  intros [??]. change 0xffff with (Z.ones 16). change 0xff with (Z.ones 8).
  rewrite !Z.land_ones, !Z.shiftr_div_pow2 by lia.
  change (2 ^ 24) with (2 ^ 16 * 2 ^ 8). rewrite <- Z.div_div by lia.
  pose proof (Z.div_mod base (2 ^ 16)). pose proof (Z.div_mod (base / 2 ^ 16) (2 ^ 8)). lia.
Qed.

Lemma set_gates_spec vectors n i idt j :
  set_gates vectors n i idt !! j =
  if decide (i ≤ j < i + n)%nat
  then (if decide (j < length idt)%nat
        then Some (SETGATE false (Z.shiftl (Z.of_nat SEG_KCODE) 3) (vectors j) 0) else None)
  else idt !! j.
Proof.
  revert i idt. induction n as [|n IH]; intros i idt; cbn [set_gates].
  - rewrite decide_False by lia. done.
  - rewrite IH, length_insert. destruct (decide (i = j)) as [->|].
    + rewrite (decide_False (P := S j ≤ j < S j + n)%nat) by lia.
      rewrite (decide_True (P := j ≤ j < j + S n)%nat) by lia. case_decide.
      * by rewrite list_lookup_insert_eq by done.
      * apply lookup_ge_None. rewrite length_insert. lia.
    + rewrite list_lookup_insert_ne by done. repeat case_decide; (lia || done).
Qed.

Lemma length_set_gates vectors n i idt : length (set_gates vectors n i idt) = length idt.
Proof. revert i idt. induction n; intros; cbn [set_gates]; [done|]. by rewrite IHn, length_insert. Qed.

(** The kernel's task state: no port is open to user code, and the stack of a trap is the top of
    the process's kernel stack. *)
Lemma set_tss_no_user_io ts kstack gdt port :
  length gdt = NSEGS → is_u32 ts → 0 ≤ port → is_u32 (kstack + KSTACKSIZE) →
  ∃ s, (set_tss ts kstack gdt).1 !! SEG_TSS = Some s ∧ seg_base s = ts ∧
    may_io s (set_tss ts kstack gdt).2 port = false ∧
    ts_esp0 (set_tss ts kstack gdt).2 = kstack + KSTACKSIZE.
Proof.
  intros Hl Hts Hp Hk. eexists. split_and!.
  - cbn [set_tss fst]. apply list_lookup_insert_eq. rewrite Hl. unfold SEG_TSS, NSEGS. lia.
  - by apply base_bytes.
  - apply Z.leb_gt. change (103 < 0xFFFF + port / 8). pose proof (Z.div_pos port 8). lia.
  - by apply wrap32_small.
Qed.

(** The four flat segments of [seginit]. *)
Lemma seginit_flat p gdt i :
  length gdt = NSEGS → i ∈ [SEG_KCODE; SEG_KDATA; SEG_UCODE; SEG_UDATA] →
  ∃ s, (seginit p gdt).1 !! i = Some s ∧ seg_base s = 0 ∧ seg_limit s = 2 ^ 32 - 1 ∧
    sd_dpl s = (if decide (i < SEG_UCODE)%nat then 0 else DPL_USER) ∧
    executable s = bool_decide (i ∈ [SEG_KCODE; SEG_UCODE]).
Proof.
  intros Hl Hi. do 7 (destruct gdt as [|? gdt]; try done).
  rewrite !elem_of_cons, elem_of_nil in Hi. destruct Hi as [->|[->|[->|[->|[]]]]]; by eexists.
Qed.

Lemma lgdt_operand p size :
  is_u32 p → 0 < size ≤ 2 ^ 16 → pd_base (lgdt p size) = p ∧ pd_limit (lgdt p size) = size - 1.
Proof.
  intros Hp Hs. split; [|apply Z.mod_small; lia].
  change (p mod 2 ^ 16 + Z.shiftr p 16 * 2 ^ 16 = p).
  rewrite <- (Z.land_ones _ 16) by lia. by apply halves.
Qed.

(** C19 The tables of [tvinit] and [seginit] protect the kernel.  Code of privilege 3 can name one
    gate only in an [int] instruction, that of system calls; each of the 256 gates is present and
    leads to its own entry of vectors.S, in a segment that is executable, of privilege 0, and
    covers all addresses from 0; only entry by a system call leaves interrupts on.  The operand of
    [idtinit] names the whole table. *)
Theorem tvinit_protects vectors idt p gdt pi e k :
  length idt = 256%nat → length gdt = NSEGS → (∀ i, (i < 256)%nat → is_u32 (vectors i)) → is_u32 pi →
  ∃ idt' k', tvinit vectors idt e k = Ret idt' e k' ∧ lock_free k' LkTicks ∧ length idt' = 256%nat ∧
    (∀ n g, idt' !! n = Some g →
       gate_offset g = vectors n ∧ gd_p g = 1 ∧
       may_int DPL_USER g = bool_decide (Z.of_nat n = T_SYSCALL) ∧
       leaves_if g = bool_decide (Z.of_nat n = T_SYSCALL) ∧
       ∃ s, (seginit p gdt).1 !! Z.to_nat (Z.shiftr (gd_cs g) 3) = Some s ∧
         executable s = true ∧ sd_dpl s = 0 ∧ seg_base s = 0 ∧ seg_limit s = 2 ^ 32 - 1) ∧
    pd_base (idtinit pi) = pi ∧ pd_limit (idtinit pi) = 8 * Z.of_nat (length idt') - 1.
Proof.
  intros Hi Hg Hv Hpi. do 2 eexists. split; [reflexivity|]. rewrite length_insert, length_set_gates, Hi.
  split_and!; [| done | | by apply lgdt_operand | done].
  - apply lookup_insert_eq.
  - intros n g Hn.
    assert (n < 256)%nat as Hlt.
    { apply lookup_lt_Some in Hn. by rewrite length_insert, length_set_gates, Hi in Hn. }
    destruct (seginit_flat p gdt SEG_KCODE Hg ltac:(by left)) as (s & Es & Hb & Hlim & Hd & Hx).
    destruct (decide (n = 64%nat)) as [->|].
    + rewrite list_lookup_insert_eq in Hn by (rewrite length_set_gates, Hi; exact Hlt). injection Hn as <-.
      rewrite SETGATE_offset by auto. eauto 12.
    + rewrite list_lookup_insert_ne, set_gates_spec in Hn by done.
      rewrite Hi, !decide_True in Hn by lia. injection Hn as <-.
      rewrite SETGATE_offset by auto. rewrite bool_decide_eq_false_2 by (unfold T_SYSCALL; lia).
      eauto 12.
Qed.

Lemma tvinit_protects_witness :
  ∃ idt' e k', tvinit (λ i, 0x80105000 + 16 * Z.of_nat i) (replicate 256 (Gatedesc 0 0 0 0 0 0 0 0 0)) [] k_boot
               = Ret idt' e k' ∧ (may_int DPL_USER <$> idt' !! 64%nat) = Some true ∧
    (may_int DPL_USER <$> idt' !! 14%nat) = Some false.
Proof.
  destruct (tvinit_protects (λ i, 0x80105000 + 16 * Z.of_nat i) (replicate 256 (Gatedesc 0 0 0 0 0 0 0 0 0))
    0x80112000 (replicate 6 (SEG 0 0 0 0)) 0x80114000 [] k_boot)
    as (idt' & k' & E & _ & Hl & Hg & _); [done|done|unfold is_u32; lia|unfold is_u32; lia|].
  exists idt', [], k'. split; [done|].
  destruct (lookup_lt_is_Some_2 idt' 64) as [g Eg]; [lia|].
  destruct (lookup_lt_is_Some_2 idt' 14) as [h Eh]; [lia|].
  rewrite Eg, Eh. apply Hg in Eg, Eh. destruct Eg as (_ & _ & Eg & _). destruct Eh as (_ & _ & Eh & _).
  cbn. by rewrite Eg, Eh.
Defined.
