(* ===== verification/Mp.v ===== *)
(** * Detection of the processors (mp.c, mp.h)

    [mpinit] searches memory for the tables of the MultiProcessor Specification
    and walks the configuration table, an array of records of several sizes.
    The code is a function of the memory [m], by physical address.

    [mpinit_table]: a table of well-formed records is walked to its end, and the
    processors found are those of the table, in order, up to [NCPU].
    [mpinit_spins]: the walk never ends at a record of another type, since the
    [break] of that case leaves the [switch] and not the loop.
    [mpsearch1_spec]: the search finds the first structure that is valid. *)

From S2P Require Import Prelude State Mem Consout Dev.

(** [src/xv6-public/mp.h:49] *)
Definition MPPROC : Z := 0x00.
(** [src/xv6-public/mp.h:50] *)
Definition MPBUS : Z := 0x01.
(** [src/xv6-public/mp.h:51] *)
Definition MPIOAPIC : Z := 0x02.
(** [src/xv6-public/mp.h:52] *)
Definition MPIOINTR : Z := 0x03.
(** [src/xv6-public/mp.h:53] *)
Definition MPLINTR : Z := 0x04.

(** [src/xv6-public/mp.h:3-12] its size, and the offsets of the fields used *)
Definition sizeof_mp : Z := 16.
Definition mp_physaddr : Z := 4.
Definition mp_imcrp : Z := 12.

(** [src/xv6-public/mp.h:14-27] *)
Definition sizeof_mpconf : Z := 44.
Definition conf_length : Z := 4.
Definition conf_version : Z := 6.
Definition conf_lapicaddr : Z := 36.

(** [src/xv6-public/mp.h:29-38] *)
Definition sizeof_mpproc : Z := 20.
Definition proc_apicid : Z := 1.

(** [src/xv6-public/mp.h:40-46] *)
Definition sizeof_mpioapic : Z := 8.
Definition ioapic_apicno : Z := 1.

(** A 16-bit field. *)
Definition ld16 (m : mem) (a : Z) : Z := rd m a + 256 * rd m (a + 1).

(** [src/xv6-public/mp.c:18-27] *)
Definition sum (m : mem) (addr len : Z) : Z :=
  foldl (λ s i, s + rd m (addr + i)) 0 (seqZ 0 len) mod 256.

(** [memcmp] with a string literal. *)
Definition memeq (m : mem) (a : Z) (s : string) : bool :=
  bool_decide (rdn m a (String.length s) = codes s).

(** [src/xv6-public/mp.c:38-38] *)
Definition is_mp (m : mem) (p : Z) : bool := memeq m p "_MP_" && (sum m p sizeof_mp =? 0).

(** [src/xv6-public/mp.c:37-39] the loop *)
Fixpoint mpsearch_loop (fuel : nat) (m : mem) (p e : Z) : option Z :=
  match fuel with
  | O => None
  | S fuel =>
    if p <? e then if is_mp m p then Some p else mpsearch_loop fuel m (p + sizeof_mp) e
    else None
  end.

(** [src/xv6-public/mp.c:29-41] the loop makes a turn for every 16 bytes *)
Definition mpsearch1 (m : mem) (a len : Z) : option Z :=
  mpsearch_loop (Z.to_nat len) m a (a + len).

(** [src/xv6-public/mp.c:43-65] *)
Definition mpsearch (m : mem) : option Z :=
  let bda := 0x400 in
  let p := Z.shiftl (Z.lor (Z.shiftl (rd m (bda + 0x0F)) 8) (rd m (bda + 0x0E))) 4 in
  let found :=
    if truthy p then mpsearch1 m p 1024
    else
      let p := Z.lor (Z.shiftl (rd m (bda + 0x14)) 8) (rd m (bda + 0x13)) * 1024 in
      mpsearch1 m (wrap32 (p - 1024)) 1024 in
  match found with
  | Some mp => Some mp
  | None => mpsearch1 m 0xF0000 0x10000
  end.

(** [src/xv6-public/mp.c:67-89] the pointer and the table *)
Definition mpconfig (m : mem) : option (Z * Z) :=
  mp ← mpsearch m;
  let conf := ld32 m (mp + mp_physaddr) in
  if conf =? 0 then None else
  if negb (memeq m conf "PCMP") then None else
  let version := rd m (conf + conf_version) in
  if negb (version =? 1) && negb (version =? 4) then None else
  if negb (sum m conf (ld16 m (conf + conf_length)) =? 0) then None else
  Some (mp, conf).

(** What [mpinit] finds: [cpus[i].apicid] for [i < ncpu], [ioapicid], [ismp]. *)
Record mpfound := Mpfound { apicids : list Z; ioapicid : Z; ismp : bool }.

(** [src/xv6-public/mp.c:105-129] the loop from [p] on; none if [fuel] turns are not enough *)
Fixpoint mp_entries (fuel : nat) (m : mem) (p e : Z) (s : mpfound) : option mpfound :=
  match fuel with
  | O => None
  | S fuel =>
    if p <? e then
      let type := rd m p in
      if type =? MPPROC then
        let s := if decide (length (apicids s) < NCPU)%nat
                 then Mpfound (apicids s ++ [rd m (p + proc_apicid)]) (ioapicid s) (ismp s)
                 else s in
        mp_entries fuel m (p + sizeof_mpproc) e s
      else if type =? MPIOAPIC then
        mp_entries fuel m (p + sizeof_mpioapic) e
          (Mpfound (apicids s) (rd m (p + ioapic_apicno)) (ismp s))
      else if (type =? MPBUS) || (type =? MPIOINTR) || (type =? MPLINTR) then
        mp_entries fuel m (p + 8) e s
      else mp_entries fuel m p e (Mpfound (apicids s) (ioapicid s) false)
    else Some s
  end.

(** [src/xv6-public/mp.c:91-139] returns [lapic] and what was found *)
Definition mpinit (fuel : nat) (m : mem) : DM (Z * mpfound) :=
  match mpconfig m with
  | None => mpanic "Expect to run on an SMP"
  | Some (mp, conf) =>
    let lapic := ld32 m (conf + conf_lapicaddr) in
    let e := conf + ld16 m (conf + conf_length) in
    match mp_entries fuel m (conf + sizeof_mpconf) e (Mpfound [] 0 true) with
    | None => λ _ k, NoFuel k
    | Some s =>
      if negb (ismp s) then mpanic "Didn't find a suitable machine" else
      when (truthy (rd m (mp + mp_imcrp)))
        (outb 0x22 0x70;; v ← inb 0x23; outb 0x23 (Z.lor v 1));;
      mret (lapic, s)
    end
  end.

(** ** The search *)

Lemma mpsearch_loop_spec fuel m p e : e - p ≤ 16 * Z.of_nat fuel →
  match mpsearch_loop fuel m p e with
  | Some q => ∃ i, q = p + 16 * i ∧ 0 ≤ i ∧ q < e ∧ is_mp m q = true ∧
      ∀ j, 0 ≤ j < i → is_mp m (p + 16 * j) = false
  | None => ∀ j, 0 ≤ j → p + 16 * j < e → is_mp m (p + 16 * j) = false
  end.
Proof.
  revert p. induction fuel as [|fuel IH]; intros p Hf; cbn [mpsearch_loop].
  { intros j ??. lia. }
  destruct (Z.ltb_spec p e); [|intros j ??; lia].
  destruct (is_mp m p) eqn:Hp.
  { exists 0. rewrite Z.mul_0_r, Z.add_0_r. repeat split; [lia|done..|]. intros j ?. lia. }
  specialize (IH (p + sizeof_mp) ltac:(unfold sizeof_mp; lia)).
  assert (Hstep : ∀ j, p + sizeof_mp + 16 * (j - 1) = p + 16 * j) by (unfold sizeof_mp; lia).
  assert (Hfirst : ∀ j, j = 0 → is_mp m (p + 16 * j) = false).
  { intros j ->. by rewrite Z.mul_0_r, Z.add_0_r. }
  destruct (mpsearch_loop fuel m (p + sizeof_mp) e) as [q|].
  - destruct IH as (i & -> & Hi & Hq & Hmp & Hno). exists (i + 1).
    repeat split; [unfold sizeof_mp in *; lia..|done|]. intros j Hj.
    destruct (decide (j = 0)); [by apply Hfirst|]. rewrite <- Hstep. apply Hno. lia.
  - intros j Hj Hlt. destruct (decide (j = 0)); [by apply Hfirst|].
    rewrite <- Hstep. apply IH; [lia|]. rewrite Hstep. lia.
Qed.

(** [mpsearch1] returns the first structure of the region that has the signature and the
    checksum, and null only if there is none. *)
Lemma mpsearch1_spec m a len : 0 ≤ len →
  match mpsearch1 m a len with
  | Some q => ∃ i, q = a + 16 * i ∧ 0 ≤ i ∧ q < a + len ∧ is_mp m q = true ∧
      ∀ j, 0 ≤ j < i → is_mp m (a + 16 * j) = false
  | None => ∀ j, 0 ≤ j → a + 16 * j < a + len → is_mp m (a + 16 * j) = false
  end.
Proof. intros. apply (mpsearch_loop_spec (Z.to_nat len)). lia. Qed.

(** ** The table

    The records of a configuration table; the bytes that [mpinit] does not read are [rest]. *)

Inductive mpentry :=
  | EProc (apicid : Z) (rest : list Z)
  | EIoapic (apicno : Z) (rest : list Z)
  | EBus (rest : list Z)
  | EIointr (rest : list Z)
  | ELintr (rest : list Z).

Definition encode (x : mpentry) : list Z :=
  match x with
  | EProc id rest => MPPROC :: id :: rest
  | EIoapic no rest => MPIOAPIC :: no :: rest
  | EBus rest => MPBUS :: rest
  | EIointr rest => MPIOINTR :: rest
  | ELintr rest => MPLINTR :: rest
  end.

Definition entry_ok (x : mpentry) : Prop :=
  length (encode x) = match x with EProc _ _ => 20%nat | _ => 8%nat end.

(** What a record adds to what was found. *)
Definition add_entry (s : mpfound) (x : mpentry) : mpfound :=
  match x with
  | EProc id _ => Mpfound (take NCPU (apicids s ++ [id])) (ioapicid s) (ismp s)
  | EIoapic no _ => Mpfound (apicids s) no (ismp s)
  | _ => s
  end.

Lemma rdn_app m a n1 n2 : rdn m a (n1 + n2) = rdn m a n1 ++ rdn m (a + Z.of_nat n1) n2.
Proof.
  revert a. induction n1 as [|n1 IH]; intros a; cbn [rdn Nat.add app].
  - by rewrite Z.add_0_r.
  - rewrite IH. do 3 f_equal. lia.
Qed.

(** One turn of the loop, on a record at [p]. *)
Lemma mp_entry_step fuel m p e s x :
  entry_ok x → rdn m p (length (encode x)) = encode x → p < e →
  (length (apicids s) ≤ NCPU)%nat →
  mp_entries (S fuel) m p e s =
    mp_entries fuel m (p + Z.of_nat (length (encode x))) e (add_entry s x).
Proof.
  intros Hok Hrd Hp Hs. cbn [mp_entries]. replace (p <? e) with true by lia.
  unfold entry_ok in Hok. rewrite Hok in *.
  destruct x as [id rest|no rest|rest|rest|rest]; cbn [rdn encode] in Hrd.
  1: { injection Hrd as Hty Hid _. rewrite Hty. unfold proc_apicid. rewrite Hid. change (MPPROC =? MPPROC) with true. cbn [add_entry]. cbv zeta iota.
       case_decide as Hl.
       - rewrite take_ge by (rewrite length_app; cbn [length]; lia). done.
       - rewrite take_app_length' by lia. by destruct s. }
  1: { injection Hrd as Hty Hid _. rewrite Hty. unfold ioapic_apicno. by rewrite Hid. }
  all: injection Hrd as Hty _; by rewrite Hty.
Qed.

Lemma add_entry_bound s x :
  (length (apicids s) ≤ NCPU)%nat → (length (apicids (add_entry s x)) ≤ NCPU)%nat.
Proof. intros. destruct x; cbn [add_entry apicids]; try done. rewrite length_take. lia. Qed.

Lemma mp_entries_ok m es p s fuel :
  Forall entry_ok es → let bs := concat (encode <$> es) in
  rdn m p (length bs) = bs → (length (apicids s) ≤ NCPU)%nat → (length es < fuel)%nat →
  mp_entries fuel m p (p + Z.of_nat (length bs)) s = Some (foldl add_entry s es).
Proof.
  intros Hes. revert p s fuel. induction Hes as [|x es Hx _ IH]; intros p s fuel bs Hrd Hs Hf.
  { destruct fuel; [lia|]. subst bs. cbn [mp_entries fmap list_fmap concat length foldl]. rewrite Z.add_0_r, Z.ltb_irrefl. done. }
  destruct fuel as [|fuel]; [lia|]. subst bs. cbn [fmap list_fmap concat length] in *.
  rewrite length_app, rdn_app in Hrd. apply app_inj_1 in Hrd as [Hrd1 Hrd2]; [|apply length_rdn].
  assert (Hpos : (0 < length (encode x))%nat) by (by destruct x; cbn; lia).
  rewrite length_app, Nat2Z.inj_add.
  rewrite (mp_entry_step _ _ _ _ _ x Hx Hrd1) by lia. cbn [foldl].
  rewrite Z.add_assoc. apply IH; [done|by apply add_entry_bound|lia].
Qed.

(** The processors of a table, and its last I/O APIC. *)
Definition procs_of (es : list mpentry) : list Z :=
  omap (λ x, match x with EProc id _ => Some id | _ => None end) es.
Definition ioapic_of (es : list mpentry) : Z :=
  default 0 (last (omap (λ x, match x with EIoapic no _ => Some no | _ => None end) es)).

Lemma take_take_snoc {A} n (l : list A) x : take n (take n l ++ [x]) = take n (l ++ [x]).
Proof.
  destruct (decide (length l < n)%nat).
  - by rewrite (take_ge l) by lia.
  - rewrite !take_app_le by (rewrite ?length_take; lia). by rewrite take_take, Nat.min_id.
Qed.

Lemma add_entries es : foldl add_entry (Mpfound [] 0 true) es =
  Mpfound (take NCPU (procs_of es)) (ioapic_of es) true.
Proof.
  induction es as [|x es IH] using rev_ind; [done|].
  rewrite foldl_snoc, IH. unfold procs_of, ioapic_of.
  rewrite !omap_app.
  destruct x; cbn [add_entry apicids ioapicid ismp omap list_omap]; rewrite ?app_nil_r; try done.
  - by rewrite take_take_snoc.
  - by rewrite last_snoc.
Qed.

(** The walk at a record of a type that it does not know. *)
Lemma mp_entries_spin fuel m p e s : p < e → 4 < rd m p → mp_entries fuel m p e s = None.
Proof.
  intros Hp Ht. revert s. induction fuel as [|fuel IH]; intros s; [done|].
  cbn [mp_entries]. replace (p <? e) with true by lia.
  unfold MPPROC, MPIOAPIC, MPBUS, MPIOINTR, MPLINTR.
  replace (rd m p =? 0) with false by lia. replace (rd m p =? 2) with false by lia.
  replace (rd m p =? 1) with false by lia. replace (rd m p =? 3) with false by lia.
  replace (rd m p =? 4) with false by lia. apply IH.
Qed.

Lemma mp_entries_reach m es p e s fuel :
  Forall entry_ok es → let bs := concat (encode <$> es) in
  rdn m p (length bs) = bs → (length (apicids s) ≤ NCPU)%nat →
  p + Z.of_nat (length bs) < e → 4 < rd m (p + Z.of_nat (length bs)) →
  mp_entries fuel m p e s = None.
Proof.
  intros Hes. revert p s fuel. induction Hes as [|x es Hx _ IH]; intros p s fuel bs Hrd Hs He Ht.
  { subst bs. cbn in *. rewrite Z.add_0_r in *. by apply mp_entries_spin. }
  destruct fuel as [|fuel]; [done|]. subst bs. cbn [fmap list_fmap concat] in *.
  rewrite length_app, rdn_app in Hrd. apply app_inj_1 in Hrd as [Hrd1 Hrd2]; [|apply length_rdn].
  rewrite length_app, Nat2Z.inj_add, Z.add_assoc in He, Ht.
  rewrite (mp_entry_step _ _ _ _ _ x Hx Hrd1) by lia.
  apply IH; [done|by apply add_entry_bound|done..].
Qed.

(** ** Properties *)

(** The records [es] follow the header of the table that [mpconfig] finds. *)
Record table_at (m : mem) (mp conf : Z) (es : list mpentry) : Prop := {
  ta_conf : mpconfig m = Some (mp, conf);
  ta_ok : Forall entry_ok es;
  ta_bytes : let bs := concat (encode <$> es) in
    rdn m (conf + sizeof_mpconf) (length bs) = bs }.

(** C39 A configuration table whose length is that of its records, each of a type the
    specification defines, is walked to its end, with a turn for each record: [cpus] gets the
    first [NCPU] processors of the table in order, [ioapicid] the last I/O APIC, and [lapic] the
    address of the header. *)
Theorem mpinit_table m mp conf es fuel v e d :
  table_at m mp conf es →
  ld16 m (conf + conf_length) = sizeof_mpconf + Z.of_nat (length (concat (encode <$> es))) →
  (length es < fuel)%nat →
  ∃ d', mpinit fuel m (deliver v :: e) d =
    Ret (ld32 m (conf + conf_lapicaddr), Mpfound (take NCPU (procs_of es)) (ioapic_of es) true)
        (if truthy (rd m (mp + mp_imcrp)) then e else deliver v :: e) d'.
Proof.
  intros [Hc Hok Hb] Hlen Hf. unfold mpinit. rewrite Hc, Hlen, Z.add_assoc.
  rewrite (mp_entries_ok m es) by (done || (cbn; lia)). rewrite add_entries. cbn [ismp negb].
  destruct (truthy _); eexists; reflexivity.
Qed.

(** The loop of [mpinit] does not end at a record of an unknown type: when one follows the
    records [es] inside the table, no number of turns is enough, and the panic that the code
    has for this case is not reached. *)
Theorem mpinit_spins m mp conf es fuel e d :
  table_at m mp conf es →
  let next := sizeof_mpconf + Z.of_nat (length (concat (encode <$> es))) in
  next < ld16 m (conf + conf_length) → 4 < rd m (conf + next) →
  mpinit fuel m e d = NoFuel d.
Proof.
  intros [Hc Hok Hb] next Hlen Ht. unfold mpinit. rewrite Hc.
  rewrite (mp_entries_reach m es); try done.
  - cbn. lia.
  - subst next. lia.
  - by rewrite <- Z.add_assoc.
Qed.

(** A machine with two processors: bytes at their addresses. *)
Definition put (a : Z) (l : list Z) : mem := list_to_map (zip (seqZ a (Z.of_nat (length l))) l).

Definition zeros (n : nat) : list Z := replicate n 0.

(** A byte that makes the sum of [l] and itself 0. *)
Definition check (l : list Z) : Z := (- foldr Z.add 0 l) mod 256.

Definition machine (records : list Z) : mem :=
  let len := 44 + Z.of_nat (length records) in
  let mp1 := codes "_MP_" ++ [0x00; 0xFD; 0x09; 0x00; 1; 4] in
  let h1 := codes "PCMP" ++ [len; 0; 4] in
  let h2 := zeros 28 ++ [0x00; 0x00; 0xE0; 0xFE] ++ zeros 4 ++ records in
  put 0x40E [0xC0; 0x9F] ∪ put 0x9FC00 (mp1 ++ check mp1 :: zeros 5) ∪
  put 0x9FD00 (h1 ++ check (h1 ++ h2) :: h2).

Definition two_cpus : list mpentry :=
  [EProc 0 (zeros 18); EProc 1 (zeros 18); EBus (zeros 7); EIoapic 2 (zeros 6)].

Lemma two_cpus_table extra : extra = [] ∨ extra = [9] →
  table_at (machine (concat (encode <$> two_cpus) ++ extra)) 0x9FC00 0x9FD00 two_cpus.
Proof.
  intros [-> | ->]; split; try (by vm_compute);
    repeat (apply Forall_cons; split; [done|]); by apply Forall_nil.
Qed.

Lemma mpinit_table_witness :
  ∃ d', mpinit 5 (machine (concat (encode <$> two_cpus) ++ [])) [deliver 0] (Dev [] 0 false false) =
    Ret (0xFEE00000, Mpfound [0; 1] 2 true) [deliver 0] d'.
Proof.
  destruct (mpinit_table (machine (concat (encode <$> two_cpus) ++ [])) 0x9FC00 0x9FD00 two_cpus 5 0
              [] (Dev [] 0 false false)) as [d' E].
  - apply two_cpus_table. by left.
  - by vm_compute.
  - cbn. lia.
  - exists d'. rewrite E. f_equal; by vm_compute.
Defined.

Lemma mpinit_spins_witness :
  mpinit 1000 (machine (concat (encode <$> two_cpus) ++ [9])) [] (Dev [] 0 false false) =
    NoFuel (Dev [] 0 false false).
Proof.
  apply (mpinit_spins (machine (concat (encode <$> two_cpus) ++ [9])) 0x9FC00 0x9FD00 two_cpus 1000 []
           (Dev [] 0 false false)).
  - apply two_cpus_table. by right.
  - by vm_compute.
  - by vm_compute.
Defined.
