(* ===== verification/Boot.v ===== *)
(** * The boot loader (bootmain.c, the boot page table of main.c)

    [bootmain] reads the kernel's ELF image from sector 1 on, with programmed
    I/O, and returns the entry point to jump to.  The drive is modelled by the
    bytes of the disk, the registers last written, the sector that a read
    command has selected and the status that it shows at each poll, which is a
    parameter: a drive may be busy for as long as it likes.

    [bootmain_loads]: on an image whose segments are in increasing order every
    segment is in place at the end, its file part and its zeros, although a
    segment is read by whole sectors, which overwrites memory before and after
    it; on an image that is not ELF the loader returns. *)

From S2P Require Import Prelude State Mem Vm Exec Mp.

(** ** The drive *)

(** The memory; the registers last written; the sector and the number of sectors that the drive
    delivers next; how often it has changed its state, and the polls since then. *)
Record boot := Boot
  { bt_mem : mem; bt_reg : gmap Z Z; bt_data : option (Z * Z); bt_phase : nat; bt_polls : nat }.

#[export] Instance boot_eta : Settable boot :=
  λ b, Boot (bt_mem b) (bt_reg b) (bt_data b) (bt_phase b) (bt_polls b).
#[export] Instance set_bt_mem : Setter bt_mem.
Proof. solve_setter. Defined.
#[export] Instance set_bt_reg : Setter bt_reg.
Proof. solve_setter. Defined.
#[export] Instance set_bt_data : Setter bt_data.
Proof. solve_setter. Defined.
#[export] Instance set_bt_phase : Setter bt_phase.
Proof. solve_setter. Defined.
#[export] Instance set_bt_polls : Setter bt_polls.
Proof. solve_setter. Defined.

Abbreviation BM := (M boot).

(** [src/xv6-public/bootmain.c:13] *)
Definition SECTSIZE : Z := 512.

(** The sector number in the registers, 28 bits. *)
Definition lba (r : gmap Z Z) : Z :=
  default 0 (r !! 0x1F3) + default 0 (r !! 0x1F4) * 2 ^ 8 + default 0 (r !! 0x1F5) * 2 ^ 16 +
  default 0 (r !! 0x1F6) mod 16 * 2 ^ 24.

Section bootmain.
(** The bytes of the disk; the status in each state of the drive at each poll. *)
Context (disk : Z → Z) (status : nat → nat → Z).

(** Bytes of the disk, and of the kernel's image, which starts at sector 1. *)
Definition bytes_from (a : Z) (n : Z) : list Z := (λ i, disk (a + i) mod 256) <$> seqZ 0 n.
Definition image (o : Z) : Z := disk (SECTSIZE + o) mod 256.

(** The drive moves to its next state. *)
Definition next_phase (b : boot) : boot := b <| bt_phase ::= S |> <| bt_polls := 0%nat |>.

(** [src/xv6-public/x86.h:3-10] on the status register *)
Definition inb (port : Z) : BM Z :=
  if negb (port =? 0x1F7) then mfault else
  v ← gets (λ b, status (bt_phase b) (bt_polls b));
  modify (λ b, b <| bt_polls ::= S |>);;
  mret (v mod 256).

(** [src/xv6-public/x86.h:21-25] 0x20 in the command register selects the sectors to deliver *)
Definition outb (port data : Z) : BM unit :=
  if port =? 0x1F7 then
    if negb (data =? 0x20) then mfault else
    modify (λ b, next_phase (b <| bt_data := Some (lba (bt_reg b), default 0 (bt_reg b !! 0x1F2)) |>))
  else modify (λ b, b <| bt_reg ::= <[port := data mod 256]> |>).

(** [src/xv6-public/x86.h:12-19] all of the selected sectors are read at once *)
Definition insl (port addr cnt : Z) : BM unit :=
  d ← gets bt_data;
  match d with
  | Some (s, n) =>
    if negb ((port =? 0x1F0) && (4 * cnt =? SECTSIZE * n)) then mfault else
    modify (λ b, next_phase (b <| bt_mem ::= λ m, wrn m addr (bytes_from (SECTSIZE * s) (4 * cnt)) |>
                               <| bt_data := None |>))
  | None => mfault
  end.

(** ** The loader *)

(** [src/xv6-public/bootmain.c:50-56] for at most [fuel] polls *)
Definition waitdisk (fuel : nat) : BM unit :=
  mloop fuel (v ← inb 0x1F7; mret (if negb (Z.land v 0xC0 =? 0x40) then inl tt else inr tt)).

(** [src/xv6-public/bootmain.c:58-74] *)
Definition readsect (fuel : nat) (dst offset : Z) : BM unit :=
  waitdisk fuel;;
  outb 0x1F2 1;;
  outb 0x1F3 offset;;
  outb 0x1F4 (Z.shiftr offset 8);;
  outb 0x1F5 (Z.shiftr offset 16);;
  outb 0x1F6 (Z.lor (Z.shiftr offset 24) 0xE0);;
  outb 0x1F7 0x20;;
  waitdisk fuel;;
  insl 0x1F0 dst (SECTSIZE / 4).

(** [src/xv6-public/bootmain.c:94-95] the loop, for at most [n] sectors *)
Fixpoint readseg_loop (fuel n : nat) (pa epa offset : Z) : BM unit :=
  if pa <? epa then
    match n with
    | O => λ _ b, NoFuel b
    | S n => readsect fuel pa offset;; readseg_loop fuel n (wrap32 (pa + SECTSIZE)) epa (wrap32 (offset + 1))
    end
  else mret tt.

(** [src/xv6-public/bootmain.c:76-96] *)
Definition readseg (fuel : nat) (pa count offset : Z) : BM unit :=
  let epa := wrap32 (pa + count) in
  let pa := wrap32 (pa - offset mod SECTSIZE) in
  let offset := offset / SECTSIZE + 1 in
  readseg_loop fuel (Z.to_nat ((epa - pa) / SECTSIZE + 1)) pa epa offset.

(** [src/xv6-public/elf.h:6-22] offsets of the fields that are read *)
Definition eh_entry : Z := 24.
Definition eh_phoff : Z := 28.
Definition eh_phnum : Z := 44.
(** [src/xv6-public/elf.h:25-34] *)
Definition sizeof_proghdr : Z := 32.
Definition ph_off : Z := 4.
Definition ph_paddr : Z := 12.
Definition ph_filesz : Z := 16.
Definition ph_memsz : Z := 20.

(** [src/xv6-public/bootmain.c:37-42] the loop, for at most [n] headers *)
Fixpoint load_segments (fuel n : nat) (ph eph : Z) : BM unit :=
  if ph <? eph then
    match n with
    | O => λ _ b, NoFuel b
    | S n =>
      pa ← gets (λ b, ld32 (bt_mem b) (ph + ph_paddr));
      filesz ← gets (λ b, ld32 (bt_mem b) (ph + ph_filesz));
      off ← gets (λ b, ld32 (bt_mem b) (ph + ph_off));
      readseg fuel pa filesz off;;
      memsz ← gets (λ b, ld32 (bt_mem b) (ph + ph_memsz));
      filesz ← gets (λ b, ld32 (bt_mem b) (ph + ph_filesz));
      when (memsz >? filesz)
        (modify (λ b, b <| bt_mem ::= λ m, stosb m (wrap32 (pa + filesz)) 0 (Z.to_nat (memsz - filesz)) |>));;
      load_segments fuel n (wrap32 (ph + sizeof_proghdr)) eph
    end
  else mret tt.

(** [src/xv6-public/bootmain.c:17-48] the entry point that it calls, or [None] if it returns *)
Definition bootmain (fuel : nat) : BM (option Z) :=
  let elf := 0x10000 in
  readseg fuel elf 4096 0;;
  magic ← gets (λ b, ld32 (bt_mem b) elf);
  if negb (magic =? ELF_MAGIC) then mret None else
  phoff ← gets (λ b, ld32 (bt_mem b) (elf + eh_phoff));
  phnum ← gets (λ b, ld16 (bt_mem b) (elf + eh_phnum));
  let ph := wrap32 (elf + phoff) in
  let eph := wrap32 (ph + sizeof_proghdr * phnum) in
  load_segments fuel (Z.to_nat phnum) ph eph;;
  entry ← gets (λ b, ld32 (bt_mem b) (elf + eh_entry));
  mret (Some entry).

(** ** Images *)

(** A number and a program header of the image. *)
Definition image32 (o : Z) : Z :=
  image o + 256 * (image (o + 1) + 256 * (image (o + 2) + 256 * image (o + 3))).
Definition image16 (o : Z) : Z := image o + 256 * image (o + 1).

Record seg := Seg { g_off : Z; g_paddr : Z; g_filesz : Z; g_memsz : Z }.

Definition header (o : Z) : seg :=
  Seg (image32 (o + ph_off)) (image32 (o + ph_paddr)) (image32 (o + ph_filesz)) (image32 (o + ph_memsz)).
Fixpoint headers (n : nat) (o : Z) : list seg :=
  match n with O => [] | S n => header o :: headers n (o + sizeof_proghdr) end.
Definition segments : list seg := headers (Z.to_nat (image16 eh_phnum)) (image32 eh_phoff).

(** The sectors read for a segment, where the first one goes, and where the segment and what is
    written for it end. *)
Definition sectors (s : seg) : Z := (g_off s mod SECTSIZE + g_filesz s + 511) / SECTSIZE.
Definition seg_lo (s : seg) : Z := g_paddr s - g_off s mod SECTSIZE.
Definition seg_end (s : seg) : Z := g_paddr s + Z.max (g_filesz s) (g_memsz s).
Definition seg_hi (s : seg) : Z := Z.max (seg_lo s + SECTSIZE * sectors s) (g_paddr s + g_memsz s).

(** The sectors read for each segment begin where the segment before has ended or above, what is
    written is in memory and not in the loader's header page, and the sectors have numbers. *)
Fixpoint segs_ok (floor : Z) (l : list seg) : bool :=
  match l with
  | [] => true
  | s :: l =>
    (floor <=? seg_lo s) && (seg_hi s <? 2 ^ 32) && ((seg_hi s <=? 0x10000) || (0x11000 <=? seg_lo s)) &&
    (g_off s / SECTSIZE + sectors s <? 2 ^ 28) && segs_ok (seg_end s) l
  end.

(** The first page holds all of the program headers. *)
Definition image_ok : bool :=
  (image32 eh_phoff + sizeof_proghdr * image16 eh_phnum <=? 4096) && segs_ok 0 segments.

(** The segment is in place. *)
Definition loaded (m : mem) (s : seg) : Prop :=
  ∀ i, 0 ≤ i < Z.max (g_filesz s) (g_memsz s) →
    rd m (g_paddr s + i) = if decide (i < g_filesz s) then image (g_off s + i) else 0.

(** In each of its states the drive is ready at one of the first [fuel] polls. *)
Definition gets_ready (fuel : nat) : Prop :=
  ∀ n, ∃ j, (j < fuel)%nat ∧ Z.land (status n j mod 256) 0xC0 = 0x40.

(** ** Facts *)

Section ready.
Context (fuel : nat) (Hready : gets_ready fuel).

Lemma waitdisk_ok e b :
  bt_polls b = 0%nat →
  ∃ p, waitdisk fuel e b = Ret tt e (b <| bt_polls := p |>).
Proof.
  intros Hb. destruct (Hready (bt_phase b)) as (j & Hj & Hst).
  assert (∀ n q c, (q ≤ j)%nat → (j < q + n)%nat → c = b <| bt_polls := q |> →
    ∃ p, waitdisk n e c = Ret tt e (b <| bt_polls := p |>)) as H; [|by apply (H fuel 0%nat b); [lia..|destruct b; cbn in *; by subst]].
  induction n as [|n IH]; [lia|]. intros q c Hq Hn ->. unfold waitdisk. cbn [mloop].
  change (mloop n _) with (waitdisk n). unfold inb. cbn [negb Z.eqb Pos.eqb]. asteps. change (status _ _) with (status (bt_phase b) q).
  destruct (Z.land (status (bt_phase b) q mod 256) 192 =? 64) eqn:E; cbn.
  - by exists (S q).
  - apply (IH (S q)); [|lia|done]. destruct (decide (q = j)) as [->|]; [|lia].
    apply Z.eqb_neq in E. done.
Qed.

Lemma lba_bytes s :
  0 ≤ s < 2 ^ 28 →
  s mod 256 + Z.shiftr s 8 mod 256 * 2 ^ 8 + Z.shiftr s 16 mod 256 * 2 ^ 16 +
  Z.lor (Z.shiftr s 24) 0xE0 mod 256 mod 16 * 2 ^ 24 = s.
Proof.
  intros. rewrite !Z.shiftr_div_pow2 by lia.
  replace (Z.lor (s / 2 ^ 24) 0xE0 mod 256 mod 16) with (s / 2 ^ 24).
  - change 256 with (2 ^ 8). pose proof (Z.div_mod s (2 ^ 8)). pose proof (Z.div_mod (s / 2 ^ 8) (2 ^ 8)).
    pose proof (Z.div_mod (s / 2 ^ 16) (2 ^ 8)). rewrite (Z.div_div s (2 ^ 8) (2 ^ 8)) in * by lia.
    rewrite (Z.div_div s (2 ^ 16) (2 ^ 8)) in * by lia. change (2 ^ 8 * 2 ^ 8) with (2 ^ 16) in *.
    change (2 ^ 16 * 2 ^ 8) with (2 ^ 24) in *. lia.
  - assert (0 ≤ s / 2 ^ 24 < 16) as Hr.
    { split; [apply Z.div_pos; lia|]. apply Z.div_lt_upper_bound; lia. }
    apply Z.eqb_eq. by apply (range_forallb 16 (λ x, x =? Z.lor x 0xE0 mod 256 mod 16)).
Qed.

Lemma readsect_ok dst s e b :
  bt_polls b = 0%nat → 0 ≤ s < 2 ^ 28 →
  ∃ b', readsect fuel dst s e b = Ret tt e b' ∧ bt_polls b' = 0%nat ∧
    ∀ a, rd (bt_mem b') a =
      if decide (dst ≤ a < dst + SECTSIZE) then disk (SECTSIZE * s + (a - dst)) mod 256 else rd (bt_mem b) a.
Proof.
  intros Hb Hs. unfold readsect. destruct (waitdisk_ok e b Hb) as [p E]. mgo (exact E).
  unfold outb. cbn [Z.eqb Pos.eqb negb]. asteps.
  set (b1 := next_phase _). destruct (waitdisk_ok e b1 eq_refl) as [q E1]. mgo (exact E1).
  unfold insl. asteps.
  assert (bt_data (b1 <| bt_polls := q |>) = Some (s, 1)) as ->.
  { change (Some (lba (bt_reg b1), default 0 (bt_reg b1 !! 0x1F2)) = Some (s, 1)).
    unfold lba, b1. cbn. simplify_map_eq. cbn. by rewrite lba_bytes. }
  eexists. split; [reflexivity|]. split; [done|]. intros a.
  change (rd (wrn (bt_mem b) dst (bytes_from (SECTSIZE * s) 512)) a = 
     if decide (dst ≤ a < dst + SECTSIZE) then disk (SECTSIZE * s + (a - dst)) mod 256 else rd (bt_mem b) a).
  rewrite rd_wrn. unfold bytes_from. rewrite length_fmap, length_seqZ. case_decide as Ha; [|by rewrite decide_False by (unfold SECTSIZE; lia)].
  rewrite decide_True by (unfold SECTSIZE; lia).
  rewrite list_lookup_fmap, lookup_seqZ_lt by lia. cbn. rewrite Z2Nat.id, Zmod_mod by lia. done.
Qed.

(** Reading [N] sectors from [pa] on. *)
Lemma readseg_loop_ok epa e N n pa s b :
  bt_polls b = 0%nat → (N ≤ n)%nat → 0 ≤ pa → 0 ≤ s →
  epa ≤ pa + SECTSIZE * Z.of_nat N → (N ≠ 0%nat → pa + SECTSIZE * (Z.of_nat N - 1) < epa) →
  pa + SECTSIZE * Z.of_nat N < 2 ^ 32 → s + Z.of_nat N ≤ 2 ^ 28 →
  ∃ b', readseg_loop fuel n pa epa s e b = Ret tt e b' ∧ bt_polls b' = 0%nat ∧
    ∀ a, rd (bt_mem b') a =
      if decide (pa ≤ a < pa + SECTSIZE * Z.of_nat N) then disk (SECTSIZE * s + (a - pa)) mod 256
      else rd (bt_mem b) a.
Proof.
  unfold SECTSIZE. revert n pa s b. induction N as [|N IH]; intros n pa s b Hb Hn Hpa Hs He Hl Hw Hd.
  - exists b. destruct n; cbn [readseg_loop]; (destruct (Z.ltb_spec pa epa); [lia|]);
      (split_and!; [done..|]); intros; by rewrite decide_False by lia.
  - specialize (Hl ltac:(done)). destruct n as [|n]; [lia|]. cbn [readseg_loop].
    destruct (Z.ltb_spec pa epa); [|lia].
    destruct (readsect_ok pa s e b Hb) as (b1 & E1 & Hb1 & Hm1); [lia|]. mgo (exact E1).
    unfold SECTSIZE in *. rewrite !wrap32_small by (unfold is_u32; lia).
    destruct (IH n (pa + 512) (s + 1) b1) as (b2 & E2 & Hb2 & Hm2); try (done || lia).
    exists b2. split_and!; [done..|]. intros a. rewrite Hm2, Hm1.
    repeat case_decide; try lia; f_equal; f_equal; lia.
Qed.

(** What is written for a segment by [readseg]. *)
Lemma readseg_ok s e b :
  bt_polls b = 0%nat → is_u32 (g_off s) → is_u32 (g_paddr s) → is_u32 (g_filesz s) →
  0 ≤ seg_lo s → seg_hi s < 2 ^ 32 → g_off s / SECTSIZE + sectors s < 2 ^ 28 →
  ∃ b', readseg fuel (g_paddr s) (g_filesz s) (g_off s) e b = Ret tt e b' ∧ bt_polls b' = 0%nat ∧
    ∀ a, rd (bt_mem b') a =
      if decide (seg_lo s ≤ a < seg_lo s + SECTSIZE * sectors s) then image (g_off s + (a - g_paddr s))
      else rd (bt_mem b) a.
Proof.
  unfold seg_hi, seg_lo, sectors, is_u32, SECTSIZE. intros Hb Ho Hp Hf Hlo Hhi Hd.
  set (r := g_off s mod 512) in *. assert (0 ≤ r < 512) as Hr by (apply Z.mod_pos_bound; lia).
  set (N := (r + g_filesz s + 511) / 512) in *.
  assert (512 * N ≤ r + g_filesz s + 511 < 512 * N + 512) as HN.
  { pose proof (Z.div_mod (r + g_filesz s + 511) 512). pose proof (Z.mod_pos_bound (r + g_filesz s + 511) 512). lia. }
  pose proof (Z.div_mod (g_off s) 512) as Hoff. fold r in Hoff.
  assert (0 ≤ g_off s / 512) by (apply Z.div_pos; lia).
  unfold readseg, SECTSIZE. fold r. rewrite !wrap32_small by (unfold is_u32; lia).
  edestruct (readseg_loop_ok (g_paddr s + g_filesz s) e (Z.to_nat N)
    (Z.to_nat ((g_paddr s + g_filesz s - (g_paddr s - r)) / 512 + 1)) (g_paddr s - r) (g_off s / 512 + 1) b)
    as (b' & E & Hb' & Hm); unfold SECTSIZE; try lia.
  { apply Z2Nat.inj_le; [lia| |].
    - pose proof (Z.div_pos (g_paddr s + g_filesz s - (g_paddr s - r)) 512). lia.
    - replace (g_paddr s + g_filesz s - (g_paddr s - r)) with (r + g_filesz s) by lia.
      pose proof (Z.div_mod (r + g_filesz s) 512). pose proof (Z.mod_pos_bound (r + g_filesz s) 512). lia. }
  exists b'. split_and!; [done..|]. intros a. rewrite Hm. unfold image, SECTSIZE.
  rewrite Z2Nat.id by lia. case_decide; [|done]. f_equal. f_equal. lia.
Qed.

(** The first page of the image is in memory. *)
Definition paged (m : mem) : Prop := ∀ o, 0 ≤ o < 4096 → rd m (0x10000 + o) = image o.

Lemma image_byte o : 0 ≤ image o < 256.
Proof. apply Z.mod_pos_bound. lia. Qed.

Lemma image32_u32 o : is_u32 (image32 o).
Proof.
  unfold image32, is_u32. pose proof (image_byte o). pose proof (image_byte (o + 1)).
  pose proof (image_byte (o + 2)). pose proof (image_byte (o + 3)). lia.
Qed.

Lemma paged_ld32 m o : paged m → 0 ≤ o → o + 4 ≤ 4096 → ld32 m (0x10000 + o) = image32 o.
Proof. intros Hm ??. unfold ld32, image32. rewrite <- !Z.add_assoc, !Hm by lia. done. Qed.

Lemma paged_ld16 m o : paged m → 0 ≤ o → o + 2 ≤ 4096 → ld16 m (0x10000 + o) = image16 o.
Proof. intros Hm ??. unfold ld16, image16. rewrite <- !Z.add_assoc, !Hm by lia. done. Qed.

(** One turn of the loop, with what it leaves alone. *)
Lemma load_segment_ok n o eph e b :
  let s := header o in
  paged (bt_mem b) → bt_polls b = 0%nat → 0 ≤ o → o + sizeof_proghdr ≤ 4096 → 0x10000 + o < eph →
  0 ≤ seg_lo s → seg_hi s < 2 ^ 32 → seg_hi s ≤ 0x10000 ∨ 0x11000 ≤ seg_lo s →
  g_off s / SECTSIZE + sectors s < 2 ^ 28 →
  ∃ b', load_segments fuel (S n) (0x10000 + o) eph e b =
        load_segments fuel n (0x10000 + (o + sizeof_proghdr)) eph e b' ∧
    paged (bt_mem b') ∧ bt_polls b' = 0%nat ∧ loaded (bt_mem b') s ∧
    ∀ a, a < seg_lo s → rd (bt_mem b') a = rd (bt_mem b) a.
Proof.
  intros s Hp Hb Ho Hl He Hlo Hhi Hdis Hsec. unfold sizeof_proghdr in *.
  assert (is_u32 (g_off s) ∧ is_u32 (g_paddr s) ∧ is_u32 (g_filesz s) ∧ is_u32 (g_memsz s))
    as (Uo & Up & Uf & Um) by (split_and!; apply image32_u32).
  destruct (readseg_ok s e b) as (b1 & E1 & Hb1 & Hm1); [done..|].
  cbn [load_segments]. destruct (Z.ltb_spec (0x10000 + o) eph); [|lia]. asteps.
  rewrite <- !(Z.add_assoc 0x10000). rewrite !(paged_ld32 (bt_mem b)) by (done || unfold ph_paddr, ph_filesz, ph_off; lia).
  mgo (exact E1). asteps.
  assert (paged (bt_mem b1)) as Hp1.
  { intros o' Ho'. rewrite Hm1, decide_False; [by apply Hp|]. unfold seg_hi in *. lia. }
  rewrite !(paged_ld32 (bt_mem b1)) by (done || unfold ph_memsz, ph_filesz; lia).
  change (image32 (o + ph_memsz)) with (g_memsz s). change (image32 (o + ph_filesz)) with (g_filesz s).
  change (image32 (o + ph_paddr)) with (g_paddr s).
  unfold is_u32 in *. rewrite (wrap32_small (0x10000 + (o + sizeof_proghdr))) by (unfold is_u32, sizeof_proghdr; lia).
  assert (∀ i, 0 ≤ i < g_filesz s → rd (bt_mem b1) (g_paddr s + i) = image (g_off s + i)) as Hfile.
  { intros i Hi. rewrite Hm1, decide_True; [f_equal; lia|]. unfold seg_lo, sectors, SECTSIZE. dlia. }
  destruct (Z.gtb_spec (g_memsz s) (g_filesz s)); cbn [when].
  - asteps. eexists. split; [reflexivity|]. unfold seg_hi, seg_lo in *.
    assert (0 ≤ g_off s mod SECTSIZE) by (apply Z.mod_pos_bound; done).
    rewrite wrap32_small by (unfold is_u32; lia). cbn [bt_polls].
    change (bt_mem (b1 <| bt_mem ::= _ |>)) with
      (stosb (bt_mem b1) (g_paddr s + g_filesz s) 0 (Z.to_nat (g_memsz s - g_filesz s))).
    split_and!; [|done|..].
    + intros o' Ho'. rewrite stosb_spec, decide_False by lia. by apply Hp1.
    + intros i Hi. rewrite stosb_spec. repeat case_decide; first [lia | done | apply Hfile; lia].
    + intros a Ha. rewrite stosb_spec, decide_False, Hm1, decide_False by lia. done.
  - asteps. exists b1. split_and!; [done..| |].
    + intros i Hi. rewrite decide_True, Hfile by lia. done.
    + intros a Ha. rewrite Hm1, decide_False by lia. done.
Qed.

Lemma load_segments_ok n o floor e b :
  paged (bt_mem b) → bt_polls b = 0%nat → 0 ≤ floor → 0 ≤ o → o + sizeof_proghdr * Z.of_nat n ≤ 4096 →
  segs_ok floor (headers n o) = true →
  ∃ b', load_segments fuel n (0x10000 + o) (0x10000 + (o + sizeof_proghdr * Z.of_nat n)) e b = Ret tt e b' ∧
    paged (bt_mem b') ∧ Forall (loaded (bt_mem b')) (headers n o) ∧
    ∀ a, a < floor → rd (bt_mem b') a = rd (bt_mem b) a.
Proof.
  revert o floor b. induction n as [|n IH]; intros o floor b Hp Hb Hf Ho Hl Hok.
  - exists b. cbn [load_segments]. rewrite Z.mul_0_r, Z.add_0_r, Z.ltb_irrefl. split_and!; (done || constructor).
  - cbn [headers segs_ok] in Hok.
    rewrite !andb_true_iff, orb_true_iff, !Z.leb_le, !Z.ltb_lt in Hok. destruct Hok as [[[[H1 H2] H3] H4] H5].
    unfold sizeof_proghdr in Hl.
    destruct (load_segment_ok n o (0x10000 + (o + sizeof_proghdr * Z.of_nat (S n))) e b)
      as (b1 & E1 & Hp1 & Hb1 & Hld & Hlow); try (done || unfold sizeof_proghdr; lia).
    assert (0 ≤ seg_end (header o)) as He.
    { unfold seg_end. pose proof (image32_u32 (o + ph_paddr)) as [? _]. pose proof (image32_u32 (o + ph_filesz)) as [? _].
      cbn [header g_paddr g_filesz g_memsz]. lia. }
    destruct (IH (o + sizeof_proghdr) (seg_end (header o)) b1) as (b2 & E2 & Hp2 & Hl2 & Hlow2);
      try (done || unfold sizeof_proghdr; lia).
    exists b2. rewrite E1. split_and!; [|done| |].
    + rewrite <- E2. f_equal. unfold sizeof_proghdr. lia.
    + constructor; [|done]. intros i Hi. rewrite Hlow2; [by apply Hld|]. unfold seg_end. lia.
    + intros a Ha. rewrite Hlow2, Hlow; [done|lia|].
      unfold seg_end, seg_lo, SECTSIZE in *. pose proof (Z.mod_pos_bound (g_off (header o)) 512). 
      pose proof (image32_u32 (o + ph_filesz)) as [? _]. cbn [header g_filesz] in *. lia.
Qed.

End ready.
End bootmain.

(** C20 The boot loader loads the kernel, for any drive that becomes ready within [fuel] polls each
    time.  If the image starts with ELF's magic number, its program headers are on the first page and
    its segments are in order, the loader calls the image's entry point with every segment
    in memory: the bytes of the file, then zeros up to the segment's size.  The segments are in order
    ([segs_ok]) if the whole sectors that the loader reads for each begin in memory where the segment before
    has ended, or above, if what is written keeps off the page at 0x10000 with the headers and ends
    below 4 GiB, and if the sectors have numbers of 28 bits.  On an image without the magic number
    the loader returns. *)
Theorem bootmain_loads disk status fuel e b :
  gets_ready status fuel → bt_polls b = 0%nat →
  (image32 disk 0 = ELF_MAGIC → image_ok disk = true →
   ∃ b', bootmain disk status fuel e b = Ret (Some (image32 disk eh_entry)) e b' ∧
     Forall (loaded disk (bt_mem b')) (segments disk)) ∧
  (image32 disk 0 ≠ ELF_MAGIC → ∃ b', bootmain disk status fuel e b = Ret None e b').
Proof.
  intros Hr Hb. unfold bootmain.
  destruct (readseg_ok disk status fuel Hr (Seg 0 0x10000 4096 0) e b) as (b1 & E1 & Hb1 & Hm1);
    [done | (done || unfold is_u32; cbn; lia)..|].
  mgo (exact E1). asteps.
  assert (paged disk (bt_mem b1)) as Hp.
  { intros o Ho. rewrite Hm1. rewrite decide_True by (change (65536 ≤ 65536 + o < 65536 + 4096); lia).
    cbn [g_off g_paddr]. f_equal. lia. }
  change (ld32 (bt_mem b1) 0x10000) with (ld32 (bt_mem b1) (0x10000 + 0)). rewrite (paged_ld32 disk) by (done || lia).
  destruct (Z.eqb_spec (image32 disk 0) ELF_MAGIC) as [Em|Em]; cbn [negb]; (split; intros Em'; [|try done]); [|done|by eexists].
  intros [Hh Hok]%andb_true_iff. apply Z.leb_le in Hh. asteps.
  rewrite (paged_ld32 disk), (paged_ld16 disk) by (done || unfold eh_phoff, eh_phnum; lia).
  pose proof (image32_u32 disk eh_phoff) as [? _].
  assert (0 ≤ image16 disk eh_phnum) as Hn.
  { unfold image16. pose proof (image_byte disk eh_phnum). pose proof (image_byte disk (eh_phnum + 1)). lia. }
  unfold sizeof_proghdr in Hh. rewrite !wrap32_small by (unfold is_u32, sizeof_proghdr; rewrite ?wrap32_small; unfold is_u32; lia).
  edestruct (load_segments_ok disk status fuel Hr (Z.to_nat (image16 disk eh_phnum)) (image32 disk eh_phoff) 0 e b1)
    as (b2 & E2 & Hp2 & Hl2 & _); try (done || unfold sizeof_proghdr; lia).
  rewrite Z2Nat.id, Z.add_assoc in E2 by done. mgo (exact E2). asteps.
  rewrite (paged_ld32 disk) by (done || unfold eh_entry; lia). by eexists.
Qed.

(** An image of two segments at [p0] and [p1], the first with zeros up to the size [z]. *)
Definition le32 (v : Z) : list Z := [v mod 256; v / 256 mod 256; v / 65536 mod 256; v / 16777216 mod 256].
Definition phdr (off paddr filesz memsz : Z) : list Z :=
  le32 1 ++ le32 off ++ le32 paddr ++ le32 paddr ++ le32 filesz ++ le32 memsz ++ le32 7 ++ le32 4096.
Definition two_segments (p0 z p1 : Z) : Z → Z :=
  let m := wrn ∅ 512 (le32 ELF_MAGIC ++ replicate 20 0 ++ le32 0x10000c ++ le32 52 ++ replicate 12 0 ++ [2; 0]) in
  let m := wrn m (512 + 52) (phdr 0x1000 p0 5 z ++ phdr (0x1200 + p1 mod 512) p1 3 3) in
  let m := wrn m (512 + 0x1000) [1; 2; 3; 4; 5; 6; 7] in
  rd (wrn m (512 + 0x1200) (replicate 512 9)).
(** A drive that is busy for up to two polls. *)
Definition slow (n j : nat) : Z := if decide (j < n mod 3)%nat then 0x80 else 0x40.
Definition boot0 : boot := Boot ∅ ∅ None 0 0.

Lemma slow_ready : gets_ready slow 3.
Proof.
  intros n. exists (n mod 3)%nat. pose proof (Nat.mod_upper_bound n 3 ltac:(done)).
  unfold slow. rewrite decide_False by lia. done.
Qed.

Lemma bootmain_loads_witness :
  ∃ b, bootmain (two_segments 0x100000 0x204 0x100410) slow 3 [] boot0 = Ret (Some 0x10000c) [] b ∧
    rd (bt_mem b) 0x100004 = 5 ∧ rd (bt_mem b) 0x100203 = 0 ∧ rd (bt_mem b) 0x100412 = 9.
Proof.
  destruct (bootmain_loads (two_segments 0x100000 0x204 0x100410) slow 3 [] boot0 slow_ready eq_refl) as [H _].
  destruct H as (b & E & Hl); [by vm_compute..|].
  exists b. split; [exact E|].
  replace (segments _) with [Seg 0x1000 0x100000 5 0x204; Seg 0x1210 0x100410 3 3] in Hl by (by vm_compute).
  apply Forall_cons in Hl as [H0 [H1 _]%Forall_cons]. split_and!.
  - refine (eq_trans (H0 4 _) _); [cbn; lia | by vm_compute].
  - refine (eq_trans (H0 0x203 _) _); [cbn; lia | by vm_compute].
  - refine (eq_trans (H1 2 _) _); [cbn; lia | by vm_compute].
Defined.

(** Increasing order alone does not make the extra bytes harmless: a segment that does not start
    at a sector's start overwrites the bytes below it, here zeros of the segment before. *)
Lemma readseg_clobbers :
  ∃ b, bootmain (two_segments 0x100000 0x204 0x100204) slow 3 [] boot0 = Ret (Some 0x10000c) [] b ∧
    rd (bt_mem b) 0x100203 = 9.
Proof.
  assert (match bootmain (two_segments 0x100000 0x204 0x100204) slow 3 [] boot0 with
    | Ret (Some v) [] b => (v =? 0x10000c) && (rd (bt_mem b) 0x100203 =? 9) | _ => false end = true) as H
    by (by vm_compute).
  destruct (bootmain _ _ _ _ _) as [[v|] [|] b| | | |]; try done.
  apply andb_true_iff in H as [->%Z.eqb_eq ?%Z.eqb_eq]. by exists b.
Qed.

(** ** The boot page table *)

(** [src/xv6-public/mmu.h:97] *)
Definition PTE_PS : Z := 0x080.
(** [src/xv6-public/mmu.h:88] *)
Definition PDXSHIFT : Z := 22.

(** [src/xv6-public/main.c:103-108] *)
Definition entrypgdir : list Z :=
  <[Z.to_nat (Z.shiftr KERNBASE PDXSHIFT) := Z.lor (Z.lor (Z.lor 0 PTE_P) PTE_W) PTE_PS]>
  (<[0%nat := Z.lor (Z.lor (Z.lor 0 PTE_P) PTE_W) PTE_PS]> (replicate NPDENTRIES 0)).

(** The processor's translation by a directory of 4-megabyte pages. *)
Definition translate4m (pgdir : list Z) (va : Z) : option Z :=
  pde ← pgdir !! Z.to_nat (PDX va);
  if has pde PTE_P && has pde PTE_PS then Some (Z.land pde 0xFFC00000 + va mod 2 ^ 22) else None.

Lemma entrypgdir_lookup q :
  0 ≤ q < 1024 → entrypgdir !! Z.to_nat q = Some (if (q =? 0) || (q =? 512) then 0x83 else 0).
Proof.
  intros Hq. unfold entrypgdir.
  destruct (Z.eqb_spec q 512) as [->|]; 
    [apply list_lookup_insert_eq; rewrite length_insert, length_replicate; by apply Nat.ltb_lt|].
  rewrite list_lookup_insert_ne by (change (Z.shiftr KERNBASE PDXSHIFT) with 512; lia).
  destruct (Z.eqb_spec q 0) as [->|]; 
    [apply list_lookup_insert_eq; rewrite length_replicate; by apply Nat.ltb_lt|].
  rewrite list_lookup_insert_ne by lia. apply lookup_replicate_2. unfold NPDENTRIES. lia.
Qed.

(** While the kernel starts, its first 4 megabytes are mapped twice, and nothing else is. *)
Lemma entrypgdir_maps va :
  is_u32 va →
  translate4m entrypgdir va =
  if decide (va < 2 ^ 22) then Some va
  else if decide (KERNBASE ≤ va < KERNBASE + 2 ^ 22) then Some (V2P va) else None.
Proof.
  intros [H0 H1]. unfold translate4m.
  assert (PDX va = va / 2 ^ 22) as ->.
  { unfold PDX. change 0x3FF with (Z.ones 10). rewrite Z.land_ones, Z.shiftr_div_pow2 by lia.
    apply Z.mod_small. split; [apply Z.div_pos; lia|]. apply Z.div_lt_upper_bound; lia. }
  pose proof (Z.div_mod va (2 ^ 22)) as Hd. pose proof (Z.mod_pos_bound va (2 ^ 22)) as Hm.
  set (q := va / 2 ^ 22) in *. set (r := va mod 2 ^ 22) in *.
  rewrite entrypgdir_lookup by lia. unfold KERNBASE, V2P.
  destruct (Z.eqb_spec q 0); [|destruct (Z.eqb_spec q 512)]; cbn [orb mbind option_bind].
  - rewrite decide_True by lia. change (Some (0 + r) = Some va). f_equal. lia.
  - rewrite decide_False, decide_True by lia. change (Some (0 + r) = Some (wrap32 (va - KERNBASE))).
    f_equal. rewrite wrap32_small by (unfold is_u32, KERNBASE; lia).
    unfold KERNBASE. lia.
  - by rewrite !decide_False by lia.
Qed.
