(* ===== verification/Ulib.v ===== *)
(** * The user library (ulib.c, printf.c)

    The string routines that user programs are linked with, on a byte memory or
    on the bytes of a C string (the NUL that ends it left out), and [printf] as
    the sequence of bytes it writes.  [atoi] reads back what [printf] prints
    for [%d]; [memmove], which copies upwards only, is the kernel's [memmove]
    unless the destination overlaps the end of the source. *)

From S2P Require Import Prelude State Mem Consout.

(** ** Strings *)

(** [src/xv6-public/ulib.c:7-16] looks at no more than [fuel] bytes *)
Fixpoint strcpy (fuel : nat) (m : mem) (s t : Z) : option mem :=
  match fuel with
  | O => None
  | S fuel =>
    let c := rd m t in
    let m := wr m s c in
    if c =? 0 then Some m else strcpy fuel m (s + 1) (t + 1)
  end.

(** [src/xv6-public/ulib.c:18-24] *)
Fixpoint strcmp (p q : list Z) : Z :=
  match p, q with
  | [], [] => 0
  | [], d :: _ => 0 - d
  | c :: _, [] => c - 0
  | c :: p, d :: q => if c =? d then strcmp p q else c - d
  end.

(** [src/xv6-public/ulib.c:26-34] *)
Fixpoint ustrlen (s : list Z) : Z :=
  match s with [] => 0 | _ :: s => ustrlen s + 1 end.

(** [src/xv6-public/ulib.c:36-41] *)
Definition umemset (m : mem) (dst c n : Z) : mem := stosb m dst c (Z.to_nat n).

(** The bytes before the first NUL. *)
Fixpoint cstring (s : list Z) : list Z :=
  match s with [] => [] | c :: s => if c =? 0 then [] else c :: cstring s end.

(** [src/xv6-public/ulib.c:43-50] the offset of the first [c] in the string at
    the front of [s] *)
Fixpoint strchr (s : list Z) (c : Z) : option nat :=
  match s with
  | [] => None
  | x :: s => if x =? 0 then None else if x =? c then Some 0%nat else S <$> strchr s c
  end.

(** [src/xv6-public/ulib.c:58-65] the loop has room for [n] more bytes; [input] is what
    the calls of [read] deliver before one fails *)
Fixpoint gets_loop (n : nat) (input : list Z) : list Z * list Z :=
  match n, input with
  | O, _ | _, [] => ([], input)
  | S n, c :: input =>
    if (c =? 10) || (c =? 13) then ([c], input)
    else let '(buf, input) := gets_loop n input in (c :: buf, input)
  end.

(** [src/xv6-public/ulib.c:52-68] what is stored at [buf], and the input left *)
Definition gets (max : Z) (input : list Z) : list Z * list Z :=
  let '(buf, input) := gets_loop (Z.to_nat (max - 1)) input in (buf ++ [0], input).

(** [src/xv6-public/ulib.c:90-91] [n*10 + *s++ - '0'], undefined when it
    overflows *)
Fixpoint atoi_loop (n : Z) (s : list Z) : option Z :=
  match s with
  | [] => Some n
  | c :: s =>
    if (48 <=? c) && (c <=? 57) then
      if n * 10 + c <? 2 ^ 31 then atoi_loop (n * 10 + c - 48) s else None
    else Some n
  end.

(** [src/xv6-public/ulib.c:84-93] *)
Definition atoi (s : list Z) : option Z := atoi_loop 0 s.

(** [src/xv6-public/ulib.c:95-106] *)
Definition umemmove (m : mem) (vdst vsrc n : Z) : mem := copy_up m vdst vsrc (Z.to_nat n).

(** ** printf *)

(** [src/xv6-public/printf.c:14] *)
Definition udigit (d : Z) : Z := if d <? 10 then 48 + d else 65 + (d - 10).

(** [src/xv6-public/printf.c:28-30] *)
Fixpoint udigits_loop (fuel : nat) (x base : Z) : list Z :=
  match fuel with
  | O => []
  | S fuel =>
    udigit (x mod base) :: (if x / base =? 0 then [] else udigits_loop fuel (x / base) base)
  end.

(** [src/xv6-public/printf.c:11-36] the bytes written; a number of 32 bits has at most
    11 digits in base 10 or 16 *)
Definition uprintint (xx base : Z) (sgn : bool) : list Z :=
  let neg := sgn && (xx <? 0) in
  let x := if neg then wrap32 (- xx) else wrap32 xx in
  rev (udigits_loop 16 x base ++ (if neg then [45] else [])).

(** [src/xv6-public/printf.c:48-83] the loop over the format; [state] is set after a
    ['%'].  There is no result when an argument is missing or is not of the
    type the format asks for. *)
Fixpoint printf_loop (state : bool) (fmt : list Z) (ap : list arg) : option (list Z) :=
  match fmt with
  | [] => Some []
  | c :: fmt =>
    if negb state then
      if c =? 37 then printf_loop true fmt ap
      else out ← printf_loop false fmt ap; Some (c :: out)
    else if c =? 100 then
      match ap with
      | AInt z :: ap => out ← printf_loop false fmt ap; Some (uprintint z 10 true ++ out)
      | _ => None
      end
    else if (c =? 120) || (c =? 112) then
      match ap with
      | AInt z :: ap => out ← printf_loop false fmt ap; Some (uprintint z 16 false ++ out)
      | _ => None
      end
    else if c =? 115 then
      match ap with
      | AStr s :: ap =>
        out ← printf_loop false fmt ap; Some (default (codes "(null)") s ++ out)
      | _ => None
      end
    else if c =? 99 then
      match ap with
      | AInt z :: ap => out ← printf_loop false fmt ap; Some (z mod 256 :: out)
      | _ => None
      end
    else if c =? 37 then out ← printf_loop false fmt ap; Some (c :: out)
    else out ← printf_loop false fmt ap; Some (37 :: c :: out)
  end.

(** [src/xv6-public/printf.c:38-85] what is written to [fd] *)
Definition printf (fmt : string) (ap : list arg) : option (list Z) :=
  printf_loop false (codes fmt) ap.

(** ** Properties *)

Lemma strcmp_spec p q :
  Forall (λ c, 0 < c) p → Forall (λ c, 0 < c) q → strcmp p q = 0 ↔ p = q.
Proof.
  intros Hp. revert q. induction Hp as [|c p Hc Hp IH]; intros [|d q]; cbn; intros Hq;
    try done; try (apply Forall_cons in Hq as [Hd Hq]).
  - split; [lia|done].
  - split; [lia|done].
  - destruct (Z.eqb_spec c d) as [->|]; [|split; [lia|congruence]].
    rewrite IH by done. split; congruence.
Qed.

(** [gets] stops after a newline, and never stores more than [max] bytes. *)
Lemma gets_spec max input :
  0 < max →
  let '(buf, rest) := gets max input in
  ∃ line, buf = line ++ [0] ∧ input = line ++ rest ∧ Z.of_nat (length buf) ≤ max ∧
    (rest = [] ∨ Z.of_nat (length buf) = max ∨
     ∃ l c, line = l ++ [c] ∧ (c = 10 ∨ c = 13)).
Proof.
  intros Hm. unfold gets.
  assert (∀ n input, ∃ line rest, gets_loop n input = (line, rest) ∧ input = line ++ rest ∧
    (length line ≤ n)%nat ∧
    (rest = [] ∨ length line = n ∨ ∃ l c, line = l ++ [c] ∧ (c = 10 ∨ c = 13))) as H.
  { clear. induction n as [|n IH]; intros [|c input]; cbn [gets_loop];
      try (eexists [], _; split_and!; (reflexivity || (cbn; lia) || (by left) || by right; left)).
    destruct ((c =? 10) || (c =? 13)) eqn:E.
    - exists [c], input. split_and!; try done; [cbn; lia|]. right. right. exists [], c. split; [done|lia].
    - destruct (IH input) as (line & rest & -> & -> & Hl & Hr). exists (c :: line), rest.
      split_and!; try done; [cbn; lia|]. destruct Hr as [?|[?|(l & d & -> & ?)]].
      + by left.
      + right. left. cbn. lia.
      + right. right. by exists (c :: l), d. }
  destruct (H (Z.to_nat (max - 1)) input) as (line & rest & -> & -> & Hl & Hr).
  exists line. rewrite length_app. cbn [length]. split_and!; try done; [lia|].
  destruct Hr as [?|[?|?]]; [by left| |by right; right]. right. left. lia.
Qed.

(** The user's [memmove] copies like the kernel's unless [dst] is inside the
    source. *)
Lemma umemmove_spec m dst src n :
  ¬ (src < dst < src + n) → umemmove m dst src n = memmove m dst src n.
Proof.
  intros H. unfold umemmove, memmove.
  by replace ((src <? dst) && (dst <? src + n)) with false by lia.
Qed.

Lemma udigits_decimal fuel x : 0 ≤ x → udigits_loop fuel x 10 = digits_loop fuel x 10.
Proof.
  revert x. induction fuel as [|fuel IH]; intros x Hx; cbn; [done|].
  pose proof (Z.mod_pos_bound x 10 ltac:(lia)). f_equal.
  - unfold udigit, digit. destruct (Z.ltb_spec (x mod 10) 10); lia.
  - destruct (_ =? _); [done|]. apply IH. dlia.
Qed.

Lemma atoi_loop_digits fuel n x :
  0 ≤ n → 0 ≤ x < 10 ^ Z.of_nat fuel → x < 2147483600 →
  atoi_loop 0 (rev (digits_loop fuel x 10)) = Some x ∧
  ∀ s, atoi_loop 0 (rev (digits_loop fuel x 10) ++ s) = atoi_loop x s.
Proof.
  intros Hn. revert x. induction fuel as [|fuel IH]; intros x Hx Hb.
  { assert (x = 0) as -> by (cbn in Hx; lia). done. }
  assert (∀ s, atoi_loop 0 (rev (digits_loop (S fuel) x 10) ++ s) = atoi_loop x s) as H.
  { intros s. cbn [digits_loop rev]. rewrite <- app_assoc. cbn [app].
    pose proof (Z.mod_pos_bound x 10 ltac:(lia)).
    assert (atoi_loop (x / 10) (digit (x mod 10) :: s) = atoi_loop x s) as E.
    { cbn [atoi_loop]. unfold digit. rewrite (proj2 (Z.ltb_lt _ _)) by lia.
      rewrite (proj2 (Z.leb_le _ _)), (proj2 (Z.leb_le _ _)), (proj2 (Z.ltb_lt _ _)) by dlia.
      cbn [andb]. f_equal. dlia. }
    destruct (Z.eqb_spec (x / 10) 0) as [E0|E0].
    - cbn [rev app]. by rewrite <- E0 at 1.
    - destruct (IH (x / 10)) as [_ IH']; [|dlia|by rewrite IH'].
      rewrite Nat2Z.inj_succ, Z.pow_succ_r in Hx by lia. dlia. }
  split; [|done]. by rewrite <- (app_nil_r (rev _)), H.
Qed.

(** [atoi] reads back the number that [printf] writes for [%d], whatever
    stands behind it, if that does not start with a digit.  The bound is that
    of [n*10 + *s++ - '0']: above it the sum overflows before ['0'] is taken
    off, though the number is an [int]. *)
Theorem printf_atoi n rest :
  0 ≤ n < 2147483600 → (∀ c s, rest = c :: s → ¬ (48 ≤ c ≤ 57)) →
  (out ← printf "%d" [AInt n]; atoi (out ++ rest)) = Some n.
Proof.
  intros Hn Hr. change (printf "%d" [AInt n]) with (Some (uprintint n 10 true ++ [])).
  unfold uprintint. cbn [mbind option_bind andb]. rewrite (proj2 (Z.ltb_ge n 0)) by lia.
  rewrite !app_nil_r, wrap32_small by (unfold is_u32; lia).
  rewrite udigits_decimal by lia. unfold atoi.
  destruct (atoi_loop_digits 16 0 n) as [_ E]; [lia|cbn; lia|lia|]. rewrite E.
  destruct rest as [|c rest]; [done|]. cbn [atoi_loop]. specialize (Hr _ _ eq_refl).
  by replace ((48 <=? c) && (c <=? 57)) with false by lia.
Qed.

Lemma printf_atoi_witness : (out ← printf "%d" [AInt 4096]; atoi (out ++ [32])) = Some 4096.
Proof.
  apply printf_atoi; [split; [discriminate|reflexivity]|].
  intros c s [= <- <-]. lia.
Defined.
