(* ===== verification/Grep.v ===== *)
(** * The pattern search of the user programs (grep.c)

    [match], [matchhere] and [matchstar] on C strings, shown equivalent to the
    language of the pattern; and the buffer loop of [grep], whose output is
    the matching lines of its input as long as every refill of the buffer
    brings a newline, and which drops the bytes of a refill that does not. *)

From S2P Require Import Prelude Ulib.

(** A C string is the list of its bytes before the NUL. *)

(** [src/xv6-public/grep.c:98-106] the loop over [text]; [rest] is
    [matchhere(re, .)] *)
Fixpoint matchstar (rest : list Z → bool) (c : Z) (text : list Z) : bool :=
  if rest text then true else
  match text with
  | [] => false
  | t :: text => if (t =? c) || (c =? 46) then matchstar rest c text else false
  end.

(** [src/xv6-public/grep.c:84-96] *)
Fixpoint matchhere (re text : list Z) {struct re} : bool :=
  match re with
  | [] => true
  | c :: re1 =>
    match re1 with
    | s :: re2 =>
      if s =? 42 then matchstar (matchhere re2) c text else
      match text with
      | [] => false
      | t :: text => if (c =? 46) || (c =? t) then matchhere re1 text else false
      end
    | [] =>
      if c =? 36 then bool_decide (text = []) else
      match text with
      | [] => false
      | t :: text => if (c =? 46) || (c =? t) then matchhere re1 text else false
      end
    end
  end.

(** The [do]-[while] loop of [match]. *)
Fixpoint match_loop (re text : list Z) : bool :=
  if matchhere re text then true else
  match text with [] => false | _ :: text => match_loop re text end.

(** [src/xv6-public/grep.c:72-82] *)
Definition match_ (re text : list Z) : bool :=
  match re with
  | c :: re1 => if c =? 94 then matchhere re1 text else match_loop re text
  | [] => match_loop re text
  end.

(** ** The language of a pattern *)

(** A set of characters is [None] for any, or one character. *)
Definition allows (o : option Z) (t : Z) : Prop := ∀ c, o = Some c → c = t.
Inductive token := One (o : option Z) | Star (o : option Z).
Definition set_of (c : Z) : option Z := if c =? 46 then None else Some c.

(** The tokens of a pattern, and whether it ends in an anchor. *)
Fixpoint tokens (re : list Z) : list token * bool :=
  match re with
  | [] => ([], false)
  | c :: re1 =>
    match re1 with
    | s :: re2 =>
      if s =? 42 then let '(ts, e) := tokens re2 in (Star (set_of c) :: ts, e)
      else let '(ts, e) := tokens re1 in (One (set_of c) :: ts, e)
    | [] => if c =? 36 then ([], true) else ([One (set_of c)], false)
    end
  end.

(** The words of a list of tokens: one character of the set, or any number. *)
Fixpoint lang (ts : list token) (s : list Z) : Prop :=
  match ts with
  | [] => s = []
  | One o :: ts => ∃ c s', s = c :: s' ∧ allows o c ∧ lang ts s'
  | Star o :: ts => ∃ s1 s2, s = s1 ++ s2 ∧ Forall (allows o) s1 ∧ lang ts s2
  end.

(** A prefix of [text] is in the language, all of it if anchored. *)
Definition prefix_in (p : list token * bool) (text : list Z) : Prop :=
  ∃ s rest, text = s ++ rest ∧ lang p.1 s ∧ (p.2 = true → rest = []).

Lemma set_of_allows c t : allows (set_of c) t ↔ (c =? 46) || (c =? t) = true.
Proof.
  unfold allows, set_of. rewrite orb_true_iff. destruct (Z.eqb_spec c 46).
  - split; [by left|done].
  - rewrite Z.eqb_eq. naive_solver.
Qed.

Lemma prefix_one o ts e text :
  prefix_in (One o :: ts, e) text ↔
  ∃ t text', text = t :: text' ∧ allows o t ∧ prefix_in (ts, e) text'.
Proof.
  unfold prefix_in. cbn. split.
  - intros (s & rest & -> & (c & s' & -> & Ho & Hl) & He). exists c, (s' ++ rest). naive_solver.
  - intros (t & text' & -> & Ho & s & rest & -> & Hl & He). exists (t :: s), rest. naive_solver.
Qed.

Lemma prefix_star o ts e text :
  prefix_in (Star o :: ts, e) text ↔
  prefix_in (ts, e) text ∨
  ∃ t text', text = t :: text' ∧ allows o t ∧ prefix_in (Star o :: ts, e) text'.
Proof.
  unfold prefix_in. cbn. split.
  - intros (s & rest & -> & (s1 & s2 & -> & Hs & Hl) & He). destruct s1 as [|t s1].
    + left. by exists s2, rest.
    + right. apply Forall_cons in Hs as [Ht Hs]. exists t, ((s1 ++ s2) ++ rest).
      split; [done|]. split; [done|]. exists (s1 ++ s2), rest. naive_solver.
  - intros [(s & rest & -> & Hl & He)|(t & text' & -> & Ho & s & rest & -> & (s1 & s2 & -> & Hs & Hl) & He)].
    + exists s, rest. split; [done|]. split; [|done]. by exists [], s.
    + exists (t :: s1 ++ s2), rest. split; [done|]. split; [|done].
      exists (t :: s1), s2. split; [done|]. by split; [constructor|].
Qed.

Lemma matchstar_spec rest c ts e text :
  (∀ text, rest text = true ↔ prefix_in (ts, e) text) →
  matchstar rest c text = true ↔ prefix_in (Star (set_of c) :: ts, e) text.
Proof.
  intros Hrest. induction text as [|t text IH]; cbn [matchstar]; rewrite prefix_star, <- Hrest.
  - destruct (rest []); naive_solver.
  - destruct (rest (t :: text)); [naive_solver|].
    assert ((t =? c) || (c =? 46) = true ↔ allows (set_of c) t) as Hc.
    { rewrite set_of_allows, orb_comm. by rewrite (Z.eqb_sym t c). }
    destruct (_ || _) eqn:E; naive_solver.
Qed.

Lemma matchhere_cons c s re text :
  matchhere (c :: s :: re) text =
  if s =? 42 then matchstar (matchhere re) c text else
  match text with
  | [] => false
  | t :: text => if (c =? 46) || (c =? t) then matchhere (s :: re) text else false
  end.
Proof. reflexivity. Qed.

Lemma tokens_cons c s re :
  tokens (c :: s :: re) =
  if s =? 42 then let '(ts, e) := tokens re in (Star (set_of c) :: ts, e)
  else let '(ts, e) := tokens (s :: re) in (One (set_of c) :: ts, e).
Proof. reflexivity. Qed.

Lemma matchhere_spec re text : matchhere re text = true ↔ prefix_in (tokens re) text.
Proof.
  remember (length re) as n eqn:En. revert re text En.
  induction n as [n IH] using lt_wf_ind. intros [|c re1] text ->.
  { cbn. split; [intros _; by exists [], text|done]. }
  assert (∀ t text', (if (c =? 46) || (c =? t) then matchhere re1 text' else false) = true ↔
    allows (set_of c) t ∧ prefix_in (tokens re1) text') as Hone.
  { intros t text'. rewrite <- (IH (length re1)) by (cbn; done || lia). rewrite set_of_allows.
    destruct (_ || _); naive_solver. }
  destruct re1 as [|s re2].
  - cbn. destruct (Z.eqb_spec c 36) as [->|].
    + rewrite bool_decide_eq_true. split.
      * intros ->. by exists [], [].
      * intros (s & rest & -> & Hl & He). cbn in *. by rewrite Hl, He.
    + rewrite prefix_one. destruct text as [|t text]; [naive_solver|]. cbn in Hone.
      rewrite Hone. naive_solver.
  - rewrite matchhere_cons, tokens_cons. destruct (Z.eqb_spec s 42) as [E42|E42].
    + destruct (tokens re2) as [ts e] eqn:Et. apply matchstar_spec. intros text'.
      rewrite <- Et. eapply IH; [|done]. cbn. lia.
    + destruct (tokens (s :: re2)) as [ts e] eqn:Et. rewrite prefix_one.
      destruct text as [|t text]; [naive_solver|]. rewrite Hone. naive_solver.
Qed.

Lemma match_loop_spec re text :
  match_loop re text = true ↔ ∃ pre text', text = pre ++ text' ∧ prefix_in (tokens re) text'.
Proof.
  induction text as [|t text IH]; cbn [match_loop].
  - destruct (matchhere re []) eqn:E; [apply matchhere_spec in E|].
    + split; [intros _; by exists [], []|done].
    + split; [done|]. intros (pre & text' & H & Hp). apply eq_sym, app_nil in H as [-> ->].
      apply matchhere_spec in Hp. congruence.
  - destruct (matchhere re (t :: text)) eqn:E; [apply matchhere_spec in E|].
    + split; [intros _; by exists [], (t :: text)|done].
    + rewrite IH. split; [intros (pre & text' & -> & Hp); by exists (t :: pre), text'|].
      intros ([|t' pre] & text' & [= H] & Hp).
      * cbn in *. subst text'. apply matchhere_spec in Hp. congruence.
      * by exists pre, text'.
Qed.

(** The pattern without the anchor at its start, and the anchor. *)
Definition anchored (re : list Z) : bool := bool_decide (head re = Some 94).
Definition body (re : list Z) : list Z := if anchored re then tail re else re.

(** C33 [match] decides the language of the pattern.  It accepts a text exactly
    when the text has a part that is a word of the pattern (characters,
    [.] for any character, [*] for any number of the one before), at the
    start if the pattern begins with [^] and at the end if it ends with
    [$]. *)
Theorem match_decides_language re text :
  match_ re text = true ↔
  ∃ pre s post, text = pre ++ s ++ post ∧ lang (tokens (body re)).1 s ∧
    (anchored re = true → pre = []) ∧ ((tokens (body re)).2 = true → post = []).
Proof.
  assert (match_ re text =
    if anchored re then matchhere (body re) text else match_loop (body re) text) as ->.
  { unfold body, anchored. destruct re as [|c re]; [done|]. cbn. destruct (Z.eqb_spec c 94) as [->|].
    - by rewrite bool_decide_eq_true_2.
    - by rewrite bool_decide_eq_false_2 by congruence. }
  destruct (anchored re).
  - rewrite matchhere_spec. unfold prefix_in. split.
    + intros (s & rest & ? & ? & ?). by exists [], s, rest.
    + intros (pre & s & post & -> & ? & Hpre & ?). rewrite Hpre by done. by exists s, post.
  - rewrite match_loop_spec. unfold prefix_in. split.
    + intros (pre & text' & -> & s & rest & -> & ? & ?). by exists pre, s, rest.
    + intros (pre & s & post & -> & ? & _ & ?). exists pre, (s ++ post). split; [done|].
      by exists s, post.
Qed.

(** ** The buffer loop *)

(** [src/xv6-public/grep.c:20-28] the lines of the bytes at [p]: what is written,
    and the bytes left over.  Every turn but the last consumes a byte. *)
Fixpoint grep_lines (fuel : nat) (re p : list Z) : list Z * list Z :=
  match fuel with
  | O => ([], p)
  | S fuel =>
    match strchr p 10 with
    | None => ([], p)
    | Some q =>
      let '(out, rest) := grep_lines fuel re (drop (S q) p) in
      ((if match_ re (take q p) then take (S q) p else []) ++ out, rest)
    end
  end.

(** [src/xv6-public/grep.c:17-35] one refill: [kept] are the [m] bytes kept, [chunk]
    the [n] bytes that [read] put behind them; [p == buf] when no line was
    found *)
Definition grep_step (re kept chunk : list Z) : list Z * list Z :=
  let text := kept ++ chunk in
  let '(out, rest) := grep_lines (S (length text)) re text in
  (out, if bool_decide (length rest = length text) then [] else rest).

(** [src/xv6-public/grep.c:10-36] [chunks] are the results of the calls of [read]
    before the one that returns nothing; each fits in what is left of [buf] *)
Fixpoint grep (re kept : list Z) (chunks : list (list Z)) : list Z :=
  match chunks with
  | [] => []
  | chunk :: chunks =>
    let '(out, kept) := grep_step re kept chunk in
    out ++ grep re kept chunks
  end.

(** The complete lines of a text, and the start of the next one. *)
Fixpoint lines_of (s : list Z) : list (list Z) * list Z :=
  match s with
  | [] => ([], [])
  | c :: s =>
    let '(ls, r) := lines_of s in
    if c =? 10 then ([] :: ls, r)
    else match ls with [] => ([], c :: r) | l :: ls => ((c :: l) :: ls, r) end
  end.

(** The lines that match, as they are written. *)
Definition matching (re : list Z) (ls : list (list Z)) : list Z :=
  concat ((λ l, l ++ [10]) <$> filter (λ l, match_ re l = true) ls).

Lemma lines_of_app s t :
  lines_of (s ++ t) =
  ((lines_of s).1 ++ (lines_of ((lines_of s).2 ++ t)).1, (lines_of ((lines_of s).2 ++ t)).2).
Proof.
  induction s as [|c s IH]; cbn; [by destruct (lines_of t)|].
  rewrite IH. destruct (lines_of s) as [ls r]. cbn.
  destruct (Z.eqb_spec c 10); [done|]. destruct ls as [|l ls]; cbn; [|done].
  rewrite (proj2 (Z.eqb_neq c 10)) by done. by destruct (lines_of (r ++ t)) as [[|]].
Qed.

(** [strchr] finds the end of the first line. *)
Lemma strchr_lines s :
  Forall (λ c, c ≠ 0) s →
  match strchr s 10 with
  | None => lines_of s = ([], s)
  | Some q => ∃ l s', s = l ++ 10 :: s' ∧ q = length l ∧
      lines_of s = (l :: (lines_of s').1, (lines_of s').2)
  end.
Proof.
  induction 1 as [|c s Hc Hs IH]; [done|]. cbn [strchr lines_of].
  rewrite (proj2 (Z.eqb_neq c 0)) by done. destruct (Z.eqb_spec c 10) as [->|Hn].
  - exists [], s. by destruct (lines_of s).
  - destruct (strchr s 10) as [q|]; cbn.
    + destruct IH as (l & s' & -> & -> & ->). exists (c :: l), s'. done.
    + by rewrite IH.
Qed.

Lemma matching_cons re l ls :
  matching re (l :: ls) = (if match_ re l then l ++ [10] else []) ++ matching re ls.
Proof.
  unfold matching. rewrite filter_cons. destruct (match_ re l); by case_decide.
Qed.

Lemma matching_app re ls ls' : matching re (ls ++ ls') = matching re ls ++ matching re ls'.
Proof. unfold matching. by rewrite filter_app, fmap_app, concat_app. Qed.

Lemma grep_lines_spec fuel re p :
  Forall (λ c, c ≠ 0) p → (length p < fuel)%nat →
  grep_lines fuel re p = (matching re (lines_of p).1, (lines_of p).2).
Proof.
  revert p. induction fuel as [|fuel IH]; intros p Hp Hf; [lia|]. cbn [grep_lines].
  pose proof (strchr_lines p Hp) as H. destruct (strchr p 10) as [q|]; [|by rewrite H].
  destruct H as (l & s' & -> & -> & E). rewrite E. cbn [fst snd].
  apply Forall_app in Hp as [_ Hp]. apply Forall_cons in Hp as [_ Hp].
  rewrite length_app in Hf. cbn in Hf.
  replace (drop (S (length l)) (l ++ 10 :: s')) with s'
    by (rewrite drop_app_ge by lia; by replace (S (length l) - length l)%nat with 1%nat by lia).
  rewrite IH by (done || lia). rewrite matching_cons, take_app_length.
  replace (take (S (length l)) (l ++ 10 :: s')) with (l ++ [10])
    by (rewrite take_app_ge by lia; by replace (S (length l) - length l)%nat with 1%nat by lia).
  done.
Qed.

Lemma lines_of_length s : (lines_of s).1 ≠ [] → (length (lines_of s).2 < length s)%nat.
Proof.
  induction s as [|c s IH]; cbn; [done|]. destruct (lines_of s) as [[|l ls] r] eqn:E; cbn in *.
  - assert (r = s) as ->; [|destruct (c =? 10); cbn; [lia|done]].
    clear -E. revert r E. induction s as [|c s IH]; intros r; cbn; [naive_solver|].
    destruct (lines_of s) as [[|] r'], (c =? 10); intros [= <-]. by rewrite (IH r').
  - specialize (IH ltac:(done)). destruct (c =? 10); cbn; lia.
Qed.

Lemma grep_step_spec re kept chunk :
  Forall (λ c, c ≠ 0) (kept ++ chunk) →
  grep_step re kept chunk =
  (matching re (lines_of (kept ++ chunk)).1,
   if bool_decide ((lines_of (kept ++ chunk)).1 = []) then [] else (lines_of (kept ++ chunk)).2).
Proof.
  intros Hz. unfold grep_step. rewrite grep_lines_spec by (done || lia). f_equal.
  destruct (decide ((lines_of (kept ++ chunk)).1 = [])) as [E|E].
  - rewrite (bool_decide_eq_true_2 _ E). pose proof (strchr_lines _ Hz) as H.
    destruct (strchr (kept ++ chunk) 10).
    + destruct H as (l & s' & _ & _ & H). by rewrite H in E.
    + rewrite H. by rewrite bool_decide_eq_true_2.
  - rewrite (bool_decide_eq_false_2 _ E). apply lines_of_length in E.
    by rewrite bool_decide_eq_false_2 by lia.
Qed.

(** Every refill of the buffer completes a line. *)
Fixpoint refills (kept : list Z) (chunks : list (list Z)) : Prop :=
  match chunks with
  | [] => True
  | chunk :: chunks =>
    (lines_of (kept ++ chunk)).1 ≠ [] ∧ refills (lines_of (kept ++ chunk)).2 chunks
  end.

Lemma lines_of_rest s : lines_of (lines_of s).2 = ([], (lines_of s).2).
Proof.
  induction s as [|c s IH]; [done|]. cbn. destruct (lines_of s) as [[|l ls] r]; cbn in *.
  - destruct (Z.eqb_spec c 10); cbn; [done|]. rewrite IH. by rewrite (proj2 (Z.eqb_neq c 10)).
  - by destruct (c =? 10).
Qed.

Lemma lines_of_nonzero s : Forall (λ c, c ≠ 0) s → Forall (λ c, c ≠ 0) (lines_of s).2.
Proof.
  induction 1 as [|c s Hc Hs IH]; [done|]. cbn. destruct (lines_of s) as [[|l ls] r], (c =? 10);
    cbn in *; by repeat constructor.
Qed.

Lemma grep_kept re kept chunks :
  lines_of kept = ([], kept) → Forall (λ c, c ≠ 0) (kept ++ concat chunks) → refills kept chunks →
  grep re kept chunks = matching re (lines_of (kept ++ concat chunks)).1.
Proof.
  revert kept. induction chunks as [|chunk chunks IH]; intros kept Hk Hz Hr; cbn [grep concat].
  { cbn. by rewrite app_nil_r, Hk. }
  destruct Hr as [Hne Hr]. cbn [concat] in Hz. rewrite app_assoc in Hz.
  pose proof Hz as [Hz1 Hz2]%Forall_app. rewrite grep_step_spec by done.
  rewrite bool_decide_eq_false_2 by done. rewrite IH; [|apply lines_of_rest| |done].
  - rewrite app_assoc, (lines_of_app (kept ++ chunk)). cbn [fst]. by rewrite matching_app.
  - apply Forall_app. by split; [apply lines_of_nonzero|].
Qed.

(** C35 [grep] prints the lines of its input that match, in order, each with its
    newline, however [read] cuts the input into pieces, if every piece
    completes a line (and has no NUL byte); an unfinished last line is not
    printed. *)
Theorem grep_correct re chunks :
  Forall (λ c, c ≠ 0) (concat chunks) → refills [] chunks →
  grep re [] chunks = matching re (lines_of (concat chunks)).1.
Proof. intros Hz Hr. by apply grep_kept. Qed.

Lemma grep_correct_witness :
  grep [94; 97; 46; 99] [] [[97; 98; 99; 10; 97]; [120; 99; 10; 98; 10]] =
  [97; 98; 99; 10; 97; 120; 99; 10].
Proof.
  rewrite grep_correct; [reflexivity| |].
  - repeat constructor; discriminate.
  - by split_and!.
Defined.

(** A piece of the input that has no newline is lost: [grep] sets [m] to zero
    when it found no line, whether or not the buffer is full, so that a line
    that [read] delivers in two pieces is searched without its first one. *)
Theorem grep_drops_piece re chunk chunks :
  Forall (λ c, c ≠ 0) chunk → 10 ∉ chunk →
  grep re [] (chunk :: chunks) = grep re [] chunks.
Proof.
  intros Hz Hn. cbn [grep]. rewrite grep_step_spec by done.
  assert ((lines_of ([] ++ chunk)).1 = []) as ->; [|by rewrite bool_decide_eq_true_2].
  pose proof (strchr_lines chunk Hz) as H. cbn [app].
  destruct (strchr chunk 10); [|by rewrite H].
  destruct H as (l & s' & -> & _). exfalso. apply Hn. set_solver.
Qed.

Lemma grep_drops_piece_witness :
  grep [97; 98; 99] [] [[97; 98]; [99; 10]] = [] ∧ match_ [97; 98; 99] [97; 98; 99] = true.
Proof.
  split; [|reflexivity]. rewrite grep_drops_piece; [reflexivity| |].
  - repeat constructor; discriminate.
  - set_solver.
Defined.
