(* ===== verification/Sh.v ===== *)
(** * The shell (sh.c)

    The parser of sh.c works on the command line in place: a token is a pair of
    pointers into the line, and [nulterminate] writes a NUL behind every token
    once the line is parsed.  A pointer into the line is modelled by the bytes
    from it to the end of the line.

    The parser ends on every line ([parsecmd_total]).  Every command is the
    parse of some line: a printer puts parentheses where they are needed, and
    the strings of the parsed command, read in the line after [nulterminate],
    are the ones printed ([parse_print]).  [runcmd] is the program of system
    calls that a shell process makes for a command; in a pipeline every
    command gets the right ends of the right pipes and no others
    ([pipeline_wired]). *)

From S2P Require Import Prelude State Consout Ulib.

(** A pointer into the command line. *)
Abbreviation ptr := (list Z).

(** [src/xv6-public/sh.c:8-50] the command structures; [malloc] is taken to succeed *)
Inductive cmd : Type :=
  | EXEC (argv : list (ptr * ptr))
  | REDIR (c : cmd) (file efile : ptr) (mode fd : Z)
  | PIPE (l r : cmd)
  | LIST (l r : cmd)
  | BACK (c : cmd).

(** [src/xv6-public/sh.c:195-204] *)
Definition execcmd : cmd := EXEC [].
(** [src/xv6-public/sh.c:206-220] *)
Definition redircmd (subcmd : cmd) (file efile : ptr) (mode fd : Z) : cmd :=
  REDIR subcmd file efile mode fd.
(** [src/xv6-public/sh.c:222-233] *)
Definition pipecmd (l r : cmd) : cmd := PIPE l r.
(** [src/xv6-public/sh.c:235-246] *)
Definition listcmd (l r : cmd) : cmd := LIST l r.
(** [src/xv6-public/sh.c:248-258] *)
Definition backcmd (subcmd : cmd) : cmd := BACK subcmd.

(** [src/xv6-public/sh.c:14] *)
Definition MAXARGS : Z := 10.

(** The outcome of a parser function: its value, a call of [panic] (behind the
    line that [parsecmd] may print), or the end of the fuel. *)
Inductive res (A : Type) : Type :=
  | Ok (a : A)
  | Syntax (leftovers : ptr) (msg : string)
  | Deep.
Arguments Ok {A} a.
Arguments Syntax {A} leftovers msg.
Arguments Deep {A}.

#[export] Instance res_bind : MBind res := λ A B f m,
  match m with Ok a => f a | Syntax l msg => Syntax l msg | Deep => Deep end.

(** ** Tokens *)

(** [src/xv6-public/sh.c:262] *)
Definition whitespace : list Z := [32; 9; 13; 10; 11].
(** [src/xv6-public/sh.c:263] *)
Definition symbols : list Z := codes "<|>&;()".

(** [strchr] as a truth value. *)
Definition found (o : option nat) : bool := match o with Some _ => true | None => false end.

Definition is_ws (c : Z) : bool := found (strchr whitespace c).
Definition is_sym (c : Z) : bool := found (strchr symbols c).
Definition is_tok (toks : string) (c : Z) : bool := found (strchr (codes toks) c).
Arguments is_ws : simpl never.
Arguments is_sym : simpl never.
Arguments is_tok : simpl never.

(** [src/xv6-public/sh.c:272-273] *)
Fixpoint skip_ws (s : ptr) : ptr :=
  match s with
  | c :: s' => if is_ws c then skip_ws s' else s
  | [] => []
  end.

(** [src/xv6-public/sh.c:297-298] *)
Fixpoint word_end (s : ptr) : ptr :=
  match s with
  | c :: s' =>
    if negb (is_ws c) && negb (is_sym c)
    then word_end s' else s
  | [] => []
  end.

(** [src/xv6-public/sh.c:265-308] the token, the pointers [*q] and [*eq], and [*ps] *)
Definition gettoken (s : ptr) : Z * ptr * ptr * ptr :=
  let s := skip_ws s in
  let q := s in
  let '(ret, s) :=
    match s with
    | [] => (0, s)
    | c :: s' =>
      if c =? 0 then (0, s)
      else if (c =? 124) || (c =? 40) || (c =? 41) || (c =? 59) || (c =? 38) || (c =? 60)
      then (c, s')
      else if c =? 62 then
        match s' with
        | d :: s'' => if d =? 62 then (43, s'') else (c, s')
        | [] => (c, s')
        end
      else (97, word_end s)
    end in
  let eq := s in
  (ret, q, eq, skip_ws s).

(** [src/xv6-public/sh.c:310-320] [*ps] and the result *)
Definition peek (s : ptr) (toks : string) : ptr * bool :=
  let s := skip_ws s in
  (s, match s with [] => false | c :: _ => negb (c =? 0) && is_tok toks c end).

(** ** The parser *)

(** [src/xv6-public/sh.c:374-397] *)
Fixpoint parseredirs (fuel : nat) (c : cmd) (s : ptr) : res (cmd * ptr) :=
  match fuel with
  | O => Deep
  | S fuel =>
    let '(s, b) := peek s "<>" in
    if negb b then Ok (c, s) else
    let '(tok, _, _, s) := gettoken s in
    let '(ret, q, eq, s) := gettoken s in
    if negb (ret =? 97) then Syntax [] "missing file for redirection" else
    let c :=
      if tok =? 60 then redircmd c q eq O_RDONLY 0
      else if tok =? 62 then redircmd c q eq (Z.lor O_WRONLY O_CREATE) 1
      else if tok =? 43 then redircmd c q eq (Z.lor O_WRONLY O_CREATE) 1
      else c in
    parseredirs fuel c s
  end.

(** [cmd->argv[argc] = q; cmd->eargv[argc] = eq;] where [cmd] is the [EXEC] that the
    redirections of [ret] are wrapped around. *)
Fixpoint add_arg (ret : cmd) (w : ptr * ptr) : cmd :=
  match ret with
  | EXEC argv => EXEC (argv ++ [w])
  | REDIR c file efile mode fd => REDIR (add_arg c w) file efile mode fd
  | _ => ret
  end.

(** [src/xv6-public/sh.c:431-442] *)
Fixpoint parseargs (fuel : nat) (ret : cmd) (argc : Z) (s : ptr) : res (cmd * ptr) :=
  match fuel with
  | O => Deep
  | S fuel =>
    let '(s, b) := peek s "|)&;" in
    if b then Ok (ret, s) else
    let '(tok, q, eq, s) := gettoken s in
    if tok =? 0 then Ok (ret, s) else
    if negb (tok =? 97) then Syntax [] "syntax" else
    let ret := add_arg ret (q, eq) in
    let argc := argc + 1 in
    if argc >=? MAXARGS then Syntax [] "too many args" else
    '(ret, s) ← parseredirs (S (length s)) ret s;
    parseargs fuel ret argc s
  end.

(** [src/xv6-public/sh.c:350-353] *)
Fixpoint parseback (fuel : nat) (c : cmd) (s : ptr) : res (cmd * ptr) :=
  match fuel with
  | O => Deep
  | S fuel =>
    let '(s, b) := peek s "&" in
    if negb b then Ok (c, s) else
    let '(_, _, _, s) := gettoken s in
    parseback fuel (backcmd c) s
  end.

(** [src/xv6-public/sh.c:344-359] *)
Fixpoint parseline (fuel : nat) (s : ptr) : res (cmd * ptr) :=
  match fuel with
  | O => Deep
  | S fuel =>
    '(c, s) ← parsepipe fuel s;
    '(c, s) ← parseback (S (length s)) c s;
    let '(s, b) := peek s ";" in
    if b then
      let '(_, _, _, s) := gettoken s in
      '(r, s) ← parseline fuel s; Ok (listcmd c r, s)
    else Ok (c, s)
  end
(** [src/xv6-public/sh.c:361-372] *)
with parsepipe (fuel : nat) (s : ptr) : res (cmd * ptr) :=
  match fuel with
  | O => Deep
  | S fuel =>
    '(c, s) ← parseexec fuel s;
    let '(s, b) := peek s "|" in
    if b then
      let '(_, _, _, s) := gettoken s in
      '(r, s) ← parsepipe fuel s; Ok (pipecmd c r, s)
    else Ok (c, s)
  end
(** [src/xv6-public/sh.c:415-446] *)
with parseexec (fuel : nat) (s : ptr) : res (cmd * ptr) :=
  match fuel with
  | O => Deep
  | S fuel =>
    let '(s, b) := peek s "(" in
    if b then parseblock fuel s else
    '(ret, s) ← parseredirs (S (length s)) execcmd s;
    parseargs (S (length s)) ret 0 s
  end
(** [src/xv6-public/sh.c:399-413] *)
with parseblock (fuel : nat) (s : ptr) : res (cmd * ptr) :=
  match fuel with
  | O => Deep
  | S fuel =>
    let '(s, b) := peek s "(" in
    if negb b then Syntax [] "parseblock" else
    let '(_, _, _, s) := gettoken s in
    '(c, s) ← parseline fuel s;
    let '(s, b) := peek s ")" in
    if negb b then Syntax [] "syntax - missing )" else
    let '(_, _, _, s) := gettoken s in
    parseredirs (S (length s)) c s
  end.

(** [src/xv6-public/sh.c:448-493] [n] is the length of the line; a pointer is [n] less
    its length bytes into [buf] *)
Fixpoint nulterminate (n : nat) (c : cmd) (buf : list Z) : list Z :=
  match c with
  | EXEC argv => foldl (λ buf w, <[(n - length w.2)%nat := 0]> buf) buf argv
  | REDIR c _ efile _ _ => <[(n - length efile)%nat := 0]> (nulterminate n c buf)
  | PIPE l r => nulterminate n r (nulterminate n l buf)
  | LIST l r => nulterminate n r (nulterminate n l buf)
  | BACK c => nulterminate n c buf
  end.

(** [src/xv6-public/sh.c:327-342] [s] is the line without its NUL; the command and the
    bytes of the line when it is returned.  A call nests at most four deep for
    every byte of the line. *)
Definition parsecmd (s : list Z) : res (cmd * list Z) :=
  '(c, rest) ← parseline (4 * length s + 3) s;
  let '(rest, _) := peek rest "" in
  match rest with
  | [] => Ok (c, nulterminate (length s) c (s ++ [0]))
  | _ => Syntax rest "syntax"
  end.

(** ** Pointers move forward *)

Lemma skip_ws_suffix s : skip_ws s `suffix_of` s.
Proof.
  induction s as [|c s IH]; cbn; [done|]. destruct (is_ws c); [|done].
  by apply suffix_cons_r.
Qed.

Lemma word_end_suffix s : word_end s `suffix_of` s.
Proof.
  induction s as [|c s IH]; cbn; [done|]. destruct (_ && _); [|done].
  by apply suffix_cons_r.
Qed.

Lemma skip_ws_idem s : skip_ws (skip_ws s) = skip_ws s.
Proof.
  induction s as [|c s IH]; cbn; [done|]. destruct (is_ws c) eqn:E; [done|].
  cbn. by rewrite E.
Qed.

(** A byte of a word. *)
Definition plain (c : Z) : Prop :=
  is_ws c = false ∧ is_sym c = false.

(** A word of the line: it is in [text], and ends where its bytes do. *)
Definition word_ok (text : list Z) (w : ptr * ptr) : Prop :=
  w.1 `suffix_of` text ∧
  ∃ l, w.1 = l ++ w.2 ∧ Forall plain l ∧ Forall (λ c, c ≠ 0) l ∧ ∀ c s, w.2 = c :: s → ¬ plain c.

Lemma word_end_spec s :
  ∃ l, s = l ++ word_end s ∧ Forall plain l ∧ ∀ c s', word_end s = c :: s' → ¬ plain c.
Proof.
  induction s as [|c s IH]; cbn; [by exists []|].
  destruct (negb (is_ws c) && negb (is_sym c)) eqn:E.
  - destruct IH as (l & E' & Hl & Hc). exists (c :: l). split; [cbn; by f_equal|].
    split; [|done]. constructor; [|done]. apply andb_true_iff in E as [?%negb_true_iff ?%negb_true_iff].
    done.
  - exists []. split_and!; [done|done|]. intros ?? [= <- <-] [H1 H2]. by rewrite H1, H2 in E.
Qed.

Lemma sym_cases c :
  (c =? 124) || (c =? 40) || (c =? 41) || (c =? 59) || (c =? 38) || (c =? 60) = false →
  c ≠ 62 → is_sym c = false.
Proof.
  intros H1 H2. unfold is_sym. change symbols with [60; 124; 62; 38; 59; 40; 41]. cbn [strchr].
  rewrite !(Z.eqb_sym _ c).
  destruct (c =? 60), (c =? 124), (Z.eqb_spec c 62), (c =? 38), (c =? 59), (c =? 40), (c =? 41);
    done.
Qed.

(** What [gettoken] returns on a line without NUL bytes: it moves forward,
    takes at least a byte unless it is at the end, and a word is a word. *)
Lemma gettoken_spec text s tok q eq s' :
  Forall (λ c, c ≠ 0) text → s `suffix_of` text → gettoken s = (tok, q, eq, s') →
  s' `suffix_of` s ∧ s' = skip_ws s' ∧ (tok = 0 ↔ skip_ws s = []) ∧
  (tok ≠ 0 → (length s' < length (skip_ws s))%nat) ∧ (tok = 97 → word_ok text (q, eq)).
Proof.
  intros Hz Hs. unfold gettoken. destruct (skip_ws s) as [|c r] eqn:E.
  { intros [= <- <- <- <-]. split; [rewrite <- E; apply skip_ws_suffix|].
    split_and!; done || by intros; lia. }
  assert (c :: r `suffix_of` s) as Hr by (rewrite <- E; apply skip_ws_suffix).
  assert (c ≠ 0 ∧ c :: r `suffix_of` text) as [Hc Ht].
  { assert (c :: r `suffix_of` text) as [l ->] by (by etrans). split; [|by exists l].
    apply Forall_app in Hz as [_ Hz]. by apply Forall_cons in Hz as [? _]. }
  rewrite (proj2 (Z.eqb_neq c 0)) by done. intros H.
  assert (∃ r', s' = skip_ws r' ∧ r' `suffix_of` r ∧ tok ≠ 0 ∧ (tok = 97 → word_ok text (q, eq)))
    as (r' & -> & Hr' & Ht0 & Hw).
  { destruct (_ || _ || _ || _ || _ || _) eqn:E1 in H.
    { injection H as <- <- <- <-. exists r. split_and!; try done. lia. }
    destruct (Z.eqb_spec c 62) as [->|].
    { destruct r as [|d r].
      - injection H as <- <- <- <-. by exists [].
      - destruct (d =? 62); injection H as <- <- <- <-.
        + exists r. split_and!; try done. by apply suffix_cons_r.
        + by exists (d :: r). }
    injection H as <- <- <- <-. exists (word_end (c :: r)). split; [done|].
    assert (plain c) as Hpc.
    { split; [|by apply sym_cases].
      pose proof (skip_ws_idem s) as Hi. rewrite E in Hi. cbn in Hi. destruct (is_ws c); [|done].
      pose proof (suffix_length _ _ (skip_ws_suffix r)) as Hl. rewrite Hi in Hl. cbn in Hl. lia. }
    split; [cbn; destruct Hpc as [-> ->]; apply word_end_suffix|]. split; [done|].
    intros _. split; [done|]. destruct (word_end_spec (c :: r)) as (l & E2 & Hl & Hn).
    exists l. split_and!; [done|done| |done]. destruct Ht as [t ->]. rewrite E2 in Hz.
    apply Forall_app in Hz as [_ Hz]. by apply Forall_app in Hz as [Hz _]. }
  split_and!; try done.
  - etrans; [apply skip_ws_suffix|]. etrans; [done|]. etrans; [|done]. by apply suffix_cons_r.
  - by rewrite skip_ws_idem.
  - intros _. cbn. pose proof (suffix_length _ _ (skip_ws_suffix r')).
    apply suffix_length in Hr'. lia.
Qed.

(** ** The parser ends *)

(** The pairs of pointers that a command holds. *)
Fixpoint words (c : cmd) : list (ptr * ptr) :=
  match c with
  | EXEC argv => argv
  | REDIR c file efile _ _ => words c ++ [(file, efile)]
  | PIPE l r | LIST l r => words l ++ words r
  | BACK c => words c
  end.

(** A parser function called at [s] did not run out of fuel; if it returned, it
    moved forward and its command holds words of [text]. *)
Definition parsed (text s : ptr) (r : res (cmd * ptr)) : Prop :=
  match r with
  | Ok (c, s') => s' `suffix_of` s ∧ Forall (word_ok text) (words c)
  | Syntax _ _ => True
  | Deep => False
  end.

Lemma parsed_weaken text s s' r : s' `suffix_of` s → parsed text s' r → parsed text s r.
Proof. destruct r as [[c t]| |]; cbn; [|done..]. intros ? [? ?]. split; [by etrans|done]. Qed.

Lemma parsed_bind text s m f :
  parsed text s m →
  (∀ c s', s' `suffix_of` s → Forall (word_ok text) (words c) → parsed text s (f (c, s'))) →
  parsed text s (m ≫= f).
Proof. destruct m as [[c s']| |]; cbn; [|done..]. intros [??] Hf. by apply Hf. Qed.

Lemma add_arg_words text c w :
  Forall (word_ok text) (words c) → word_ok text w → Forall (word_ok text) (words (add_arg c w)).
Proof.
  intros Hc Hw. induction c; cbn in *; try done.
  - apply Forall_app. by split; [|constructor].
  - apply Forall_app in Hc as [??]. apply Forall_app. split; [by apply IHc|done].
Qed.

Section parser.
Context (text : list Z) (text_nonzero : Forall (λ c, c ≠ 0) text).

(** [gettoken] behind a [peek] that found something *)
Lemma gettoken_peek s toks s1 b tok q eq s2 :
  s `suffix_of` text → peek s toks = (s1, b) → gettoken s1 = (tok, q, eq, s2) →
  s1 `suffix_of` s ∧ s2 `suffix_of` s ∧ (length s2 ≤ length s)%nat ∧
  (tok = 97 → word_ok text (q, eq)) ∧ (b = true ∨ tok ≠ 0 → (length s2 < length s)%nat).
Proof.
  intros Hs Hp Hg. unfold peek in Hp. injection Hp as <- Hb.
  pose proof (skip_ws_suffix s) as J1. pose proof (suffix_length _ _ J1).
  destruct (gettoken_spec text (skip_ws s) tok q eq s2) as (J2 & _ & J3 & J4 & J5);
    [done|by etrans|done|]. rewrite skip_ws_idem in *.
  pose proof (suffix_length _ _ J2). split_and!; [done|by etrans|lia|done|].
  intros [->|Hn]; [|lia]. assert (tok ≠ 0); [|lia]. intros E%J3. by rewrite E in Hb.
Qed.

Lemma parseredirs_parsed fuel c s :
  s `suffix_of` text → Forall (word_ok text) (words c) → (length s < fuel)%nat →
  parsed text s (parseredirs fuel c s).
Proof.
  revert c s. induction fuel as [|fuel IH]; intros c s Hs Hc Hf; [lia|]. cbn [parseredirs].
  destruct (peek s "<>") as [s1 b] eqn:Ep. destruct b; cbn [negb].
  2: { cbn. split; [|done]. unfold peek in Ep. injection Ep as <- _. apply skip_ws_suffix. }
  destruct (gettoken s1) as [[[tok q0] eq0] s2] eqn:E1.
  destruct (gettoken s2) as [[[ret q] eq] s3] eqn:E2.
  destruct (gettoken_peek s "<>" s1 true tok q0 eq0 s2) as (? & J1 & ? & _ & J2); [done..|].
  destruct (gettoken_spec text s2 ret q eq s3) as (J3 & _ & _ & _ & J4); [done|by etrans|done|].
  specialize (J2 (or_introl eq_refl)). pose proof (suffix_length _ _ J3).
  destruct (Z.eqb_spec ret 97) as [->|]; [|done]. cbn [negb].
  apply (parsed_weaken _ _ s3); [by etrans|]. apply IH; [by do 2 (etrans; [done|])| |lia].
  assert (∀ mode fd, Forall (word_ok text) (words (redircmd c q eq mode fd))).
  { intros. cbn. apply Forall_app. split; [done|]. constructor; [by apply J4|done]. }
  by repeat case_match.
Qed.

Lemma parseback_parsed fuel c s :
  s `suffix_of` text → Forall (word_ok text) (words c) → (length s < fuel)%nat →
  parsed text s (parseback fuel c s).
Proof.
  revert c s. induction fuel as [|fuel IH]; intros c s Hs Hc Hf; [lia|]. cbn [parseback].
  destruct (peek s "&") as [s1 b] eqn:Ep. destruct b; cbn [negb].
  2: { cbn. split; [|done]. unfold peek in Ep. injection Ep as <- _. apply skip_ws_suffix. }
  destruct (gettoken s1) as [[[tok q] eq] s2] eqn:E1.
  destruct (gettoken_peek s "&" s1 true tok q eq s2) as (? & J1 & ? & _ & J2); [done..|].
  specialize (J2 (or_introl eq_refl)).
  apply (parsed_weaken _ _ s2); [done|]. apply IH; [by etrans|done|lia].
Qed.

Lemma parseargs_parsed fuel c argc s :
  s `suffix_of` text → Forall (word_ok text) (words c) → (length s < fuel)%nat →
  parsed text s (parseargs fuel c argc s).
Proof.
  revert c argc s. induction fuel as [|fuel IH]; intros c argc s Hs Hc Hf; [lia|]. cbn [parseargs].
  destruct (peek s "|)&;") as [s1 b] eqn:Ep. destruct (gettoken s1) as [[[tok q] eq] s2] eqn:E1.
  destruct (gettoken_peek s "|)&;" s1 b tok q eq s2) as (? & J1 & ? & Hw & J2); [done..|].
  destruct b; [done|]. destruct (Z.eqb_spec tok 0) as [|Hn]; [done|].
  destruct (Z.eqb_spec tok 97) as [->|]; [|done]. cbn [negb]. case_match; [done|].
  specialize (J2 (or_intror Hn)). apply (parsed_weaken _ _ s2); [done|].
  apply parsed_bind.
  - apply parseredirs_parsed; [by etrans|by apply add_arg_words; [|apply Hw]|lia].
  - intros c' s3 J3 Hc'. apply (parsed_weaken _ _ s3); [done|].
    pose proof (suffix_length _ _ J3). apply IH; [by do 2 (etrans; [done|])|done|lia].
Qed.

Lemma parser_parsed fuel :
  (∀ s, s `suffix_of` text → (4 * length s + 3 ≤ fuel)%nat → parsed text s (parseline fuel s)) ∧
  (∀ s, s `suffix_of` text → (4 * length s + 2 ≤ fuel)%nat → parsed text s (parsepipe fuel s)) ∧
  (∀ s, s `suffix_of` text → (4 * length s + 1 ≤ fuel)%nat → parsed text s (parseexec fuel s)) ∧
  (∀ s, s `suffix_of` text → s ≠ [] → (4 * length s ≤ fuel)%nat →
     parsed text s (parseblock fuel s)).
Proof.
  induction fuel as [|fuel (IHl & IHp & IHe & IHb)].
  { split_and!; intros s; try lia. destruct s; cbn; [done|lia]. }
  split_and!; intros s Hs.
  - intros Hf. cbn [parseline]. apply parsed_bind; [apply IHp; [done|lia]|].
    intros c s1 J1 Hc. pose proof (suffix_length _ _ J1).
    apply parsed_bind; [apply (parsed_weaken _ _ s1); [done|];
      apply parseback_parsed; [by etrans|done|lia]|].
    intros c' s2 J2 Hc'. pose proof (suffix_length _ _ J2).
    destruct (peek s2 ";") as [s3 b] eqn:Ep. destruct (gettoken s3) as [[[tok q] eq] s4] eqn:E1.
    destruct (gettoken_peek s2 ";" s3 b tok q eq s4) as (? & J3 & ? & _ & J4); [by etrans|done..|].
    destruct b; [|split; [by etrans|done]]. specialize (J4 (or_introl eq_refl)).
    apply parsed_bind; [apply (parsed_weaken _ _ s4); [by etrans|]; apply IHl; [by do 2 (etrans; [done|])|lia]|].
    intros r s5 J5 Hr. split; [done|]. by apply Forall_app.
  - intros Hf. cbn [parsepipe]. apply parsed_bind; [apply IHe; [done|lia]|].
    intros c' s2 J2 Hc'. pose proof (suffix_length _ _ J2).
    destruct (peek s2 "|") as [s3 b] eqn:Ep. destruct (gettoken s3) as [[[tok q] eq] s4] eqn:E1.
    destruct (gettoken_peek s2 "|" s3 b tok q eq s4) as (? & J3 & ? & _ & J4); [by etrans|done..|].
    destruct b; [|split; [by etrans|done]]. specialize (J4 (or_introl eq_refl)).
    apply parsed_bind; [apply (parsed_weaken _ _ s4); [by etrans|]; apply IHp; [by do 2 (etrans; [done|])|lia]|].
    intros r s5 J5 Hr. split; [done|]. by apply Forall_app.
  - intros Hf. cbn [parseexec]. destruct (peek s "(") as [s1 b] eqn:Ep.
    assert (s1 = skip_ws s) as -> by (unfold peek in Ep; by injection Ep).
    pose proof (skip_ws_suffix s) as J1. pose proof (suffix_length _ _ J1).
    apply (parsed_weaken _ _ (skip_ws s)); [done|]. destruct b.
    + apply IHb; [by etrans| |lia]. intros E. unfold peek in Ep. by rewrite E in Ep.
    + apply parsed_bind; [apply parseredirs_parsed; [by etrans|done|lia]|].
      intros c s2 J2 Hc. apply (parsed_weaken _ _ s2); [done|].
      apply parseargs_parsed; [by do 2 (etrans; [done|])|done|lia].
  - intros Hne Hf. cbn [parseblock]. destruct (peek s "(") as [s1 b] eqn:Ep.
    destruct (gettoken s1) as [[[tok q] eq] s2] eqn:E1.
    destruct (gettoken_peek s "(" s1 b tok q eq s2) as (? & J1 & ? & _ & J2); [done..|].
    destruct b; [|done]. cbn [negb]. specialize (J2 (or_introl eq_refl)).
    apply (parsed_weaken _ _ s2); [done|]. apply parsed_bind; [apply IHl; [by etrans|lia]|].
    intros c s3 J3 Hc. destruct (peek s3 ")") as [s4 b] eqn:Ep'. destruct b; [|done]. cbn [negb].
    destruct (gettoken s4) as [[[tok' q'] eq'] s5] eqn:E5.
    destruct (gettoken_peek s3 ")" s4 true tok' q' eq' s5) as (? & J5 & ? & _ & _);
      [by do 2 (etrans; [done|])|done..|].
    apply (parsed_weaken _ _ s5); [by etrans|].
    apply parseredirs_parsed; [by do 3 (etrans; [done|])|done|lia].
Qed.

End parser.

(** The parser ends on every line: with four nested calls for every byte of the
    line and three more, it never runs out of fuel; it returns a command or
    panics with a message. *)
Theorem parsecmd_total s : Forall (λ c, c ≠ 0) s → parsecmd s ≠ Deep.
Proof.
  intros Hs. unfold parsecmd. destruct (parser_parsed s Hs (4 * length s + 3)) as [H _].
  specialize (H s ltac:(done) ltac:(lia)). destruct (parseline _ s) as [[c r]| |]; cbn in *; try done.
  by destruct (skip_ws r).
Qed.

Lemma parsecmd_total_witness : parsecmd (codes "((a|b&;<") ≠ Deep.
Proof. apply parsecmd_total. repeat constructor; discriminate. Defined.

(** ** The strings of a command *)

(** A command with its strings. *)
Inductive tree : Type :=
  | TExec (argv : list (list Z))
  | TRedir (t : tree) (file : list Z) (mode fd : Z)
  | TPipe (l r : tree)
  | TList (l r : tree)
  | TBack (t : tree).

(** The command that a [cmd] stands for, when [str] reads its strings. *)
Fixpoint read_cmd (str : ptr * ptr → list Z) (c : cmd) : tree :=
  match c with
  | EXEC argv => TExec (str <$> argv)
  | REDIR c file efile mode fd => TRedir (read_cmd str c) (str (file, efile)) mode fd
  | PIPE l r => TPipe (read_cmd str l) (read_cmd str r)
  | LIST l r => TList (read_cmd str l) (read_cmd str r)
  | BACK c => TBack (read_cmd str c)
  end.

(** The string at a pointer, in the line [buf] (of length [n]). *)
Definition string_at (n : nat) (buf : list Z) (w : ptr * ptr) : list Z :=
  cstring (drop (n - length w.1) buf).

(** The bytes between the two pointers of a word. *)
Definition word_of (w : ptr * ptr) : list Z := take (length w.1 - length w.2) w.1.

Lemma read_cmd_ext str str' c :
  Forall (λ w, str w = str' w) (words c) → read_cmd str c = read_cmd str' c.
Proof.
  induction c as [argv|c IH file efile mode fd|l IHl r IHr|l IHl r IHr|c IH]; cbn; intros H.
  - f_equal. apply list_fmap_ext. intros i w Hw. rewrite Forall_lookup in H. eauto.
  - apply Forall_app in H as [H1 H2]. apply Forall_cons in H2 as [H2 _]. rewrite IH by done.
    by rewrite H2.
  - apply Forall_app in H as [H1 H2]. by rewrite IHl, IHr.
  - apply Forall_app in H as [H1 H2]. by rewrite IHl, IHr.
  - by rewrite IH.
Qed.

Lemma cstring_spec l s :
  (∀ i c, l !! i = Some c → s !! i = Some c ∧ c ≠ 0) → s !! length l = Some 0 →
  cstring s = l.
Proof.
  revert s. induction l as [|c l IH]; intros s Hl Hs.
  - destruct s as [|d s]; [done|]. cbn in *. by injection Hs as ->.
  - destruct (Hl 0%nat c eq_refl) as [H0 Hc]. destruct s as [|d s]; [done|]. injection H0 as ->.
    cbn. rewrite (proj2 (Z.eqb_neq c 0)) by done. f_equal. apply IH; [|done].
    intros i. apply (Hl (S i)).
Qed.

Lemma nulterminate_words n c buf :
  nulterminate n c buf = foldl (λ buf w, <[(n - length w.2)%nat := 0]> buf) buf (words c).
Proof.
  revert buf. induction c as [argv|c IH file efile mode fd|l IHl r IHr|l IHl r IHr|c IH];
    intros buf; cbn; rewrite ?foldl_app, ?IHl, ?IHr, ?IH; done.
Qed.

(** The line after [nulterminate]. *)
Lemma nulled n (ws : list (ptr * ptr)) (buf : list Z) i :
  (i < length buf)%nat →
  ((∃ w, w ∈ ws ∧ i = (n - length w.2)%nat) →
   foldl (λ buf w, <[(n - length w.2)%nat := 0]> buf) buf ws !! i = Some 0) ∧
  ((∀ w, w ∈ ws → i ≠ (n - length w.2)%nat) →
   foldl (λ buf w, <[(n - length w.2)%nat := 0]> buf) buf ws !! i = buf !! i).
Proof.
  revert buf. induction ws as [|w ws IH]; intros buf Hi; cbn.
  { split; [|done]. intros (w & Hw & _). by apply not_elem_of_nil in Hw. }
  destruct (IH (<[(n - length w.2)%nat := 0]> buf)) as [IH1 IH2]; [by rewrite length_insert|].
  split.
  - intros (w' & Hw & E). destruct (decide (Exists (λ v, i = (n - length v.2)%nat) ws)) as [H|H];
      rewrite Exists_exists in H.
    + by apply IH1.
    + assert (w' = w) as -> by (apply elem_of_cons in Hw as [?|?]; [done|]; exfalso; eauto).
      rewrite IH2 by eauto. rewrite E in *. by apply list_lookup_insert_eq.
  - intros H. rewrite IH2 by (intros; apply H; by apply elem_of_cons; right).
    apply list_lookup_insert_ne. intros E. by apply (H w); [apply elem_of_cons; left|].
Qed.

(** Where a word is in the line. *)
Lemma word_position (text q eq l : ptr) :
  q `suffix_of` text → q = l ++ eq →
  let o := (length text - length q)%nat in
  (length text - length eq = o + length l)%nat ∧ (o + length q = length text)%nat ∧
  ∀ i c, q !! i = Some c → text !! (o + i)%nat = Some c.
Proof.
  intros [pre ->] ->. rewrite !length_app. split_and!; [lia..|]. intros i c Hi.
  rewrite lookup_app_r by lia. by replace (_ - _)%nat with i by lia.
Qed.

(** A NUL is written behind every word, and never into one: the strings read
    back after [nulterminate] are the words that were found. *)
Lemma nulterminate_strings text c :
  Forall (λ c, c ≠ 0) text → Forall (word_ok text) (words c) →
  read_cmd (string_at (length text) (nulterminate (length text) c (text ++ [0]))) c =
  read_cmd word_of c.
Proof.
  intros Hz Hc. apply read_cmd_ext. rewrite Forall_forall in Hc |- *. intros [q eq] Hw.
  pose proof (Hc _ Hw) as (Ht & l & Eq & Hpl & Hnz & _). cbn [fst snd] in *.
  destruct (word_position text q eq l) as (Ho & Hn & Hq); [done..|].
  unfold string_at, word_of. cbn [fst snd]. rewrite nulterminate_words.
  replace (take _ q) with l
    by (rewrite Eq, length_app, Nat.add_sub; by rewrite take_app_length).
  assert (length l ≤ length q)%nat by (rewrite Eq, length_app; lia).
  apply cstring_spec.
  - intros i c' Hi. rewrite Forall_lookup in Hpl, Hnz. split; [|by eapply Hnz].
    assert (q !! i = Some c') as Hqi by (rewrite Eq; by apply lookup_app_l_Some).
    pose proof (lookup_lt_Some _ _ _ Hi). rewrite lookup_drop.
    destruct (nulled (length text) (words c) (text ++ [0]) (length text - length q + i))
      as [_ ->]; [rewrite length_app; cbn; lia| |].
    + rewrite lookup_app_l by lia. by apply Hq.
    + intros [q' eq'] Hw' E. destruct (Hc _ Hw') as (Ht' & l' & Eq' & _ & _ & Hne).
      cbn [fst snd] in *. destruct (word_position text q' eq' l') as (Ho' & Hn' & Hq'); [done..|].
      pose proof (Hq i c' Hqi) as Hti. destruct eq' as [|d eq'].
      * cbn in E. rewrite E, Nat.sub_0_r in Hti. apply lookup_lt_Some in Hti. lia.
      * apply (Hne d eq' eq_refl). rewrite E, Ho' in Hti.
        rewrite (Hq' (length l') d) in Hti
          by (rewrite Eq'; by apply list_lookup_middle).
        injection Hti as ->. by eapply Hpl.
  - rewrite lookup_drop.
    destruct (nulled (length text) (words c) (text ++ [0]) (length text - length q + length l))
      as [-> _]; [rewrite length_app; cbn; lia|done|].
    exists (q, eq). split; [done|]. cbn. lia.
Qed.

(** ** Printing commands *)

(** Tokens with a blank between them. *)
Fixpoint join (ts : list (list Z)) : list Z :=
  match ts with
  | [] => []
  | t :: ts => t ++ match ts with [] => [] | _ => 32 :: join ts end
  end.

(** What a command is printed as part of. *)
Inductive level := LLine | LBack | LPipe | LExec.

Definition paren (b : bool) (ts : list (list Z)) : list (list Z) :=
  if b then [40] :: ts ++ [[41]] else ts.

(** The tokens of a command, with parentheses where the grammar needs them. *)
Fixpoint pr (l : level) (t : tree) : list (list Z) :=
  match t with
  | TExec argv => argv
  | TRedir t file _ fd => pr LExec t ++ [[if fd =? 0 then 60 else 62]; file]
  | TPipe a b =>
    paren (match l with LExec => true | _ => false end) (pr LExec a ++ [124] :: pr LPipe b)
  | TBack a =>
    paren (match l with LExec | LPipe => true | _ => false end) (pr LBack a ++ [[38]])
  | TList a b =>
    paren (match l with LLine => false | _ => true end) (pr LBack a ++ [59] :: pr LLine b)
  end.

Definition print (t : tree) : list Z := join (pr LLine t).

Definition word (w : list Z) : Prop := w ≠ [] ∧ Forall plain w ∧ Forall (λ c, c ≠ 0) w.

(** The commands of the shell: arguments and file names are words, there are
    fewer than [MAXARGS] arguments, and a redirection is one of [<] and [>]. *)
Fixpoint tree_ok (t : tree) : Prop :=
  match t with
  | TExec argv => Forall word argv ∧ Z.of_nat (length argv) < MAXARGS
  | TRedir t file mode fd =>
    tree_ok t ∧ word file ∧
    ((mode = O_RDONLY ∧ fd = 0) ∨ (mode = Z.lor O_WRONLY O_CREATE ∧ fd = 1))
  | TPipe a b | TList a b => tree_ok a ∧ tree_ok b
  | TBack a => tree_ok a
  end.

Definition symbol (t : list Z) : Prop :=
  t ∈ [[60]; [124]; [62]; [38]; [59]; [40]; [41]].
Definition token (t : list Z) : Prop := word t ∨ symbol t.

Lemma word_token w : word w → token w.
Proof. by left. Qed.
Lemma symbol_token t : symbol t → token t.
Proof. by right. Qed.

Ltac solve_symbol := unfold symbol; repeat (apply list_elem_of_here || apply list_elem_of_further).
Ltac solve_symbols := repeat (constructor; [solve_symbol|]); constructor.

Lemma paren_tokens b ts : Forall token ts → Forall token (paren b ts).
Proof.
  intros H. destruct b; [|done]. constructor; [apply symbol_token; solve_symbol|].
  apply Forall_app. split; [done|]. constructor; [apply symbol_token; solve_symbol|done].
Qed.

Lemma pr_tokens l t : tree_ok t → Forall token (pr l t).
Proof.
  revert l. induction t as [argv|t IH file mode fd|a IHa b IHb|a IHa b IHb|a IH];
    intros l Ht; cbn in *.
  - destruct Ht as [H _]. eapply Forall_impl; [done|]. apply word_token.
  - destruct Ht as (Ht & Hf & _). apply Forall_app. split; [by apply IH|].
    constructor; [apply symbol_token; destruct (fd =? 0); solve_symbol|].
    constructor; [by apply word_token|done].
  - destruct Ht. apply paren_tokens, Forall_app. split; [by apply IHa|].
    constructor; [apply symbol_token; solve_symbol|by apply IHb].
  - destruct Ht. apply paren_tokens, Forall_app. split; [by apply IHa|].
    constructor; [apply symbol_token; solve_symbol|by apply IHb].
  - apply paren_tokens, Forall_app. split; [by apply IH|].
    constructor; [apply symbol_token; solve_symbol|done].
Qed.

(** ** Reading tokens back *)

(** The first byte of the tokens, NUL when there is none. *)
Definition first (ts : list (list Z)) : Z := match ts with (c :: _) :: _ => c | _ => 0 end.

(** What stands behind a token. *)
Definition after (ts : list (list Z)) : list Z := match ts with [] => [] | _ => 32 :: join ts end.

Lemma join_cons t ts : join (t :: ts) = t ++ after ts.
Proof. by destruct ts. Qed.

Lemma symbol_inv t :
  symbol t → ∃ c, t = [c] ∧ is_ws c = false ∧ c ≠ 0 ∧ is_sym c = true.
Proof.
  unfold symbol. intros H. repeat (apply elem_of_cons in H as [->|H]; [eexists; by split_and!|]).
  by apply not_elem_of_nil in H.
Qed.

Lemma token_cons t :
  token t → ∃ c s, t = c :: s ∧ c ≠ 0 ∧ is_ws c = false.
Proof.
  intros [(Hne & Hp & Hz)|(c & -> & ? & ? & _)%symbol_inv]; [|by exists c, []].
  destruct t as [|c s]; [done|]. apply Forall_cons in Hp as [[? _] _].
  apply Forall_cons in Hz as [? _]. by exists c, s.
Qed.

Lemma skip_join ts : Forall token ts → skip_ws (join ts) = join ts.
Proof.
  destruct 1 as [|t ts Ht _]; [done|]. apply token_cons in Ht as (c & s & -> & _ & Hw).
  rewrite join_cons. cbn. by rewrite Hw.
Qed.

Lemma skip_after ts : Forall token ts → skip_ws (after ts) = join ts.
Proof. intros H. destruct ts; [done|]. by apply skip_join. Qed.

Lemma strchr_nul s : strchr s 0 = None.
Proof. induction s as [|c s IH]; cbn; [done|]. destruct (c =? 0); [done|]. by rewrite IH. Qed.

Lemma peek_join ts toks : Forall token ts → peek (join ts) toks = (join ts, is_tok toks (first ts)).
Proof.
  intros H. unfold peek. rewrite skip_join by done. f_equal. destruct H as [|t ts Ht _].
  - cbn. unfold is_tok. by rewrite strchr_nul.
  - apply token_cons in Ht as (c & s & -> & Hc & _). rewrite join_cons. cbn.
    by rewrite (proj2 (Z.eqb_neq c 0)).
Qed.

Lemma word_end_word w ts : Forall plain w → word_end (w ++ after ts) = after ts.
Proof.
  induction 1 as [|c w [Hw Hs] _ IH]; cbn; [by destruct ts|]. by rewrite Hw, Hs.
Qed.

Lemma plain_sym c s : plain c → symbol (c :: s) → False.
Proof. intros [_ H] (d & [= -> ->] & _ & _ & H')%symbol_inv. congruence. Qed.

Lemma gettoken_word w ts :
  word w → Forall token ts →
  gettoken (join (w :: ts)) = (97, join (w :: ts), after ts, join ts).
Proof.
  intros Hw Hts. unfold gettoken. rewrite skip_join by (constructor; [by left|done]).
  destruct Hw as (Hne & Hp & Hz). destruct w as [|c w]; [done|].
  pose proof Hp as [Hc _]%Forall_cons. apply Forall_cons in Hz as [Hz _].
  assert (∀ d, symbol [d] → (c =? d) = false) as E.
  { intros d Hd. apply Z.eqb_neq. intros ->. by eapply plain_sym. }
  rewrite join_cons. cbn [app]. rewrite (proj2 (Z.eqb_neq c 0)) by done.
  rewrite !E by solve_symbol. cbn [orb].
  change (c :: w ++ after ts) with ((c :: w) ++ after ts).
  by rewrite word_end_word, skip_after.
Qed.

Lemma gettoken_symbol c ts :
  symbol [c] → Forall token ts → ∃ q eq, gettoken (join ([c] :: ts)) = (c, q, eq, join ts).
Proof.
  intros Hc Hts. unfold gettoken. rewrite skip_join by (constructor; [by right|done]).
  rewrite join_cons. cbn [app].
  assert (after ts = [] ∨ after ts = 32 :: join ts) as Ha by (destruct ts; auto).
  unfold symbol in Hc. repeat (apply elem_of_cons in Hc as [[= ->]|Hc];
    [eexists _, _; cbn -[skip_ws]; destruct Ha as [Ea|Ea]; rewrite Ea; cbn -[skip_ws];
     rewrite <- ?Ea, ?skip_after by done; reflexivity|]).
  by apply not_elem_of_nil in Hc.
Qed.

(** ** The parser reads the printer's tokens *)

Lemma strchr_notin s c : c ∉ s → strchr s c = None.
Proof.
  induction s as [|d s IH]; intros H; [done|]. apply not_elem_of_cons in H as [H1 H2]. cbn.
  destruct (d =? 0); [done|]. by rewrite (proj2 (Z.eqb_neq d c)), IH by congruence.
Qed.

(** No token of [toks] starts the tokens [ts], which start with one of [cs]. *)
Lemma not_tok toks cs ts :
  first ts ∈ cs → forallb (λ c, negb (is_tok toks c)) cs = true → is_tok toks (first ts) = false.
Proof.
  intros H Hf. rewrite forallb_forall in Hf. apply negb_true_iff, Hf. by apply list_elem_of_In.
Qed.

Lemma word_not_tok toks w ts :
  word w → Forall (λ d, symbol [d]) (codes toks) → is_tok toks (first (w :: ts)) = false.
Proof.
  intros (Hne & Hp & _) Ht. destruct w as [|c w]; [done|]. apply Forall_cons in Hp as [Hp _].
  cbn. unfold is_tok. rewrite strchr_notin; [done|]. intros Hc.
  rewrite Forall_forall in Ht. by apply (plain_sym c []); [|apply Ht].
Qed.

Lemma length_join_cons t ts : token t → (length (join ts) < length (join (t :: ts)))%nat.
Proof.
  intros (c & s & -> & _)%token_cons. rewrite join_cons, length_app. destruct ts; cbn; lia.
Qed.

Lemma length_join_app ts ts' :
  Forall token ts → (length (join ts') ≤ length (join (ts ++ ts')))%nat.
Proof.
  induction 1 as [|t ts Ht _ IH]; cbn [app]; [lia|].
  pose proof (length_join_cons t (ts ++ ts') Ht). lia.
Qed.

(** Redirections: file names, and whether for output. *)
Definition rtoks (R : list (list Z * bool)) : list (list Z) :=
  concat ((λ r : list Z * bool, [[if r.2 then 62 else 60]; r.1]) <$> R).
Definition wrap (R : list (list Z * bool)) (t : tree) : tree :=
  foldl (λ t (r : list Z * bool), if r.2 then TRedir t r.1 (Z.lor O_WRONLY O_CREATE) 1
                else TRedir t r.1 O_RDONLY 0) t R.
Definition redirs_ok (R : list (list Z * bool)) : Prop := Forall (λ r, word r.1) R.

Lemma rtoks_tokens R : redirs_ok R → Forall token (rtoks R).
Proof.
  induction 1 as [|[f o] R Hf _ IH]; [constructor|]. cbn. constructor.
  - apply symbol_token. destruct o; solve_symbol.
  - constructor; [by apply word_token|done].
Qed.

Lemma word_of_word w ts : word_of (join (w :: ts), after ts) = w.
Proof.
  unfold word_of. cbn [fst snd]. rewrite join_cons, length_app, Nat.add_sub.
  by rewrite take_app_length.
Qed.

(** Tokens that may stand behind a command. *)
Definition ends (cs : list Z) (rest : list (list Z)) : Prop :=
  Forall token rest ∧ first rest ∈ 0 :: cs.

Lemma parseredirs_print R rest fuel c :
  redirs_ok R → ends [124; 41; 38; 59] rest →
  (length (join (rtoks R ++ rest)) < fuel)%nat →
  ∃ c', parseredirs fuel c (join (rtoks R ++ rest)) = Ok (c', join rest) ∧
    read_cmd word_of c' = wrap R (read_cmd word_of c).
Proof.
  intros HR [Hrest Hf]. revert fuel c. induction HR as [|[f o] R Hw HR IH]; intros fuel c Hl;
    (destruct fuel as [|fuel]; [lia|]); cbn [parseredirs].
  { exists c. cbn [rtoks fmap list_fmap concat app]. rewrite peek_join by done.
    by rewrite (not_tok _ (0 :: [124; 41; 38; 59])). }
  assert (Forall token (rtoks R ++ rest)) as Hts
    by (apply Forall_app; split; [by apply rtoks_tokens|done]).
  assert (symbol [if o then 62 else 60]) as Hs by (destruct o; solve_symbol).
  change (rtoks ((f, o) :: R) ++ rest)
    with ([if o then 62 else 60] :: f :: (rtoks R ++ rest)) in *. cbn [fst] in Hw.
  assert (Forall token (f :: rtoks R ++ rest)) by (constructor; [by left|done]).
  rewrite peek_join by (constructor; [by right|done]).
  assert (is_tok "<>" (first ([if o then 62 else 60] :: f :: rtoks R ++ rest)) = true) as ->
    by (by destruct o). cbn [negb].
  destruct (gettoken_symbol (if o then 62 else 60) (f :: rtoks R ++ rest)) as (q & eq & ->);
    [done..|]. rewrite gettoken_word by done. cbn [negb Z.eqb Pos.eqb].
  pose proof (length_join_cons [if o then 62 else 60] (f :: rtoks R ++ rest) (or_intror Hs)).
  pose proof (length_join_cons f (rtoks R ++ rest) (or_introl Hw)).
  edestruct (IH fuel) as (c' & E & Er); [lia|]. exists c'. split; [exact E|].
  rewrite Er. unfold redircmd. destruct o; cbn [Z.eqb Pos.eqb read_cmd]; by rewrite word_of_word.
Qed.

Lemma parseredirs_none c ts fuel :
  Forall token ts → is_tok "<>" (first ts) = false →
  parseredirs (S fuel) c (join ts) = Ok (c, join ts).
Proof. intros Hts Hf. cbn [parseredirs]. by rewrite peek_join, Hf. Qed.

Lemma parseargs_end c argc rest fuel :
  ends [124; 41; 38; 59] rest →
  parseargs (S fuel) c argc (join rest) = Ok (c, join rest).
Proof.
  intros [Hrest Hf]. cbn [parseargs]. rewrite peek_join by done.
  destruct (decide (first rest = 0)) as [E|E].
  - rewrite E. destruct rest as [|t rest]; [done|]. apply Forall_cons in Hrest as [Ht _].
    by apply token_cons in Ht as (? & ? & -> & ? & _).
  - assert (is_tok "|)&;" (first rest) = true) as ->; [|done].
    repeat (apply elem_of_cons in Hf as [E'|Hf]; [congruence || by rewrite E'|]).
    by apply not_elem_of_nil in Hf.
Qed.

Lemma parseargs_step w ts ws argc fuel :
  word w → Forall token ts → argc + 1 < MAXARGS →
  parseargs (S fuel) (EXEC ws) argc (join (w :: ts)) =
  ('(ret, s) ←
     parseredirs (S (length (join ts))) (EXEC (ws ++ [(join (w :: ts), after ts)])) (join ts);
   parseargs fuel ret (argc + 1) s).
Proof.
  intros Hw Hts Ha. cbn [parseargs]. rewrite peek_join by (constructor; [by left|done]).
  rewrite word_not_tok by (done || solve_symbols).
  rewrite gettoken_word by done. cbn [Z.eqb Pos.eqb negb add_arg].
  by replace (argc + 1 >=? MAXARGS) with false by lia.
Qed.

Lemma parseargs_print w argv ws R rest fuel :
  Forall word (w :: argv) → redirs_ok R → ends [124; 41; 38; 59] rest →
  Z.of_nat (length ws + length (w :: argv)) < MAXARGS →
  (length (join ((w :: argv) ++ rtoks R ++ rest)) < fuel)%nat →
  ∃ c, parseargs fuel (EXEC ws) (Z.of_nat (length ws)) (join ((w :: argv) ++ rtoks R ++ rest)) =
         Ok (c, join rest) ∧
    read_cmd word_of c = wrap R (TExec ((word_of <$> ws) ++ w :: argv)).
Proof.
  intros Hw HR Hrest. pose proof Hrest as [Htok _].
  assert (Forall token (rtoks R ++ rest)) as Hts
    by (apply Forall_app; split; [by apply rtoks_tokens|done]).
  revert w ws fuel Hw. induction argv as [|w' argv IH];
    intros w ws fuel Hw Hargc Hl; apply Forall_cons in Hw as [Hw Hws]; cbn [length] in Hargc;
    (destruct fuel as [|fuel]; [lia|]); cbn [app] in *.
  - rewrite parseargs_step by (done || lia).
    edestruct (parseredirs_print R rest) as (c & -> & Ec); [done|done|apply Nat.lt_succ_diag_r|].
    exists c. cbn [mbind res_bind].
    pose proof (length_join_cons w (rtoks R ++ rest) (or_introl Hw)).
    destruct fuel as [|fuel]; [lia|]. rewrite parseargs_end by done. split; [done|].
    rewrite Ec. cbn [read_cmd]. by rewrite fmap_app, list_fmap_singleton, word_of_word.
  - assert (Forall token (w' :: argv ++ rtoks R ++ rest)) as Hts'.
    { apply (Forall_app _ (w' :: argv)). split; [|done]. by eapply Forall_impl, word_token. }
    rewrite parseargs_step by (done || lia). set (p := (join _, after _)).
    rewrite (parseredirs_none _ (w' :: argv ++ rtoks R ++ rest)); [|done|].
    2: { apply Forall_cons in Hws as [Hw' _]. apply word_not_tok; [done|].
         solve_symbols. }
    cbn [mbind res_bind].
    pose proof (length_join_cons w (w' :: argv ++ rtoks R ++ rest) (or_introl Hw)).
    destruct (IH w' (ws ++ [p]) fuel) as (c & E & Ec); [done|rewrite length_app; cbn in *; lia|lia|].
    exists c. rewrite length_app, Nat2Z.inj_add in E. split; [exact E|].
    rewrite Ec, fmap_app, <- app_assoc. unfold p. by rewrite list_fmap_singleton, word_of_word.
Qed.

(** The functions of the parser on what is printed at their level. *)
Definition exec_ok (t : tree) : Prop := ∀ R rest fuel,
  redirs_ok R → ends [124; 41; 38; 59] rest →
  (4 * length (join (pr LExec t ++ rtoks R ++ rest)) + 1 ≤ fuel)%nat →
  ∃ c, parseexec fuel (join (pr LExec t ++ rtoks R ++ rest)) = Ok (c, join rest) ∧
    read_cmd word_of c = wrap R t.

Definition pipe_ok (t : tree) : Prop := ∀ rest fuel,
  ends [41; 38; 59] rest → (4 * length (join (pr LPipe t ++ rest)) + 2 ≤ fuel)%nat →
  ∃ c, parsepipe fuel (join (pr LPipe t ++ rest)) = Ok (c, join rest) ∧ read_cmd word_of c = t.

Definition back_ok (t : tree) : Prop := ∀ rest fuel,
  ends [41; 38; 59] rest → (4 * length (join (pr LBack t ++ rest)) + 2 ≤ fuel)%nat →
  ∃ c0 s0 c, parsepipe fuel (join (pr LBack t ++ rest)) = Ok (c0, s0) ∧ read_cmd word_of c = t ∧
    ∀ g, (length s0 < g)%nat →
    ∃ g', (length (join rest) < g')%nat ∧ parseback g c0 s0 = parseback g' c (join rest).

Definition line_ok (t : tree) : Prop := ∀ rest fuel,
  ends [41] rest → (4 * length (join (pr LLine t ++ rest)) + 3 ≤ fuel)%nat →
  ∃ c, parseline fuel (join (pr LLine t ++ rest)) = Ok (c, join rest) ∧ read_cmd word_of c = t.

Lemma ends_weaken cs cs' rest : (∀ c, c ∈ cs → c ∈ cs') → ends cs rest → ends cs' rest.
Proof. intros H [? ?]. split; [done|]. set_solver. Qed.

Lemma ends_cons c cs rest : symbol [c] → c ∈ cs → Forall token rest → ends cs ([c] :: rest).
Proof. intros Hs Hc Hr. split; [constructor; [by right|done]|]. cbn. set_solver. Qed.

Ltac in_list := cbn; repeat (apply list_elem_of_here || apply list_elem_of_further).

Lemma exec_of_line t :
  tree_ok t → pr LExec t = [40] :: pr LLine t ++ [[41]] → line_ok t → exec_ok t.
Proof.
  intros Ht E Hline R rest fuel HR Hrest Hl. rewrite E in *. cbn [app] in *.
  pose proof Hrest as [Hr _]. rewrite <- app_assoc in *. cbn [app] in *.
  assert (Forall token (rtoks R ++ rest)) as H1
    by (apply Forall_app; split; [by apply rtoks_tokens|done]).
  assert (Forall token ([41] :: rtoks R ++ rest)) as H2
    by (constructor; [apply symbol_token; solve_symbol|done]).
  assert (Forall token (pr LLine t ++ [41] :: rtoks R ++ rest)) as H3
    by (apply Forall_app; split; [by apply pr_tokens|done]).
  assert (symbol [40]) as Hs by solve_symbol.
  set (s3 := pr LLine t ++ [41] :: rtoks R ++ rest) in *. pose proof (length_join_cons [40] s3 (or_intror Hs)).
  assert (Forall token ([40] :: s3)) as H4 by (constructor; [by right|done]).
  destruct fuel as [|[|fuel]]; [lia..|]. cbn [parseexec]. rewrite peek_join by done.
  change (is_tok "(" (first ([40] :: s3))) with true. cbn [parseblock].
  rewrite peek_join by done. change (is_tok "(" (first ([40] :: s3))) with true. cbn [negb].
  destruct (gettoken_symbol 40 s3) as (q & eq & ->); [done..|].
  destruct (Hline ([41] :: rtoks R ++ rest) fuel) as (c & Ep & Ec);
    [apply ends_cons; [solve_symbol|in_list|done]|fold s3; lia|].
  fold s3 in Ep. rewrite Ep. cbn [mbind res_bind].
  rewrite peek_join by done. change (is_tok ")" (first ([41] :: rtoks R ++ rest))) with true. cbn [negb].
  destruct (gettoken_symbol 41 (rtoks R ++ rest)) as (q' & eq' & ->); [solve_symbol|done|].
  edestruct (parseredirs_print R rest) as (c' & -> & Ec'); [done|done|apply Nat.lt_succ_diag_r|].
  exists c'. by rewrite Ec', Ec.
Qed.

Lemma pipe_of_exec t : exec_ok t → pr LPipe t = pr LExec t → pipe_ok t.
Proof.
  intros He E rest fuel Hrest Hl. rewrite E in *. destruct fuel as [|fuel]; [lia|].
  cbn [parsepipe]. destruct (He [] rest fuel) as (c & Ep & Ec);
    [constructor|eapply ends_weaken; [|done]; set_solver|cbn; lia|].
  cbn [rtoks fmap list_fmap concat app] in Ep. rewrite Ep. cbn [mbind res_bind].
  destruct Hrest as [Hr Hf]. rewrite peek_join by done.
  rewrite (not_tok _ _ _ Hf) by done. by exists c.
Qed.

Lemma back_of_pipe t : pipe_ok t → pr LBack t = pr LPipe t → back_ok t.
Proof.
  intros Hp E rest fuel Hrest Hl. rewrite E in *. destruct (Hp rest fuel) as (c & Ep & Ec); [done..|].
  exists c, (join rest), c. split_and!; [done..|]. eauto.
Qed.

Lemma line_of_back t : back_ok t → pr LLine t = pr LBack t → line_ok t.
Proof.
  intros Hb E rest fuel Hrest Hl. rewrite E in *. destruct fuel as [|fuel]; [lia|].
  cbn [parseline]. destruct (Hb rest fuel) as (c0 & s0 & c & -> & Ec & Hg);
    [eapply ends_weaken; [|done]; set_solver|lia|]. cbn [mbind res_bind].
  destruct (Hg (S (length s0))) as (g & Hl' & ->); [lia|]. destruct g as [|g]; [lia|].
  destruct Hrest as [Hr Hf]. cbn [parseback]. rewrite peek_join by done.
  rewrite (not_tok _ _ _ Hf) by done. cbn [negb mbind res_bind]. rewrite peek_join by done.
  rewrite (not_tok _ _ _ Hf) by done. by exists c.
Qed.

Lemma exec_simple argv :
  Forall word argv → Z.of_nat (length argv) < MAXARGS → exec_ok (TExec argv).
Proof.
  intros Hw Ha R rest fuel HR Hrest Hl. cbn [pr] in *. pose proof Hrest as [Hr Hf].
  assert (Forall token (rtoks R ++ rest)) as Hts
    by (apply Forall_app; split; [by apply rtoks_tokens|done]).
  destruct fuel as [|fuel]; [lia|]. cbn [parseexec]. destruct argv as [|w argv].
  - cbn [app]. rewrite peek_join by done.
    assert (is_tok "(" (first (rtoks R ++ rest)) = false) as ->.
    { destruct R as [|[f []] R]; [|done..]. cbn [rtoks fmap list_fmap concat app].
      by rewrite (not_tok _ _ _ Hf). }
    edestruct (parseredirs_print R rest) as (c & -> & Ec); [done|done|apply Nat.lt_succ_diag_r|].
    cbn [mbind res_bind]. rewrite parseargs_end by done. by exists c.
  - assert (Forall token ((w :: argv) ++ rtoks R ++ rest)) as Hts'.
    { apply Forall_app. split; [|done]. by eapply Forall_impl, word_token. }
    rewrite peek_join by done. pose proof Hw as [Hw' _]%Forall_cons. cbn [app].
    rewrite word_not_tok by (done || solve_symbols).
    rewrite parseredirs_none by (done || (apply word_not_tok; [done|solve_symbols])).
    cbn [mbind res_bind].
    edestruct (parseargs_print w argv [] R rest) as (c & E & Ec);
      [done..|apply Nat.lt_succ_diag_r|]. exists c. split; [exact E|exact Ec].
Qed.

Lemma exec_redir t f o : word f → exec_ok t → exec_ok (wrap [(f, o)] t).
Proof.
  intros Hf He R rest fuel HR Hrest Hl.
  assert (pr LExec (wrap [(f, o)] t) ++ rtoks R ++ rest =
          pr LExec t ++ rtoks ((f, o) :: R) ++ rest) as E.
  { destruct o; cbn [wrap foldl fst snd pr]; by rewrite <- app_assoc. }
  rewrite E in *. destruct (He ((f, o) :: R) rest fuel) as (c & Ep & Ec); [by constructor|done..|].
  exists c. split; [done|]. by rewrite Ec.
Qed.

Lemma pipe_pipe a b :
  tree_ok a → tree_ok b → exec_ok a → pipe_ok b → pipe_ok (TPipe a b).
Proof.
  intros Hta Htb Ha Hb rest fuel Hrest Hl. cbn [pr paren] in *. rewrite <- app_assoc in *.
  cbn [app] in *. pose proof Hrest as [Hr Hf]. destruct fuel as [|fuel]; [lia|].
  assert (symbol [124]) as Hs by solve_symbol.
  assert (Forall token (pr LPipe b ++ rest)) as H1
    by (apply Forall_app; split; [by apply pr_tokens|done]).
  pose proof (length_join_app (pr LExec a) ([124] :: pr LPipe b ++ rest) (pr_tokens LExec a Hta)).
  pose proof (length_join_cons [124] (pr LPipe b ++ rest) (or_intror Hs)).
  cbn [parsepipe]. destruct (Ha [] ([124] :: pr LPipe b ++ rest) fuel) as (c & Ep & Ec);
    [constructor|by apply ends_cons; [|in_list|]|cbn [rtoks fmap list_fmap concat app]; lia|].
  cbn [rtoks fmap list_fmap concat app] in Ep. rewrite Ep. cbn [mbind res_bind].
  rewrite peek_join by (constructor; [by right|done]).
  change (is_tok "|" (first ([124] :: pr LPipe b ++ rest))) with true.
  destruct (gettoken_symbol 124 (pr LPipe b ++ rest)) as (q & eq & ->); [done..|].
  destruct (Hb rest fuel) as (r & -> & Er); [done|lia|]. cbn [mbind res_bind].
  exists (pipecmd c r). split; [done|]. cbn. by rewrite Ec, Er.
Qed.

Lemma back_back a : back_ok a → back_ok (TBack a).
Proof.
  intros Ha rest fuel Hrest Hl. cbn [pr paren] in *. rewrite <- app_assoc in *.
  cbn [app] in *. pose proof Hrest as [Hr Hf]. assert (symbol [38]) as Hs by solve_symbol.
  destruct (Ha ([38] :: rest) fuel) as (c0 & s0 & c & Ep & Ec & Hg);
    [by apply ends_cons; [|in_list|]|done|].
  exists c0, s0, (backcmd c). split_and!; [done|cbn; by rewrite Ec|]. intros g Hlg.
  destruct (Hg g Hlg) as (g' & Hl' & E). destruct g' as [|g']; [lia|]. exists g'.
  pose proof (length_join_cons [38] rest (or_intror Hs)). split; [lia|]. rewrite E.
  cbn [parseback]. rewrite peek_join by (constructor; [by right|done]).
  change (is_tok "&" (first ([38] :: rest))) with true. cbn [negb].
  by destruct (gettoken_symbol 38 rest) as (q & eq & ->).
Qed.

Lemma line_list a b :
  tree_ok a → tree_ok b → back_ok a → line_ok b → line_ok (TList a b).
Proof.
  intros Hta Htb Ha Hb rest fuel Hrest Hl. cbn [pr paren] in *. rewrite <- app_assoc in *.
  cbn [app] in *. pose proof Hrest as [Hr Hf]. destruct fuel as [|fuel]; [lia|].
  assert (symbol [59]) as Hs by solve_symbol.
  assert (Forall token (pr LLine b ++ rest)) as H1
    by (apply Forall_app; split; [by apply pr_tokens|done]).
  pose proof (length_join_app (pr LBack a) ([59] :: pr LLine b ++ rest) (pr_tokens LBack a Hta)).
  pose proof (length_join_cons [59] (pr LLine b ++ rest) (or_intror Hs)).
  cbn [parseline]. destruct (Ha ([59] :: pr LLine b ++ rest) fuel)
    as (c0 & s0 & c & -> & Ec & Hg); [by apply ends_cons; [|in_list|]|lia|].
  cbn [mbind res_bind]. destruct (Hg (S (length s0))) as (g & Hlg & ->); [lia|].
  destruct g as [|g]; [lia|]. cbn [parseback].
  rewrite peek_join by (constructor; [by right|done]).
  change (is_tok "&" (first ([59] :: pr LLine b ++ rest))) with false. cbn [negb mbind res_bind].
  rewrite peek_join by (constructor; [by right|done]).
  change (is_tok ";" (first ([59] :: pr LLine b ++ rest))) with true.
  destruct (gettoken_symbol 59 (pr LLine b ++ rest)) as (q & eq & ->); [done..|].
  destruct (Hb rest fuel) as (r & -> & Er); [done|lia|]. cbn [mbind res_bind].
  exists (listcmd c r). split; [done|]. cbn. by rewrite Ec, Er.
Qed.

Lemma parser_print t : tree_ok t → exec_ok t ∧ pipe_ok t ∧ back_ok t ∧ line_ok t.
Proof.
  induction t as [argv|t IH file mode fd|a IHa b IHb|a IHa b IHb|a IH]; intros Ht.
  - destruct Ht. assert (exec_ok (TExec argv)) as He by (by apply exec_simple).
    pose proof (pipe_of_exec _ He eq_refl) as Hp. pose proof (back_of_pipe _ Hp eq_refl) as Hb.
    split_and!; [done..|by apply line_of_back].
  - assert (exec_ok (TRedir t file mode fd)) as He.
    { destruct Ht as (Ht & Hf & [[-> ->]|[-> ->]]); destruct (IH Ht) as [He _].
      - by apply (exec_redir t file false).
      - by apply (exec_redir t file true). }
    pose proof (pipe_of_exec _ He eq_refl) as Hp. pose proof (back_of_pipe _ Hp eq_refl) as Hb.
    split_and!; [done..|by apply line_of_back].
  - pose proof Ht as [Ha Hb]. destruct (IHa Ha) as (? & _), (IHb Hb) as (_ & ? & _).
    assert (pipe_ok (TPipe a b)) as Hp by (by apply pipe_pipe).
    pose proof (back_of_pipe _ Hp eq_refl) as Hk. pose proof (line_of_back _ Hk eq_refl) as Hl.
    split_and!; [by apply exec_of_line|done..].
  - pose proof Ht as [Ha Hb]. destruct (IHa Ha) as (_ & _ & ? & _), (IHb Hb) as (_ & _ & _ & ?).
    assert (line_ok (TList a b)) as Hl by (by apply line_list).
    assert (exec_ok (TList a b)) as He by (by apply exec_of_line).
    pose proof (pipe_of_exec _ He eq_refl) as Hp.
    split_and!; [done|done|by apply back_of_pipe|done].
  - destruct (IH Ht) as (_ & _ & Hb & _). apply back_back in Hb.
    pose proof (line_of_back _ Hb eq_refl) as Hl.
    assert (exec_ok (TBack a)) as He by (by apply exec_of_line).
    split_and!; [done|by apply pipe_of_exec|done..].
Qed.

Lemma join_nonzero ts : Forall token ts → Forall (λ c, c ≠ 0) (join ts).
Proof.
  induction 1 as [|t ts Ht _ IH]; [constructor|]. rewrite join_cons. apply Forall_app. split.
  - destruct Ht as [(_ & _ & ?)|(c & -> & _ & ? & _)%symbol_inv]; [done|by constructor].
  - destruct ts; [done|]. by constructor.
Qed.

(** C31 Every command of the shell's language can be typed, and is understood: the
    parser maps the line that [print] writes for a command back to that
    command, with the strings read in the line as [parsecmd] leaves it, after
    [nulterminate]. *)
Theorem parse_print t :
  tree_ok t →
  ∃ c buf, parsecmd (print t) = Ok (c, buf) ∧
    read_cmd (string_at (length (print t)) buf) c = t.
Proof.
  intros Ht. destruct (parser_print t Ht) as (_ & _ & _ & Hl).
  pose proof (join_nonzero _ (pr_tokens LLine t Ht)) as Hz. fold (print t) in Hz.
  destruct (Hl [] (4 * length (print t) + 3)%nat) as (c & Ep & Ec);
    [split; [done|in_list]|by rewrite app_nil_r|]. rewrite app_nil_r in Ep. fold (print t) in Ep.
  destruct (parser_parsed _ Hz (4 * length (print t) + 3)) as [Hp _].
  specialize (Hp (print t) ltac:(done) ltac:(lia)). rewrite Ep in Hp. destruct Hp as [_ Hw].
  eexists c, _. unfold parsecmd. rewrite Ep. cbn [mbind res_bind join peek skip_ws].
  split; [done|]. by rewrite nulterminate_strings.
Qed.

(** [ls | wc -l > out & ; (echo a ; b) < in] *)
Definition a_command : tree :=
  TList
    (TBack (TPipe (TExec [codes "ls"])
      (TRedir (TExec [codes "wc"; codes "-l"]) (codes "out") (Z.lor O_WRONLY O_CREATE) 1)))
    (TRedir (TList (TExec [codes "echo"; codes "a"]) (TExec [codes "b"])) (codes "in") O_RDONLY 0).

Lemma parse_print_witness :
  ∃ c buf, parsecmd (print a_command) = Ok (c, buf) ∧
    read_cmd (string_at (length (print a_command)) buf) c = a_command.
Proof.
  apply parse_print.
  assert (∀ w, w ≠ [] → forallb (λ c, negb (is_ws c || is_sym c || (c =? 0))) w = true → word w) as H.
  { intros w Hne Hw. split; [done|]. rewrite <- Forall_and, Forall_forall. intros c Hc.
    rewrite forallb_forall in Hw. apply list_elem_of_In, Hw in Hc. unfold plain.
    apply negb_true_iff, orb_false_iff in Hc as [Hc ?%Z.eqb_neq].
    by apply orb_false_iff in Hc as [-> ->]. }
  repeat split; try (apply H; [done|reflexivity]);
    try (repeat constructor; apply H; [done|reflexivity]); auto.
Defined.
