(* ===== verification/Runcmd.v ===== *)
(** * Running commands (sh.c)

    [runcmd] as the program of system calls that a shell process makes for a
    command.  The program is run on a table of file descriptors, in which a new
    descriptor is the lowest free one as in the kernel's [fdalloc], to see what
    files the commands are started with. *)

From S2P Require Import Prelude State Consout Ulib Sh.

(** A process of the shell: the system calls it makes, with the code that
    follows each of their results. *)
Inductive prog : Type :=
  | Exit
  | Exec (path : list Z) (argv : list (list Z)) (failed : prog)
  | Print (out : option (list Z)) (next : prog)
  | Close (fd : Z) (next : prog)
  | Open (file : list Z) (mode : Z) (next : Z → prog)
  | Dup (fd : Z) (next : prog)
  | Pipe (next : Z → Z → prog) (failed : prog)
  | Fork (child parent failed : prog)
  | Wait (next : prog).

(** [printf(2, fmt "\n", s)] *)
Definition complain (fmt : string) (s : list Z) : option (list Z) :=
  printf_loop false (codes fmt ++ [10]) [AStr (Some s)].

(** [src/xv6-public/sh.c:174-179] *)
Definition panic (s : string) : prog := Print (complain "%s" (codes s)) Exit.

(** [src/xv6-public/sh.c:181-190] the code for the child and for the parent *)
Definition fork1 (child parent : prog) : prog := Fork child parent (panic "fork").

(** [src/xv6-public/sh.c:56-131] [str] reads the strings of the command *)
Fixpoint runcmd (str : ptr * ptr → list Z) (c : cmd) : prog :=
  match c with
  | EXEC argv =>
    match argv with
    | [] => Exit
    | w :: _ => Exec (str w) (str <$> argv) (Print (complain "exec %s failed" (str w)) Exit)
    end
  | REDIR c file efile mode fd =>
    Close fd (Open (str (file, efile)) mode (λ r,
      if r <? 0 then Print (complain "open %s failed" (str (file, efile))) Exit
      else runcmd str c))
  | LIST l r => fork1 (runcmd str l) (Wait (runcmd str r))
  | PIPE l r =>
    Pipe (λ p0 p1,
      fork1 (Close 1 (Dup p1 (Close p0 (Close p1 (runcmd str l)))))
      (fork1 (Close 0 (Dup p0 (Close p0 (Close p1 (runcmd str r)))))
      (Close p0 (Close p1 (Wait (Wait Exit))))))
    (panic "pipe")
  | BACK c => fork1 (runcmd str c) Exit
  end.

(** [src/xv6-public/sh.c:133-142] the line read, if the input is not at its end, and the
    input left *)
Definition getcmd (nbuf : Z) (input : list Z) : option (list Z) * list Z :=
  let '(buf, input) := gets nbuf input in
  (match cstring buf with [] => None | line => Some line end, input).

(** What the shell does with a line. *)
Inductive action := Chdir (path : list Z) | Run (line : list Z).

(** [src/xv6-public/sh.c:160-168] *)
Definition act (line : list Z) : action :=
  match line with
  | 99 :: 100 :: 32 :: _ => Chdir (drop 3 (take (length line - 1) line))
  | _ => Run line
  end.

(** [src/xv6-public/sh.c:158-171] every turn but the last takes a byte of the input *)
Fixpoint main_loop (fuel : nat) (input : list Z) : option (list action) :=
  match fuel with
  | O => None
  | S fuel =>
    match getcmd 100 input with
    | (None, _) => Some []
    | (Some line, input) => cons (act line) <$> main_loop fuel input
    end
  end.

(** ** File descriptors *)

Inductive file :=
  | Console
  | Named (name : list Z) (mode : Z)
  | PipeR (n : nat)
  | PipeW (n : nat).

(** The open files of a process. *)
Abbreviation fdtab := (list (option file)).

Definition is_free (o : option file) : Prop := o = None.
#[export] Instance is_free_dec o : Decision (is_free o).
Proof. destruct o; [right|left]; done. Defined.

(** The lowest free descriptor, opened. *)
Definition alloc (f : file) (fds : fdtab) : option (Z * fdtab) :=
  '(i, _) ← list_find is_free fds; Some (Z.of_nat i, <[i := Some f]> fds).

Definition close (fd : Z) (fds : fdtab) : fdtab := <[Z.to_nat fd := None]> fds.

(** The commands that a process and its children start, each with its open
    files; [np] is the number of pipes made.  The calls fail only for want
    of a descriptor. *)
Fixpoint run (p : prog) (fds : fdtab) (np : nat) : list (list (list Z) * fdtab) * nat :=
  match p with
  | Exit => ([], np)
  | Exec _ argv _ => ([(argv, fds)], np)
  | Print _ next => run next fds np
  | Close fd next => run next (close fd fds) np
  | Open name mode next =>
    match alloc (Named name mode) fds with
    | Some (fd, fds) => run (next fd) fds np
    | None => run (next (-1)) fds np
    end
  | Dup fd next =>
    match (f ← mjoin (fds !! Z.to_nat fd); alloc f fds) with
    | Some (_, fds) => run next fds np
    | None => run next fds np
    end
  | Pipe next failed =>
    match ('(p0, fds) ← alloc (PipeR np) fds; '(p1, fds) ← alloc (PipeW np) fds;
           Some (p0, p1, fds)) with
    | Some (p0, p1, fds) => run (next p0 p1) fds (S np)
    | None => run failed fds np
    end
  | Fork child parent _ =>
    let '(es, np) := run child fds np in
    let '(es', np) := run parent fds np in
    (es ++ es', np)
  | Wait next => run next fds np
  end.

(** [src/xv6-public/sh.c:150-156] *)
Fixpoint open_console (fuel : nat) (fds : fdtab) : option fdtab :=
  match fuel with
  | O => None
  | S fuel =>
    match alloc Console fds with
    | None => Some fds
    | Some (fd, fds) => if fd >=? 3 then Some (close fd fds) else open_console fuel fds
    end
  end.

(** ** What the commands are started with *)

(** There is room for the two ends of a pipe. *)
Definition room (fds : fdtab) : Prop := (2 ≤ length (filter is_free fds))%nat.

Lemma list_find_free fds :
  (1 ≤ length (filter is_free fds))%nat →
  ∃ i, list_find is_free fds = Some (i, None) ∧ fds !! i = Some None ∧
    ∀ f, (length (filter is_free fds) = 1 + length (filter is_free (<[i := Some f]> fds)))%nat.
Proof.
  induction fds as [|o fds IH]; [cbn; lia|]. rewrite filter_cons. intros H. cbn [list_find].
  destruct (decide (is_free o)) as [E|E].
  - rewrite E. exists 0%nat. split_and!; [done..|]. intros f.
    change (<[0%nat := Some f]> (None :: fds)) with (Some f :: fds).
    by rewrite filter_cons, decide_False.
  - destruct IH as (i & -> & Hi & Hf); [done|]. exists (S i). split_and!; [done..|]. intros f.
    change (<[S i := Some f]> (o :: fds)) with (o :: <[i := Some f]> fds).
    by rewrite filter_cons, decide_False, <- Hf.
Qed.

Lemma alloc_lowest f fds i :
  fds !! i = Some None → (∀ j, (j < i)%nat → ∃ g, fds !! j = Some (Some g)) →
  alloc f fds = Some (Z.of_nat i, <[i := Some f]> fds).
Proof.
  intros Hi Hj. unfold alloc.
  assert (list_find is_free fds = Some (i, None)) as ->; [|done].
  apply list_find_Some. split_and!; [done..|]. intros j o Ho Hlt.
  destruct (Hj j ltac:(lia)) as [g Hg]. by simplify_eq.
Qed.

(** The two ends of a pipe, in the two lowest free descriptors. *)
Lemma alloc_pipe R W fds :
  room fds → ∃ a b, a ≠ b ∧ fds !! a = Some None ∧ fds !! b = Some None ∧
    alloc R fds = Some (Z.of_nat a, <[a := Some R]> fds) ∧
    alloc W (<[a := Some R]> fds) = Some (Z.of_nat b, <[b := Some W]> (<[a := Some R]> fds)).
Proof.
  intros Hr. unfold room in Hr. destruct (list_find_free fds) as (a & Ea & Ha & Hf); [lia|].
  destruct (list_find_free (<[a := Some R]> fds)) as (b & Eb & Hb & _); [rewrite (Hf R) in Hr; lia|].
  assert (a ≠ b).
  { intros ->. rewrite list_lookup_insert_eq in Hb by (by eapply lookup_lt_Some). done. }
  exists a, b. rewrite list_lookup_insert_ne in Hb by done. unfold alloc. by rewrite Ea, Eb.
Qed.

(** A child moves an end of a new pipe to descriptor [d] and closes the two
    that [pipe] gave it. *)
Lemma take_end (fds : fdtab) a b d R W f g :
  a ≠ b → a ≠ d → b ≠ d → fds !! a = Some None → fds !! b = Some None → fds !! d = Some (Some g) →
  (∀ j, (j < d)%nat → ∃ g, fds !! j = Some (Some g)) →
  let fds' := close (Z.of_nat d) (<[b := Some W]> (<[a := Some R]> fds)) in
  alloc f fds' = Some (Z.of_nat d, <[d := Some f]> fds') ∧
  close (Z.of_nat b) (close (Z.of_nat a) (<[d := Some f]> fds')) = <[d := Some f]> fds.
Proof.
  intros Hab Had Hbd Ha Hb Hd Hj fds'.
  pose proof (lookup_lt_Some _ _ _ Ha). pose proof (lookup_lt_Some _ _ _ Hb).
  pose proof (lookup_lt_Some _ _ _ Hd). unfold fds', close. rewrite !Nat2Z.id. split.
  - apply alloc_lowest.
    + apply list_lookup_insert_eq. by rewrite !length_insert.
    + intros j Hlt. destruct (Hj j Hlt) as [h Hh]. exists h.
      rewrite !list_lookup_insert_ne; [done|..]; intros ->; congruence || lia.
  - rewrite list_insert_insert_eq. apply list_eq. intros i.
    destruct (decide (i = b)) as [->|]; [|destruct (decide (i = a)) as [->|]].
    + rewrite list_lookup_insert_eq, list_lookup_insert_ne by (by rewrite ?length_insert). done.
    + rewrite list_lookup_insert_ne, list_lookup_insert_eq by (by rewrite ?length_insert).
      by rewrite list_lookup_insert_ne.
    + rewrite !(list_lookup_insert_ne _ b), !(list_lookup_insert_ne _ a) by done.
      destruct (decide (i = d)) as [->|]; [by rewrite !list_lookup_insert_eq by (by rewrite ?length_insert)|].
      by rewrite !list_lookup_insert_ne.
Qed.

Lemma run_left str l (fds : fdtab) np m a b i o :
  a ≠ b → fds !! a = Some None → fds !! b = Some None →
  fds !! 0%nat = Some (Some i) → fds !! 1%nat = Some (Some o) →
  run (Close 1 (Dup (Z.of_nat b) (Close (Z.of_nat a) (Close (Z.of_nat b) (runcmd str l)))))
    (<[b := Some (PipeW np)]> (<[a := Some (PipeR np)]> fds)) m =
  run (runcmd str l) (<[1%nat := Some (PipeW np)]> fds) m.
Proof.
  intros Hab Ha Hb H0 H1.
  assert (a ≠ 1%nat ∧ b ≠ 1%nat) as [Ha1 Hb1] by (split; congruence).
  destruct (take_end fds a b 1 (PipeR np) (PipeW np) (PipeW np) o) as [E1 E2]; [done..| |].
  { intros j Hj. assert (j = 0%nat) as -> by lia. eauto. }
  pose proof (lookup_lt_Some _ _ _ Hb). cbn [run].
  change (close 1 ?x) with (close (Z.of_nat 1) x).
  replace (close (Z.of_nat 1) (<[b := Some (PipeW np)]> (<[a := Some (PipeR np)]> fds)) !! Z.to_nat (Z.of_nat b))
    with (Some (Some (PipeW np))).
  2: { unfold close. rewrite !Nat2Z.id, list_lookup_insert_ne by done.
       by rewrite list_lookup_insert_eq by (by rewrite length_insert). }
  cbn [mjoin option_join mbind option_bind]. by rewrite E1, E2.
Qed.

Lemma run_right str r (fds : fdtab) np m a b i :
  a ≠ b → fds !! a = Some None → fds !! b = Some None → fds !! 0%nat = Some (Some i) →
  run (Close 0 (Dup (Z.of_nat a) (Close (Z.of_nat a) (Close (Z.of_nat b) (runcmd str r)))))
    (<[b := Some (PipeW np)]> (<[a := Some (PipeR np)]> fds)) m =
  run (runcmd str r) (<[0%nat := Some (PipeR np)]> fds) m.
Proof.
  intros Hab Ha Hb H0.
  assert (a ≠ 0%nat ∧ b ≠ 0%nat) as [Ha1 Hb1] by (split; congruence).
  destruct (take_end fds a b 0 (PipeR np) (PipeW np) (PipeR np) i) as [E1 E2]; [done..|lia|].
  pose proof (lookup_lt_Some _ _ _ Ha). cbn [run].
  change (close 0 ?x) with (close (Z.of_nat 0) x).
  replace (close (Z.of_nat 0) (<[b := Some (PipeW np)]> (<[a := Some (PipeR np)]> fds)) !! Z.to_nat (Z.of_nat a))
    with (Some (Some (PipeR np))).
  2: { unfold close. rewrite !Nat2Z.id, list_lookup_insert_ne by done.
       rewrite list_lookup_insert_ne by done. by rewrite list_lookup_insert_eq. }
  cbn [mjoin option_join mbind option_bind]. by rewrite E1, E2.
Qed.

Lemma run_fork child parent failed fds np :
  run (Fork child parent failed) fds np =
  let '(es, np) := run child fds np in let '(es', np) := run parent fds np in (es ++ es', np).
Proof. reflexivity. Qed.

(** A pipe: the left command writes to it, the right one reads from it, and
    neither has it open elsewhere. *)
Lemma run_pipe str l r (fds : fdtab) np i o :
  fds !! 0%nat = Some (Some i) → fds !! 1%nat = Some (Some o) → room fds →
  run (runcmd str (PIPE l r)) fds np =
  let '(es, np1) := run (runcmd str l) (<[1%nat := Some (PipeW np)]> fds) (S np) in
  let '(es', np2) := run (runcmd str r) (<[0%nat := Some (PipeR np)]> fds) np1 in
  (es ++ es', np2).
Proof.
  intros H0 H1 Hr.
  destruct (alloc_pipe (PipeR np) (PipeW np) fds Hr) as (a & b & Hab & Ha & Hb & E1 & E2).
  cbn [runcmd]. unfold fork1. set (p := Pipe _ _).
  assert (run p fds np = run (Fork
      (Close 1 (Dup (Z.of_nat b) (Close (Z.of_nat a) (Close (Z.of_nat b) (runcmd str l)))))
      (Fork (Close 0 (Dup (Z.of_nat a) (Close (Z.of_nat a) (Close (Z.of_nat b) (runcmd str r)))))
        (Close (Z.of_nat a) (Close (Z.of_nat b) (Wait (Wait Exit)))) (panic "fork"))
      (panic "fork")) (<[b := Some (PipeW np)]> (<[a := Some (PipeR np)]> fds)) (S np)) as ->.
  { unfold p. cbn [run]. rewrite E1. cbn [mbind option_bind]. rewrite E2. done. }
  rewrite run_fork, (run_left _ _ _ _ _ _ _ i o) by done. destruct (run _ _ _) as [es np1].
  rewrite run_fork, (run_right _ _ _ _ _ _ _ i) by done. destruct (run _ _ _) as [es' np2].
  cbn. by rewrite app_nil_r.
Qed.

Lemma room_insert (fds : fdtab) j f g :
  fds !! j = Some (Some f) → room fds → room (<[j := Some g]> fds).
Proof.
  unfold room. intros Hj. enough (filter is_free (<[j := Some g]> fds) = filter is_free fds) as -> by done.
  revert j Hj. induction fds as [|o fds IH]; intros [|j] Hj; try done.
  - injection Hj as ->. done.
  - change (<[S j := Some g]> (o :: fds)) with (o :: <[j := Some g]> fds).
    rewrite !filter_cons. by rewrite (IH j).
Qed.

(** [c | ... | c] *)
Fixpoint pipeline (c : list (ptr * ptr)) (cs : list (list (ptr * ptr))) : cmd :=
  match cs with [] => EXEC c | c' :: cs => PIPE (EXEC c) (pipeline c' cs) end.

(** C34 In a pipeline of any length every command is started, with its standard input
    the pipe that the command before it writes to and its standard output the
    pipe that the next one reads from.  The first command has the input of the
    shell and the last one its output.  All other descriptors are the
    shell's: no command is left with an end of a pipe that would keep a
    reader from seeing the end of the file. *)
Theorem pipeline_wired str c cs (fds : fdtab) np i o :
  fds !! 0%nat = Some (Some i) → fds !! 1%nat = Some (Some o) → room fds →
  Forall (λ c, c ≠ []) (c :: cs) →
  ∃ execs, run (runcmd str (pipeline c cs)) fds np = (execs, (np + length cs)%nat) ∧
    length execs = length (c :: cs) ∧
    ∀ k argv, (c :: cs) !! k = Some argv →
      execs !! k = Some (str <$> argv,
        <[0%nat := Some (if decide (k = 0%nat) then i else PipeR (np + k - 1))]>
        (<[1%nat := Some (if decide (k = length cs) then o else PipeW (np + k))]> fds)).
Proof.
  revert c fds np i. induction cs as [|c' cs IH]; intros c fds np i H0 H1 Hr Hne;
    apply Forall_cons in Hne as [Hc Hne].
  - exists [(str <$> c, fds)]. split_and!.
    + destruct c; [done|]. cbn. by rewrite Nat.add_0_r.
    + done.
    + intros [|k] argv; [|done]. intros [= <-]. cbn.
      by rewrite (list_insert_id fds 1), list_insert_id.
  - cbn [pipeline]. rewrite (run_pipe _ _ _ _ _ i o) by done.
    replace (run (runcmd str (EXEC c)) (<[1%nat := Some (PipeW np)]> fds) (S np))
      with ([(str <$> c, <[1%nat := Some (PipeW np)]> fds)], S np) by (by destruct c).
    pose proof (lookup_lt_Some _ _ _ H0). pose proof (lookup_lt_Some _ _ _ H1).
    destruct (IH c' (<[0%nat := Some (PipeR np)]> fds) (S np) (PipeR np))
      as (execs & -> & Hlen & Hex);
      [by apply list_lookup_insert_eq|by rewrite list_lookup_insert_ne|
       by eapply room_insert|done|].
    eexists. split; [f_equal; cbn; lia|]. split; [cbn; by rewrite Hlen|].
    intros [|k] argv Hk.
    + injection Hk as <-. cbn. rewrite Nat.add_0_r.
      by rewrite (list_insert_id (<[1%nat := _]> fds) 0) by (by rewrite list_lookup_insert_ne).
    + cbn [lookup list_lookup] in Hk. specialize (Hex k argv Hk). cbn [app].
      change ((?x :: execs) !! S k) with (execs !! k). rewrite Hex. do 2 f_equal.
      rewrite (list_insert_insert_ne _ 1 0), list_insert_insert_eq by done.
      rewrite (decide_False (P := S k = 0%nat)) by done. cbn [length].
      replace (if decide (k = 0%nat) then _ else _) with (PipeR (np + S k - 1))
        by (case_decide; f_equal; lia).
      replace (S np + k)%nat with (np + S k)%nat by lia.
      by replace (if decide (k = length cs) then _ else _)
        with (if decide (S k = S (length cs)) then o else PipeW (np + S k))
        by (repeat case_decide; done || lia).
Qed.

Lemma pipeline_wired_witness :
  ∃ execs, run (runcmd fst (pipeline [([1], [])] [[([2], [])]; [([3], [])]]))
      (replicate 3 (Some Console) ++ replicate 13 None) 0 = (execs, 2%nat) ∧
    execs !! 1%nat =
    Some ([[2]], Some (PipeR 0) :: Some (PipeW 1) :: Some Console :: replicate 13 None).
Proof.
  destruct (pipeline_wired fst [([1], [])] [[([2], [])]; [([3], [])]]
    (replicate 3 (Some Console) ++ replicate 13 None) 0 Console Console) as (execs & E & _ & H).
  - reflexivity.
  - reflexivity.
  - unfold room. vm_compute. lia.
  - repeat constructor; discriminate.
  - exists execs. split; [exact E|]. rewrite (H 1%nat _ eq_refl). reflexivity.
Defined.

(** The shell makes sure that it has its three descriptors, and takes no
    other. *)
Lemma open_console_spec (fds : fdtab) :
  (3 < length fds)%nat → (∀ i, (2 < i)%nat → (i < length fds)%nat → fds !! i = Some None) →
  ∃ fds', open_console 4 fds = Some fds' ∧ length fds' = length fds ∧
    (∀ i, (i < 3)%nat → ∃ f, fds' !! i = Some (Some f)) ∧
    (∀ i f, fds !! i = Some (Some f) → fds' !! i = Some (Some f)) ∧
    ∀ i, (2 < i)%nat → fds' !! i = fds !! i.
Proof.
  intros Hl Hf. destruct fds as [|[a|] [|[b|] [|[c|] [|d fds]]]]; cbn in Hl; try lia.
  all: assert (d = None) as -> by (injection (Hf 3%nat ltac:(lia) ltac:(cbn; lia)); done).
  all: eexists; split; [reflexivity|]; cbn; split; [done|]; split;
    [intros [|[|[|i]]] Hi; try lia; eexists; reflexivity|].
  all: split; [intros [|[|[|[|i]]]] f H; (exact H || (cbn in H; congruence))|intros [|[|[|[|i]]]] Hi; done || lia].
Qed.

(** The shell's loop ends: it has no more turns than the input has bytes. *)
Lemma main_loop_ends input : is_Some (main_loop (S (length input)) input).
Proof.
  remember (S (length input)) as fuel eqn:Ef. assert (length input < fuel)%nat as Hl by lia. clear Ef.
  revert input Hl. induction fuel as [|fuel IH]; intros input Hl; [lia|]. cbn [main_loop].
  unfold getcmd. pose proof (gets_spec 100 input ltac:(lia)) as H.
  destruct (gets 100 input) as [buf rest]. destruct H as (line & -> & -> & _ & _).
  destruct line as [|x line]; cbn [app cstring Z.eqb]; [by eexists|].
  destruct (x =? 0); [by eexists|]. rewrite fmap_is_Some. apply IH.
  cbn in Hl. rewrite length_app in Hl. lia.
Qed.
