(* ===== verification/Umalloc.v ===== *)
(** * The user memory allocator (umalloc.c)

    The free blocks form a circular list, threaded through headers in the free
    memory and kept in the order of addresses, with the static [base] (of
    size zero) as one of them; [freep] points at any of them.  [free] is proved
    to be insertion into a sorted list of blocks that joins neighbours, and
    [malloc] to take a block from the list; client programs that free what
    they allocated never see two allocated blocks overlap ([umalloc_safe]). *)

From Stdlib Require Import Sorting.Sorted.
From S2P Require Import Prelude.

(** [src/xv6-public/umalloc.c:11-17] [sizeof(Header)] is 8 *)
Record header := Header { h_ptr : Z; h_size : Z }.

(** [src/xv6-public/umalloc.c:21-22] the headers in memory, [freep], and the end of the
    process's memory *)
Record heap := Heap { hp_hdr : gmap Z header; hp_freep : Z; hp_brk : Z }.

Definition hdr (st : heap) (p : Z) : header := default (Header 0 0) (hp_hdr st !! p).
Definition ptr (st : heap) (p : Z) : Z := h_ptr (hdr st p).
Definition size (st : heap) (p : Z) : Z := h_size (hdr st p).
Definition set_hdr (st : heap) (p : Z) (h : header) : heap :=
  Heap (<[p := h]> (hp_hdr st)) (hp_freep st) (hp_brk st).
Definition set_ptr (st : heap) (p v : Z) : heap := set_hdr st p (Header v (size st p)).
Definition set_size (st : heap) (p v : Z) : heap := set_hdr st p (Header (ptr st p) v).
Definition set_freep (st : heap) (p : Z) : heap := Heap (hp_hdr st) p (hp_brk st).

(** [p + n] for a [Header*]. *)
Definition padd (p n : Z) : Z := wrap32 (p + 8 * n).

(** [src/xv6-public/umalloc.c:30-32] *)
Fixpoint find_place (fuel : nat) (st : heap) (bp p : Z) : option Z :=
  match fuel with
  | O => None
  | S fuel =>
    if (bp >? p) && (bp <? ptr st p) then Some p
    else if (p >=? ptr st p) && ((bp >? p) || (bp <? ptr st p)) then Some p
    else find_place fuel st bp (ptr st p)
  end.

(** [src/xv6-public/umalloc.c:24-44] *)
Definition free (fuel : nat) (st : heap) (ap : Z) : option heap :=
  let bp := ap - 8 in
  p ← find_place fuel st bp (hp_freep st);
  let st :=
    if padd bp (size st bp) =? ptr st p
    then let q := ptr st p in
         let st := set_size st bp (wrap32 (size st bp + size st q)) in
         set_ptr st bp (ptr st q)
    else set_ptr st bp (ptr st p) in
  let st :=
    if padd p (size st p) =? bp
    then let st := set_size st p (wrap32 (size st p + size st bp)) in
         set_ptr st p (ptr st bp)
    else set_ptr st p bp in
  Some (set_freep st p).

(** [src/xv6-public/umalloc.c:46-61] [grant] says if there is memory for [sbrk], which also
    refuses to grow the process to [KERNBASE]; the result is null if it fails *)
Definition morecore (fuel : nat) (grant : bool) (st : heap) (nu : Z) : option (Z * heap) :=
  let nu := if nu <? 4096 then 4096 else nu in
  let p := hp_brk st in
  let n := sint32 (nu * 8) in
  if negb grant || (p + n >=? 2 ^ 31) then Some (0, st) else
  let st := Heap (hp_hdr st) (hp_freep st) (p + n) in
  let st := set_size st p nu in
  st ← free fuel st (p + 8);
  Some (hp_freep st, st).

(** [src/xv6-public/umalloc.c:74-89] *)
Fixpoint malloc_loop (fuel : nat) (grant : bool) (st : heap) (nunits prevp p : Z) :
    option (Z * heap) :=
  match fuel with
  | O => None
  | S fuel' =>
    if size st p >=? nunits then
      let '(p, st) :=
        if size st p =? nunits then (p, set_ptr st prevp (ptr st p))
        else
          let st := set_size st p (wrap32 (size st p - nunits)) in
          let p := padd p (size st p) in
          (p, set_size st p nunits) in
      Some (p + 8, set_freep st prevp)
    else if p =? hp_freep st then
      '(p, st) ← morecore fuel grant st nunits;
      if p =? 0 then Some (0, st) else malloc_loop fuel' grant st nunits p (ptr st p)
    else malloc_loop fuel' grant st nunits p (ptr st p)
  end.

(** [(nbytes + sizeof(Header) - 1)/sizeof(Header) + 1] *)
Definition units (nbytes : Z) : Z := wrap32 (nbytes + 8 - 1) / 8 + 1.

(** [src/xv6-public/umalloc.c:63-90] [base] is the address of the static variable *)
Definition malloc (base : Z) (fuel : nat) (grant : bool) (st : heap) (nbytes : Z) :
    option (Z * heap) :=
  let nunits := units nbytes in
  let st :=
    if hp_freep st =? 0
    then set_size (set_ptr (set_freep st base) base base) base 0
    else st in
  let prevp := hp_freep st in
  malloc_loop fuel grant st nunits prevp (ptr st prevp).

(** ** The free list *)

(** A block of memory: its address and its size in units. *)
Abbreviation block := (Z * Z)%type.

(** The address of the first block, or [e]. *)
Definition next (l : list block) (e : Z) : Z := match l with [] => e | b :: _ => b.1 end.

(** The headers link the blocks in this order, the last one to [e]. *)
Fixpoint linked (st : heap) (l : list block) (e : Z) : Prop :=
  match l with
  | [] => True
  | b :: l => hp_hdr st !! b.1 = Some (Header (next l e) b.2) ∧ linked st l e
  end.

(** Blocks in order above [lo] and up to [hi], with space between them. *)
Fixpoint sorted (lo : Z) (l : list block) (hi : Z) : Prop :=
  match l with
  | [] => lo ≤ hi
  | b :: l => lo < b.1 ∧ 1 ≤ b.2 ∧ sorted (b.1 + 8 * b.2) l hi
  end.

(** Two blocks do not overlap. *)
Definition apart (b c : block) : Prop := b.1 + 8 * b.2 ≤ c.1 ∨ c.1 + 8 * c.2 ≤ b.1.

Lemma linked_app st l l' e :
  linked st (l ++ l') e ↔ linked st l (next l' e) ∧ linked st l' e.
Proof.
  induction l as [|b l IH]; cbn; [tauto|]. rewrite IH.
  replace (next (l ++ l') e) with (next l (next l' e)) by (by destruct l). tauto.
Qed.

Lemma linked_set st l e p h : p ∉ l.*1 → linked st l e → linked (set_hdr st p h) l e.
Proof.
  induction l as [|b l IH]; cbn; [done|]. rewrite not_elem_of_cons. intros [? ?] [? ?].
  split; [|by apply IH]. by rewrite lookup_insert_ne.
Qed.

Lemma linked_same st st' l e : hp_hdr st' = hp_hdr st → linked st l e → linked st' l e.
Proof. intros E. induction l as [|b l IH]; cbn; [done|]. rewrite E. naive_solver. Qed.

Lemma linked_ptr st l1 b l2 e :
  linked st (l1 ++ b :: l2) e → ptr st b.1 = next l2 e ∧ size st b.1 = b.2.
Proof.
  rewrite linked_app. intros [_ [H _]]. unfold ptr, size, hdr. by rewrite H.
Qed.

Lemma sorted_weaken lo lo' l hi : lo' ≤ lo → sorted lo l hi → sorted lo' l hi.
Proof. destruct l; cbn; [lia|]. intros ? (? & ? & ?). split_and!; [lia|done..]. Qed.

Lemma sorted_hi lo l hi hi' : hi ≤ hi' → sorted lo l hi → sorted lo l hi'.
Proof. revert lo. induction l; cbn; [lia|]. naive_solver. Qed.

Lemma sorted_le lo l hi : sorted lo l hi → lo ≤ hi.
Proof. revert lo. induction l as [|b l IH]; cbn; [lia|]. intros lo (? & ? & H%IH). lia. Qed.

Lemma sorted_app lo l b l' hi :
  sorted lo (l ++ b :: l') hi ↔
  sorted lo l (b.1 - 1) ∧ 1 ≤ b.2 ∧ sorted (b.1 + 8 * b.2) l' hi.
Proof.
  revert lo. induction l as [|c l IH]; intros lo; cbn; [intuition lia|]. rewrite IH. tauto.
Qed.

Lemma sorted_in lo l hi b :
  sorted lo l hi → b ∈ l → lo < b.1 ∧ 1 ≤ b.2 ∧ b.1 + 8 * b.2 ≤ hi.
Proof.
  revert lo. induction l as [|c l IH]; cbn; intros lo Hs Hb; [by apply not_elem_of_nil in Hb|].
  destruct Hs as (? & ? & Hs). apply elem_of_cons in Hb as [->|Hb].
  - apply sorted_le in Hs. lia.
  - destruct (IH _ Hs Hb). lia.
Qed.

Lemma sorted_notin lo l hi p : sorted lo l hi → p ≤ lo ∨ hi < p → p ∉ l.*1.
Proof.
  intros Hs Hp (b & -> & Hb)%list_elem_of_fmap. destruct (sorted_in _ _ _ _ Hs Hb). lia.
Qed.

(** ** The reference list operations *)

(** A block joined with the one behind it. *)
Definition join_right (b : block) (l : list block) : list block :=
  match l with
  | c :: l' => if b.1 + 8 * b.2 =? c.1 then (b.1, b.2 + c.2) :: l' else b :: l
  | [] => [b]
  end.

(** An address in a block, and in one of the blocks of a list. *)
Definition inside (x : Z) (b : block) : Prop := b.1 ≤ x < b.1 + 8 * b.2.
Definition covered (l : list block) (x : Z) : Prop := Exists (inside x) l.

Lemma covered_app l l' x : covered (l ++ l') x ↔ covered l x ∨ covered l' x.
Proof. apply Exists_app. Qed.

Lemma join_right_covered b l x :
  0 ≤ b.2 → Forall (λ c, 0 ≤ c.2) l →
  covered (join_right b l) x ↔ inside x b ∨ covered l x.
Proof.
  intros Hb Hl. unfold covered. destruct l as [|c l]; cbn; [by rewrite Exists_cons|].
  apply Forall_cons in Hl as [Hc _]. destruct (Z.eqb_spec (b.1 + 8 * b.2) c.1) as [E|E];
    rewrite !Exists_cons; unfold inside; cbn; [|tauto].
  split; [intros [?|?]; [|by right; right]|intros [?|[?|?]]; [left; lia..|by right]].
  destruct (decide (x < c.1)); [left; lia|right; left; lia].
Qed.

Lemma join_right_sorted lo b l hi :
  lo < b.1 → 1 ≤ b.2 → b.1 + 8 * b.2 ≤ hi → Forall (λ c, b.1 + 8 * b.2 ≤ c.1) l →
  sorted (b.1 - 1) l hi → sorted lo (join_right b l) hi.
Proof.
  intros Hlo Hb Hhi Hl Hs. destruct l as [|c l]; cbn in *; [lia|].
  apply Forall_cons in Hl as [Hc _]. destruct (Z.eqb_spec (b.1 + 8 * b.2) c.1) as [E|E]; cbn.
  - split_and!; [lia|lia|]. destruct Hs as (_ & _ & Hs). eapply sorted_weaken; [|exact Hs]. lia.
  - split_and!; [lia|lia|lia|naive_solver..].
Qed.

Section heap.
Context (base : Z) (base_pos : 0 < base).

(** The list [l] of free blocks, in the memory between [base] and the break. *)
Record heap_ok (st : heap) (l : list block) : Prop := {
  ok_linked : linked st ((base, 0) :: l) base;
  ok_sorted : sorted base l (hp_brk st);
  ok_freep : hp_freep st ∈ base :: l.*1;
  ok_brk : hp_brk st < 2 ^ 31;
  ok_base : base < hp_brk st;
}.

(** A block may be freed: it is in memory, its header gives its size, and it
    overlaps no free block. *)
Record freeable (st : heap) (l : list block) (b : block) : Prop := {
  fr_range : base < b.1 ∧ 1 ≤ b.2 ∧ b.1 + 8 * b.2 ≤ hp_brk st;
  fr_size : size st b.1 = b.2;
  fr_apart : Forall (apart b) l;
}.

(** Where a block is inserted. *)
Lemma place lo l hi b :
  sorted lo l hi → lo < b.1 → 1 ≤ b.2 → Forall (apart b) l →
  ∃ l1 l2, l = l1 ++ l2 ∧ sorted lo l1 b.1 ∧ Forall (λ c, b.1 + 8 * b.2 ≤ c.1) l2.
Proof.
  intros Hs Hlo Hb. revert lo Hs Hlo. induction l as [|c l IH]; intros lo Hs Hlo Ha; cbn in Hs.
  - exists [], []. split_and!; [done|cbn; lia|done].
  - apply Forall_cons in Ha as [Hc Ha]. destruct Hs as (? & ? & Hs).
    destruct (decide (b.1 + 8 * b.2 ≤ c.1)) as [Hle|Hgt].
    + exists [], (c :: l). split_and!; [done|cbn; lia|]. constructor; [done|].
      rewrite Forall_forall. intros d Hd. destruct (sorted_in _ _ _ _ Hs Hd). lia.
    + unfold apart in Hc. assert (c.1 + 8 * c.2 ≤ b.1) as Hle by lia.
      destruct (decide (c.1 + 8 * c.2 = b.1)) as [E|E].
      * exists [c], l. split_and!; [done|cbn; lia|]. rewrite Forall_forall. intros d Hd.
        destruct (sorted_in _ _ _ _ Hs Hd). rewrite Forall_forall in Ha. specialize (Ha d Hd).
        unfold apart in Ha. lia.
      * destruct (IH (c.1 + 8 * c.2)) as (l1 & l2 & -> & H1 & H2); [done|lia|done|].
        exists (c :: l1), l2. split_and!; [done|cbn; done|done].
Qed.

(** Addresses grow along the list. *)
Abbreviation ascending := (StronglySorted (λ b c : block, b.1 < c.1)).

Lemma sorted_ascending lo l hi : sorted lo l hi → ascending l.
Proof.
  revert lo. induction l as [|b l IH]; cbn; intros lo Hs; [constructor|].
  destruct Hs as (? & ? & Hs). constructor; [by eapply IH|]. rewrite Forall_forall.
  intros c Hc. destruct (sorted_in _ _ _ _ Hs Hc). lia.
Qed.

Lemma list_ascending st l : heap_ok st l → ascending ((base, 0) :: l).
Proof.
  intros H. constructor; [by eapply sorted_ascending, H|]. rewrite Forall_forall.
  intros c Hc. by destruct (sorted_in _ _ _ _ (ok_sorted _ _ H) Hc).
Qed.

Lemma ascending_app l1 l2 b c : ascending (l1 ++ l2) → b ∈ l1 → c ∈ l2 → b.1 < c.1.
Proof.
  induction l1 as [|d l1 IH]; intros Hs Hb Hc; [by apply not_elem_of_nil in Hb|].
  apply StronglySorted_inv in Hs as [Hs Hd]. apply elem_of_cons in Hb as [->|Hb]; [|by apply IH].
  rewrite Forall_forall in Hd. apply Hd. set_solver.
Qed.

Lemma next_in k p l e : ∃ y, y ∈ k ++ [p] ∧ next (k ++ p :: l) e = y.1.
Proof. destruct k as [|y k]; cbn; [exists p|exists y]; set_solver. Qed.

(** The search of [free] from a block below [bp]: it stops at the last one. *)
Lemma find_place_below st l1 k p l2 bp fuel :
  linked st (l1 ++ k ++ p :: l2) base → ascending (l1 ++ k ++ p :: l2) → base ≤ p.1 →
  p.1 < bp → Forall (λ c, bp < c.1) l2 → (length k < fuel)%nat →
  find_place fuel st bp (next (k ++ p :: l2) base) = Some p.1.
Proof.
  intros Hl Ha Hp Hbp Hl2. revert l1 fuel Hl Ha.
  induction k as [|x k IH]; intros l1 fuel Hl Ha Hf;
    (destruct fuel as [|fuel]; [cbn in Hf; lia|]); cbn [app next find_place].
  - destruct (linked_ptr _ _ _ _ _ Hl) as [-> _]. destruct l2 as [|c l2]; cbn.
    + by rewrite (proj2 (Z.ltb_ge bp base)), andb_false_r, Z.gtb_ltb, (proj2 (Z.ltb_lt _ _)),
        Z.geb_leb, (proj2 (Z.leb_le _ _)) by lia.
    + apply Forall_cons in Hl2 as [Hc _].
      by rewrite Z.gtb_ltb, (proj2 (Z.ltb_lt p.1 bp)), (proj2 (Z.ltb_lt bp c.1)) by lia.
  - destruct (linked_ptr st l1 x (k ++ p :: l2) base) as [-> _]; [done|].
    destruct (next_in k p l2 base) as (y & Hy & E).
    assert (y.1 ≤ p.1).
    { apply elem_of_app in Hy as [Hy|Hy%list_elem_of_singleton]; [|by subst].
      enough (y.1 < p.1) by lia. cbn in Ha.
      apply (ascending_app (l1 ++ x :: k) (p :: l2)); [by rewrite <- app_assoc|set_solver..]. }
    assert (x.1 < y.1).
    { apply (ascending_app (l1 ++ [x]) (k ++ p :: l2)); [by rewrite <- app_assoc|set_solver..]. }
    rewrite E. replace (bp <? y.1) with false by lia. rewrite andb_false_r, orb_false_r.
    replace (x.1 >=? y.1) with false by lia. cbn [andb]. rewrite <- E.
    apply (IH (l1 ++ [x])); [by rewrite <- app_assoc..|cbn in Hf; lia].
Qed.

(** The search of [free] from a block above [bp]: it goes round. *)
Lemma find_place_above st l1 p m1 x m2 bp fuel :
  linked st (l1 ++ p :: m1 ++ x :: m2) base → ascending (l1 ++ p :: m1 ++ x :: m2) →
  next (l1 ++ p :: m1 ++ x :: m2) base = base → base ≤ p.1 →
  p.1 < bp → Forall (λ c, bp < c.1) (m1 ++ x :: m2) →
  (length m2 + 1 + length l1 < fuel)%nat → find_place fuel st bp x.1 = Some p.1.
Proof.
  intros Hl Ha Hb Hp Hbp. revert m1 x fuel Hl Ha Hb.
  induction m2 as [|y m2 IH]; intros m1 x fuel Hl Ha Hb Hl2 Hf;
    (destruct fuel as [|fuel]; [lia|]); cbn [find_place].
  - assert (ptr st x.1 = base) as ->
      by (apply (linked_ptr st (l1 ++ p :: m1) x [] base); by rewrite <- app_assoc).
    assert (bp < x.1) by (apply Forall_app in Hl2 as [_ Hl2]; by apply Forall_cons in Hl2 as [? _]).
    replace (bp >? x.1) with false by lia. replace (bp <? base) with false by lia.
    cbn [andb orb]. rewrite andb_false_r. rewrite <- Hb at 1.
    by apply (find_place_below _ [] l1 p (m1 ++ [x])); [..|cbn in Hf; lia].
  - assert (ptr st x.1 = y.1) as ->
      by (apply (linked_ptr st (l1 ++ p :: m1) x (y :: m2) base); by rewrite <- app_assoc).
    assert (bp < x.1) by (apply Forall_app in Hl2 as [_ Hl2]; by apply Forall_cons in Hl2 as [? _]).
    assert (x.1 < y.1).
    { apply (ascending_app (l1 ++ p :: m1 ++ [x]) (y :: m2)); [|set_solver..].
      rewrite <- app_assoc. cbn. by rewrite <- app_assoc. }
    replace (bp >? x.1) with false by lia. replace (x.1 >=? y.1) with false by lia. cbn [andb].
    assert (m1 ++ x :: y :: m2 = (m1 ++ [x]) ++ y :: m2) as E by (by rewrite <- app_assoc).
    apply (IH (m1 ++ [x])); rewrite <- ?E; [done..|cbn in Hf; lia].
Qed.

Lemma find_place_ok st l bp l1 p l2 fuel :
  heap_ok st l → (base, 0) :: l = l1 ++ p :: l2 → p.1 < bp → Forall (λ c, bp < c.1) l2 →
  (length l + 1 < fuel)%nat → find_place fuel st bp (hp_freep st) = Some p.1.
Proof.
  intros H E Hbp Hl2 Hf. pose proof (ok_linked _ _ H) as Hl. pose proof (list_ascending _ _ H) as Ha.
  assert (base ≤ p.1).
  { assert (p ∈ (base, 0) :: l) as Hp by (rewrite E; set_solver).
    apply elem_of_cons in Hp as [->|Hp]; [done|].
    destruct (sorted_in _ _ _ _ (ok_sorted _ _ H) Hp). lia. }
  assert (next (l1 ++ p :: l2) base = base) as Hb by (by rewrite <- E).
  assert (length l1 + length l2 = length l)%nat as Hlen.
  { apply (f_equal length) in E. rewrite length_app in E. cbn in E. lia. }
  pose proof (ok_freep _ _ H) as Hfp. change (base :: l.*1) with ((base, 0) :: l).*1 in Hfp.
  rewrite E in *. apply list_elem_of_fmap in Hfp as (x & -> & Hx).
  assert ((∃ m1 k, l1 ++ p :: l2 = m1 ++ k ++ p :: l2 ∧ next (k ++ p :: l2) base = x.1) ∨
          ∃ m1 m2, l2 = m1 ++ x :: m2) as [(m1 & k & E' & <-)|(m1 & m2 & ->)].
  { apply elem_of_app in Hx as [Hx|Hx].
    - apply list_elem_of_split in Hx as (m1 & k & ->). left. exists m1, (x :: k).
      by rewrite <- app_assoc.
    - apply elem_of_cons in Hx as [->|Hx]; [left; by exists l1, []|].
      apply list_elem_of_split in Hx. by right. }
  - assert (length k ≤ length l1)%nat.
    { apply (f_equal length) in E'. rewrite !length_app in E'. cbn in E'. lia. }
    rewrite E' in *. by apply (find_place_below _ m1); [..|lia].
  - rewrite length_app in Hlen. cbn in Hlen. by apply (find_place_above _ l1 p m1 x m2); [..|lia].
Qed.

(** Both halves of [free]: link a block to the one behind it, or join them. *)
Definition merge (st : heap) (x q : Z) : heap :=
  if padd x (size st x) =? q
  then let st := set_size st x (wrap32 (size st x + size st q)) in set_ptr st x (ptr st q)
  else set_ptr st x q.

Lemma free_merge fuel st ap p :
  find_place fuel st (ap - 8) (hp_freep st) = Some p →
  free fuel st ap = Some (set_freep (merge (merge st (ap - 8) (ptr st p)) p (ap - 8)) p).
Proof. intros H. unfold free, merge. by rewrite H. Qed.

Lemma merge_set st x q : ∃ h, merge st x q = set_hdr st x h.
Proof.
  unfold merge. destruct (_ =? _); [|by eexists]. unfold set_ptr, set_size, set_hdr at 1. cbn.
  rewrite insert_insert_eq. by eexists.
Qed.

Lemma merge_linked st x l :
  linked st l base → size st x.1 = x.2 → x.1 ∉ l.*1 → 0 ≤ x.1 → 0 ≤ x.2 →
  (l = [] → x.1 + 8 * x.2 ≠ base) → x.1 + 8 * x.2 < 2 ^ 32 → Forall (λ c, x.2 + c.2 < 2 ^ 32 ∧ 0 ≤ c.2) l →
  linked (merge st x.1 (next l base)) (join_right x l) base.
Proof.
  intros Hl Hs Hx H0 H1 Hne Hlt Hsz. unfold merge, padd. rewrite Hs, wrap32_small by (unfold is_u32; lia).
  destruct l as [|c l]; cbn [next join_right].
  { rewrite (proj2 (Z.eqb_neq _ _)) by (by apply Hne). cbn. unfold set_ptr. cbn. rewrite lookup_insert_eq.
    by rewrite Hs. }
  apply Forall_cons in Hsz as [[? ?] _]. rewrite fmap_cons in Hx. apply not_elem_of_cons in Hx as [Hxc Hx].
  pose proof (linked_ptr st [] c l base Hl) as [Hcp Hcs]. destruct Hl as [Hc Hl].
  destruct (x.1 + 8 * x.2 =? c.1).
  - rewrite Hcs. unfold set_ptr, set_size. split.
    + cbn. rewrite lookup_insert_eq. f_equal. f_equal.
      * unfold ptr, hdr. cbn. rewrite lookup_insert_ne by done. exact Hcp.
      * unfold size, hdr. cbn. rewrite lookup_insert_eq. cbn. apply wrap32_small. unfold is_u32. lia.
    + apply linked_set; [done|]. by apply linked_set.
  - split; [cbn; by rewrite lookup_insert_eq, Hs|]. apply linked_set; [|by split].
    by apply not_elem_of_cons.
Qed.

Lemma last_block l1 (b : block) :
  sorted base l1 b.1 → base < b.1 →
  ∃ k p, (base, 0) :: l1 = k ++ [p] ∧ p.1 + 8 * p.2 ≤ b.1 ∧ p.1 < b.1 ∧ 0 ≤ p.2 ∧ base ≤ p.1 ∧
    (p = (base, 0) ∨ 1 ≤ p.2).
Proof.
  intros Hs Hb. destruct l1 as [|p k _] using rev_ind.
  - exists [], (base, 0). cbn. split_and!; [done|lia..|by left].
  - exists ((base, 0) :: k), p. destruct (sorted_in _ _ _ p Hs) as (? & ? & ?); [set_solver|].
    split_and!; [done|lia..|right; lia].
Qed.

Lemma sorted_join lo l m l' hi : sorted lo l m → sorted m l' hi → sorted lo (l ++ l') hi.
Proof.
  revert lo. induction l as [|c l IH]; cbn; intros lo; [by apply sorted_weaken|].
  intros (? & ? & ?) ?. split_and!; [done..|]. by apply IH.
Qed.

Lemma sorted_suffix lo l l' hi m :
  sorted lo (l ++ l') hi → Forall (λ c, m < c.1) l' → m ≤ hi → sorted m l' hi.
Proof.
  revert lo. induction l as [|c l IH]; cbn; intros lo Hs Hm Hle; [|by eapply IH; [apply Hs|..]].
  destruct l'; cbn in *; [done|]. apply Forall_cons in Hm as [? _]. naive_solver.
Qed.

Lemma join_right_head b l : ∃ s l', join_right b l = (b.1, s) :: l'.
Proof. destruct b as [a s], l as [|c l]; cbn; [eauto|]. destruct (_ =? _); eauto. Qed.

Lemma join_right_above b l m :
  m ≤ b.1 → 0 ≤ b.2 → Forall (λ c, b.1 + 8 * b.2 ≤ c.1) l → Forall (λ c, m ≤ c.1) (join_right b l).
Proof.
  intros Hm H0 Hl.
  assert (Forall (λ c, m ≤ c.1) l) by (eapply Forall_impl; [done|]; intros c ?; cbn in *; lia).
  destruct l as [|c l]; cbn; [by repeat constructor|]. apply Forall_cons in H as [??].
  destruct (_ =? _); by repeat constructor.
Qed.

Lemma join_right_length b l : (length (join_right b l) ≤ S (length l))%nat.
Proof. destruct l as [|c l]; cbn; [lia|]. destruct (_ =? _); cbn; lia. Qed.

Lemma join_right_size b l n :
  0 ≤ b.2 → Exists (λ c, n ≤ c.2) l → Exists (λ c, n ≤ c.2) (join_right b l).
Proof.
  intros Hb Hl. destruct l as [|c l]; cbn; [by apply Exists_nil in Hl|].
  destruct (_ =? _); [|by right]. apply Exists_cons in Hl as [?|?]; [left; cbn; lia|by right].
Qed.

(** The sizes in a sorted list are small. *)
Lemma sorted_sizes lo l hi m :
  sorted lo l hi → 0 ≤ lo → hi < 2 ^ 31 → 0 ≤ m < 2 ^ 31 → Forall (λ c, m + c.2 < 2 ^ 32 ∧ 0 ≤ c.2) l.
Proof.
  intros Hs ???. rewrite Forall_forall. intros c Hc. destruct (sorted_in _ _ _ _ Hs Hc). lia.
Qed.

(** [free] with the place of the block given: [p] is the block below it. *)
Lemma free_links st k p b l2 hi :
  linked st (k ++ p :: l2) base → size st b.1 = b.2 → 0 ≤ p.1 → 0 ≤ p.2 → 1 ≤ b.2 →
  p.1 + 8 * p.2 ≤ b.1 → p.1 < b.1 → base < b.1 → hi < 2 ^ 31 → b.1 + 8 * b.2 ≤ hi →
  sorted b.1 l2 hi → Forall (λ c, b.1 + 8 * b.2 ≤ c.1) l2 → p.1 ∉ k.*1 → b.1 ∉ k.*1 →
  ∃ h h', merge (merge st b.1 (ptr st p.1)) p.1 b.1 = set_hdr (set_hdr st b.1 h) p.1 h' ∧
    linked (set_hdr (set_hdr st b.1 h) p.1 h') (k ++ join_right p (join_right b l2)) base.
Proof.
  intros Hl Hb Hp1 Hp2 Hb2 Hpb Hlt Hbase Hhi Hbhi Hs Hl2 Hpk Hbk.
  destruct (linked_ptr _ _ _ _ _ Hl) as [-> Hps]. apply linked_app in Hl as [Hk [_ Hl]].
  pose proof (join_right_sorted (b.1 - 1) b l2 hi ltac:(lia) Hb2 Hbhi Hl2
    (sorted_weaken _ _ _ _ (Z.le_pred_l b.1) Hs)) as HJ.
  assert (linked (merge st b.1 (next l2 base)) (join_right b l2) base) as H1.
  { apply merge_linked; try done || lia.
    - eapply sorted_notin; [exact Hs|]. by left.
    - eapply sorted_sizes; [exact Hs|lia..]. }
  destruct (merge_set st b.1 (next l2 base)) as [h Eh]. rewrite Eh in *.
  destruct (join_right_head b l2) as (s & l' & EJ). 
  assert (linked (merge (set_hdr st b.1 h) p.1 b.1) (join_right p (join_right b l2)) base) as H2.
  { replace b.1 with (next (join_right b l2) base) at 2 by (by rewrite EJ).
    apply merge_linked; try done || lia.
    - unfold size, hdr. cbn. rewrite lookup_insert_ne by lia. exact Hps.
    - eapply sorted_notin; [exact HJ|]. left. lia.
    - by rewrite EJ.
    - eapply sorted_sizes; [exact HJ|lia..]. }
  destruct (merge_set (set_hdr st b.1 h) p.1 b.1) as [h' Eh']. rewrite Eh' in *.
  exists h, h'. split; [done|]. apply linked_app. split; [|done].
  destruct (join_right_head p (join_right b l2)) as (s' & l'' & ->). cbn [next fst].
  do 2 (apply linked_set; [done|]). done.
Qed.

(** The list of free blocks after [free]. *)
Lemma inserted l1 l2 b hi k p :
  sorted base (l1 ++ l2) hi → sorted base l1 b.1 → Forall (λ c, b.1 + 8 * b.2 ≤ c.1) l2 →
  base < b.1 → 1 ≤ b.2 → b.1 + 8 * b.2 ≤ hi → (base, 0) :: l1 = k ++ [p] →
  ∃ l', (base, 0) :: l' = k ++ join_right p (join_right b l2) ∧ sorted base l' hi ∧
    p.1 ∈ base :: l'.*1 ∧ (length l' ≤ S (length (l1 ++ l2)))%nat ∧
    Exists (λ c, b.2 ≤ c.2) l' ∧
    ∀ x, covered l' x ↔ inside x b ∨ covered (l1 ++ l2) x.
Proof.
  intros Hs Hs1 Hs2 Hb1 Hb2 Hb3 Ek.
  assert (sorted b.1 l2 hi) as Hsl2.
  { eapply sorted_suffix; [exact Hs| |lia]. eapply Forall_impl; [done|]. intros c ?; cbn in *; lia. }
  pose proof (join_right_sorted (b.1 - 1) b l2 hi ltac:(lia) Hb2 Hb3 Hs2
    (sorted_weaken _ _ _ _ (Z.le_pred_l b.1) Hsl2)) as HJ.
  assert (∀ x, covered (join_right b l2) x ↔ inside x b ∨ covered l2 x) as HJc.
  { intros x. apply join_right_covered; [lia|]. rewrite Forall_forall. intros c Hc.
    destruct (sorted_in _ _ _ _ Hsl2 Hc). lia. }
  pose proof (join_right_length b l2) as HJl.
  assert (Exists (λ c, b.2 ≤ c.2) (join_right b l2)) as HJs.
  { destruct l2 as [|c l2]; cbn; [by left|]. destruct (sorted_in _ _ _ c Hsl2 ltac:(by left)).
    destruct (_ =? _); left; cbn; lia. }
  destruct (join_right_head b l2) as (s & J & EJ).
  destruct l1 as [|p' k' _] using rev_ind.
  - destruct k as [|? [|? ?]]; [|done..]. injection Ek as <-. exists (join_right b l2).
    split_and!; [|by eapply sorted_weaken; [|exact HJ]; lia|by left|cbn; lia|done|done].
    rewrite EJ. cbn. by rewrite (proj2 (Z.eqb_neq _ _)) by lia.
  - rewrite app_comm_cons in Ek. apply app_inj_tail in Ek as [<- ->].
    destruct (proj1 (sorted_app _ _ _ [] _) Hs1) as (Hk & Hp2 & Hp1). cbn in Hp1.
    pose proof (sorted_le _ _ _ Hk).
    assert (Forall (λ c, p.1 + 8 * p.2 ≤ c.1) (join_right b l2)) as Hpa
      by (apply join_right_above; [lia|lia|done]).
    exists (k' ++ join_right p (join_right b l2)). split_and!.
    + done.
    + eapply sorted_join; [exact Hk|]. apply join_right_sorted; try done || lia.
      eapply sorted_weaken; [|exact HJ]. lia.
    + destruct (join_right_head p (join_right b l2)) as (s' & J' & ->).
      rewrite fmap_app. cbn. set_solver.
    + pose proof (join_right_length p (join_right b l2)). rewrite !length_app in *. cbn. lia.
    + apply Exists_app. right. by apply join_right_size; [lia|].
    + intros x. rewrite !covered_app, join_right_covered, HJc; [|lia|].
      * unfold covered at 4. rewrite Exists_cons, Exists_nil. tauto.
      * rewrite Forall_forall. intros c Hc. destruct (sorted_in _ _ _ _ HJ Hc). lia.
Qed.

(** [free] keeps the free list well formed and adds to it exactly the block. *)
Lemma free_ok st l b fuel :
  heap_ok st l → freeable st l b → (length l + 1 < fuel)%nat →
  ∃ st' l', free fuel st (b.1 + 8) = Some st' ∧ heap_ok st' l' ∧ hp_brk st' = hp_brk st ∧
    (length l' ≤ S (length l))%nat ∧ Exists (λ c, b.2 ≤ c.2) l' ∧
    (∀ x, covered l' x ↔ inside x b ∨ covered l x) ∧
    ∀ a, a ∉ base :: b.1 :: l.*1 → hp_hdr st' !! a = hp_hdr st !! a.
Proof.
  intros H [(Hb1 & Hb2 & Hb3) Hsz Hap] Hf. pose proof (ok_brk _ _ H) as Hbrk.
  pose proof (ok_base _ _ H) as Hbase.
  pose proof (ok_sorted _ _ H) as Hs.
  destruct (place base l (hp_brk st) b) as (l1 & l2 & -> & Hs1 & Hs2); [done..|].
  destruct (last_block l1 b Hs1 Hb1) as (k & p & Ek & Hp1 & Hp2 & Hp3 & Hp4 & Hp5).
  assert ((base, 0) :: l1 ++ l2 = k ++ p :: l2) as EL
    by (rewrite app_comm_cons, Ek; by rewrite <- app_assoc).
  destruct (inserted l1 l2 b (hp_brk st) k p) as (l' & EL' & Hs' & Hp' & Hlen & Hex & Hcov); [done..|].
  assert (Forall (λ c, b.1 < c.1) l2) as Hl2
    by (eapply Forall_impl; [done|]; intros c ?; cbn in *; lia).
  pose proof (list_ascending _ _ H) as Ha. rewrite EL in Ha.
  assert (∀ c, c ∈ k → c.1 < p.1) as Hk.
  { intros c Hc. apply (ascending_app k (p :: l2)); [done|done|set_solver]. }
  destruct (free_links st k p b l2 (hp_brk st)) as (h & h' & Em & Hl'); try done || lia.
  { rewrite <- EL. apply H. }
  { by eapply sorted_suffix; [exact Hs|..|lia]. }
  { intros (c & E & Hc)%list_elem_of_fmap. specialize (Hk c Hc). lia. }
  { intros (c & E & Hc)%list_elem_of_fmap. specialize (Hk c Hc). lia. }
  eexists _, l'. rewrite (free_merge _ _ _ p.1).
  2: { replace (b.1 + 8 - 8) with b.1 by lia. by apply (find_place_ok _ (l1 ++ l2) _ k p l2). }
  replace (b.1 + 8 - 8) with b.1 by lia. rewrite Em. split; [reflexivity|]. split_and!.
  - split; [|done..]. rewrite EL'. by eapply linked_same; [|exact Hl'].
  - done.
  - done.
  - done.
  - done.
  - intros a Hnin. cbn. rewrite !lookup_insert_ne; [done|set_solver|].
    intros <-. apply Hnin. assert (p ∈ (base, 0) :: l1 ++ l2) as Hp by (rewrite EL; set_solver).
    apply elem_of_cons in Hp as [->|Hp]; [by left|]. right. right. apply list_elem_of_fmap. eauto.
Qed.

(** ** Allocation *)

(** A call returned block [b] of [n] units, out of the blocks [l]. *)
Definition took (st : heap) (l : list block) (n : Z) (r : option (Z * heap)) : Prop :=
  ∃ b st' l', r = Some (b.1 + 8, st') ∧ b.2 = n ∧ heap_ok st' l' ∧ freeable st' l' b ∧
    hp_brk st' = hp_brk st ∧ (length l' ≤ length l)%nat ∧
    (∀ x, covered l x ↔ inside x b ∨ covered l' x) ∧
    ∀ a, a ≠ base → ¬ covered l a → hp_hdr st' !! a = hp_hdr st !! a.

Lemma covered_head l c : c ∈ l → 1 ≤ c.2 → covered l c.1.
Proof. intros Hc H1. apply Exists_exists. exists c. split; [done|]. unfold inside. lia. Qed.

(** Blocks next to a block of a sorted list. *)
Lemma sorted_split lo k q l hi c :
  sorted lo (k ++ q :: l) hi → c ∈ k ++ l → c.1 + 8 * c.2 < q.1 ∨ q.1 + 8 * q.2 < c.1.
Proof.
  intros (Hk & _ & Hl)%sorted_app [Hc|Hc]%elem_of_app.
  - left. destruct (sorted_in _ _ _ _ Hk Hc). lia.
  - right. by destruct (sorted_in _ _ _ _ Hl Hc).
Qed.

Lemma take_all st k1 k pp q k2 :
  heap_ok st (k1 ++ q :: k2) → (base, 0) :: k1 = k ++ [pp] →
  took st (k1 ++ q :: k2) q.2 (Some (q.1 + 8, set_freep (set_ptr st pp.1 (ptr st q.1)) pp.1)).
Proof.
  intros H Ek. pose proof (ok_sorted _ _ H) as Hs. pose proof (ok_linked _ _ H) as Hl.
  pose proof (list_ascending _ _ H) as Ha.
  rewrite app_comm_cons, Ek, <- app_assoc in Hl, Ha. cbn [app] in Hl, Ha.
  destruct (linked_ptr st (k ++ [pp]) q k2 base) as [Hqp Hqs]; [by rewrite <- app_assoc|].
  destruct (linked_ptr st k pp (q :: k2) base) as [_ Hps]; [done|].
  destruct (sorted_in _ _ _ q Hs) as (? & ? & ?); [set_solver|].
  assert (pp.1 < q.1) by (apply (ascending_app (k ++ [pp]) (q :: k2)); [by rewrite <- app_assoc|set_solver..]).
  assert (pp ∈ (base, 0) :: k1) as Hpp by (rewrite Ek; set_solver).
  exists q, (set_freep (set_ptr st pp.1 (ptr st q.1)) pp.1), (k1 ++ k2). split_and!; try done.
  - split.
    + rewrite app_comm_cons, Ek, <- app_assoc. cbn [app]. rewrite Hqp.
      apply (linked_same (set_ptr st pp.1 (next k2 base))); [done|].
      apply linked_app in Hl as [Hlk (Hlp & Hlq & Hlk2)].
      apply linked_app. split; [|split].
      * apply linked_set; [|done]. intros (c & E & Hc)%list_elem_of_fmap.
        pose proof (ascending_app k (pp :: q :: k2) c pp Ha Hc ltac:(set_solver)). lia.
      * cbn. by rewrite lookup_insert_eq, Hps.
      * apply linked_set; [|done]. intros (c & E & Hc)%list_elem_of_fmap.
        pose proof (ascending_app (k ++ [pp]) (q :: k2) pp c) as Hlt.
        rewrite <- app_assoc in Hlt. specialize (Hlt Ha ltac:(set_solver) ltac:(set_solver)). lia.
    + apply sorted_app in Hs as (Hs1 & ? & Hs2). eapply sorted_join; [exact Hs1|].
      eapply sorted_weaken; [|exact Hs2]. lia.
    + cbn. apply elem_of_cons in Hpp as [->|Hpp]; [by left|]. right. rewrite fmap_app.
      apply elem_of_app. left. apply list_elem_of_fmap. eauto.
    + apply H.
    + apply H.
  - split.
    + split_and!; [done..|]. cbn. lia.
    + unfold size, hdr. cbn. by rewrite lookup_insert_ne by lia.
    + rewrite Forall_forall. intros c Hc. unfold apart.
      destruct (sorted_split _ _ _ _ _ c Hs Hc); lia.
  - rewrite !length_app. cbn. lia.
  - intros x. rewrite !covered_app. unfold covered. rewrite Exists_cons. tauto.
  - intros a Hab Hc. cbn. rewrite lookup_insert_ne; [done|]. intros <-.
    apply elem_of_cons in Hpp as [->|Hpp]; [done|]. apply Hc. apply covered_head; [set_solver|].
    destruct (sorted_in _ _ _ pp Hs) as (? & ? & ?); [set_solver|]. done.
Qed.

Lemma take_some st k1 pp q k2 n :
  heap_ok st (k1 ++ q :: k2) → pp ∈ (base, 0) :: k1 → 1 ≤ n < q.2 →
  let st1 := set_size st q.1 (q.2 - n) in
  let b := (q.1 + 8 * (q.2 - n), n) in
  took st (k1 ++ q :: k2) n (Some (b.1 + 8, set_freep (set_size st1 b.1 n) pp.1)).
Proof.
  intros H Hpp Hn st1 b. pose proof (ok_sorted _ _ H) as Hs. pose proof (ok_linked _ _ H) as Hl.
  pose proof (proj1 (sorted_app _ _ _ _ _) Hs) as (Hs1 & _ & Hs2).
  destruct (sorted_in _ _ _ q Hs) as (? & ? & ?); [set_solver|].
  rewrite app_comm_cons in Hl.
  destruct (linked_ptr st ((base, 0) :: k1) q k2 base Hl) as [Hqp Hqs].
  assert (∀ c, c ∈ (base, 0) :: k1 → c.1 < q.1) as Hk.
  { intros c [->|Hc]%elem_of_cons; [done|]. destruct (sorted_in _ _ _ _ Hs1 Hc). lia. }
  exists b, (set_freep (set_size st1 b.1 n) pp.1), (k1 ++ (q.1, q.2 - n) :: k2). split_and!; try done.
  - split.
    + apply (linked_same (set_size st1 b.1 n)); [done|].
      rewrite app_comm_cons. apply linked_app in Hl as [Hlk (Hlq & Hlk2)].
      apply linked_app. split; [|split].
      * apply linked_set; [|apply linked_set; [|done]].
        all: intros (c & E & Hc)%list_elem_of_fmap; specialize (Hk c Hc); cbn in E; lia.
      * cbn. rewrite lookup_insert_ne by lia. rewrite lookup_insert_eq. by rewrite Hqp.
      * apply linked_set; [|apply linked_set; [|done]].
        all: intros (c & E & Hc)%list_elem_of_fmap; destruct (sorted_in _ _ _ _ Hs2 Hc); cbn in E; lia.
    + cbn. apply sorted_app. cbn. split_and!; [done|lia|]. eapply sorted_weaken; [|exact Hs2]. lia.
    + cbn. apply elem_of_cons in Hpp as [->|Hpp]; [by left|]. right. rewrite fmap_app.
      apply elem_of_app. left. apply list_elem_of_fmap. eauto.
    + apply H.
    + apply H.
  - split.
    + cbn. lia.
    + unfold size, hdr. cbn. by rewrite lookup_insert_eq.
    + rewrite Forall_forall. intros c [Hc|[->|Hc]%elem_of_cons]%elem_of_app; unfold apart; cbn.
      * right. destruct (Hk c); [by right|]. destruct (sorted_in _ _ _ _ Hs1 Hc). lia.
      * right. lia.
      * left. destruct (sorted_in _ _ _ _ Hs2 Hc). lia.
  - rewrite !length_app. done.
  - intros x. rewrite !covered_app. unfold covered. rewrite !Exists_cons. unfold inside. cbn.
    assert (q.1 ≤ x < q.1 + 8 * q.2 ↔
      q.1 + 8 * (q.2 - n) ≤ x < q.1 + 8 * (q.2 - n) + 8 * n ∨ q.1 ≤ x < q.1 + 8 * (q.2 - n)) by lia.
    tauto.
  - intros a Hab Hc. cbn. rewrite !lookup_insert_ne; [done|..]; intros <-; apply Hc.
    + apply covered_head; [set_solver|lia].
    + apply Exists_exists. exists q. split; [set_solver|]. unfold inside. cbn. lia.
Qed.

(** The loop of [malloc] at a block that is large enough. *)
Lemma malloc_loop_fits fuel grant st k1 k pp q k2 n :
  heap_ok st (k1 ++ q :: k2) → (base, 0) :: k1 = k ++ [pp] → 1 ≤ n ≤ q.2 →
  took st (k1 ++ q :: k2) n (malloc_loop (S fuel) grant st n pp.1 q.1).
Proof.
  intros H Ek Hn. pose proof (ok_linked _ _ H) as Hl. rewrite app_comm_cons in Hl.
  destruct (linked_ptr st ((base, 0) :: k1) q k2 base Hl) as [_ Hqs].
  destruct (sorted_in _ _ _ q (ok_sorted _ _ H)) as (? & ? & ?); [set_solver|].
  pose proof (ok_brk _ _ H). cbn [malloc_loop]. rewrite Hqs.
  replace (q.2 >=? n) with true by lia. destruct (Z.eqb_spec q.2 n) as [E|E].
  - subst n. by eapply take_all.
  - assert (pp ∈ (base, 0) :: k1) as Hpp by (rewrite Ek; set_solver).
    rewrite (wrap32_small (q.2 - n)) by (unfold is_u32; lia).
    replace (padd q.1 (size (set_size st q.1 (q.2 - n)) q.1)) with (q.1 + 8 * (q.2 - n)).
    2: { unfold size at 1, hdr. cbn. rewrite lookup_insert_eq. cbn. unfold padd.
         rewrite wrap32_small; [done|]. unfold is_u32. lia. }
    apply (take_some st k1 pp q k2 n H Hpp). lia.
Qed.

(** The loop of [malloc] at a block that is too small. *)
Lemma malloc_loop_next fuel grant st n prevp p :
  size st p < n → p ≠ hp_freep st →
  malloc_loop (S fuel) grant st n prevp p = malloc_loop fuel grant st n p (ptr st p).
Proof.
  intros Hn Hf. cbn [malloc_loop]. replace (size st p >=? n) with false by lia.
  by rewrite (proj2 (Z.eqb_neq _ _)).
Qed.

(** The loop of [malloc] over a part of the list. *)
Lemma malloc_scan fuel grant st l k pp m k2 n :
  heap_ok st l → 1 ≤ n → (base, 0) :: l = k ++ pp :: m ++ k2 →
  Forall (λ c, c.1 ≠ hp_freep st) m →
  took st l n (malloc_loop (length m + fuel) grant st n pp.1 (next (m ++ k2) base)) ∨
  Forall (λ c, c.2 < n) m ∧
  ∃ k' pp', k ++ pp :: m = k' ++ [pp'] ∧
    malloc_loop (length m + fuel) grant st n pp.1 (next (m ++ k2) base) =
    malloc_loop fuel grant st n pp'.1 (next k2 base).
Proof.
  intros H Hn. revert k pp. induction m as [|q m IH]; intros k pp E Hm; cbn [length Nat.add].
  { right. split; [done|]. exists k, pp. done. }
  apply Forall_cons in Hm as [Hq Hm]. cbn [app next] in *.
  assert ((base, 0) :: l = (k ++ [pp]) ++ q :: m ++ k2) as E' by (by rewrite <- app_assoc).
  destruct (linked_ptr st (k ++ [pp]) q (m ++ k2) base) as [Hqp Hqs]; [rewrite <- E'; apply H|].
  destruct (decide (n ≤ q.2)) as [Hle|Hgt].
  - left. destruct k as [|c k].
    + injection E as <- ->. by apply (malloc_loop_fits _ _ _ [] []).
    + injection E as <- ->.
      replace (k ++ pp :: q :: m ++ k2) with ((k ++ [pp]) ++ q :: m ++ k2) in H |- *
        by (by rewrite <- app_assoc).
      by apply (malloc_loop_fits _ _ _ _ ((base, 0) :: k)).
  - rewrite malloc_loop_next, Hqp by (done || lia).
    destruct (IH (k ++ [pp]) q) as [?|(Hu & k' & pp' & Ek & El)]; [done..|by left|].
    right. split; [constructor; [lia|done]|]. exists k', pp'. split; [|done].
    by rewrite <- Ek, <- app_assoc.
Qed.

(** The loop of [malloc] back at [freep]. *)
Lemma malloc_loop_more fuel grant st n prevp :
  size st (hp_freep st) < n →
  malloc_loop (S fuel) grant st n prevp (hp_freep st) =
  ('(p, st) ← morecore (S fuel) grant st n;
   if p =? 0 then Some (0, st) else malloc_loop fuel grant st n p (ptr st p)).
Proof.
  intros Hn. cbn [malloc_loop]. replace (size st (hp_freep st) >=? n) with false by lia.
  by rewrite Z.eqb_refl.
Qed.

(** The loop of [malloc] from [freep]: it takes a block or goes round to
    [freep] and asks for more memory. *)
Lemma malloc_round fuel grant st l n :
  heap_ok st l → 1 ≤ n →
  let r := malloc_loop (length l + S fuel) grant st n (hp_freep st) (ptr st (hp_freep st)) in
  took st l n r ∨
  Forall (λ c, c.2 < n) l ∧
  r = ('(p, st) ← morecore (S fuel) grant st n;
       if p =? 0 then Some (0, st) else malloc_loop fuel grant st n p (ptr st p)).
Proof.
  intros H Hn. pose proof (ok_freep _ _ H) as Hfp. change (base :: l.*1) with ((base, 0) :: l).*1 in Hfp.
  apply list_elem_of_fmap in Hfp as (f & Hf & (l1 & l2 & E)%list_elem_of_split).
  pose proof (ok_linked _ _ H) as Hl. pose proof (list_ascending _ _ H) as Ha. rewrite E in Hl, Ha.
  destruct (linked_ptr _ _ _ _ _ Hl) as [Hp Hs]. rewrite <- Hf in Hp, Hs. rewrite Hp.
  assert (length l = length l2 + length l1)%nat as ->.
  { apply (f_equal length) in E. rewrite length_app in E. cbn in E. lia. }
  rewrite <- Nat.add_assoc.
  destruct (malloc_scan (length l1 + S fuel) grant st l l1 f l2 [] n)
    as [?|(Hu2 & k' & pp' & _ & E2)]; [done|done|by rewrite app_nil_r| | |].
  { rewrite Forall_forall. intros c Hc. rewrite Hf.
    pose proof (ascending_app (l1 ++ [f]) l2 f c) as Hlt. rewrite <- app_assoc in Hlt.
    specialize (Hlt Ha ltac:(set_solver) Hc). lia. }
  { left. by rewrite Hf, app_nil_r in *. }
  rewrite app_nil_r, <- Hf in E2. cbv zeta. rewrite E2. cbn [next].
  destruct l1 as [|c l1]; injection E as <- ->; cbn [length Nat.add].
  - right. split; [done|]. rewrite <- (malloc_loop_more fuel grant st n pp'.1) by (rewrite Hs; cbn; lia).
    by rewrite Hf.
  - assert (base < f.1) as Hbf.
    { by apply (ascending_app ((base, 0) :: l1) (f :: l2) (base, 0) f); [|left|left]. }
    destruct (linked_ptr st [] (base, 0) (l1 ++ f :: l2) base Hl) as [Hbp Hbs]. cbn [fst snd] in *.
    rewrite malloc_loop_next, Hbp by lia.
    destruct (malloc_scan (S fuel) grant st (l1 ++ f :: l2) [] (base, 0) l1 (f :: l2) n)
      as [?|(Hu1 & k & pp & Ek & E1)]; [done|done|done| |by left|].
    { rewrite Forall_forall. intros c Hc.
      pose proof (ascending_app ((base, 0) :: l1) (f :: l2) c f Ha ltac:(set_solver) ltac:(set_solver)).
      lia. }
    cbn [fst next] in E1. rewrite E1. destruct (decide (n ≤ f.2)) as [Hle|Hgt].
    + left. by eapply malloc_loop_fits.
    + right. split; [apply Forall_app; split; [done|]; constructor; [lia|done]|].
      rewrite <- Hf. apply malloc_loop_more. lia.
Qed.

Lemma freep_pos st l : heap_ok st l → hp_freep st ≠ 0.
Proof.
  intros H. destruct (proj1 (elem_of_cons _ _ _) (ok_freep _ _ H)) as [->|Hf]; [lia|].
  apply list_elem_of_fmap in Hf as (c & -> & Hc).
  destruct (sorted_in _ _ _ _ (ok_sorted _ _ H) Hc). lia.
Qed.

(** The memory that [morecore] gets from [sbrk] becomes a free block. *)
Lemma morecore_ok fuel grant st l n :
  heap_ok st l → 1 ≤ n → 8 * n < 2 ^ 31 → (length l + 1 < fuel)%nat →
  morecore fuel grant st n = Some (0, st) ∨
  ∃ st' l' nu, morecore fuel grant st n = Some (hp_freep st', st') ∧ heap_ok st' l' ∧ n ≤ nu ∧
    hp_brk st' = hp_brk st + 8 * nu ∧ (length l' ≤ S (length l))%nat ∧
    Exists (λ c, n ≤ c.2) l' ∧ (∀ x, covered l' x ↔ inside x (hp_brk st, nu) ∨ covered l x) ∧
    ∀ a, a ∉ base :: hp_brk st :: l.*1 → hp_hdr st' !! a = hp_hdr st !! a.
Proof.
  intros H Hn Hn8 Hf. unfold morecore. set (nu := if n <? 4096 then 4096 else n).
  assert (n ≤ nu ∧ 1 ≤ nu ∧ 8 * nu < 2 ^ 31) as (? & ? & ?)
    by (unfold nu; destruct (Z.ltb_spec n 4096); lia).
  rewrite sint32_small by (unfold is_i32; lia). destruct (negb grant || _) eqn:Eg; [by left|].
  right. apply orb_false_iff in Eg as [_ Eg]. rewrite Z.geb_leb, Z.leb_gt in Eg.
  set (st1 := set_size (Heap (hp_hdr st) (hp_freep st) (hp_brk st + nu * 8)) (hp_brk st) nu).
  pose proof (ok_base _ _ H) as Hbase.
  assert (hp_brk st ∉ ((base, 0) :: l).*1) as Hbrk.
  { rewrite fmap_cons. cbn. intros [?|(c & E & Hc)%list_elem_of_fmap]%elem_of_cons; [lia|].
    destruct (sorted_in _ _ _ _ (ok_sorted _ _ H) Hc). lia. }
  assert (heap_ok st1 l) as Hok1.
  { split; [|..|cbn; lia|cbn; lia].
    - apply linked_set; [done|]. by eapply linked_same; [|apply H].
    - eapply sorted_hi; [|apply H]. cbn. lia.
    - apply H. }
  destruct (free_ok st1 l (hp_brk st, nu) fuel) as (st' & l' & E & Hok2 & Eb & Hlen & Hex & Hcov & Hfr);
    [done| |done|].
  { split; [cbn; lia| |].
    - unfold size, hdr. cbn. by rewrite lookup_insert_eq.
    - rewrite Forall_forall. intros c Hc. unfold apart. cbn.
      destruct (sorted_in _ _ _ _ (ok_sorted _ _ H) Hc). lia. }
  exists st', l', nu. cbn [fst] in E. rewrite E. split_and!; try done.
  - rewrite Eb. cbn. lia.
  - eapply Exists_impl; [exact Hex|]. intros c ?. cbn in *. lia.
  - intros a Ha. rewrite Hfr by done. cbn. rewrite lookup_insert_ne; [done|]. set_solver.
Qed.

(** What a call of [malloc] for [n] units does: it returns null and changes
    nothing, or it returns block [b], from the free blocks or from new memory. *)
Definition allocated (st : heap) (l : list block) (n : Z) (r : option (Z * heap)) : Prop :=
  r = Some (0, st) ∨
  ∃ b st' l', r = Some (b.1 + 8, st') ∧ b.2 = n ∧ heap_ok st' l' ∧ freeable st' l' b ∧
    hp_brk st ≤ hp_brk st' ∧ (length l' ≤ S (length l))%nat ∧
    (∀ x, inside x b ∨ covered l' x → covered l x ∨ hp_brk st ≤ x) ∧
    (∀ x, covered l x → inside x b ∨ covered l' x) ∧
    ∀ a, base < a < hp_brk st → ¬ covered l a → hp_hdr st' !! a = hp_hdr st !! a.

Lemma malloc_loop_ok fuel grant st l n :
  heap_ok st l → 1 ≤ n → 8 * n < 2 ^ 31 → (2 * length l + 4 < fuel)%nat →
  allocated st l n (malloc_loop fuel grant st n (hp_freep st) (ptr st (hp_freep st))).
Proof.
  intros H Hn Hn8 Hf.
  assert (fuel = length l + S (fuel - S (length l)))%nat as -> by lia.
  destruct (malloc_round (fuel - S (length l)) grant st l n) as [Ht|[Hu ->]]; [done..| |].
  { right. destruct Ht as (b & st' & l' & E & Eb & H' & Hfr & Hbrk & Hlen & Hcov & Hframe).
    exists b, st', l'. rewrite Hbrk. split_and!; try done || lia.
    - intros x Hx. left. by apply Hcov.
    - intros x Hx. by apply Hcov.
    - intros a Ha. apply Hframe. lia. }
  set (g := (fuel - S (length l))%nat) in *.
  destruct (morecore_ok (S g) grant st l n)
    as [->|(st1 & l1 & nu & -> & H1 & Hnu & Hb1 & Hlen1 & Hex & Hcov1 & Hfr1)];
    [done..|lia|by left|]. cbn [mbind option_bind]. rewrite (proj2 (Z.eqb_neq _ _)) by (by eapply freep_pos).
  assert (g = length l1 + S (g - S (length l1)))%nat as -> by lia.
  destruct (malloc_round (g - S (length l1)) grant st1 l1 n) as [Ht|[Hu1 _]]; [done..| |].
  2: { exfalso. apply Exists_exists in Hex as (c & Hc & ?). rewrite Forall_forall in Hu1.
       specialize (Hu1 c Hc). cbn in *. lia. }
  destruct Ht as (b & st' & l' & E & Eb & H' & Hfr & Hbrk & Hlen & Hcov & Hframe).
  right. exists b, st', l'. split_and!; try done || lia.
  - intros x Hx. apply Hcov, Hcov1 in Hx as [Hx|Hx]; [|by left]. unfold inside in Hx. cbn in Hx. lia.
  - intros x Hx. apply Hcov, Hcov1. by right.
  - intros a Ha Hnc. rewrite Hframe, Hfr1; [done| |lia|].
    + intros [->|[->|(c & -> & Hc)%list_elem_of_fmap]%elem_of_cons]%elem_of_cons; [lia..|].
      apply Hnc, covered_head; [done|]. by destruct (sorted_in _ _ _ _ (ok_sorted _ _ H) Hc) as (? & ? & ?).
    + intros [Hx|Hx]%Hcov1; [|done]. unfold inside in Hx. cbn in Hx. lia.
Qed.

(** ** Client programs *)

(** The blocks behind the pointers that a client holds. *)
Definition blocks (st : heap) (own : list (Z * Z)) : list block :=
  (λ o, (o.1 - 8, size st (o.1 - 8))) <$> own.

Fixpoint all_apart (l : list block) : Prop :=
  match l with [] => True | b :: l => Forall (apart b) l ∧ all_apart l end.

(** A client holds pointers [own], each with the number of bytes asked for. *)
Record owned (st : heap) (l : list block) (own : list (Z * Z)) : Prop := {
  own_free : Forall (freeable st l) (blocks st own);
  own_apart : all_apart (blocks st own);
  own_room : Forall (λ o, o.2 ≤ 8 * (size st (o.1 - 8) - 1)) own;
}.

Lemma not_inside l b x : Forall (apart b) l → covered l x → ¬ inside x b.
Proof.
  intros Ha (c & Hc & Hx)%Exists_exists Hb. rewrite Forall_forall in Ha. specialize (Ha c Hc).
  unfold apart, inside in *. lia.
Qed.

Lemma apart_points b c : 1 ≤ b.2 → 1 ≤ c.2 → (∀ x, inside x c → ¬ inside x b) → apart b c.
Proof.
  intros Hb Hc H. unfold apart, inside in *. specialize (H (Z.max b.1 c.1)). lia.
Qed.

(** A held block that a call left alone can still be freed. *)
Lemma freeable_keep st l st' l' c :
  freeable st l c → heap_ok st' l' → hp_brk st ≤ hp_brk st' → hp_hdr st' !! c.1 = hp_hdr st !! c.1 →
  (∀ x, covered l' x → ¬ inside x c) → freeable st' l' c ∧ size st' c.1 = size st c.1.
Proof.
  intros [(? & ? & ?) Hs Ha] Hok Hb Hh Hc.
  assert (size st' c.1 = size st c.1) as E by (unfold size, hdr; by rewrite Hh).
  split; [|done]. split; [lia|congruence|]. rewrite Forall_forall. intros d Hd.
  destruct (sorted_in _ _ _ _ (ok_sorted _ _ Hok) Hd) as (? & ? & ?).
  apply apart_points; [done..|]. intros x Hx. apply Hc. apply Exists_exists. eauto.
Qed.

(** The blocks of pointers that a call left alone. *)
Lemma owned_keep st l st' l' own :
  owned st l own → heap_ok st' l' → hp_brk st ≤ hp_brk st' →
  Forall (λ c, hp_hdr st' !! c.1 = hp_hdr st !! c.1) (blocks st own) →
  Forall (λ c, ∀ x, covered l' x → ¬ inside x c) (blocks st own) →
  blocks st' own = blocks st own ∧ owned st' l' own.
Proof.
  intros [Hf Ha Hr] H Hb Hh Hc.
  assert (Forall (λ c, freeable st' l' c ∧ size st' c.1 = size st c.1) (blocks st own)) as Hk.
  { rewrite Forall_forall in Hf, Hh, Hc |- *. intros c Hin. eapply freeable_keep; eauto. }
  assert (Forall (λ o, size st' (o.1 - 8) = size st (o.1 - 8)) own) as Hsz.
  { unfold blocks in Hk. rewrite Forall_fmap in Hk. eapply Forall_impl; [exact Hk|].
    intros o [_ ?]. done. }
  assert (blocks st' own = blocks st own) as E.
  { apply list_fmap_ext. intros i o Ho. rewrite Forall_lookup in Hsz. by rewrite (Hsz i o). }
  split; [done|]. split; rewrite ?E.
  - eapply Forall_impl; [exact Hk|]. by intros c [? _].
  - done.
  - rewrite Forall_forall in Hr, Hsz |- *. intros o Ho. rewrite (Hsz o Ho). by apply Hr.
Qed.

#[export] Instance all_apart_proper : Proper ((≡ₚ) ==> impl) all_apart.
Proof.
  intros l l' Hp. induction Hp as [|b l l' Hp IH|b c l|l l' l'' _ IH1 _ IH2]; cbn; unfold impl in *.
  - done.
  - intros [Hf ?]. rewrite Hp in Hf. auto.
  - rewrite !Forall_cons. unfold apart. intros ((? & ?) & ? & ?). split_and!; [lia|done..].
  - auto.
Qed.

#[export] Instance owned_proper st l : Proper ((≡ₚ) ==> impl) (owned st l).
Proof.
  intros own own' Hp [Hf Ha Hr]. assert (blocks st own ≡ₚ blocks st own') as Hb by (by apply fmap_Permutation).
  split; [by rewrite <- Hb|by rewrite <- Hb|by rewrite <- Hp].
Qed.

(** An allocation keeps what the client holds and adds the new block. *)
Lemma owned_malloc st l own n nbytes p st' :
  heap_ok st l → owned st l own → nbytes ≤ 8 * (n - 1) → p ≠ 0 →
  allocated st l n (Some (p, st')) →
  ∃ l', heap_ok st' l' ∧ (length l' ≤ S (length l))%nat ∧ owned st' l' ((p, nbytes) :: own).
Proof.
  intros H Hown Hn Hp [[= -> ->]|(b & st1 & l' & [= -> ->] & Hb & H' & Hfb & Hbrk & Hlen & Hc1 & Hc2 & Hfr)];
    [done|]. exists l'. split_and!; [done..|]. pose proof (own_free _ _ _ Hown) as Hf.
  assert (Forall (λ c, ∀ x, inside x b ∨ covered l' x → ¬ inside x c) (blocks st own)) as Hdis.
  { eapply Forall_impl; [exact Hf|]. intros c [(? & ? & ?) _ Ha] x [Hx|Hx]%Hc1 Hi.
    - by eapply not_inside.
    - unfold inside in Hi. lia. }
  destruct (owned_keep st l st1 l' own) as [E Hown']; [done..| | |].
  { eapply Forall_impl; [exact Hf|]. intros c [(? & ? & ?) _ Ha]. apply Hfr; [lia|].
    intros Hx. apply (not_inside _ _ _ Ha Hx). unfold inside. lia. }
  { eapply Forall_impl; [exact Hdis|]. intros c Hc x Hx. apply Hc. by right. }
  assert ((b.1 + 8 - 8, size st1 (b.1 + 8 - 8)) = b) as Eb.
  { replace (b.1 + 8 - 8) with b.1 by lia. rewrite (fr_size _ _ _ Hfb). by destruct b. }
  split; unfold blocks; rewrite ?fmap_cons; cbn [fst]; rewrite ?Eb; fold (blocks st1 own).
  - constructor; [done|]. apply Hown'.
  - split; [|apply Hown']. rewrite E. rewrite Forall_forall in Hdis, Hf |- *. intros c Hc.
    destruct (fr_range _ _ _ Hfb) as (_ & ? & _). destruct (fr_range _ _ _ (Hf c Hc)) as (_ & ? & _).
    apply apart_points; [done..|]. intros x Hxc Hxb. by apply (Hdis c Hc x); [left|].
  - constructor; [|apply Hown']. cbn. replace (b.1 + 8 - 8) with b.1 by lia.
    rewrite (fr_size _ _ _ Hfb). lia.
Qed.

(** Freeing a held block keeps the others. *)
Lemma owned_free st l p n own fuel :
  heap_ok st l → owned st l ((p, n) :: own) → (length l + 1 < fuel)%nat →
  ∃ st' l', free fuel st p = Some st' ∧ heap_ok st' l' ∧ (length l' ≤ S (length l))%nat ∧
    owned st' l' own.
Proof.
  intros H [Hf Ha Hr] Hl. unfold blocks in Hf, Ha. rewrite fmap_cons in Hf, Ha. cbn [fst] in *.
  fold (blocks st own) in *. apply Forall_cons in Hf as [Hfp Hf]. destruct Ha as [Hap Ha].
  apply Forall_cons in Hr as [_ Hr]. set (b := (p - 8, size st (p - 8))) in *.
  destruct (free_ok st l b fuel) as (st' & l' & E & H' & Hb & Hlen & _ & Hcov & Hfr); [done..|].
  exists st', l'. cbn [b fst] in E. replace (p - 8 + 8) with p in E by lia. split_and!; [done..|].
  apply (owned_keep st l st' l' own); [by split|done|by rewrite Hb| |].
  - rewrite Forall_forall in Hf, Hap |- *. intros c Hc. apply Hfr.
    destruct (Hf c Hc) as [(? & ? & ?) _ Hal]. specialize (Hap c Hc). unfold apart in Hap.
    destruct (fr_range _ _ _ Hfp) as (? & ? & ?).
    intros [?|[?|(d & Ed & Hd)%list_elem_of_fmap]%elem_of_cons]%elem_of_cons; [lia..|].
    rewrite Forall_forall in Hal. specialize (Hal d Hd). unfold apart in Hal.
    destruct (sorted_in _ _ _ _ (ok_sorted _ _ H) Hd) as (? & ? & ?). lia.
  - rewrite Forall_forall in Hf, Hap |- *. intros c Hc x [Hx|Hx]%Hcov Hi.
    + specialize (Hap c Hc). unfold apart, inside in *. lia.
    + by apply (not_inside l c x); [apply (Hf c Hc)|..].
Qed.

Lemma owned_result st l own i j p n q m :
  owned st l own → own !! i = Some (p, n) → own !! j = Some (q, m) → i ≠ j →
  p + n ≤ q ∨ q + m ≤ p.
Proof.
  intros [Hf Ha Hr] Hi Hj Hij. rewrite Forall_lookup in Hf, Hr.
  pose proof (Hr _ _ Hi) as Hri. pose proof (Hr _ _ Hj) as Hrj. cbn [fst snd] in *.
  assert (blocks st own !! i = Some (p - 8, size st (p - 8))) as Hbi
    by (unfold blocks; by rewrite list_lookup_fmap, Hi).
  assert (blocks st own !! j = Some (q - 8, size st (q - 8))) as Hbj
    by (unfold blocks; by rewrite list_lookup_fmap, Hj).
  assert (apart (p - 8, size st (p - 8)) (q - 8, size st (q - 8))) as Hap;
    [|unfold apart in Hap; cbn in Hap; lia].
  revert Ha Hbi Hbj. clear -Hij. generalize (blocks st own) as l. clear own.
  generalize (p - 8, size st (p - 8)) as b, (q - 8, size st (q - 8)) as c.
  intros b c l. revert i j Hij. induction l as [|d l IH]; intros [|i] [|j] Hij Ha Hi Hj; try done.
  - injection Hi as ->. destruct Ha as [Ha _]. rewrite Forall_lookup in Ha. by eapply Ha.
  - injection Hj as ->. destruct Ha as [Ha _]. rewrite Forall_lookup in Ha.
    specialize (Ha _ _ Hi). unfold apart in *. lia.
  - destruct Ha as [_ Ha]. by apply (IH i j); [congruence|..].
Qed.

(** A call of [malloc], the first one included. *)
Lemma malloc_ok fuel grant st l nbytes :
  heap_ok st l → 0 ≤ nbytes < 2 ^ 31 - 16 → (2 * length l + 4 < fuel)%nat →
  allocated st l (units nbytes) (malloc base fuel grant st nbytes) ∧
  nbytes ≤ 8 * (units nbytes - 1).
Proof.
  intros H Hn Hf. unfold malloc.
  assert (1 ≤ units nbytes ∧ 8 * units nbytes < 2 ^ 31 ∧ nbytes ≤ 8 * (units nbytes - 1)) as (? & ? & ?).
  { unfold units. rewrite wrap32_small by (unfold is_u32; lia). dlia. }
  rewrite (proj2 (Z.eqb_neq _ _)) by (by eapply freep_pos). split; [|done].
  by apply malloc_loop_ok.
Qed.

Lemma malloc_first fuel grant brk nbytes :
  base < brk < 2 ^ 31 →
  ∃ st, heap_ok st [] ∧ hp_brk st = brk ∧
    malloc base fuel grant (Heap ∅ 0 brk) nbytes = malloc base fuel grant st nbytes.
Proof.
  intros Hb. eexists (set_size (set_ptr (set_freep (Heap ∅ 0 brk) base) base base) base 0).
  split_and!; [|done|].
  - split; [|cbn; lia|by left|cbn; lia|cbn; lia]. split; [|done]. cbn. rewrite lookup_insert_eq.
    unfold ptr, hdr. cbn. by rewrite lookup_insert_eq.
  - unfold malloc at 2. cbn [hp_freep set_size set_ptr set_hdr set_freep].
    by rewrite (proj2 (Z.eqb_neq base 0)) by lia.
Qed.

End heap.

(** Calls of a client; [OFree i] frees the [i]-th pointer that it holds. *)
Inductive op := OMalloc (nbytes : Z) (grant : bool) | OFree (i : nat).

(** Requests for which the number of bytes of the block is a positive [int]. *)
Definition op_ok (o : op) : Prop :=
  match o with OMalloc nbytes _ => 0 ≤ nbytes < 2 ^ 31 - 16 | OFree _ => True end.

(** The heap and the pointers held after some calls. *)
Fixpoint client (base : Z) (fuel : nat) (ops : list op) (st : heap) (own : list (Z * Z)) :
    option (heap * list (Z * Z)) :=
  match ops with
  | [] => Some (st, own)
  | OMalloc nbytes grant :: ops =>
    '(p, st) ← malloc base fuel grant st nbytes;
    client base fuel ops st (if p =? 0 then own else (p, nbytes) :: own)
  | OFree i :: ops =>
    match own !! i with
    | None => client base fuel ops st own
    | Some (p, _) => st ← free fuel st p; client base fuel ops st (delete i own)
    end
  end.

Lemma client_ok base fuel ops st l own :
  0 < base → heap_ok base st l → owned base st l own → Forall op_ok ops →
  (2 * length l + 2 * length ops + 4 < fuel)%nat →
  ∃ st' l' own', client base fuel ops st own = Some (st', own') ∧ heap_ok base st' l' ∧
    owned base st' l' own'.
Proof.
  intros Hbase. revert st l own. induction ops as [|o ops IH]; intros st l own H Hown Hops Hf.
  { by exists st, l, own. }
  apply Forall_cons in Hops as [Ho Hops]. cbn [length] in Hf. destruct o as [nbytes grant|i]; cbn [client].
  - destruct (malloc_ok base Hbase fuel grant st l nbytes) as [Ha Hn]; [done|done|lia|].
    destruct (malloc base fuel grant st nbytes) as [[p st1]|] eqn:E.
    2: { by destruct Ha as [?|(? & ? & ? & ? & _)]. }
    cbn [mbind option_bind]. destruct (Z.eqb_spec p 0) as [->|Hp].
    + destruct Ha as [[= ->]|(b & ? & ? & [= Hb _] & _ & _ & Hfb & _)].
      * apply (IH _ l); [done..|lia].
      * destruct (fr_range _ _ _ _ Hfb). lia.
    + destruct (owned_malloc base st l own _ nbytes p st1 H Hown Hn Hp Ha) as (l' & H' & Hl' & Ho').
      apply (IH _ l'); [done..|lia].
  - destruct (own !! i) as [[p n]|] eqn:Ei; [|apply (IH _ l); [done..|lia]].
    apply delete_Permutation in Ei. rewrite Ei in Hown.
    destruct (owned_free base Hbase st l p n (delete i own) fuel) as (st' & l' & -> & H' & Hl' & Ho');
      [done..|lia|]. cbn [mbind option_bind]. apply (IH _ l'); [done..|lia].
Qed.

Lemma client_first base fuel ops brk :
  0 < base → base < brk < 2 ^ 31 →
  client base fuel ops (Heap ∅ 0 brk) [] = Some (Heap ∅ 0 brk, []) ∨
  ∃ st, heap_ok base st [] ∧ hp_brk st = brk ∧
    client base fuel ops (Heap ∅ 0 brk) [] = client base fuel ops st [].
Proof.
  intros Hbase Hbrk. induction ops as [|[nbytes grant|i] ops IH]; cbn [client]; [by left| |done].
  right. destruct (malloc_first base Hbase fuel grant brk nbytes Hbrk) as (st & H & Eb & ->). eauto.
Qed.

(** The sum in [malloc] wraps: a request of almost [2 ^ 32] bytes is treated as one of none. *)
Lemma malloc_wraps base fuel grant st :
  malloc base fuel grant st (2 ^ 32 - 1) = malloc base fuel grant st 0.
Proof. reflexivity. Qed.

(** C32 A client of [malloc] and [free] whose requests are all of less than [2 ^ 31 - 16] bytes, and
    that frees only pointers it holds, never waits for ever and never holds overlapping
    memory: whatever the sequence of such calls, each of them ends (a search goes round the
    free list at most twice), and the bytes asked for behind two pointers that are
    held are disjoint and inside the memory of the process.  With a larger request the number of
    bytes that [morecore] passes to [sbrk] is a negative [int], or the number of units has
    wrapped ([malloc_wraps]). *)
Theorem umalloc_safe base brk ops fuel :
  0 < base → base < brk < 2 ^ 31 → Forall op_ok ops → (2 * length ops + 4 < fuel)%nat →
  ∃ st own, client base fuel ops (Heap ∅ 0 brk) [] = Some (st, own) ∧
    ∀ i p n, own !! i = Some (p, n) → base < p ∧ p + n ≤ hp_brk st ∧
      ∀ j q m, own !! j = Some (q, m) → i ≠ j → p + n ≤ q ∨ q + m ≤ p.
Proof.
  intros Hbase Hbrk Hops Hf.
  destruct (client_first base fuel ops brk) as [E|(st & H & Eb & E)]; [done..| |].
  { exists (Heap ∅ 0 brk), []. by split. }
  destruct (client_ok base fuel ops st [] []) as (st' & l' & own & E' & H' & Hown); [done|done| |done|cbn [length]; lia|].
  { by split; [constructor|..|constructor]. }
  exists st', own. split; [congruence|]. intros i p n Hi.
  pose proof (own_free _ _ _ _ Hown) as Hfree. pose proof (own_room _ _ _ _ Hown) as Hr.
  unfold blocks in Hfree. rewrite Forall_fmap, Forall_lookup in Hfree. rewrite Forall_lookup in Hr.
  specialize (Hfree _ _ Hi). specialize (Hr _ _ Hi). destruct (fr_range _ _ _ _ Hfree). cbn in *.
  split_and!; [lia..|]. intros j q m Hj Hij. by eapply owned_result.
Qed.

Lemma umalloc_safe_witness :
  ∃ st own,
    client 4096 40 [OMalloc 100 true; OMalloc 20 true; OFree 1; OMalloc 60 false; OMalloc 7 true]
      (Heap ∅ 0 12288) [] = Some (st, own) ∧
    own = [(44976, 7); (44992, 60); (44920, 20)].
Proof.
  destruct (umalloc_safe 4096 12288
    [OMalloc 100 true; OMalloc 20 true; OFree 1; OMalloc 60 false; OMalloc 7 true] 40)
    as (st & own & E & _).
  - reflexivity.
  - split; reflexivity.
  - repeat constructor; discriminate.
  - cbn. lia.
  - exists st, own. split; [exact E|]. vm_compute in E. by injection E as _ <-.
Defined.
