(* ===== verification/Uprogs.v ===== *)
(** * The programs of the user (cat.c, wc.c, echo.c, ls.c, sanity.c, ...)

    A program talks to the kernel by system calls.  Here it runs in the monad
    of the prelude: a call is noted, and the environment's next move is the
    kernel's reply, which leaves the value returned and whatever the call
    stores through the pointers it was given.  When there is no reply left the
    program waits for ever ([Blocked]); [exit] ends it.  Every turn of a loop
    over system calls takes a reply, so the loops need no more turns than there
    are replies.

    [wc] counts what it is to count however [read] cuts the input
    ([wc_counts]); the averages that [sanity] prints are over all processes,
    not over those of the type they are printed for ([sanity_averages]). *)

From S2P Require Import Prelude State Consout Inode Fs Ulib.

Inductive call :=
  | CFork | CWait | CWait2 | CWait3 | CGetpid | CYield2 | CSet_prio
  | CSleep (n : Z)
  | CKill (pid : Z)
  | CExec (path : list Z) (argv : list (list Z))
  | COpen (path : list Z) (mode : Z)
  | CClose (fd : Z)
  | CRead (fd n : Z)
  | CWrite (fd : Z) (bytes : list Z)
  | CDup (fd : Z)
  | CFstat (fd : Z)
  | CLink (old new : list Z)
  | CUnlink (path : list Z)
  | CMkdir (path : list Z)
  | CMknod (path : list Z) (major minor : Z)
  | CChdir (path : list Z)
  | CPipe
  | CSbrk (n : Z)
  (** with an argument given by its address *)
  | CSleepAt (p : Z)
  | CLinkAt (old : list Z) (p : Z)
  | CReadAt (fd p n : Z)
  (** what else may end a process: memory and ports *)
  | CMalloc (n : Z)
  | CFree (p : Z)
  | CLoad (p : Z)
  | CStore (p v : Z)
  | COutb (port v : Z)
  | CInb (port : Z)
  | CPrint (fd : Z) (bytes : list Z). (** the writes of one [printf] *)

(** A process: the calls it has made, the last first, and the last reply. *)
Record user := User {
  u_calls : list call;
  u_ret : Z;
  u_data : list Z
}.

Abbreviation UM := (M user).

Definition note (c : call) (u : user) : user := User (c :: u_calls u) (u_ret u) (u_data u).

(** The kernel's reply: the value returned, and what was stored. *)
Definition reply (ret : Z) (data : list Z) (u : user) : user := User (u_calls u) ret data.

Definition sys (c : call) : UM Z := modify (note c);; switch;; Prelude.gets u_ret.
Definition sysdata (c : call) : UM (Z * list Z) :=
  r ← sys c; d ← Prelude.gets u_data; mret (r, d).

Definition exit {A} : UM A := mpanic "exit".

(** [printf(fd, fmt, ...)], and with a newline at the end of [fmt]. *)
Definition print (fd : Z) (fmt : string) (ap : list arg) : UM unit :=
  out ← deref (printf fmt ap); modify (note (CPrint fd out)).
Definition println (fd : Z) (fmt : string) (ap : list arg) : UM unit :=
  out ← deref (printf_loop false (codes fmt ++ [10]) ap); modify (note (CPrint fd out)).

(** [argv[i]]; a null pointer is not used by the programs. *)
Definition arg (argv : list (list Z)) (i : nat) : UM (list Z) := deref (argv !! i).

(** ** Scheduling tests *)

(** [src/xv6-public/cpu_bound.c:8-17] the loops are empty *)
Definition cpu_bound : UM unit := exit.

(** [src/xv6-public/io_bound.c:8-14] *)
Definition io_bound : UM unit :=
  Nat.iter 100 (λ m, sys (CSleep 1);; m) exit.

(** [src/xv6-public/s_cpu.c:8-20] the inner loop is empty *)
Definition s_cpu : UM unit :=
  Nat.iter 100 (λ m, sys CYield2;; m) exit.

(** [src/xv6-public/sanity.c:13-27] one turn of the loop that starts the processes; a child
    that [exec] fails in goes on with the next case, and then with the loop *)
Definition start_child (argv : list (list Z)) : UM unit :=
  pid ← sys CFork;
  when (pid =? 0) (
    me ← sys CGetpid;
    let m := Z.rem me 3 in
    when (m =? 0) (sys (CExec (codes "cpu_bound") argv);; mret tt);;
    when ((m =? 0) || (m =? 1)) (sys (CExec (codes "s_cpu") argv);; mret tt);;
    when ((m =? 0) || (m =? 1) || (m =? 2)) (sys (CExec (codes "io_bound") argv);; mret tt);;
    println 1 "Não deveria cair aqui" []).

Fixpoint times (n : nat) (m : UM unit) : UM unit :=
  match n with O => mret tt | S n => m;; times n m end.

(** [src/xv6-public/sanity.c:30-45] the totals, of each of the three types *)
Record totals := Totals { t_stime : Z; t_retime : Z; t_turnaround : Z }.

(** [src/xv6-public/sanity.c:50-72] the totals of one type, with a process more *)
Definition add_process (retime rutime stime : Z) (t : totals) : totals :=
  Totals (sint32 (t_stime t + stime)) (sint32 (t_retime t + retime))
    (sint32 (t_turnaround t + sint32 (sint32 (retime + rutime) + stime))).

(** The types of processes: what [wpid % 3] selects. *)
Definition p_types : list string := ["CPU-Bound"; "S-CPU"; "IO-Bound"]%string.

(** [src/xv6-public/sanity.c:47-81] the totals when [wait2] fails *)
Fixpoint sanity_wait (fuel : nat) (ts : list totals) : UM (list totals) :=
  match fuel with
  | O => λ _ k, NoFuel k
  | S fuel =>
    '(wpid, d) ← sysdata CWait2;
    if wpid >? 0 then
      match d with
      | [retime; rutime; stime] =>
        let m := Z.to_nat (Z.rem wpid 3) in
        p_type ← deref (p_types !! m);
        println 1 "%d %s" [AInt wpid; AStr (Some (codes p_type))];;
        println 1 "%d %d %d" [AInt retime; AInt rutime; AInt stime];;
        sanity_wait fuel (alter (add_process retime rutime stime) m ts)
      | _ => mfault
      end
    else mret ts
  end.

(** [src/xv6-public/sanity.c:83-96] a division by zero stops the program *)
Definition print_average (total : totals → Z) (n : Z) (ts : list totals) (m : nat) : UM unit :=
  t ← deref (ts !! m);
  p_type ← deref (p_types !! m);
  if sint32 (3 * n) =? 0 then mfault else
  println 1 (p_type ++ ": %d") [AInt (Z.quot (total t) (sint32 (3 * n)))].

Definition print_averages (title : string) (total : totals → Z) (n : Z) (ts : list totals) : UM unit :=
  println 1 title [];;
  print_average total n ts 0;;
  print_average total n ts 1;;
  print_average total n ts 2.

(** [src/xv6-public/sanity.c:9-100] *)
Definition sanity (argv : list (list Z)) : UM unit :=
  a ← arg argv 1;
  n ← deref (atoi a);
  times (Z.to_nat (sint32 (3 * n))) (start_child argv);;
  ts ← (λ e u, sanity_wait (S (length e)) (replicate 3 (Totals 0 0 0)) e u);
  print_averages "Tempo medio no estado SLEEPING" t_stime n ts;;
  print_averages "Tempo medio no estado READY" t_retime n ts;;
  print_averages "Tempo medio de TURNAROUND" t_turnaround n ts;;
  exit.

(** [src/xv6-public/starvation_sanity.c:32-50] *)
Fixpoint starvation_wait (fuel : nat) : UM unit :=
  match fuel with
  | O => λ _ k, NoFuel k
  | S fuel =>
    '(wpid, d) ← sysdata CWait3;
    if wpid >? 0 then
      match d with
      | [prio] =>
        p_type ← deref (p_types !! Z.to_nat (Z.rem wpid 3));
        println 1 "PID: %d Tipo: %s Prioridade final: %d" [AInt wpid; AStr (Some (codes p_type)); AInt prio];;
        starvation_wait fuel
      | _ => mfault
      end
    else mret tt
  end.

(** [src/xv6-public/starvation_sanity.c:9-53] *)
Definition starvation_sanity (argv : list (list Z)) : UM unit :=
  a ← arg argv 1;
  n ← deref (atoi a);
  times (Z.to_nat (sint32 (3 * n))) (start_child argv);;
  (λ e u, starvation_wait (S (length e)) e u);;
  exit.

(** [src/xv6-public/myprogram.c:15-18] *)
Fixpoint myprogram_wait (fuel : nat) : UM unit :=
  match fuel with
  | O => λ _ k, NoFuel k
  | S fuel =>
    wpid ← sys CWait;
    if wpid >? 0 then
      println 1 "pid: %d priority: %d" [AInt wpid; AInt (Z.rem wpid 3 + 1)];;
      myprogram_wait fuel
    else mret tt
  end.

(** [src/xv6-public/myprogram.c:7-20] *)
Definition myprogram (argv : list (list Z)) : UM unit :=
  times 20 (
    r ← sys CSet_prio;
    when (r =? 0) (sys (CExec (codes "cpu_bound") argv);; mret tt));;
  (λ e u, myprogram_wait (S (length e)) e u);;
  exit.

(** ** Files *)

(** [src/xv6-public/echo.c:8-11] the arguments from the second on *)
Fixpoint echo_loop (args : list (list Z)) : UM unit :=
  match args with
  | [] => mret tt
  | a :: args =>
    print 1 "%s%s" [AStr (Some a); AStr (Some (match args with [] => [10] | _ => [32] end))];;
    echo_loop args
  end.

(** [src/xv6-public/echo.c:5-13] *)
Definition echo (argv : list (list Z)) : UM unit := echo_loop (tail argv);; exit.

(** [src/xv6-public/cat.c:12-17] *)
Fixpoint cat_loop (fuel : nat) (fd : Z) : UM Z :=
  match fuel with
  | O => λ _ k, NoFuel k
  | S fuel =>
    '(n, d) ← sysdata (CRead fd 512);
    if n >? 0 then
      w ← sys (CWrite 1 (take (Z.to_nat n) d));
      if negb (w =? n) then println 1 "cat: write error" [];; exit else cat_loop fuel fd
    else mret n
  end.

(** [src/xv6-public/cat.c:7-22] *)
Definition cat (fd : Z) : UM unit :=
  n ← (λ e u, cat_loop (S (length e)) fd e u);
  when (n <? 0) (println 1 "cat: read error" [];; exit).

(** [src/xv6-public/cat.c:34-41] and [wc.c:45-52]: open each file in turn *)
Fixpoint each_file (name : string) (m : Z → list Z → UM unit) (args : list (list Z)) : UM unit :=
  match args with
  | [] => mret tt
  | a :: args =>
    fd ← sys (COpen a 0);
    if fd <? 0 then println 1 (name ++ ": cannot open %s") [AStr (Some a)];; exit else
    m fd a;;
    sys (CClose fd);;
    each_file name m args
  end.

(** [src/xv6-public/cat.c:24-43] *)
Definition cat_main (argv : list (list Z)) : UM unit :=
  if (length argv <=? 1)%nat then cat 0;; exit
  else each_file "cat" (λ fd _, cat fd) (tail argv);; exit.

(** [src/xv6-public/wc.c:11-14] *)
Record counts := Counts { wc_l : Z; wc_w : Z; wc_c : Z; wc_inword : bool }.

(** [src/xv6-public/wc.c:16-26] one turn of the loop over the bytes read *)
Definition wc_step (s : counts) (b : Z) : counts :=
  let c := sint32 (wc_c s + 1) in
  let l := if b =? 10 then sint32 (wc_l s + 1) else wc_l s in
  match strchr [32; 13; 9; 10; 11] b with
  | Some _ => Counts l (wc_w s) c false
  | None =>
    if wc_inword s then Counts l (wc_w s) c true
    else Counts l (sint32 (wc_w s + 1)) c true
  end.

(** [src/xv6-public/wc.c:15-27] *)
Fixpoint wc_loop (fuel : nat) (fd : Z) (s : counts) : UM (Z * counts) :=
  match fuel with
  | O => λ _ k, NoFuel k
  | S fuel =>
    '(n, d) ← sysdata (CRead fd 512);
    if n >? 0 then wc_loop fuel fd (foldl wc_step s (take (Z.to_nat n) d)) else mret (n, s)
  end.

(** [src/xv6-public/wc.c:7-33] *)
Definition wc (fd : Z) (name : list Z) : UM unit :=
  '(n, s) ← (λ e u, wc_loop (S (length e)) fd (Counts 0 0 0 false) e u);
  if n <? 0 then println 1 "wc: read error" [];; exit else
  println 1 "%d %d %d %s" [AInt (wc_l s); AInt (wc_w s); AInt (wc_c s); AStr (Some name)].

(** [src/xv6-public/wc.c:35-54] *)
Definition wc_main (argv : list (list Z)) : UM unit :=
  if (length argv <=? 1)%nat then wc 0 [];; exit
  else each_file "wc" wc (tail argv);; exit.

(** [src/xv6-public/ls.c:12-15] the name behind the last slash: [p] goes back from the
    end of the string *)
Fixpoint after_slash (rpath acc : list Z) : list Z :=
  match rpath with
  | [] => acc
  | c :: rpath => if c =? 47 then acc else after_slash rpath (c :: acc)
  end.

(** [src/xv6-public/ls.c:6-23] *)
Definition fmtname (path : list Z) : list Z :=
  let p := after_slash (rev path) [] in
  if (DIRSIZ <=? length p)%nat then p
  else p ++ replicate (DIRSIZ - length p) 32.

(** A [struct stat] as the call stores it: type, dev, ino, nlink, size. *)
Definition print_stat (path : list Z) (st : list Z) : UM unit :=
  match st with
  | [type; _; ino; _; size] =>
    println 1 "%s %d %d %d" [AStr (Some (fmtname path)); AInt type; AInt ino; AInt size]
  | _ => mfault
  end.

(** [src/xv6-public/ls.c:56-67] the entries of a directory; [stat] of ulib.c is [open],
    [fstat] and [close] *)
Definition stat (path : list Z) : UM (Z * list Z) :=
  fd ← sys (COpen path O_RDONLY);
  if fd <? 0 then mret (-1, []) else
  '(r, st) ← sysdata (CFstat fd);
  sys (CClose fd);;
  mret (r, st).

Fixpoint ls_entries (fuel : nat) (fd : Z) (path : list Z) : UM unit :=
  match fuel with
  | O => λ _ k, NoFuel k
  | S fuel =>
    '(n, de) ← sysdata (CRead fd 16);
    if negb (n =? 16) then mret tt else
    match de with
    | i0 :: i1 :: name =>
      if i0 + 256 * i1 =? 0 then ls_entries fuel fd path else
      let buf := path ++ [47] ++ cstring (take DIRSIZ name) in
      '(r, st) ← stat buf;
      (if r <? 0 then println 1 "ls: cannot stat %s" [AStr (Some buf)] else print_stat buf st);;
      ls_entries fuel fd path
    | _ => mfault
    end
  end.

(** [src/xv6-public/ls.c:25-71] *)
Definition ls (path : list Z) : UM unit :=
  fd ← sys (COpen path 0);
  if fd <? 0 then println 2 "ls: cannot open %s" [AStr (Some path)] else
  '(r, st) ← sysdata (CFstat fd);
  if r <? 0 then println 2 "ls: cannot stat %s" [AStr (Some path)];; sys (CClose fd);; mret tt else
  match st with
  | type :: _ =>
    (if type =? T_FILE then print_stat path st
     else if type =? T_DIR then
       if Z.of_nat (length path) + 1 + Z.of_nat DIRSIZ + 1 >? 512
       then println 1 "ls: path too long" []
       else (λ e u, ls_entries (S (length e)) fd path e u)
     else mret tt);;
    sys (CClose fd);;
    mret tt
  | [] => mfault
  end.

Fixpoint each (m : list Z → UM unit) (args : list (list Z)) : UM unit :=
  match args with [] => mret tt | a :: args => m a;; each m args end.

(** [src/xv6-public/ls.c:73-85] *)
Definition ls_main (argv : list (list Z)) : UM unit :=
  if (length argv <? 2)%nat then ls (codes ".");; exit else each ls (tail argv);; exit.

(** [src/xv6-public/ln.c:5-15] *)
Definition ln (argv : list (list Z)) : UM unit :=
  match argv with
  | [_; old; new] =>
    r ← sys (CLink old new);
    when (r <? 0) (println 2 "link %s %s: failed" [AStr (Some old); AStr (Some new)]);;
    exit
  | _ => println 2 "Usage: ln old new" [];; exit
  end.

(** [src/xv6-public/rm.c:15-20] and [mkdir.c:15-20]: stop at the first failure *)
Fixpoint until_failure (c : list Z → call) (msg : string) (args : list (list Z)) : UM unit :=
  match args with
  | [] => mret tt
  | a :: args =>
    r ← sys (c a);
    if r <? 0 then println 2 msg [AStr (Some a)] else until_failure c msg args
  end.

(** [src/xv6-public/rm.c:5-23] *)
Definition rm (argv : list (list Z)) : UM unit :=
  if (length argv <? 2)%nat then println 2 "Usage: rm files..." [];; exit
  else until_failure CUnlink "rm: %s failed to delete" (tail argv);; exit.

(** [src/xv6-public/mkdir.c:5-23] *)
Definition mkdir (argv : list (list Z)) : UM unit :=
  if (length argv <? 2)%nat then println 2 "Usage: mkdir files..." [];; exit
  else until_failure CMkdir "mkdir: %s failed to create" (tail argv);; exit.

(** ** Processes *)

(** [src/xv6-public/kill.c:5-17] *)
Definition kill (argv : list (list Z)) : UM unit :=
  if (length argv <? 2)%nat then println 2 "usage: kill pid..." [];; exit
  else each (λ a, pid ← deref (atoi a); sys (CKill pid);; mret tt) (tail argv);; exit.

(** [src/xv6-public/zombie.c:8-14] *)
Definition zombie : UM unit :=
  pid ← sys CFork;
  when (pid >? 0) (sys (CSleep 5);; mret tt);;
  exit.

(** [src/xv6-public/init.c:33-34] *)
Fixpoint reap (fuel : nat) (pid : Z) : UM unit :=
  match fuel with
  | O => λ _ k, NoFuel k
  | S fuel =>
    wpid ← sys CWait;
    if (wpid >=? 0) && negb (wpid =? pid) then println 1 "zombie!" [];; reap fuel pid else mret tt
  end.

(** [src/xv6-public/init.c:22-35] one turn of the endless loop *)
Definition init_turn : UM (unit + Empty_set) :=
  println 1 "init: starting sh" [];;
  pid ← sys CFork;
  if pid <? 0 then println 1 "init: fork failed" [];; exit else
  if pid =? 0 then
    sys (CExec (codes "sh") [codes "sh"]);;
    println 1 "init: exec sh failed" [];;
    exit
  else (λ e u, reap (S (length e)) pid e u);; mret (inl tt).

(** [src/xv6-public/init.c:10-36] *)
Definition init : UM Empty_set :=
  fd ← sys (COpen (codes "console") O_RDWR);
  when (fd <? 0) (
    sys (CMknod (codes "console") 1 1);;
    sys (COpen (codes "console") O_RDWR);;
    mret tt);;
  sys (CDup 0);;
  sys (CDup 0);;
  mrepeat init_turn.

(** [src/xv6-public/forktest.c:23-29] how many [fork]s worked; a child exits *)
Fixpoint fork_all (n : nat) (max : nat) : UM nat :=
  match max with
  | O => mret n
  | S max =>
    pid ← sys CFork;
    if pid <? 0 then mret n else
    if pid =? 0 then exit else fork_all (S n) max
  end.

(** [src/xv6-public/forktest.c:36-41] *)
Fixpoint wait_all (n : nat) : UM unit :=
  match n with
  | O => mret tt
  | S n =>
    r ← sys CWait;
    if r <? 0 then println 1 "wait stopped early" [];; exit else wait_all n
  end.

(** [src/xv6-public/forktest.c:16-56] its own [printf] writes the format *)
Definition forktest : UM unit :=
  println 1 "fork test" [];;
  n ← fork_all 0 1000;
  if (n =? 1000)%nat then println 1 "fork claimed to work N times!" [];; exit else
  wait_all n;;
  r ← sys CWait;
  if negb (r =? -1) then println 1 "wait got too many" [];; exit else
  println 1 "fork test OK" [];;
  exit.

(** [src/xv6-public/stressfs.c:26-28] the number of the process *)
Fixpoint fork4 (i max : nat) : UM nat :=
  match max with
  | O => mret i
  | S max =>
    pid ← sys CFork;
    if pid >? 0 then mret i else fork4 (S i) max
  end.

(** [src/xv6-public/stressfs.c:16-49] *)
Definition stressfs : UM unit :=
  println 1 "stressfs starting" [];;
  i ← fork4 0 4;
  println 1 "write %d" [AInt (Z.of_nat i)];;
  let path := codes "stressfs" ++ [48 + Z.of_nat i] in
  fd ← sys (COpen path (Z.lor O_CREATE O_RDWR));
  times 20 (sys (CWrite fd (replicate 512 97));; mret tt);;
  sys (CClose fd);;
  println 1 "read" [];;
  fd ← sys (COpen path O_RDONLY);
  times 20 (sys (CRead fd 512);; mret tt);;
  sys (CClose fd);;
  sys CWait;;
  exit.

Lemma sys_ok c r d e u : sys c (reply r d :: e) u = Ret r e (User (c :: u_calls u) r d).
Proof. reflexivity. Qed.
Lemma sysdata_ok c r d e u : sysdata c (reply r d :: e) u = Ret (r, d) e (User (c :: u_calls u) r d).
Proof. reflexivity. Qed.

Lemma println_ok fd fmt ap out e u :
  printf_loop false (codes fmt ++ [10]) ap = Some out →
  println fd fmt ap e u = Ret tt e (note (CPrint fd out) u).
Proof. intros E. unfold println. by rewrite E. Qed.

(** ** [wc] counts *)

Definition is_space (b : Z) : bool := bool_decide (b ∈ [32; 13; 9; 10; 11]).

(** The words of a text: its longest stretches without a space. *)
Fixpoint words (s : list Z) : list (list Z) :=
  match s with
  | [] => []
  | c :: s =>
    if is_space c then words s
    else if match s with d :: _ => is_space d | [] => true end then [c] :: words s
    else match words s with w :: ws => (c :: w) :: ws | [] => [[c]] end
  end.

(** Where words start, after a byte of a word or not. *)
Fixpoint starts (inword : bool) (s : list Z) : nat :=
  match s with
  | [] => O
  | c :: s => if is_space c then starts false s else (if inword then 0 else 1) + starts true s
  end.

Definition newlines (s : list Z) : nat := length (filter (.= 10) s).

Lemma strchr_none s c : Forall (λ x, x ≠ 0) s → strchr s c = None ↔ c ∉ s.
Proof.
  induction 1 as [|x s Hx Hs IH]; cbn; [split; [intros _; apply not_elem_of_nil|done]|].
  rewrite not_elem_of_cons, <- IH. replace (x =? 0) with false by lia.
  destruct (Z.eqb_spec x c) as [->|]; [split; [done|by intros []]|].
  destruct (strchr s c); naive_solver.
Qed.

Lemma strchr_space b : strchr [32; 13; 9; 10; 11] b = None ↔ is_space b = false.
Proof. unfold is_space. rewrite bool_decide_eq_false. apply strchr_none. by repeat constructor. Qed.

Lemma words_starts s :
  length (words s) = starts false s ∧
  (∀ c r, s = c :: r → is_space c = false → words s ≠ [] ∧ starts false s = S (starts true s)).
Proof.
  induction s as [|c s [IH1 IH2]]; [done|].
  cbn [words starts]. destruct (is_space c) eqn:Ec; [split; [done|congruence]|].
  split.
  - destruct s as [|d s]; [done|]. destruct (is_space d) eqn:Ed.
    + cbn [length starts] in *. rewrite Ed in *. lia.
    + destruct (IH2 d s eq_refl Ed) as [Hne Hs]. destruct (words (d :: s)) as [|w ws]; [done|]. cbn [length] in *. lia.
  - intros ? ? [= <- <-] _. split; [|done]. destruct s as [|d s]; [done|].
    destruct (is_space d); [done|]. by destruct (words (d :: s)).
Qed.

Lemma wc_steps s l w c inw :
  0 ≤ l → 0 ≤ w → 0 ≤ c → c + Z.of_nat (length s) < 2 ^ 31 → l + Z.of_nat (length s) < 2 ^ 31 →
  w + Z.of_nat (length s) < 2 ^ 31 →
  ∃ inw', foldl wc_step (Counts l w c inw) s =
    Counts (l + Z.of_nat (newlines s)) (w + Z.of_nat (starts inw s)) (c + Z.of_nat (length s)) inw' ∧
    ∀ t, starts inw (s ++ t) = (starts inw s + starts inw' t)%nat.
Proof.
  revert l w c inw. induction s as [|b s IH]; intros l w c inw Hl Hw Hc Bc Bl Bw.
  { exists inw. cbn. by rewrite !Z.add_0_r. }
  cbn [length] in *. cbn [foldl]. unfold wc_step at 2. cbn [wc_l wc_w wc_c wc_inword].
  rewrite !(sint32_small (_ + 1)) by (unfold is_i32; lia).
  assert ((if b =? 10 then l + 1 else l) = l + Z.of_nat (newlines [b])) as ->.
  { unfold newlines. cbn. destruct (Z.eqb_spec b 10); [rewrite decide_True|rewrite decide_False]; cbn; (done || lia). }
  assert (newlines (b :: s) = newlines [b] + newlines s)%nat as En.
  { unfold newlines. by rewrite (filter_app _ [b] s), length_app. }
  assert (newlines [b] ≤ 1)%nat as Hb1 by (unfold newlines; cbn; case_decide; cbn; lia).
  cbn [starts]. destruct (strchr [32; 13; 9; 10; 11] b) eqn:Eb.
  - assert (is_space b = true) as Hsp.
    { apply not_false_is_true. rewrite <- strchr_space. congruence. }
    destruct (IH (l + Z.of_nat (newlines [b])) w (c + 1) false) as (inw' & -> & Ht); [lia..|].
    exists inw'. rewrite Hsp. split; [f_equal; lia|]. intros t. cbn [app starts]. by rewrite Hsp.
  - assert (is_space b = false) as Hsp by (by apply strchr_space).
    destruct (IH (l + Z.of_nat (newlines [b])) (if inw then w else w + 1) (c + 1) true) as (inw' & E & Ht);
      [destruct inw; lia..|].
    exists inw'. rewrite Hsp. split; [|intros t; cbn [app starts]; rewrite Hsp, Ht; lia].
    destruct inw; rewrite E; f_equal; lia.
Qed.

(** The replies to the calls of [read]. *)
Definition reads (chunks : list (list Z)) : env user :=
  ((λ d, reply (Z.of_nat (length d)) d) <$> chunks) ++ [reply 0 []].

Lemma wc_loop_ok fd chunks fuel s u :
  Forall (λ d, d ≠ []) chunks → (length chunks < fuel)%nat →
  wc_loop fuel fd s (reads chunks) u =
  Ret (0, foldl wc_step s (concat chunks)) []
    (User (replicate (S (length chunks)) (CRead fd 512) ++ u_calls u) 0 []).
Proof.
  revert fuel s u. induction chunks as [|d chunks IH]; intros [|fuel] s u Hne Hf; cbn [length] in Hf; [lia|done|lia|].
  apply Forall_cons in Hne as [Hd Hne]. assert (length d ≠ 0)%nat by (by destruct d).
  cbn [wc_loop]. change (reads (d :: chunks)) with (reply (Z.of_nat (length d)) d :: reads chunks).
  mgo (apply sysdata_ok). cbv beta iota.
  replace (Z.of_nat (length d) >? 0) with true by lia. cbv iota. rewrite Nat2Z.id, firstn_all, IH by (done || lia).
  cbn [u_calls reply note concat length]. rewrite foldl_app. f_equal. f_equal.
  rewrite (replicate_S_end (S (length chunks))), <- (assoc (++)). done.
Qed.

(** [wc] counts lines, words and bytes.  However [read] cuts the input into pieces, [wc] prints the
    number of newlines, the number of words, and the number of bytes of the whole. *)
Theorem wc_counts fd name chunks u :
  Forall (λ d, d ≠ []) chunks → Z.of_nat (length (concat chunks)) < 2 ^ 31 →
  let text := concat chunks in
  ∃ out, printf_loop false (codes "%d %d %d %s" ++ [10])
      [AInt (Z.of_nat (newlines text)); AInt (Z.of_nat (length (words text)));
       AInt (Z.of_nat (length text)); AStr (Some name)] = Some out ∧
    wc fd name (reads chunks) u =
    Ret tt [] (User (CPrint 1 out :: replicate (S (length chunks)) (CRead fd 512) ++ u_calls u) 0 []).
Proof.
  intros Hne Hlen text. destruct (wc_steps text 0 0 0 false) as (inw & E & _); [unfold text; lia..|].
  eexists. split; [reflexivity|]. unfold wc. unfold mbind at 1. unfold M_bind.
  rewrite wc_loop_ok by (done || unfold reads; rewrite length_app, length_fmap; cbn; lia).
  fold text. rewrite E, (proj1 (words_starts text)). reflexivity.
Qed.

Lemma wc_counts_witness :
  ∃ out, printf_loop false (codes "%d %d %d %s" ++ [10]) [AInt 1; AInt 2; AInt 8; AStr (Some (codes "f"))] = Some out ∧
    wc 3 (codes "f") (reads [codes "ab c"; codes "de" ++ [10; 32]]) (User [] 0 []) =
    Ret tt [] (User (CPrint 1 out :: replicate 3 (CRead 3 512)) 0 []).
Proof.
  apply (wc_counts 3 (codes "f") [codes "ab c"; codes "de" ++ [10; 32]] (User [] 0 [])); [by repeat constructor|done].
Defined.

(** ** The averages of [sanity] *)

(** What [wait2] reports of a child. *)
Record report := Report { r_pid : Z; r_retime : Z; r_rutime : Z; r_stime : Z }.

Definition r_turnaround (r : report) : Z := r_retime r + r_rutime r + r_stime r.

Definition plausible (r : report) : Prop :=
  0 < r_pid r ∧ 0 ≤ r_retime r ∧ 0 ≤ r_rutime r ∧ 0 ≤ r_stime r.

Definition wait2_reply (r : report) : user → user :=
  reply (r_pid r) [r_retime r; r_rutime r; r_stime r].

Definition total (f : report → Z) (rs : list report) : Z := foldr (λ r z, f r + z) 0 rs.

(** The total over the processes of type [m]. *)
Definition total_of (m : nat) (f : report → Z) (rs : list report) : Z :=
  total f (filter (λ r, Z.rem (r_pid r) 3 = Z.of_nat m) rs).

Definition add_totals (t : totals) (m : nat) (rs : list report) : totals :=
  Totals (t_stime t + total_of m r_stime rs) (t_retime t + total_of m r_retime rs)
    (t_turnaround t + total_of m r_turnaround rs).

Lemma total_cons m f r rs :
  total_of m f (r :: rs) = (if decide (Z.rem (r_pid r) 3 = Z.of_nat m) then f r else 0) + total_of m f rs.
Proof. unfold total_of. rewrite filter_cons. by case_decide. Qed.

Definition roomy (rs : list report) (t : totals) : Prop :=
  0 ≤ t_stime t ≤ t_turnaround t ∧ 0 ≤ t_retime t ≤ t_turnaround t ∧
  t_turnaround t + total r_turnaround rs < 2 ^ 31.

Lemma total_nonneg rs : Forall plausible rs → 0 ≤ total r_turnaround rs.
Proof.
  induction 1 as [|r rs (? & ? & ? & ?) _ IH]; [done|].
  change (0 ≤ r_retime r + r_rutime r + r_stime r + total r_turnaround rs). lia.
Qed.

Lemma add_process_ok r rs t :
  plausible r → Forall plausible rs → roomy (r :: rs) t →
  let t' := add_process (r_retime r) (r_rutime r) (r_stime r) t in
  t' = Totals (t_stime t + r_stime r) (t_retime t + r_retime r) (t_turnaround t + r_turnaround r) ∧ roomy rs t'.
Proof.
  intros (_ & H1 & H2 & H3) Hrs (Ht1 & Ht2 & Ht3). pose proof (total_nonneg rs Hrs) as Hpos.
  change (t_turnaround t + (r_turnaround r + total r_turnaround rs) < 2 ^ 31) in Ht3.
  assert (r_turnaround r = r_retime r + r_rutime r + r_stime r) as Er by done.
  assert (add_process (r_retime r) (r_rutime r) (r_stime r) t =
    Totals (t_stime t + r_stime r) (t_retime t + r_retime r) (t_turnaround t + r_turnaround r)) as E.
  { unfold add_process.
    rewrite (sint32_small (r_retime r + r_rutime r)) by (unfold is_i32; lia). rewrite <- Er.
    rewrite (sint32_small (r_turnaround r)) by (unfold is_i32; lia).
    by rewrite !sint32_small by (unfold is_i32; lia). }
  intros t'. unfold t'. rewrite E. split; [done|]. unfold roomy. cbn [t_stime t_retime t_turnaround]. lia.
Qed.

Lemma sanity_wait_ok rs fuel ts u :
  Forall plausible rs → length ts = 3%nat → Forall (roomy rs) ts → (length rs < fuel)%nat →
  ∃ ts' calls, sanity_wait fuel ts ((wait2_reply <$> rs) ++ [reply (-1) []]) u =
      Ret ts' [] (User calls (-1) []) ∧ length ts' = 3%nat ∧
    ∀ m t, ts !! m = Some t → ts' !! m = Some (add_totals t m rs).
Proof.
  revert fuel ts u. induction rs as [|r rs IH]; intros [|fuel] ts u Hp Hl Hr Hf; cbn [length] in Hf; try lia.
  { eexists ts, _. split; [reflexivity|]. split; [done|]. intros m t ->. unfold add_totals, total_of. cbn.
    rewrite !Z.add_0_r. by destruct t. }
  apply Forall_cons in Hp as [Hp Hps]. pose proof Hp as (Hpid & _).
  set (m := Z.to_nat (Z.rem (r_pid r) 3)).
  assert (Z.of_nat m = Z.rem (r_pid r) 3 ∧ (m < 3)%nat) as [Em Hm].
  { unfold m. pose proof (Z.rem_bound_pos (r_pid r) 3 ltac:(lia) ltac:(lia)). lia. }
  set (f := add_process (r_retime r) (r_rutime r) (r_stime r)).
  assert (Forall (roomy rs) (alter f m ts)) as Hr'.
  { apply Forall_lookup. intros j t Ej. rewrite Forall_lookup in Hr. pose proof (total_nonneg rs Hps).
    destruct (decide (j = m)) as [->|].
    - rewrite list_lookup_alter_eq in Ej. destruct (ts !! m) as [t0|] eqn:E0; [|done]. injection Ej as <-.
      apply (add_process_ok r rs t0 Hp Hps). by eapply Hr.
    - rewrite list_lookup_alter_ne in Ej by done. destruct (Hr _ _ Ej) as (Ht1 & Ht2 & Ht3).
      change (t_turnaround t + (r_turnaround r + total r_turnaround rs) < 2 ^ 31) in Ht3.
      assert (r_turnaround r = r_retime r + r_rutime r + r_stime r) as Er by done.
      destruct Hp as (_ & ? & ? & ?). split_and!; lia. }
  destruct (lookup_lt_is_Some_2 p_types m) as [pt Ept]; [exact Hm|].
  assert (∀ u, ∃ u', sanity_wait (S fuel) ts (wait2_reply r :: (wait2_reply <$> rs) ++ [reply (-1) []]) u =
    sanity_wait fuel (alter f m ts) ((wait2_reply <$> rs) ++ [reply (-1) []]) u') as Hstep.
  { intros u0. eexists. cbn [sanity_wait]. mgo (apply sysdata_ok). cbv beta iota.
    replace (r_pid r >? 0) with true by lia. cbv iota. fold m. rewrite Ept. mgo (reflexivity).
    mgo (by apply println_ok). by mgo (by apply println_ok). }
  destruct (Hstep u) as [u' E]. destruct (IH fuel (alter f m ts) u') as (ts' & calls & E' & Hl' & Hts');
    [done|by rewrite length_alter|done|lia|].
  exists ts', calls. split; [by rewrite <- E'|]. split; [done|]. intros j t Ej.
  unfold add_totals. rewrite !total_cons. destruct (decide (j = m)) as [->|Hne].
  - rewrite !(decide_True _ _ (eq_sym Em)). rewrite (Hts' m (f t)) by (by rewrite list_lookup_alter_eq, Ej).
    destruct (add_process_ok r rs t Hp Hps) as [Ef _]; [by eapply Forall_lookup_1|]. unfold f. rewrite Ef.
    unfold add_totals. cbn [t_stime t_retime t_turnaround]. by rewrite !Z.add_assoc.
  - assert (Z.rem (r_pid r) 3 ≠ Z.of_nat j) as Hj by lia. rewrite !(decide_False _ _ Hj). rewrite (Hts' j t) by (by rewrite list_lookup_alter_ne). by rewrite !Z.add_0_l.
Qed.

(** The lines with the averages of [f], printed last first. *)
Definition average_line (f : report → Z) (n : Z) (rs : list report) (m : nat) : call :=
  CPrint 1 (codes (default "" (p_types !! m)) ++ codes ": " ++
    uprintint (total_of m f rs / (3 * n)) 10 true ++ [10]).

Definition averages (title : string) (f : report → Z) (n : Z) (rs : list report) : list call :=
  rev (CPrint 1 (codes title ++ [10]) :: (average_line f n rs <$> seq 0 3)).

Lemma print_averages_ok title f g n rs ts e u :
  0 < n → 3 * n < 2 ^ 31 → (∀ m, (m < 3)%nat → 0 ≤ total_of m f rs ∧ g <$> ts !! m = Some (total_of m f rs)) →
  printf_loop false (codes title ++ [10]) [] = Some (codes title ++ [10]) →
  print_averages title g n ts e u =
  Ret tt e (User (averages title f n rs ++ u_calls u) (u_ret u) (u_data u)).
Proof.
  intros Hn Hb H Ht. assert (∀ m pt e u, (m < 3)%nat → p_types !! m = Some pt →
    print_average g n ts m e u = Ret tt e (note (average_line f n rs m) u)) as Hline.
  { intros m pt e0 u0 Hm Hpt. destruct (H m Hm) as [Hpos Hg]. unfold print_average.
    destruct (ts !! m) as [t|]; [|done]. injection Hg as Hg. mgo (reflexivity).
    unfold average_line. rewrite Hpt. mgo (reflexivity). rewrite Hg.
    rewrite sint32_small by (unfold is_i32; lia). replace (3 * n =? 0) with false by lia.
    rewrite Z.quot_div_nonneg by lia. apply println_ok.
    destruct m as [|[|[|]]]; try lia; injection Hpt as <-; reflexivity. }
  unfold print_averages. mgo (by apply println_ok).
  do 2 (mgo (by eapply Hline; [lia|done])). by rewrite (Hline _ "IO-Bound"%string) by (done || lia).
Qed.

Lemma start_child_ok argv pid e u :
  0 < pid → start_child argv (reply pid [] :: e) u = Ret tt e (User (CFork :: u_calls u) pid []).
Proof. intros H. unfold start_child. mgo (apply sys_ok). by replace (pid =? 0) with false by lia. Qed.

Lemma start_children argv pids e u :
  Forall (λ pid, 0 < pid) pids →
  ∃ u', times (length pids) (start_child argv) (((λ pid, reply pid []) <$> pids) ++ e) u = Ret tt e u'.
Proof.
  intros H. revert u. induction H as [|pid pids Hp Hps IH]; intros u; [by eexists|].
  cbn [length times fmap list_fmap app]. destruct (IH (User (CFork :: u_calls u) pid [])) as [u' E].
  exists u'. by mgo (by apply start_child_ok).
Qed.

Lemma total_of_nonneg m f rs : (∀ r, r ∈ rs → 0 ≤ f r) → 0 ≤ total_of m f rs.
Proof.
  induction rs as [|r rs IH]; intros H; [done|]. rewrite total_cons.
  assert (0 ≤ total_of m f rs) by (apply IH; intros; apply H; by right).
  assert (0 ≤ f r) by (apply H; by left). case_decide; lia.
Qed.

(** The averages of [sanity].  When [n] processes of each type have been started and [wait2] has
    reported the children [rs], what is printed for a type is the total of the children of
    that type divided by [3 * n], the number of all the processes: a third of the average when
    each type has [n] of them. *)
Theorem sanity_averages name a n pids rs u :
  atoi a = Some n → 0 < n → 3 * n < 2 ^ 31 → Z.of_nat (length pids) = 3 * n →
  Forall (λ pid, 0 < pid) pids → Forall plausible rs → total r_turnaround rs < 2 ^ 31 →
  ∃ calls, sanity [name; a]
      (((λ pid, reply pid []) <$> pids) ++ (wait2_reply <$> rs) ++ [reply (-1) []]) u =
    Panic "exit" (User (averages "Tempo medio de TURNAROUND" r_turnaround n rs ++
      averages "Tempo medio no estado READY" r_retime n rs ++
      averages "Tempo medio no estado SLEEPING" r_stime n rs ++ calls) (-1) []).
Proof.
  intros Ha Hn Hb Hl Hpids Hrs Htot. unfold sanity, arg.
  destruct (start_children [name; a] pids ((wait2_reply <$> rs) ++ [reply (-1) []]) u Hpids) as [u1 E1].
  destruct (sanity_wait_ok rs (S (length ((wait2_reply <$> rs) ++ [reply (-1) []]))) (replicate 3 (Totals 0 0 0)) u1)
    as (ts & calls & E2 & Hlts & Hts); [done|done|..].
  { apply Forall_replicate. split_and!; cbn; lia. }
  { rewrite length_app, length_fmap. cbn. lia. }
  assert (∀ m, (m < 3)%nat → ts !! m = Some (add_totals (Totals 0 0 0) m rs)) as Ht.
  { intros m Hm. apply Hts. by apply lookup_replicate. }
  rewrite Forall_forall in Hrs. exists calls. mgo (reflexivity). rewrite Ha. mgo (reflexivity).
  rewrite sint32_small by (unfold is_i32; lia). rewrite <- Hl, Nat2Z.id. mgo (exact E1). mgo (exact E2).
  assert (∀ f g, (∀ r, plausible r → 0 ≤ f r) → (∀ m, g (add_totals (Totals 0 0 0) m rs) = total_of m f rs) →
    ∀ m, (m < 3)%nat → 0 ≤ total_of m f rs ∧ g <$> ts !! m = Some (total_of m f rs)) as Hg.
  { intros f g Hf Hg m Hm. rewrite Ht by done. split; [|cbn; by rewrite Hg].
    apply total_of_nonneg. intros r Hr. by apply Hf, Hrs. }
  pose proof (Hg r_stime t_stime ltac:(by intros r (_ & _ & _ & ?)) (λ m, eq_refl)) as H1.
  pose proof (Hg r_retime t_retime ltac:(by intros r (_ & ? & _)) (λ m, eq_refl)) as H2.
  pose proof (Hg r_turnaround t_turnaround ltac:(intros r (_ & ? & ? & ?); unfold r_turnaround; lia)
    (λ m, eq_refl)) as H3.
  mgo (by apply (print_averages_ok _ r_stime)). mgo (by apply (print_averages_ok _ r_retime)).
  mgo (by apply (print_averages_ok _ r_turnaround)).
  reflexivity.
Qed.

(** Nine processes that slept six ticks each: the average printed is two. *)
Lemma sanity_averages_witness :
  ∃ calls, sanity [codes "sanity"; codes "3"]
      (((λ pid, reply pid []) <$> [4; 5; 6; 7; 8; 9; 10; 11; 12]) ++
       (wait2_reply <$> ((λ pid, Report pid 3 30 6) <$> [4; 5; 6; 7; 8; 9; 10; 11; 12])) ++ [reply (-1) []])
      (User [] 0 []) = Panic "exit" (User (averages "Tempo medio de TURNAROUND" r_turnaround 3
        ((λ pid, Report pid 3 30 6) <$> [4; 5; 6; 7; 8; 9; 10; 11; 12]) ++ calls) (-1) []) ∧
    average_line r_stime 3 ((λ pid, Report pid 3 30 6) <$> [4; 5; 6; 7; 8; 9; 10; 11; 12]) 0 =
      CPrint 1 (codes "CPU-Bound: 2" ++ [10]).
Proof.
  destruct (sanity_averages (codes "sanity") (codes "3") 3 [4; 5; 6; 7; 8; 9; 10; 11; 12]
    ((λ pid, Report pid 3 30 6) <$> [4; 5; 6; 7; 8; 9; 10; 11; 12]) (User [] 0 [])) as [calls E];
    [reflexivity|lia|done|done|by repeat constructor|by repeat constructor|done|].
  eexists. split; [exact E|reflexivity].
Defined.
